(* ===== verification/_CoqProject ===== *)
-Q . S2P
Prelude.v
Bitset.v
Messages.v
BmState.v
Graph.v
GraphDelivery.v
GraphInv.v
GraphRun.v
GraphProps.v
GraphLocal.v
GraphVotes.v
Lexinum.v
Codec.v
Database.v
BroadcastStore.v
BroadcastStoreProps.v
BroadcastStoreData.v
BroadcastStoreScan.v
BroadcastExample.v
Depgraph.v
DepgraphProps.v
Config.v
Broadcast.v
BroadcastProps.v
BroadcastRun.v
BroadcastSync.v
BroadcastSyncProps.v
BroadcastExchange.v
BroadcastReplay.v
BroadcastSyncRun.v
Topology.v
Conn.v
ConnShared.v
Conns.v
ConnsProps.v
Node.v
Base32.v
Signature.v
SbacStore.v
SbacStoreProps.v
SbacTypes.v
Sbac.v
SbacProps.v
SbacSafety.v
SbacVotes.v
SbacService.v
SbacExample.v
Checker.v
CheckerProps.v
LogFields.v
LogText.v
LogNet.v
LogServer.v
Paths.v
Base64.v
Kv.v
Pubsub.v
PubsubApi.v
SbacApi.v
SbacApiProps.v
Clients.v
Traced.v
Settings.v
Init.v
NodeRun.v
NodeRunProps.v
InitProps.v
InitRun.v
Contracts.v
Registry.v
PubsubDiscovery.v
Coin.v
Deployed.v
GenLoad.v
SbacNew.v
SbacWf.v
Rest.v
HttpTest.v
Commands.v
CommandsProps.v
