(* ===== verification/Prelude.v ===== *)
(** * Chainspace: a verified model of the node

    Chainspace is a sharded ledger.  A node is built from these parts of [src/]:

    - [blockmania]: the consensus inside a shard.  Every node broadcasts blocks
      that refer to the blocks of the others; interpreting this graph as the
      messages of a byzantine agreement yields, round by round, the blocks that
      all nodes of the shard deliver in the same order.
    - [broadcast]: makes the own blocks, checks and stores the blocks of peers,
      waits until everything that a block refers to is known, feeds the graph
      of the consensus and hands the delivered rounds to a callback; goroutines
      send own blocks to the peers and fetch the missing ones.
    - [network], [internal/conns]: which nodes and which objects belong to which
      shard, framed connections, and a pool of connections whose requests are
      repeated until they are acknowledged; [registry] and multicast DNS tell
      the addresses.
    - [sbac]: the two-phase commit of transactions across shards, one state
      machine per transaction, driven by the delivered blocks and by messages
      of other shards, over a store of objects; a client and an HTTP interface.
    - [checker], [contracts]: type check the traces of a transaction, ask the
      contracts, which run in containers, and sign the result; a client collects
      the signatures as evidence.
    - [kv], [pubsub]: labels of objects, and notifications about new objects.
    - [node], [config], [internal/crypto], [cmd/chainspace]: create the files of
      a network, start a node from them, and admit its peers; [rest] serves the
      HTTP interface of a node.
    - [cmd/blockmaniatest], [cmd/httptest2], [cmd/pubsublistener]: load tests and
      a listener for publications.
    - [internal/log]: structured logging to text and over the network.
    - [examples/cs-coin]: a contract for coins.

    ** Files

    Foundations:
    - [Prelude]: machine integers, byte strings, the results of Go functions
      ([go]: a value, an error or a panic), shared lemmas and tactics.
    - [Traced]: computations that record the calls they make of other systems.
    - [Database]: the transactional key-value store and the serialisers, which
      are not code of the program: a finite map, faults as a parameter, and the
      classes [Proto] and [ProtoOk].
    - [Base32], [Base64], [Paths]: what is used of these standard packages.

    Consensus: [Bitset], [Messages], [BmState], [Graph]: [src/blockmania].
    [Graph] has the handlers of the five messages, the delivery of rounds and
    the loop over added blocks; a panic or [log.Fatal] is [None].  The vote maps
    of view changes are addresses in a heap, because [clone] shares them.
    [GraphDelivery], [GraphInv], [GraphRun], [GraphProps], [GraphVotes] and
    [GraphLocal] hold the theory; [GraphLocal] relates two runs of [process] that
    start from states which differ only in rounds that are over.

    Broadcast:
    - [Lexinum], [Codec]: [src/internal/lexinum] and the keys and values of
      [src/broadcast/store.go].
    - [BroadcastStore], with [BroadcastStoreProps], [BroadcastStoreData],
      [BroadcastStoreScan] and [BroadcastExample]: [store.go].
    - [Depgraph], [DepgraphProps]: [depgraph.go] and [cache.go].
    - [Broadcast], [BroadcastProps], [BroadcastRun]: [broadcast.go] and [ext.go].
    - [BroadcastSync], with [BroadcastSyncProps], [BroadcastExchange],
      [BroadcastReplay] and [BroadcastSyncRun]: the goroutines that talk to the
      peers, restart and [replay.go].

    Network and node:
    - [Topology]: [src/network/network.go], behind the class [NetTopology] with
      the contract [NetTopologyOk] that the other components are proved against.
    - [Conn]: [src/network/conn.go], the framing of messages; [ConnShared]: a
      reader and a writer that share the buffer of a connection, step by step.
    - [Conns], [ConnsProps]: [src/internal/conns], as an interleaving of atomic
      actions of callers, readers and the goroutine that retries.
    - [Node]: hello messages and connections in [src/node/node.go];
      [NodeRun], [NodeRunProps]: its function [Run].
    - [Registry]: [src/registry], [src/node/announce.go] and the discovery of
      [src/network].
    - [Config], [Settings]: [src/config]; [Signature]:
      [src/internal/crypto/signature]; [Init], [InitProps], [InitRun]: the
      command that creates a network, and [src/internal/crypto/transport].

    Transactions:
    - [SbacStore], [SbacStoreProps]: [src/sbac/store.go], behind the class
      [Store] with the contract [StoreOk].
    - [SbacTypes], [Sbac], [SbacService], [SbacNew], with [SbacProps],
      [SbacSafety], [SbacVotes], [SbacWf] and [SbacExample]: the other files of
      [src/sbac], [SbacNew] with the constructor of [src/checker].  A handler
      is a computation over the [World] of the service that returns, returns an
      error with its effects kept, panics or diverges; what it sends,
      broadcasts and publishes is a trace of calls.
    - [Checker], [CheckerProps]: [src/checker]; [Contracts]: [src/contracts].
    - [SbacApi], [SbacApiProps]: [src/sbac/api]; [Clients]: [src/sbac/client] and
      [src/checker/client].
    - [Coin]: [src/examples/cs-coin]; [Deployed]: [src/dummycontract], and both
      contracts as an initialised network runs them.

    Others:
    - [Kv]: [src/kv].  [Pubsub], [PubsubApi], [PubsubDiscovery]: [src/pubsub] and
      [src/cmd/pubsublistener].
    - [Rest]: the HTTP controllers of [src/kv/api], [src/sbac/api],
      [src/checker/api] and [src/pubsub/api], and [src/rest].
    - [Commands], [CommandsProps]: the other commands of [src/cmd/chainspace],
      as the calls they make, and the start of [src/cmd/blockmaniatest].
    - [GenLoad]: the generators and counters of [genload.go] and of
      [src/cmd/blockmaniatest]; [HttpTest]: [src/cmd/httptest2], as an
      interleaving of workers and the subscriber, with the test runner that starts
      the workers round by round and reads their addresses from a cloud project.
    - [LogFields], [LogText], [LogNet], [LogServer]: [src/internal/log].

    ** What is proved

    - Consensus: all block states agree on final hashes, which have a quorum of
      commit votes; rounds are delivered in order; when the blocks are of members
      of the shard the voters are members too, and two nodes that finalise share
      f+1 of them; along a chain of blocks a node prepares once per view, and it
      commits with exactly 2f+1 prepares; the messages of one node and round do not touch the
      votes of the others, so that what [clone] forgets of finished rounds changes
      nothing in the open ones; all loops terminate; the bitsets implement finite
      sets.
    - Broadcast: encodings round trip and keys sort as numbers; every write of
      the store is read back and the marks of included blocks stay consistent
      under all writers and faults; blocks are included once, after everything
      they refer to, and none is forgotten; received blocks are checked as
      documented; rounds reach the callback in order and once; an exchange with
      a peer advances the mark of sent rounds; however a peer answers, its rounds
      up to the sequence number are stored or still asked for; a restart restores
      the state, and which stored blocks a replay adds, one of them twice in the
      case that [replayed] describes.
    - Network and node: the shards partition the nodes; messages are read as
      they were written, however the network fragments them, also when a reader and
      a writer share the buffer, if they keep out of each other's time in it;
      requests of the
      pool are neither lost nor answered twice in any interleaving; how a
      connection is served; discovery through a registry, which one negative
      identifier blocks, and that discovered nodes are dialed at the last address that was told of them;
      the files of an initialised network load, its nodes start and admit each
      other; a failed start is cancelled.
    - Transactions: the store moves objects between statuses exactly when it
      may, commits in one step, and spends no object twice unless a creation
      cannot read the keys of the object; a machine that succeeds has spent its
      inputs and created its outputs; the loops of the state machine return,
      except when the creation of outputs fails on the committing side; the
      votes of other shards have the outcome stated in [votes_spec]; aborting
      releases the locks of the inputs, those of other transactions included;
      what passes the type check and the contracts, which contract decides, and
      what the contracts of an initialised network accept; how posted transactions
      are translated and how a request to check one is answered; when there is evidence from all checkers; the service stays well
      formed whatever it is asked and however its queues are served.
    - Commands: what [init] has written the other commands start; a command that
      fails ends its process; what the load generators measure; what the
      inspecting commands print and write.
    - Others: the labels of a finished transaction are answered by the HTTP
      interface with its last output that carries them; all websockets get pieces
      of one order of publications, and subscribers find the publishers; the text and network formats of the log
      are read back.
    - Deviations from what the code means to do are lemmas beside the theorems,
      for instance [prepare_overshoot_never_commits], [commit_retry_diverges],
      [fill_partial_skips], [hello_accepted_and_replayed],
      [failed_reads_resurrect], [negative_id_blocks_discovery],
      [dependency_shard_refuses], [failed_websocket_blocks_all],
      [built_transactions_not_accepted], [restart_after_transactions_panics],
      [rest_uses_only_clients], [load_test_deadlocks], [header_is_overwritten] and
      [idle_connection_closes].

    ** Conventions, bounds and fuel

    Integers are [Z] with the wrap-around of their width written out ([u64],
    [u32], ...).  Maps are finite maps; where Go iterates over a map the model
    uses the order of the elements and the theorems do not depend on it.
    Loops that are not structural take fuel.  Running out of it is a visible
    result ([None], [Crash] or [Diverged]) or is excluded by the amount: the
    theorems named [_terminates], [inclusion_progress], [shards_partition],
    [replay_complete] and [connection_served] show that the fuel the definitions
    use is enough.  [applyTransition] gets 18 steps, more than the state table
    has ranks; [moveState] 12.

    ** What is not modelled

    Sockets, TLS, timers, serialisation, JSON, YAML, HTTP, Docker and
    cryptography are parameters or inputs, with what is documented of them as
    hypotheses.  A goroutine is a step function and a critical section is
    atomic; a call on a connection of [Conn] runs as a whole, and [ConnShared] shows
    when that is so and what happens otherwise.  The slices of timeouts of
    two block states that are cloned from the same one are values, so a write
    through spare capacity of a shared array is not seen; the same holds for
    values returned by the database.  The parsing of flags, the calls that
    list machines at a compute service (their pages are inputs), the generated code of protocol buffers, mocks
    and documentation, and the certificates of authorities are not modelled.

    This file: the shared foundations. *)
From Stdlib Require Import ZArith Lia.
From stdpp Require Export base numbers strings pretty sorting gmap list.
#[global] Open Scope Z_scope.

(** * Go's machine integers and byte strings *)

Abbreviation uint64 := Z (only parsing).
Abbreviation uint32 := Z (only parsing).
Abbreviation goint := Z (only parsing).
(** Go strings and byte slices are both sequences of bytes. *)
Abbreviation bytes := (list Z) (only parsing).

(** Arithmetic of Go's fixed width unsigned integers wraps around. *)
Definition wrap (w x : Z) : Z := x mod 2 ^ w.
Abbreviation u64 := (wrap 64).
Abbreviation u32 := (wrap 32).
Abbreviation u16 := (wrap 16).
Abbreviation u8 := (wrap 8).

Definition in_width (w x : Z) : Prop := 0 <= x < 2 ^ w.
Abbreviation is_u64 := (in_width 64).
Abbreviation is_u32 := (in_width 32).
Abbreviation is_byte := (in_width 8).

(** * Hint databases and tactics *)
Create HintDb chain discriminated.

(** Case analysis on every [match] of the goal and the context, closing the
    contradictory branches. *)
Ltac go_cases :=
  repeat (case_match || case_decide || case_bool_decide);
  simplify_eq/=.
(** Inversion of a computation of the option monad that returned. *)
Ltac opt_inv :=
  repeat match goal with
  | H : mbind _ _ = Some _ |- _ => apply bind_Some in H as (? & ? & ?)
  | H : Some _ = Some _ |- _ => injection H as H
  end; simplify_eq/=.

(** [int(x)] on an unsigned 64-bit value. *)
Definition to_int (x : uint64) : goint := if decide (x < 2 ^ 63) then x else x - 2 ^ 64.

Lemma to_int_small x : 0 <= x < 2 ^ 63 -> to_int x = x.
Proof. intros [??]. unfold to_int. by rewrite decide_True. Qed.

(** * Results of Go functions

    A call returns values, returns a non-nil error, or ends the process with a
    panic or a [log.Fatal].  Error values are their format strings. *)
Inductive go (A : Type) : Type :=
  | Ret (x : A)
  | Fail (e : string)
  | Crash.
Arguments Ret {A} _.
Arguments Fail {A} _.
Arguments Crash {A}.

#[export] Instance go_ret : MRet go := fun A x => Ret x.
#[export] Instance go_bind : MBind go := fun A B f m =>
  match m with Ret x => f x | Fail e => Fail e | Crash => Crash end.

Lemma go_bind_Ret {A B} (f : A -> go B) m y :
  m ≫= f = Ret y <-> exists x, m = Ret x /\ f x = Ret y.
Proof. destruct m; simpl; [|naive_solver..]. split; [eauto|]. by intros (? & [= <-] & ?). Qed.

(** A lookup whose absence is a panic. *)
Definition or_crash {A} (m : option A) : go A :=
  match m with Some x => Ret x | None => Crash end.

Definition guard_fail (b : bool) (e : string) : go () := if b then Ret tt else Fail e.

Lemma wrap_small w x : in_width w x -> wrap w x = x.
Proof. intros [??]. by apply Z.mod_small. Qed.

(** Removes the wrap-arounds that linear arithmetic shows to be idle, from the
    inside out. *)
Ltac unwrap :=
  repeat match goal with
  | |- context [wrap ?w ?x] =>
      lazymatch x with
      | context [wrap _ _] => fail
      | _ => rewrite (wrap_small w x) by (split; lia)
      end
  end.

Lemma u64_mul_l a b : u64 (u64 a * b) = u64 (a * b).
Proof. apply Zmult_mod_idemp_l. Qed.
Lemma u64_mul_r a b : u64 (a * u64 b) = u64 (a * b).
Proof. apply Zmult_mod_idemp_r. Qed.
Lemma u64_add_l a b : u64 (u64 a + b) = u64 (a + b).
Proof. apply Zplus_mod_idemp_l. Qed.
Lemma u64_add_r a b : u64 (a + u64 b) = u64 (a + b).
Proof. apply Zplus_mod_idemp_r. Qed.
Lemma wrap_in_width w x : 0 <= w -> in_width w (wrap w x).
Proof. intros ?. apply Z.mod_pos_bound. lia. Qed.
#[export] Hint Resolve wrap_in_width : chain.

(** * Lists *)

Lemma filter_ext_elem {A} (P Q : A -> Prop) `{!∀ x, Decision (P x), !∀ x, Decision (Q x)} (l : list A) :
  (forall x, x ∈ l -> P x <-> Q x) -> filter P l = filter Q l.
Proof.
  induction l as [|x l IH]; intros Hpq; [done|].
  rewrite !filter_cons.
  assert (filter P l = filter Q l) as -> by (apply IH; intros; apply Hpq; by constructor).
  pose proof (Hpq x ltac:(constructor)). repeat case_decide; tauto.
Qed.

Lemma length_filter_fmap {A B} (f : A -> B) (P : B -> Prop) `{!∀ x, Decision (P x)} (l : list A) :
  length (filter P (f <$> l)) = length (filter (fun x => P (f x)) l).
Proof.
  induction l as [|x l IH]; [done|]. csimpl. rewrite !filter_cons.
  case_decide; simpl; congruence.
Qed.

(** * Strings as bytes, and the formatting verbs the code uses *)

Definition str (s : string) : bytes :=
  (fun a => Z.of_N (Ascii.N_of_ascii a)) <$> String.list_ascii_of_string s.

(** [%d] on an unsigned integer, and [strconv.AppendUint] in base 10. *)
Definition fmt_d (x : Z) : bytes := str (pretty (Z.to_N x)).

Definition hexUpper : bytes := str "0123456789ABCDEF".

(** One byte as two upper case hexadecimal digits. *)
Definition hex_byte (c : Z) : bytes :=
  [nth (Z.to_nat (Z.shiftr c 4)) hexUpper 0; nth (Z.to_nat (Z.land c 15)) hexUpper 0].

(** [%X] on a string. *)
Definition fmt_X (v : bytes) : bytes := v ≫= hex_byte.

(** [v[lo:hi]], [None] being the slice bounds out of range panic. *)
Definition slice {A} (v : list A) (lo hi : nat) : option (list A) :=
  if decide (lo <= hi /\ hi <= length v)%nat
  then Some (take (hi - lo) (drop lo v)) else None.

(** * Byte strings in lexicographic order, as [<] on Go strings and
      [bytes.Compare] *)

Fixpoint bytes_cmp (x y : bytes) : comparison :=
  match x, y with
  | [], [] => Eq
  | [], _ :: _ => Lt
  | _ :: _, [] => Gt
  | a :: x, b :: y => match Z.compare a b with Eq => bytes_cmp x y | c => c end
  end.

Definition bytes_lt (x y : bytes) : Prop := bytes_cmp x y = Lt.
Definition bytes_le (x y : bytes) : Prop := bytes_cmp x y <> Gt.
#[export] Instance bytes_lt_dec x y : Decision (bytes_lt x y).
Proof. unfold bytes_lt. apply _. Defined.
#[export] Instance bytes_le_dec x y : Decision (bytes_le x y).
Proof. unfold bytes_le. apply _. Defined.

Lemma bytes_cmp_antisym x y : bytes_cmp y x = CompOpp (bytes_cmp x y).
Proof.
  revert y. induction x as [|a x IH]; intros [|b y]; try done; simpl.
  rewrite (Z.compare_antisym a b). destruct (a ?= b); simpl; auto.
Qed.

Lemma bytes_cmp_cons_lt a b x y : a < b -> bytes_cmp (a :: x) (b :: y) = Lt.
Proof. intros ?. cbn [bytes_cmp]. by rewrite (proj2 (Z.compare_lt_iff a b)). Qed.

Lemma bytes_cmp_eq x y : bytes_cmp x y = Eq <-> x = y.
Proof.
  revert y. induction x as [|a x IH]; intros [|b y]; try done; simpl.
  destruct (Z.compare_spec a b) as [->| |]; [rewrite IH|..]; split; try congruence.
  all: intros [= ? ?]; lia.
Qed.

Lemma bytes_cmp_trans x y z c :
  bytes_cmp x y = c -> bytes_cmp y z = c -> bytes_cmp x z = c.
Proof.
  revert y z. induction x as [|a x IH]; intros [|b y] [|d z]; simpl; try congruence.
  destruct (Z.compare_spec a b), (Z.compare_spec b d), (Z.compare_spec a d);
    intros; subst; try congruence; try lia; eauto.
Qed.

#[export] Instance bytes_le_total : Total bytes_le.
Proof.
  intros x y. unfold bytes_le. rewrite (bytes_cmp_antisym x y).
  destruct (bytes_cmp x y); simpl; auto.
Qed.
#[export] Instance bytes_le_trans : Transitive bytes_le.
Proof.
  intros x y z. unfold bytes_le. intros Hxy Hyz.
  destruct (bytes_cmp x y) eqn:E1; [apply bytes_cmp_eq in E1; by subst| |done].
  destruct (bytes_cmp y z) eqn:E2; [apply bytes_cmp_eq in E2; subst; congruence| |done].
  by rewrite (bytes_cmp_trans _ _ _ Lt E1 E2).
Qed.
#[export] Instance bytes_le_antisym : AntiSymm (=) bytes_le.
Proof.
  intros x y. unfold bytes_le. rewrite (bytes_cmp_antisym x y).
  destruct (bytes_cmp x y) eqn:E; simpl; try congruence. by apply bytes_cmp_eq in E.
Qed.
