(* ===== verification/Bitset.v ===== *)
(** * Bitset: the prepare and commit votes of a pre-prepare

    Model of [src/blockmania/bitset.go]. *)
From S2P Require Import Prelude.

(** [math/bits.OnesCount64]: the number of one bits of a 64-bit word. *)
Definition OnesCount64 (w : uint64) : goint :=
  Z.of_nat (length (filter (fun i => Z.testbit w i = true) (seqZ 0 64))).

Record bitset := Bitset { commits : list uint64; prepares : list uint64 }.

Definition clone (b : bitset) : bitset :=
  Bitset (commits b) (prepares b).

(** The loop shared by [commitCount] and [prepareCount]. *)
Definition count (ws : list uint64) : goint :=
  foldl (fun c word => c + OnesCount64 word) 0 ws.

Definition commitCount (b : bitset) : goint := count (commits b).
Definition prepareCount (b : bitset) : goint := count (prepares b).

(** [ws[int(v>>6)] & (1<<(v&63)) != 0]; [None] is the index out of range panic. *)
Definition word_has (ws : list uint64) (v : uint64) : option bool :=
  word ← ws !! Z.to_nat (Z.shiftr v 6);
  Some (negb (Z.land word (Z.shiftl 1 (Z.land v 63)) =? 0)).

Definition hasCommit (b : bitset) (v : uint64) : option bool := word_has (commits b) v.
Definition hasPrepare (b : bitset) (v : uint64) : option bool := word_has (prepares b) v.

(** [ws[int(v>>6)] |= 1<<(v&63)]. *)
Definition word_set (ws : list uint64) (v : uint64) : option (list uint64) :=
  word ← ws !! Z.to_nat (Z.shiftr v 6);
  Some (<[Z.to_nat (Z.shiftr v 6) := Z.lor word (Z.shiftl 1 (Z.land v 63))]> ws).

Definition setCommit (b : bitset) (v : uint64) : option bitset :=
  ws ← word_set (commits b) v; Some (Bitset ws (prepares b)).
Definition setPrepare (b : bitset) (v : uint64) : option bitset :=
  ws ← word_set (prepares b) v; Some (Bitset (commits b) ws).

Definition newBitset (size : goint) : bitset :=
  let words := Z.to_nat (Z.shiftr (size + 63) 6) in
  Bitset (replicate words 0) (replicate words 0).

(** ** The set of voters a word list stands for *)

Definition member (ws : list uint64) (v : Z) : Prop := word_has ws v = Some true.
#[export] Instance member_dec ws v : Decision (member ws v).
Proof. unfold member. apply _. Defined.

(** Every node ID that the word list has a bit for. *)
Definition slots (ws : list uint64) : list Z := seqZ 0 (64 * Z.of_nat (length ws)).

Definition voters (ws : list uint64) : gset Z :=
  list_to_set (filter (member ws) (slots ws)).

Definition words_ok (ws : list uint64) : Prop := Forall is_u64 ws.

(** The slot [v] is bit [v mod 64] of word [v / 64]. *)
Lemma slot_split v : 0 <= v ->
  Z.shiftr v 6 = v `div` 64 /\ Z.land v 63 = v `mod` 64.
Proof.
  intros ?. rewrite Z.shiftr_div_pow2 by lia.
  split; [done|]. change 63 with (Z.ones 6). by rewrite Z.land_ones by lia.
Qed.

Lemma land_bit w i : 0 <= i ->
  negb (Z.land w (Z.shiftl 1 i) =? 0) = Z.testbit w i.
Proof.
  intros ?. rewrite Z.shiftl_1_l.
  destruct (Z.testbit w i) eqn:E.
  - apply negb_true_iff, Z.eqb_neq. intros Hz.
    assert (Z.testbit (Z.land w (2 ^ i)) i = true) as Ht.
    { by rewrite Z.land_spec, E, Z.pow2_bits_true by lia. }
    by rewrite Hz, Z.testbit_0_l in Ht.
  - apply negb_false_iff, Z.eqb_eq, Z.bits_inj_0. intros j.
    rewrite Z.land_spec. destruct (decide (j = i)) as [->|].
    + by rewrite E.
    + rewrite Z.pow2_bits_false by lia. apply andb_false_r.
Qed.

Lemma word_has_spec (ws : list uint64) v : 0 <= v ->
  word_has ws v = (fun w => Z.testbit w (v `mod` 64)) <$> ws !! Z.to_nat (v `div` 64).
Proof.
  intros Hv. unfold word_has. destruct (slot_split v Hv) as [-> ->].
  destruct (ws !! _); simpl; [|done].
  by rewrite land_bit by (apply Z.mod_pos_bound; lia).
Qed.

Lemma word_set_spec (ws : list uint64) v : 0 <= v ->
  word_set ws v =
    (fun w => <[Z.to_nat (v `div` 64) := Z.lor w (2 ^ (v `mod` 64))]> ws)
      <$> ws !! Z.to_nat (v `div` 64).
Proof.
  intros Hv. unfold word_set. destruct (slot_split v Hv) as [-> ->].
  rewrite Z.shiftl_1_l. by destruct (ws !! _).
Qed.

Lemma slot_in_range (ws : list uint64) v : 0 <= v ->
  is_Some (ws !! Z.to_nat (v `div` 64)) <-> v < 64 * Z.of_nat (length ws).
Proof.
  intros ?. rewrite lookup_lt_is_Some.
  assert (0 <= v `div` 64) by (apply Z.div_pos; lia).
  split; intros.
  - assert (v `div` 64 < Z.of_nat (length ws)) by lia.
    pose proof (Z.mul_succ_div_gt v 64). lia.
  - assert (v `div` 64 < Z.of_nat (length ws)) by (apply Z.div_lt_upper_bound; lia). lia.
Qed.

Lemma elem_of_voters ws v : 0 <= v -> v ∈ voters ws <-> member ws v.
Proof.
  intros Hv. unfold voters, slots.
  rewrite elem_of_list_to_set, list_elem_of_filter, elem_of_seqZ.
  split; [tauto|]. intros Hm. split; [done|].
  unfold member in Hm. rewrite word_has_spec in Hm by done.
  destruct (ws !! _) eqn:E; [|done].
  split; [lia|]. rewrite Z.add_0_l. apply slot_in_range; eauto.
Qed.

Lemma voters_nonneg ws v : v ∈ voters ws -> 0 <= v < 64 * Z.of_nat (length ws).
Proof.
  unfold voters, slots.
  rewrite elem_of_list_to_set, list_elem_of_filter, elem_of_seqZ. lia.
Qed.

(** ** Counting

    The loop over [OnesCount64] computes the number of distinct voters. *)

Lemma count_snoc ws w : count (ws ++ [w]) = count ws + OnesCount64 w.
Proof. unfold count. by rewrite foldl_app. Qed.

Lemma slots_snoc ws w :
  slots (ws ++ [w]) =
  slots ws ++ (Z.add (64 * Z.of_nat (length ws)) <$> seqZ 0 64).
Proof.
  unfold slots. rewrite length_app. change (length [w]) with 1%nat.
  replace (64 * Z.of_nat (length ws + 1)) with (64 * Z.of_nat (length ws) + 64) by lia.
  rewrite seqZ_app by lia. rewrite fmap_add_seqZ. by rewrite Z.add_0_l, Z.add_0_r.
Qed.

Lemma member_snoc_old ws w v :
  0 <= v < 64 * Z.of_nat (length ws) -> member (ws ++ [w]) v <-> member ws v.
Proof.
  intros [Hv Hlt]. unfold member. rewrite !word_has_spec by done.
  apply (slot_in_range ws) in Hlt; [|done]. destruct Hlt as [x Hx].
  rewrite lookup_app_l by (eapply lookup_lt_Some, Hx). done.
Qed.

Lemma member_snoc_new ws w i : 0 <= i < 64 ->
  member (ws ++ [w]) (64 * Z.of_nat (length ws) + i) <-> Z.testbit w i = true.
Proof.
  intros Hi. unfold member. rewrite word_has_spec by lia.
  rewrite (Z.mul_comm 64), Z.div_add_l, (Z.div_small i 64), Z.add_0_r, Nat2Z.id by lia.
  rewrite Z.add_comm, Z_mod_plus_full, Z.mod_small by lia.
  rewrite lookup_app_r, Nat.sub_diag by lia. simpl. split; congruence.
Qed.

Lemma count_slots ws : count ws = Z.of_nat (length (filter (member ws) (slots ws))).
Proof.
  induction ws as [|w ws IH] using rev_ind; [done|].
  rewrite count_snoc, slots_snoc, filter_app, length_app, Nat2Z.inj_add, IH.
  f_equal.
  - do 2 f_equal. apply filter_ext_elem. intros v Hv. unfold slots in Hv.
    apply elem_of_seqZ in Hv. rewrite member_snoc_old by lia. done.
  - unfold OnesCount64. rewrite length_filter_fmap. do 2 f_equal.
    apply filter_ext_elem. intros i Hi. apply elem_of_seqZ in Hi.
    rewrite member_snoc_new by lia. done.
Qed.

Lemma count_voters ws : count ws = Z.of_nat (size (voters ws)).
Proof.
  rewrite count_slots. unfold voters.
  rewrite size_list_to_set; [done|]. apply NoDup_filter, NoDup_seqZ.
Qed.

(** ** Effect of the operations on the set of voters *)

Lemma lor_pow2_bit w i j : 0 <= i -> 0 <= j ->
  Z.testbit (Z.lor w (2 ^ i)) j = bool_decide (i = j) || Z.testbit w j.
Proof.
  intros ??. rewrite Z.lor_spec, Z.pow2_bits_eqb by done.
  rewrite orb_comm. f_equal. case_bool_decide; [subst; apply Z.eqb_refl|by apply Z.eqb_neq].
Qed.

Lemma div_mod_inj a b : a `div` 64 = b `div` 64 -> a `mod` 64 = b `mod` 64 -> a = b.
Proof. intros Hd Hm. rewrite (Z.div_mod a 64), (Z.div_mod b 64) by lia. congruence. Qed.

Lemma length_word_set ws v ws' : word_set ws v = Some ws' -> length ws' = length ws.
Proof. unfold word_set. intros ?. opt_inv. by rewrite length_insert. Qed.

Lemma member_word_set ws v ws' u : 0 <= v -> 0 <= u ->
  word_set ws v = Some ws' -> member ws' u <-> u = v \/ member ws u.
Proof.
  intros Hv Hu Hs. rewrite word_set_spec in Hs by done.
  apply fmap_Some in Hs as (w & Hw & ->).
  unfold member. rewrite !word_has_spec by done.
  assert (0 <= v `div` 64 /\ 0 <= u `div` 64) as [??] by (split; apply Z.div_pos; lia).
  assert (0 <= v `mod` 64 /\ 0 <= u `mod` 64) as [??] by (split; apply Z.mod_pos_bound; lia).
  destruct (decide (u `div` 64 = v `div` 64)) as [Hd|Hd].
  - rewrite Hd, Hw, list_lookup_insert_eq by (eapply lookup_lt_Some, Hw). simpl.
    rewrite lor_pow2_bit by done. case_bool_decide as Hm; simpl.
    + split; [|done]. intros _. left. by apply div_mod_inj.
    + split; [tauto|]. intros [->|?]; done.
  - rewrite list_lookup_insert_ne by lia. split; [tauto|]. intros [->|?]; done.
Qed.

Lemma voters_word_set ws v ws' : 0 <= v ->
  word_set ws v = Some ws' -> voters ws' = {[v]} ∪ voters ws.
Proof.
  intros Hv Hs. apply set_eq. intros u. rewrite elem_of_union, elem_of_singleton.
  destruct (decide (0 <= u)).
  - rewrite !elem_of_voters by done. by eapply member_word_set.
  - split; [intros Hm|intros [->|Hm]]; [|lia|]; apply voters_nonneg in Hm; lia.
Qed.

Lemma word_set_is_Some ws v : 0 <= v ->
  is_Some (word_set ws v) <-> v < 64 * Z.of_nat (length ws).
Proof. intros ?. rewrite word_set_spec, fmap_is_Some by done. by apply slot_in_range. Qed.

Lemma word_has_voters ws v : 0 <= v < 64 * Z.of_nat (length ws) ->
  word_has ws v = Some (bool_decide (v ∈ voters ws)).
Proof.
  intros [Hv Hlt]. pose proof Hlt as [w Hw]%slot_in_range; [|done].
  case_bool_decide as Hm; rewrite elem_of_voters in Hm by done; [done|].
  unfold member in Hm. rewrite word_has_spec, Hw in * by done. simpl in *.
  by destruct (Z.testbit _ _).
Qed.

Lemma words_ok_set ws v ws' : 0 <= v -> words_ok ws -> word_set ws v = Some ws' -> words_ok ws'.
Proof.
  intros Hv Hok Hs. rewrite word_set_spec in Hs by done.
  apply fmap_Some in Hs as (w & Hw & ->).
  apply Forall_insert; [done|]. eapply Forall_lookup_1 in Hok as [??]; [|done].
  pose proof (Z.mod_pos_bound v 64 ltac:(lia)) as [??].
  assert (0 <= Z.lor w (2 ^ (v `mod` 64))) by (apply Z.lor_nonneg; lia).
  split; [done|]. apply Z.log2_lt_cancel. rewrite Z.log2_lor by lia.
  rewrite Z.log2_pow2 by lia. change (Z.log2 (2 ^ 64)) with 64.
  apply Z.max_lub_lt; [|lia]. destruct (decide (w = 0)) as [->|]; [done|].
  apply Z.log2_lt_pow2; lia.
Qed.

(** [newBitset size] has room for the node IDs below [size] rounded up to a
    multiple of 64, and nobody has voted. *)
Lemma replicate_zero_voters n : voters (replicate n 0) = ∅.
Proof.
  apply set_eq. intros u. rewrite elem_of_empty. split; [|done]. intros Hu.
  pose proof (voters_nonneg _ _ Hu) as [? _]. rewrite elem_of_voters in Hu by done.
  unfold member in Hu. rewrite word_has_spec in Hu by done.
  destruct (replicate n 0 !! _) eqn:E; [|done].
  apply lookup_replicate in E as [-> _]. simpl in Hu. by rewrite Z.testbit_0_l in Hu.
Qed.

Definition capacity (size : Z) : Z := 64 * Z.shiftr (size + 63) 6.

Lemma capacity_bounds size : 0 <= size -> size <= capacity size < size + 64.
Proof.
  intros ?. unfold capacity. rewrite Z.shiftr_div_pow2 by lia. change (2 ^ 6) with 64.
  pose proof (Z.div_mod (size + 63) 64 ltac:(lia)).
  pose proof (Z.mod_pos_bound (size + 63) 64 ltac:(lia)). lia.
Qed.

Lemma length_newBitset size : 0 <= size ->
  64 * Z.of_nat (length (commits (newBitset size))) = capacity size /\
  64 * Z.of_nat (length (prepares (newBitset size))) = capacity size.
Proof.
  intros ?. simpl. rewrite length_replicate. unfold capacity.
  assert (0 <= Z.shiftr (size + 63) 6) by (apply Z.shiftr_nonneg; lia). lia.
Qed.

Definition commit_set (b : bitset) : gset Z := voters (commits b).
Definition prepare_set (b : bitset) : gset Z := voters (prepares b).

(** A bitset with room for the votes of the nodes below [cap]. *)
Definition bitset_ok (cap : Z) (b : bitset) : Prop :=
  64 * Z.of_nat (length (commits b)) = cap /\ words_ok (commits b) /\
  64 * Z.of_nat (length (prepares b)) = cap /\ words_ok (prepares b).

Lemma newBitset_ok size : 0 <= size -> bitset_ok (capacity size) (newBitset size).
Proof.
  intros ?. destruct (length_newBitset size) as [??]; [done|].
  repeat split; try done; apply Forall_replicate; by split.
Qed.

Lemma newBitset_sets size :
  commit_set (newBitset size) = ∅ /\ prepare_set (newBitset size) = ∅.
Proof. split; apply replicate_zero_voters. Qed.

Lemma setCommit_Some cap b v b' : bitset_ok cap b -> 0 <= v -> setCommit b v = Some b' ->
  bitset_ok cap b' /\ v < cap /\
  commit_set b' = {[v]} ∪ commit_set b /\ prepare_set b' = prepare_set b.
Proof.
  intros (Hc & Hwc & Hp & Hwp) Hv Hs. unfold setCommit in Hs.
  apply bind_Some in Hs as (ws' & H & [= <-]).
  pose proof (length_word_set _ _ _ H) as Hl.
  assert (v < cap) by (rewrite <-Hc; apply (word_set_is_Some (commits b)); eauto).
  unfold bitset_ok, commit_set, prepare_set; simpl. rewrite Hl.
  split_and!; eauto using words_ok_set, voters_word_set.
Qed.

Lemma setPrepare_Some cap b v b' : bitset_ok cap b -> 0 <= v -> setPrepare b v = Some b' ->
  bitset_ok cap b' /\ v < cap /\
  prepare_set b' = {[v]} ∪ prepare_set b /\ commit_set b' = commit_set b.
Proof.
  intros (Hc & Hwc & Hp & Hwp) Hv Hs. unfold setPrepare in Hs.
  apply bind_Some in Hs as (ws' & H & [= <-]).
  pose proof (length_word_set _ _ _ H) as Hl.
  assert (v < cap) by (rewrite <-Hp; apply (word_set_is_Some (prepares b)); eauto).
  unfold bitset_ok, commit_set, prepare_set; simpl. rewrite Hl.
  split_and!; eauto using words_ok_set, voters_word_set.
Qed.

Lemma setCommit_is_Some cap b v : bitset_ok cap b -> 0 <= v < cap -> is_Some (setCommit b v).
Proof.
  intros (<- & _) [??]. unfold setCommit.
  destruct (proj2 (word_set_is_Some (commits b) v ltac:(done)) ltac:(done)) as [? ->]. eauto.
Qed.

Lemma setPrepare_is_Some cap b v : bitset_ok cap b -> 0 <= v < cap -> is_Some (setPrepare b v).
Proof.
  intros (_ & _ & <- & _) [??]. unfold setPrepare.
  destruct (proj2 (word_set_is_Some (prepares b) v ltac:(done)) ltac:(done)) as [? ->]. eauto.
Qed.

Lemma commitCount_size b : commitCount b = Z.of_nat (size (commit_set b)).
Proof. apply count_voters. Qed.
Lemma prepareCount_size b : prepareCount b = Z.of_nat (size (prepare_set b)).
Proof. apply count_voters. Qed.
#[export] Hint Resolve newBitset_ok : chain.

(** Setting an already set bit changes nothing, setting a new one adds one. *)
Lemma size_vote (v : Z) (X : gset Z) :
  Z.of_nat (size ({[v]} ∪ X)) = Z.of_nat (size X) + (if decide (v ∈ X) then 0 else 1).
Proof.
  destruct (decide (v ∈ X)) as [Hin|Hnin].
  - rewrite (subseteq_union_1_L {[v]} X) by (by apply singleton_subseteq_l). lia.
  - rewrite size_union by (by apply disjoint_singleton_l). rewrite size_singleton. lia.
Qed.

(** ** Refinement of finite sets *)

(** C20. A bitset is a pair of finite sets of node IDs: adding a vote below the
    capacity adds the node to the one set and leaves the other, has the
    documented effect on the count, and the membership tests answer for the
    sets; a vote at or above the capacity is an index out of range panic. *)
Theorem bitset_refines_sets size b v :
  0 <= v -> bitset_ok (capacity size) b ->
  (v < capacity size ->
     hasPrepare b v = Some (bool_decide (v ∈ prepare_set b)) /\
     hasCommit b v = Some (bool_decide (v ∈ commit_set b)) /\
     (exists b', setPrepare b v = Some b' /\ bitset_ok (capacity size) b' /\
        prepare_set b' = {[v]} ∪ prepare_set b /\ commit_set b' = commit_set b /\
        prepareCount b' = prepareCount b + (if decide (v ∈ prepare_set b) then 0 else 1)) /\
     (exists b', setCommit b v = Some b' /\ bitset_ok (capacity size) b' /\
        commit_set b' = {[v]} ∪ commit_set b /\ prepare_set b' = prepare_set b /\
        commitCount b' = commitCount b + (if decide (v ∈ commit_set b) then 0 else 1))) /\
  (capacity size <= v ->
     hasPrepare b v = None /\ hasCommit b v = None /\
     setPrepare b v = None /\ setCommit b v = None).
Proof.
  intros Hv Hb. split; intros Hcap.
  - split_and!.
    + destruct Hb as (_ & _ & Hp & _). apply word_has_voters. lia.
    + destruct Hb as (Hc & _). apply word_has_voters. lia.
    + destruct (setPrepare_is_Some _ b v Hb ltac:(done)) as [b' Hs]. exists b'.
      destruct (setPrepare_Some _ _ _ _ Hb Hv Hs) as (? & _ & Hset & ?).
      split_and!; try done. rewrite !prepareCount_size, Hset. apply size_vote.
    + destruct (setCommit_is_Some _ b v Hb ltac:(done)) as [b' Hs]. exists b'.
      destruct (setCommit_Some _ _ _ _ Hb Hv Hs) as (? & _ & Hset & ?).
      split_and!; try done. rewrite !commitCount_size, Hset. apply size_vote.
  - destruct Hb as (Hc & _ & Hp & _).
    assert (forall ws, 64 * Z.of_nat (length ws) = capacity size ->
              word_has ws v = None /\ word_set ws v = None) as Hout.
    { intros ws Hl. rewrite word_has_spec, word_set_spec by done.
      destruct (ws !! Z.to_nat (v `div` 64)) eqn:E; [|done].
      pose proof (proj1 (slot_in_range ws v Hv) ltac:(eauto)). lia. }
    destruct (Hout _ Hc) as [Hh1 Hs1], (Hout _ Hp) as [Hh2 Hs2].
    unfold hasPrepare, hasCommit, setPrepare, setCommit. by rewrite Hh1, Hh2, Hs1, Hs2.
Qed.

Lemma bitset_refines_sets_witness :
  hasCommit (newBitset 4) 3 = Some false /\ setCommit (newBitset 64) 64 = None.
Proof.
  split.
  - destruct (bitset_refines_sets 4 (newBitset 4) 3) as [H _];
      [done|by apply newBitset_ok|]. destruct H as (_ & H & _); [done|].
    etrans; [exact H|]. by vm_compute.
  - destruct (bitset_refines_sets 64 (newBitset 64) 64) as [_ H];
      [done|by apply newBitset_ok|]. by apply H.
Defined.
