(* ===== verification/Messages.v ===== *)
(** * Messages: the consensus messages and the per-state keys

    Model of the packages [src/blockmania/messages] and
    [src/blockmania/states], and of the block identifiers of
    [src/blockmania/blockmania.go]. *)
From S2P Require Import Prelude.

(** ** Block identifiers *)

Record BlockID := MkBlockID { Hash : bytes; Node : uint64; Round : uint64 }.

#[export] Instance BlockID_eq_dec : EqDecision BlockID.
Proof. solve_decision. Defined.
(** The encodings of the map keys are flat lists, which keeps evaluation fast. *)
#[export] Instance BlockID_countable : Countable BlockID.
Proof.
  refine (inj_countable (fun b => Node b :: Round b :: Hash b)
            (fun l => match l with n :: r :: h => Some (MkBlockID h n r) | _ => None end) _).
  by intros [].
Defined.

Definition zeroBlockID : BlockID := MkBlockID [] 0 0.

Definition Valid (b : BlockID) : bool := bool_decide (Hash b <> []).

(** [BlockID.String]: the loop over the hash bytes 6 to 11 indexes the hash, so
    a non-empty hash of fewer than 12 bytes panics. *)
Definition BlockID_String (b : BlockID) : option bytes :=
  let v := fmt_d (Node b) ++ str " | " ++ fmt_d (Round b) in
  if Valid b
  then c ← slice (Hash b) 6 12; Some (v ++ str " | " ++ fmt_X c)
  else Some v.

Record Dep := MkDep { dep_Block : BlockID; dep_Deps : list BlockID; dep_Prev : BlockID }.

Record BlockGraph := MkBlockGraph { bg_Block : BlockID; bg_Deps : list Dep; bg_Prev : BlockID }.

Record Interpreted := MkInterpreted {
  in_Blocks : list BlockID; in_Consumed : uint64; in_Round : uint64 }.

(** ** Messages *)

Record PrePrepare := MkPrePrepare {
  pp_Hash : bytes; pp_Node : uint64; pp_Round : uint64; pp_View : uint32 }.
(** [Prepare], [Commit], [ViewChange] and [NewView] carry the same fields. *)
Record Signed := MkSigned {
  m_Hash : bytes; m_Node : uint64; m_Round : uint64; m_Sender : uint64; m_View : uint32 }.

Inductive Message :=
  | MPrePrepare (m : PrePrepare)
  | MPrepare (m : Signed)
  | MCommit (m : Signed)
  | MViewChange (m : Signed)
  | MNewView (m : Signed).

#[export] Instance PrePrepare_eq_dec : EqDecision PrePrepare.
Proof. solve_decision. Defined.
#[export] Instance PrePrepare_countable : Countable PrePrepare.
Proof.
  refine (inj_countable (fun m => pp_Node m :: pp_Round m :: pp_View m :: pp_Hash m)
            (fun l => match l with n :: r :: v :: h => Some (MkPrePrepare h n r v)
                      | _ => None end) _).
  by intros [].
Defined.
#[export] Instance Signed_eq_dec : EqDecision Signed.
Proof. solve_decision. Defined.
#[export] Instance Message_eq_dec : EqDecision Message.
Proof. solve_decision. Defined.
#[export] Instance Message_countable : Countable Message.
Proof.
  set (enc (k : Z) (m : Signed) :=
         k :: m_Node m :: m_Round m :: m_Sender m :: m_View m :: m_Hash m).
  refine (inj_countable
    (fun m => match m with
              | MPrePrepare m => 0 :: pp_Node m :: pp_Round m :: pp_View m :: pp_Hash m
              | MPrepare m => enc 1 m | MCommit m => enc 2 m
              | MViewChange m => enc 3 m | MNewView m => enc 4 m end)
    (fun l => match l with
              | 0 :: n :: r :: v :: h => Some (MPrePrepare (MkPrePrepare h n r v))
              | 1 :: n :: r :: s :: v :: h => Some (MPrepare (MkSigned h n r s v))
              | 2 :: n :: r :: s :: v :: h => Some (MCommit (MkSigned h n r s v))
              | 3 :: n :: r :: s :: v :: h => Some (MViewChange (MkSigned h n r s v))
              | 4 :: n :: r :: s :: v :: h => Some (MNewView (MkSigned h n r s v))
              | _ => None end) _).
  by intros [[]|[]|[]|[]|[]].
Defined.

(** [MessageKind] is a [uint8]; [String] panics on a value that is not one of
    the six constants. *)
Abbreviation MessageKind := Z (only parsing).
Definition UnknownMsg : MessageKind := 0.
Definition PrePrepareMsg : MessageKind := 1.
Definition PrepareMsg : MessageKind := 2.
Definition CommitMsg : MessageKind := 3.
Definition ViewChangedMsg : MessageKind := 4.
Definition NewViewMsg : MessageKind := 5.

Definition Kind (m : Message) : MessageKind :=
  match m with
  | MPrePrepare _ => PrePrepareMsg
  | MPrepare _ => PrepareMsg
  | MCommit _ => CommitMsg
  | MViewChange _ => ViewChangedMsg
  | MNewView _ => NewViewMsg
  end.

Definition MessageKind_String (m : MessageKind) : option bytes :=
  if m =? CommitMsg then Some (str "commit")
  else if m =? NewViewMsg then Some (str "new-view")
  else if m =? PrepareMsg then Some (str "prepare")
  else if m =? PrePrepareMsg then Some (str "pre-prepare")
  else if m =? UnknownMsg then Some (str "unknown")
  else if m =? ViewChangedMsg then Some (str "view-change")
  else None.

Definition NodeRound (m : Message) : uint64 * uint64 :=
  match m with
  | MPrePrepare m => (pp_Node m, pp_Round m)
  | MPrepare m | MCommit m | MViewChange m | MNewView m => (m_Node m, m_Round m)
  end.

(** [Prepare.Pre] and [Commit.Pre]. *)
Definition Pre (m : Signed) : PrePrepare :=
  MkPrePrepare (m_Hash m) (m_Node m) (m_Round m) (m_View m).

Definition fmtHash (v : bytes) : option bytes :=
  if decide (v = []) then Some [] else fmt_X <$> slice v 6 12.

(** The [String] method of a message of the given kind name. *)
Definition fmt_message (kind : bytes) (node round view : Z) (hash : bytes) (tail : bytes)
    : option bytes :=
  h ← fmtHash hash;
  Some (kind ++ str "{node: " ++ fmt_d node ++ str ", round: " ++ fmt_d round ++
        str ", view: " ++ fmt_d view ++ str ", hash: '" ++ h ++ str "'" ++ tail ++ str "}").

Definition Message_String (m : Message) : option bytes :=
  match m with
  | MPrePrepare p =>
      fmt_message (str "pre-prepare") (pp_Node p) (pp_Round p) (pp_View p) (pp_Hash p) []
  | MPrepare p =>
      fmt_message (str "prepare") (m_Node p) (m_Round p) (m_View p) (m_Hash p)
        (str ", sender: " ++ fmt_d (m_Sender p))
  | MCommit p =>
      fmt_message (str "commit") (m_Node p) (m_Round p) (m_View p) (m_Hash p)
        (str ", sender: " ++ fmt_d (m_Sender p))
  | MViewChange p =>
      fmt_message (str "view-change") (m_Node p) (m_Round p) (m_View p) (m_Hash p)
        (str ", sender: " ++ fmt_d (m_Sender p))
  | MNewView p =>
      fmt_message (str "new-view") (m_Node p) (m_Round p) (m_View p) (m_Hash p)
        (str ", sender: " ++ fmt_d (m_Sender p))
  end.

(** ** Keys of the state's data map *)

Inductive StateData :=
  | Final (node round : uint64)
  | HNV (node round : uint64) (view : uint32)
  | Prepared (node round : uint64) (view : uint32)
  | PrePrepared (node round : uint64) (view : uint32)
  | View (node round : uint64)
  | ViewChanged (node round : uint64) (view : uint32).

#[export] Instance StateData_eq_dec : EqDecision StateData.
Proof. solve_decision. Defined.
#[export] Instance StateData_countable : Countable StateData.
Proof.
  refine (inj_countable
    (fun k => match k with
              | Final n r => [0; n; r] | HNV n r v => [1; n; r; v]
              | Prepared n r v => [2; n; r; v] | PrePrepared n r v => [3; n; r; v]
              | View n r => [4; n; r] | ViewChanged n r v => [5; n; r; v] end)
    (fun l => match l with
              | [0; n; r] => Some (Final n r) | [1; n; r; v] => Some (HNV n r v)
              | [2; n; r; v] => Some (Prepared n r v) | [3; n; r; v] => Some (PrePrepared n r v)
              | [4; n; r] => Some (View n r) | [5; n; r; v] => Some (ViewChanged n r v)
              | _ => None end) _).
  by intros [].
Defined.

Definition GetRound (k : StateData) : uint64 :=
  match k with
  | Final _ r | View _ r => r
  | HNV _ r _ | Prepared _ r _ | PrePrepared _ r _ | ViewChanged _ r _ => r
  end.

Abbreviation StateDataKind := Z (only parsing).
Definition UnknownState : StateDataKind := 0.
Definition FinalState : StateDataKind := 1.
Definition HNVState : StateDataKind := 2.
Definition PreparedState : StateDataKind := 3.
Definition PrePreparedState : StateDataKind := 4.
Definition ViewState : StateDataKind := 5.
Definition ViewChangedState : StateDataKind := 6.

Definition SdKind (k : StateData) : StateDataKind :=
  match k with
  | Final _ _ => FinalState
  | HNV _ _ _ => HNVState
  | Prepared _ _ _ => PreparedState
  | PrePrepared _ _ _ => PrePreparedState
  | View _ _ => ViewState
  | ViewChanged _ _ _ => ViewChangedState
  end.

Definition StateDataKind_String (s : StateDataKind) : option bytes :=
  if s =? FinalState then Some (str "final")
  else if s =? HNVState then Some (str "hnv")
  else if s =? PreparedState then Some (str "prepared")
  else if s =? PrePreparedState then Some (str "preprepared")
  else if s =? UnknownState then Some (str "unknown")
  else if s =? ViewState then Some (str "viewState")
  else if s =? ViewChangedState then Some (str "viewchanged")
  else None.

Example commit_string :
  Message_String (MCommit (MkSigned (str "foofoofoofoo") 2 1 3 0)) =
  Some (str "commit{node: 2, round: 1, view: 0, hash: '666F6F666F6F', sender: 3}").
Proof. vm_compute. reflexivity. Qed.

Example blockid_string :
  BlockID_String (MkBlockID (str "foofoofoofoo") 7 12) = Some (str "7 | 12 | 666F6F666F6F").
Proof. vm_compute. reflexivity. Qed.
