(* ===== verification/BmState.v ===== *)
(** * BmState: the interpretation state of a block

    Model of [src/blockmania/state.go].  A nil Go map and an empty one answer
    every read alike, and each write of the code is guarded by a nil test that
    creates the map, so both are the empty [gmap] here.

    The value stored under a [ViewChanged] key is a Go map, which [clone] copies
    by reference: the data map holds the address of that map in the heap of the
    graph (see [Graph]). *)
From S2P Require Import Prelude Bitset Messages.

Record timeout := MkTimeout { t_node : uint64; t_round : uint64; t_view : uint32 }.

(** The dynamic values of [stateKV]. *)
Inductive DataVal :=
  | DUint32 (v : uint32)          (* under View *)
  | DPrePrepare (m : PrePrepare)  (* under PrePrepared *)
  | DString (h : bytes)           (* under Prepared *)
  | DVcs (addr : nat)             (* under ViewChanged *)
  | DBool (b : bool).             (* under HNV *)

Record state := MkState {
  bitsets : gmap PrePrepare bitset;
  data : gmap StateData DataVal;
  delay : gmap uint64 uint64;
  final : gmap (uint64 * uint64) bytes;
  out : list Message;
  s_timeout : uint64;
  timeouts : gmap uint64 (list timeout)
}.

(** The assignments [s.field = x]. *)
Definition set_bitsets x (s : state) :=
  MkState x (data s) (delay s) (final s) (out s) (s_timeout s) (timeouts s).
Definition set_data x (s : state) :=
  MkState (bitsets s) x (delay s) (final s) (out s) (s_timeout s) (timeouts s).
Definition set_delay x (s : state) :=
  MkState (bitsets s) (data s) x (final s) (out s) (s_timeout s) (timeouts s).
Definition set_final x (s : state) :=
  MkState (bitsets s) (data s) (delay s) x (out s) (s_timeout s) (timeouts s).
Definition set_out x (s : state) :=
  MkState (bitsets s) (data s) (delay s) (final s) x (s_timeout s) (timeouts s).
Definition set_timeout x (s : state) :=
  MkState (bitsets s) (data s) (delay s) (final s) (out s) x (timeouts s).
Definition set_timeouts x (s : state) :=
  MkState (bitsets s) (data s) (delay s) (final s) (out s) (s_timeout s) x.

Definition emptyState : state := MkState ∅ ∅ ∅ ∅ [] 0 ∅.

(** [clone] on a nil receiver makes a fresh state. *)
Definition clone (s : option state) (minround : uint64) : state :=
  match s with
  | None => emptyState
  | Some s => {|
      bitsets := Bitset.clone <$> filter (fun kv => ~ pp_Round kv.1 < minround) (bitsets s);
      data := filter (fun kv => ~ GetRound kv.1 < minround) (data s);
      delay := delay s;
      final := filter (fun kv => ~ kv.1.2 < minround) (final s);
      out := filter (fun msg => ~ (NodeRound msg).2 < minround) (out s);
      s_timeout := s_timeout s;
      timeouts := filter (fun kv => ~ kv.1 < minround) (timeouts s)
    |}
  end.

Definition getBitset (size : goint) (pp : PrePrepare) (s : state) : state * bitset :=
  match bitsets s !! pp with
  | Some b => (s, b)
  | None => let b := newBitset size in (set_bitsets (<[pp := b]> (bitsets s)) s, b)
  end.

(** A bitset is shared by reference between the state and the handler, so the
    handler's [setPrepare] and [setCommit] calls are seen by the state. *)
Definition putBitset (pp : PrePrepare) (b : bitset) (s : state) : state :=
  set_bitsets (<[pp := b]> (bitsets s)) s.

Definition getOutput (s : option state) : list Message :=
  match s with None => [] | Some s => out s end.

(** [None] is the failed type assertion [val.(uint32)]. *)
Definition getView (node round : uint64) (s : state) : option (state * uint32) :=
  match data s !! View node round with
  | Some (DUint32 v) => Some (s, v)
  | Some _ => None
  | None => Some (set_data (<[View node round := DUint32 0]> (data s)) s, 0)
  end.

Definition diff (a b : uint64) : uint64 :=
  if decide (b <= a) then u64 (a - b) else u64 (b - a).
