(* ===== verification/Graph.v ===== *)
(** * Graph: interpretation of the block graph

    Model of [src/blockmania/graph.go].  A [log.Fatal], a panic or a failed
    type assertion ends the process: the handlers return [None].  Debug
    logging has no effect on the state and is left out. *)
From S2P Require Import Prelude Bitset Messages BmState.

Record entry := MkEntry { e_block : BlockID; e_deps : list BlockID; e_prev : BlockID }.
Record blockInfo := MkBlockInfo { bi_data : BlockGraph; bi_max : uint64 }.
Record Config := MkConfig {
  LastInterpreted : uint64; Nodes : list uint64; SelfID : uint64; TotalNodes : uint64 }.

(** [cbs] is the trace of the calls of the callback [cb], [vcs] the heap of the
    maps stored under [ViewChanged] keys, [entries] the buffered channel. *)
Record Graph := MkGraph {
  blocks : list blockInfo;
  entries : list BlockGraph;
  max : gmap BlockID uint64;
  nodeCount : goint;
  nodes : list uint64;
  quorumf1 : goint;
  quorum2f : goint;
  quorum2f1 : goint;
  resolved : gmap uint64 (gmap uint64 bytes);
  round : uint64;
  self : uint64;
  statess : gmap BlockID state;
  totalNodes : uint64;
  vcs : list (gmap uint64 bytes);
  cbs : list Interpreted
}.

Definition set_blocks x g := MkGraph x (entries g) (max g) (nodeCount g) (nodes g) (quorumf1 g)
  (quorum2f g) (quorum2f1 g) (resolved g) (round g) (self g) (statess g) (totalNodes g) (vcs g) (cbs g).
Definition set_entries x g := MkGraph (blocks g) x (max g) (nodeCount g) (nodes g) (quorumf1 g)
  (quorum2f g) (quorum2f1 g) (resolved g) (round g) (self g) (statess g) (totalNodes g) (vcs g) (cbs g).
Definition set_max x g := MkGraph (blocks g) (entries g) x (nodeCount g) (nodes g) (quorumf1 g)
  (quorum2f g) (quorum2f1 g) (resolved g) (round g) (self g) (statess g) (totalNodes g) (vcs g) (cbs g).
Definition set_resolved x g := MkGraph (blocks g) (entries g) (max g) (nodeCount g) (nodes g) (quorumf1 g)
  (quorum2f g) (quorum2f1 g) x (round g) (self g) (statess g) (totalNodes g) (vcs g) (cbs g).
Definition set_round x g := MkGraph (blocks g) (entries g) (max g) (nodeCount g) (nodes g) (quorumf1 g)
  (quorum2f g) (quorum2f1 g) (resolved g) x (self g) (statess g) (totalNodes g) (vcs g) (cbs g).
Definition set_statess x g := MkGraph (blocks g) (entries g) (max g) (nodeCount g) (nodes g) (quorumf1 g)
  (quorum2f g) (quorum2f1 g) (resolved g) (round g) (self g) x (totalNodes g) (vcs g) (cbs g).
Definition set_vcs x g := MkGraph (blocks g) (entries g) (max g) (nodeCount g) (nodes g) (quorumf1 g)
  (quorum2f g) (quorum2f1 g) (resolved g) (round g) (self g) (statess g) (totalNodes g) x (cbs g).
Definition set_cbs x g := MkGraph (blocks g) (entries g) (max g) (nodeCount g) (nodes g) (quorumf1 g)
  (quorum2f g) (quorum2f1 g) (resolved g) (round g) (self g) (statess g) (totalNodes g) (vcs g) x.

(** ** Delivery of resolved rounds *)

(** [blocks[i].Hash < blocks[j].Hash] orders by the bytes of the hash. *)
Definition hash_le (x y : BlockID) : Prop := bytes_le (Hash x) (Hash y).

(** The blocks of a round: the nodes with a non-empty hash, sorted by hash. *)
Definition roundBlocks (rnd : uint64) (hashes : gmap uint64 bytes) : list BlockID :=
  merge_sort hash_le
    (map_to_list hashes ≫= fun '(node, hash) =>
       if decide (hash = []) then [] else [MkBlockID hash node rnd]).

(** Forgetting a block and its direct dependencies. *)
Definition forget {A} (info : blockInfo) (m : gmap BlockID A) : gmap BlockID A :=
  foldl (fun m dep => delete (dep_Block dep) m)
        (delete (bg_Block (bi_data info)) m) (bg_Deps (bi_data info)).

(** The loop over [graph.blocks] that drops the blocks no longer needed. *)
Fixpoint consume (rnd : uint64) (bs : list blockInfo)
    (mx : gmap BlockID uint64) (sts : gmap BlockID state) (consumed : uint64)
    : list blockInfo * gmap BlockID uint64 * gmap BlockID state * uint64 :=
  match bs with
  | [] => ([], mx, sts, consumed)
  | info :: rest =>
      if decide (rnd < bi_max info) then (bs, mx, sts, consumed)
      else consume rnd rest (forget info mx) (forget info sts) (u64 (consumed + 1))
  end.

(** One call of [deliverRound] up to the recursive call. *)
Definition deliverOne (rnd : uint64) (hashes : gmap uint64 bytes) (g : Graph) : option Graph :=
  first ← head (blocks g);
  let consumed := u64 (Round (bg_Block (bi_data first)) - 1) in
  let '(bs, mx, sts, consumed) := consume rnd (blocks g) (max g) (statess g) consumed in
  let g := set_resolved (delete rnd (resolved g)) g in
  let g := set_blocks bs (set_max mx (set_statess sts g)) in
  let g := set_round (u64 (round g + 1)) g in
  Some (set_cbs (cbs g ++ [MkInterpreted (roundBlocks rnd hashes) consumed rnd]) g).

Fixpoint deliverRound_loop (fuel : nat) (rnd : uint64) (hashes : gmap uint64 bytes) (g : Graph)
    : option Graph :=
  match fuel with
  | O => None
  | S fuel =>
      g ← deliverOne rnd hashes g;
      match resolved g !! u64 (rnd + 1) with
      | Some hashes' =>
          if decide (Z.of_nat (size hashes') = nodeCount g)
          then deliverRound_loop fuel (u64 (rnd + 1)) hashes' g
          else Some g
      | None => Some g
      end
  end.

(** Every call drops a round of [resolved], except possibly the first. *)
Definition deliverRound (rnd : uint64) (hashes : gmap uint64 bytes) (g : Graph) : option Graph :=
  deliverRound_loop (2 + size (resolved g)) rnd hashes g.

Definition deliver (node rnd : uint64) (hash : bytes) (g : Graph) : option Graph :=
  if decide (rnd < round g) then Some g else
  '(hashes, g) ←
    match resolved g !! rnd with
    | Some hashes =>
        match hashes !! node with
        | Some curhash => if decide (curhash <> hash) then None else Some (hashes, g)
        | None =>
            let hashes := <[node := hash]> hashes in
            Some (hashes, set_resolved (<[rnd := hashes]> (resolved g)) g)
        end
    | None =>
        let hashes := {[node := hash]} in
        Some (hashes, set_resolved (<[rnd := hashes]> (resolved g)) g)
    end;
  if decide (rnd <> round g) then Some g
  else if decide (Z.of_nat (size hashes) = nodeCount g)
  then deliverRound rnd hashes g else Some g.

(** ** Message processing *)

Definition is_final (s : state) (node rnd : uint64) : bool :=
  bool_decide (is_Some (data s !! Final node rnd)).

Definition put_data (k : StateData) (v : DataVal) (s : state) : state :=
  set_data (<[k := v]> (data s)) s.

Definition onPrePrepare (m : PrePrepare) (v : uint32) (sender receiver : uint64)
    (s : state) (g : Graph) : option (Graph * state * option Message) :=
  let node := pp_Node m in let rnd := pp_Round m in
  if decide (v <> pp_View m) then Some (g, s, None) else
  let pp := PrePrepared node rnd (pp_View m) in
  if decide (is_Some (data s !! pp)) then Some (g, s, None) else
  let '(s, b) := getBitset (nodeCount g) m s in
  b ← setPrepare b sender;
  b ← setPrepare b receiver;
  let s := put_data pp (DPrePrepare m) (putBitset m b s) in
  Some (g, s, Some (MPrepare (MkSigned (pp_Hash m) node rnd receiver (pp_View m)))).

Definition onPrepare (m : Signed) (v : uint32) (receiver : uint64)
    (s : state) (g : Graph) : option (Graph * state * option Message) :=
  let node := m_Node m in let rnd := m_Round m in
  if decide (v > m_View m) then Some (g, s, None) else
  if decide (v < m_View m) then
    let '(s, b) := getBitset (nodeCount g) (Pre m) s in
    b ← setPrepare b (m_Sender m);
    Some (g, putBitset (Pre m) b s, None)
  else
  let '(s, b) := getBitset (nodeCount g) (Pre m) s in
  b ← setPrepare b (m_Sender m);
  let s := putBitset (Pre m) b s in
  if decide (prepareCount b <> quorum2f1 g) then Some (g, s, None) else
  hc ← hasCommit b receiver;
  if hc : bool then Some (g, s, None) else
  b ← setCommit b receiver;
  let s := putBitset (Pre m) b s in
  let p := Prepared node rnd (m_View m) in
  let s := match data s !! p with
           | Some _ => s
           | None => put_data p (DString (m_Hash m)) s
           end in
  Some (g, s, Some (MCommit (MkSigned (m_Hash m) node rnd receiver (m_View m)))).

Definition onCommit (m : Signed) (v : uint32)
    (s : state) (g : Graph) : option (Graph * state * option Message) :=
  let node := m_Node m in let rnd := m_Round m in
  if decide (v < m_View m) then Some (g, s, None) else
  let '(s, b) := getBitset (nodeCount g) (Pre m) s in
  b ← setCommit b (m_Sender m);
  let s := putBitset (Pre m) b s in
  if decide (commitCount b <> quorum2f1 g) then Some (g, s, None) else
  match final s !! (node, rnd) with
  | Some _ => Some (g, s, None)
  | None =>
      let s := set_final (<[(node, rnd) := m_Hash m]> (final s)) s in
      g ← deliver node rnd (m_Hash m) g;
      Some (g, s, None)
  end.

(** The loop over a view change map: the non-empty hash of the map, [None] being
    the [log.Fatal] on two different ones. *)
Definition vcs_hash (votes : gmap uint64 bytes) : option bytes :=
  foldl (fun acc kv =>
    hash ← acc;
    let hval := kv.2 in
    if decide (hval = []) then Some hash
    else if decide (hash <> [] /\ hval <> hash) then None
    else Some hval) (Some []) (map_to_list votes).

Definition onViewChange (m : Signed) (v : uint32) (receiver : uint64)
    (s : state) (g : Graph) : option (Graph * state * option Message) :=
  let node := m_Node m in let rnd := m_Round m in
  if decide (v > m_View m) then Some (g, s, None) else
  let key := ViewChanged node rnd v in
  '(addr, s, g) ←
    match data s !! key with
    | Some (DVcs addr) => Some (addr, s, g)
    | Some _ => None
    | None =>
        let addr := length (vcs g) in
        Some (addr, put_data key (DVcs addr) s, set_vcs (vcs g ++ [∅]) g)
    end;
  votes ← vcs g !! addr;
  let votes := <[m_Sender m := m_Hash m]> votes in
  let g := set_vcs (<[addr := votes]> (vcs g)) g in
  if decide (Z.of_nat (size votes) <> quorum2f1 g) then Some (g, s, None) else
  let s := put_data (View node rnd) (DUint32 (m_View m)) s in
  hash ← vcs_hash votes;
  Some (g, s, Some (MNewView (MkSigned hash node rnd receiver (m_View m)))).

Definition onNewView (m : Signed) (v : uint32) (origin : BlockID)
    (s : state) (g : Graph) : option (Graph * state * option Message) :=
  let node := m_Node m in let rnd := m_Round m in
  if decide (v > m_View m) then Some (g, s, None) else
  let key := HNV node rnd (m_View m) in
  if decide (is_Some (data s !! key)) then Some (g, s, None) else
  let s := put_data (View node rnd) (DUint32 (m_View m)) s in
  let tval := u64 (Round origin + s_timeout s + 5) in
  let s := set_timeouts
             (<[tval := default [] (timeouts s !! tval) ++ [MkTimeout node rnd (m_View m)]]>
                (timeouts s)) s in
  let s := put_data key (DBool true) s in
  Some (g, s, Some (MPrePrepare (MkPrePrepare (m_Hash m) node rnd (m_View m)))).

Definition processMessage (sender receiver : uint64) (origin : BlockID) (msg : Message)
    (s : state) (g : Graph) : option (Graph * state * option Message) :=
  let '(node, rnd) := NodeRound msg in
  if is_final s node rnd then Some (g, s, None) else
  '(s, v) ← getView node rnd s;
  match msg with
  | MPrePrepare m => onPrePrepare m v sender receiver s g
  | MPrepare m => onPrepare m v receiver s g
  | MCommit m => onCommit m v s g
  | MViewChange m => onViewChange m v receiver s g
  | MNewView m => onNewView m v origin s g
  end.

(** What [processMessages] threads through its loops. *)
Abbreviation pm_state := (Graph * state * gset Message)%type.

(** The body shared by the two loops: a message already processed is skipped,
    another one is handled, and its response is appended. *)
Definition pm_step (sender receiver : uint64) (origin : BlockID) (msg : Message)
    (st : pm_state) (outs : list Message) : option (pm_state * list Message) :=
  let '(g, s, processed) := st in
  if decide (msg ∈ processed) then Some (st, outs) else
  '(g, s, resp) ← processMessage sender receiver origin msg s g;
  Some ((g, s, {[msg]} ∪ processed), outs ++ option_list resp).

(** [for _, msg := range msgs]. *)
Fixpoint pm_range (sender receiver : uint64) (origin : BlockID) (msgs : list Message)
    (st : pm_state) (outs : list Message) : option (pm_state * list Message) :=
  match msgs with
  | [] => Some (st, outs)
  | msg :: msgs =>
      '(st, outs) ← pm_step sender receiver origin msg st outs;
      pm_range sender receiver origin msgs st outs
  end.

(** [for i := 0; i < len(out); i++], the body appending to [out]. *)
Fixpoint pm_drain (fuel : nat) (sender receiver : uint64) (origin : BlockID) (i : nat)
    (st : pm_state) (outs : list Message) : option (pm_state * list Message) :=
  match outs !! i with
  | None => Some (st, outs)
  | Some msg =>
      match fuel with
      | O => None
      | S fuel =>
          '(st, outs) ← pm_step sender receiver origin msg st outs;
          pm_drain fuel sender receiver origin (S i) st outs
      end
  end.

(** A message answers with a message of a smaller [rank], so a message causes
    at most [rank msg - 1] further ones. *)
Definition rank (m : Message) : nat :=
  match m with
  | MViewChange _ => 5 | MNewView _ => 4 | MPrePrepare _ => 3 | MPrepare _ => 2 | MCommit _ => 1
  end.

Definition processMessages (sender receiver : uint64) (origin : BlockID) (msgs : list Message)
    (st : pm_state) : option (pm_state * list Message) :=
  '(st, outs) ← pm_range sender receiver origin msgs st [];
  pm_drain (5 * length outs) sender receiver origin 0 st outs.

(** ** Processing of a block *)

Definition findOrCreateState (e : entry) (g : Graph) : state :=
  if Valid (e_prev e) then BmState.clone (statess g !! e_prev e) (round g)
  else emptyState.

(** The round delay after which a view change is asked for. *)
Definition timeoutValue (g : Graph) (dl : gmap uint64 uint64) : option uint64 :=
  if decide (Z.of_nat (size dl) > quorum2f1 g) then
    let vals := merge_sort Z.le (map_to_list dl).*2 in
    xval ← vals !! Z.to_nat (quorum2f g);
    Some (if decide (xval > 10) then xval else 10)
  else
    Some (foldl (fun tval val => if decide (val > tval) then val else tval) 10 (map_to_list dl).*2).

(** The loop over [state.timeouts[round]]. *)
Fixpoint fireTimeouts (node : uint64) (ts : list timeout) (s : state) (outs : list Message)
    : option (state * list Message) :=
  match ts with
  | [] => Some (s, outs)
  | t :: ts =>
      if is_final s (t_node t) (t_round t) then fireTimeouts node ts s outs else
      let skey := View (t_node t) (t_round t) in
      v ← match data s !! skey with
          | Some (DUint32 v) => Some v
          | Some _ => None
          | None => Some 0
          end;
      if decide (v > t_view t) then fireTimeouts node ts s outs else
      hval ← match data s !! Prepared (t_node t) (t_round t) (t_view t) with
             | Some (DString h) => Some h
             | Some _ => None
             | None => Some []
             end;
      let s := put_data skey (DUint32 (u32 (v + 1))) s in
      fireTimeouts node ts s
        (outs ++ [MViewChange (MkSigned hval (t_node t) (t_round t) node (u32 (t_view t + 1)))])
  end.

(** The loop over the dependencies of the block. *)
Fixpoint processDeps (block : BlockID) (deps : list BlockID) (st : pm_state) (outs : list Message)
    : option (pm_state * list Message) :=
  match deps with
  | [] => Some (st, outs)
  | dep :: deps =>
      let msgs := getOutput (statess st.1.1 !! dep) in
      '(st, resp) ← processMessages (Node dep) (Node block) block msgs st;
      processDeps block deps st (outs ++ resp)
  end.

Definition process (ntry : entry) (g : Graph) : option Graph :=
  let s := findOrCreateState ntry g in
  let block := e_block ntry in
  let node := Node block in let rnd := Round block in
  let outs := [MPrePrepare (MkPrePrepare (Hash block) node rnd 0)] in
  let s := set_delay
             (foldl (fun dl dep => <[Node dep := u64 (diff rnd (Round dep) * 10)]> dl)
                    (delay s) (e_deps ntry)) s in
  tval ← timeoutValue g (delay s);
  let s := set_timeout tval s in
  let tround := u64 (rnd + tval) in
  let s := set_timeouts
             (foldl (fun ts xnode =>
                <[tround := default [] (ts !! tround) ++ [MkTimeout xnode rnd 0]]> ts)
                (timeouts s) (nodes g)) s in
  '(s, outs) ← fireTimeouts node (default [] (timeouts s !! rnd)) s outs;
  '(st, resp) ← processMessages node node block outs (g, s, ∅);
  '(st, outs) ← processDeps block (e_deps ntry) st (outs ++ resp);
  let '(g, s, _) := st in
  Some (set_statess (<[block := set_out outs s]> (statess g)) g).

(** ** The loop over the added block graphs *)

(** [graph.max] lookups of the links of a block: the new maximum, and whether
    some link is unknown. *)
Definition link_max (mx : gmap BlockID uint64) (acc : uint64 * bool) (link : BlockID)
    : uint64 * bool :=
  match mx !! link with
  | None => (acc.1, true)
  | Some linkMax => (if decide (linkMax > acc.1) then linkMax else acc.1, acc.2)
  end.

Definition settle (rnd : uint64) (acc : uint64 * bool) : uint64 :=
  if decide (acc.2 = true /\ rnd > acc.1) then rnd else acc.1.

(** The loop over [data.Deps]: the entries, the updated [graph.max] and the
    running maximum. *)
Fixpoint depEntries (rnd : uint64) (deps : list Dep) (mx : gmap BlockID uint64) (m : uint64)
    : list entry * gmap BlockID uint64 * uint64 :=
  match deps with
  | [] => ([], mx, m)
  | dep :: deps =>
      let acc := (Round (dep_Block dep), false) in
      let '(edeps, acc) :=
        if decide (Round (dep_Block dep) <> 1)
        then (dep_Prev dep :: dep_Deps dep, link_max mx acc (dep_Prev dep))
        else (dep_Deps dep, acc) in
      let depMax := settle rnd (foldl (link_max mx) acc (dep_Deps dep)) in
      let mx := <[dep_Block dep := depMax]> mx in
      let m := if decide (depMax > m) then depMax else m in
      let '(es, mx, m) := depEntries rnd deps mx m in
      (MkEntry (dep_Block dep) edeps (dep_Prev dep) :: es, mx, m)
  end.

Fixpoint processAll (es : list entry) (g : Graph) : option Graph :=
  match es with
  | [] => Some g
  | e :: es => g ← process e g; processAll es g
  end.

(** One iteration of [run] on a received block graph. *)
Definition runStep (d : BlockGraph) (g : Graph) : option Graph :=
  let '(es, mx, m) := depEntries (round g) (bg_Deps d) (max g) (Round (bg_Block d)) in
  let acc := if decide (Round (bg_Block d) <> 1)
             then link_max mx (m, false) (bg_Prev d) else (m, false) in
  let m := settle (round g) acc in
  let g := set_max (<[bg_Block d := m]> mx) g in
  let g := set_blocks (blocks g ++ [MkBlockInfo d m]) g in
  g ← processAll es g;
  process (MkEntry (bg_Block d) (bg_Prev d :: (dep_Block <$> bg_Deps d)) (bg_Prev d)) g.

(** [Add] puts the block graph on the channel, [run] takes it off. *)
Definition Add (d : BlockGraph) (g : Graph) : Graph := set_entries (entries g ++ [d]) g.

Definition run (g : Graph) : option Graph :=
  match entries g with
  | [] => Some g
  | d :: ds => runStep d (set_entries ds g)
  end.

Definition New (cfg : Config) : Graph :=
  let f := (Z.of_nat (length (Nodes cfg)) - 1) `quot` 3 in
  {| blocks := []; entries := []; max := ∅;
     nodeCount := Z.of_nat (length (Nodes cfg)); nodes := Nodes cfg;
     quorumf1 := f + 1; quorum2f := 2 * f; quorum2f1 := 2 * f + 1;
     resolved := ∅; round := u64 (LastInterpreted cfg + 1); self := SelfID cfg;
     statess := ∅; totalNodes := TotalNodes cfg; vcs := []; cbs := [] |}.
