(* ===== verification/GraphDelivery.v ===== *)
(** * GraphDelivery: delivery of the resolved rounds

    Properties of [deliver] and [deliverRound] of [src/blockmania/graph.go]:
    the recursion ends, rounds are handed to the callback one after the other
    without gap or repetition, and a resolved hash is never replaced. *)
From S2P Require Import Prelude Bitset Messages BmState Graph.

(** ** The recursion of [deliverRound] *)

Lemma deliverOne_frame rnd hs g g' : deliverOne rnd hs g = Some g' ->
  resolved g' = delete rnd (resolved g) /\ round g' = u64 (round g + 1) /\
  (exists c, cbs g' = cbs g ++ [MkInterpreted (roundBlocks rnd hs) c rnd]) /\
  nodeCount g' = nodeCount g /\ nodes g' = nodes g /\ quorum2f g' = quorum2f g /\
  quorum2f1 g' = quorum2f1 g /\ entries g' = entries g /\ vcs g' = vcs g.
Proof.
  unfold deliverOne. intros H. opt_inv. destruct (consume _ _ _ _ _) as [[[? ?] ?] ?].
  simplify_eq/=. eauto 10.
Qed.

Lemma deliverRound_loop_enough f1 f2 rnd hs g :
  (size (delete rnd (resolved g)) < f1)%nat -> (size (delete rnd (resolved g)) < f2)%nat ->
  deliverRound_loop f1 rnd hs g = deliverRound_loop f2 rnd hs g.
Proof.
  revert f2 rnd hs g. induction f1 as [|f1 IH]; intros [|f2] rnd hs g H1 H2; try lia. simpl.
  destruct (deliverOne rnd hs g) as [g'|] eqn:E; simpl; [|done].
  apply deliverOne_frame in E as (Hr & _).
  destruct (resolved g' !! _) as [hs'|] eqn:El; [|done]. case_decide; [|done].
  pose proof (map_size_delete (u64 (rnd + 1)) (resolved g')) as Hsz. rewrite El in Hsz.
  assert (size (resolved g') <> 0)%nat.
  { intros Hz%map_size_empty_inv. rewrite Hz in El. done. }
  rewrite <-Hr in H1, H2. apply IH; lia.
Qed.

Lemma deliverRound_loop_S f rnd hs g :
  deliverRound_loop (S f) rnd hs g =
    g ← deliverOne rnd hs g;
    match resolved g !! u64 (rnd + 1) with
    | Some hs' => if decide (Z.of_nat (size hs') = nodeCount g)
                  then deliverRound_loop f (u64 (rnd + 1)) hs' g else Some g
    | None => Some g
    end.
Proof. done. Qed.

(** With the fuel of [deliverRound], the loop equation of the code holds. *)
Lemma deliverRound_eq rnd hs g :
  deliverRound rnd hs g =
    g ← deliverOne rnd hs g;
    match resolved g !! u64 (rnd + 1) with
    | Some hs' => if decide (Z.of_nat (size hs') = nodeCount g)
                  then deliverRound (u64 (rnd + 1)) hs' g else Some g
    | None => Some g
    end.
Proof.
  unfold deliverRound. change (2 + size (resolved g))%nat with (S (1 + size (resolved g))).
  rewrite deliverRound_loop_S. destruct (deliverOne rnd hs g) as [g'|] eqn:E; cbn [mbind option_bind]; [|done].
  apply deliverOne_frame in E as (Hr & _).
  destruct (resolved g' !! _) as [hs'|] eqn:El; [|done]. case_decide; [|done].
  pose proof (map_size_delete (u64 (rnd + 1)) (resolved g')).
  pose proof (map_size_delete rnd (resolved g)). rewrite <-Hr in *.
  apply deliverRound_loop_enough; repeat case_match; unfold id in *; lia.
Qed.

(** ** Rounds are delivered in order *)

(** After [k] callbacks the graph is at round [r0 + k], and the [i]-th callback
    was for round [r0 + i]. *)
Definition in_order (r0 : uint64) (g : Graph) : Prop :=
  round g = u64 (r0 + Z.of_nat (length (cbs g))) /\
  forall i c, cbs g !! i = Some c -> in_Round c = u64 (r0 + Z.of_nat i).

Lemma u64_succ x : u64 (u64 x + 1) = u64 (x + 1).
Proof. unfold wrap. by rewrite Zplus_mod_idemp_l. Qed.

Lemma deliverOne_in_order r0 hs g g' : in_order r0 g ->
  deliverOne (round g) hs g = Some g' -> in_order r0 g' /\ round g' = u64 (round g + 1).
Proof.
  intros [Hr Hc] (_ & Hr' & [c Hc'] & _)%deliverOne_frame. split; [|done]. split.
  - rewrite Hr', Hr, Hc', u64_succ, length_app. simpl. f_equal. lia.
  - intros i ci. rewrite Hc', lookup_app_Some. intros [?|[Hi Hl]]; [by apply Hc|].
    apply list_lookup_singleton_Some in Hl as [Hi' <-]. simpl. rewrite Hr. do 2 f_equal. lia.
Qed.

(** Induction over the calls of [deliverRound]: a property that [deliverOne]
    preserves when called for the current round is preserved. *)
Lemma deliverRound_ind (P : Graph -> Prop) hs g g' :
  (forall hs g g', P g -> deliverOne (round g) hs g = Some g' ->
     P g' /\ round g' = u64 (round g + 1)) ->
  P g -> deliverRound (round g) hs g = Some g' -> P g'.
Proof.
  intros Hstep. unfold deliverRound. generalize (2 + size (resolved g))%nat as fuel.
  intros fuel. revert hs g. induction fuel as [|fuel IH]; intros hs g HP H; [done|].
  simpl in H. apply bind_Some in H as (g1 & H1 & H).
  destruct (Hstep _ _ _ HP H1) as [HP1 Hr1].
  destruct (resolved g1 !! _) as [hs'|]; simplify_eq; [|done].
  case_decide; simplify_eq; [|done]. rewrite <-Hr1 in H. eauto.
Qed.

(** The resolved maps after the first part of [deliver]. *)
Definition resolve (node rnd : uint64) (hash : bytes) (g : Graph) : gmap uint64 (gmap uint64 bytes) :=
  <[rnd := <[node := hash]> (default ∅ (resolved g !! rnd))]> (resolved g).

(** [deliver] in one equation: stale rounds are ignored, a different hash kills
    the process, and the current round is delivered once it is complete. *)
Lemma deliver_cases node rnd hash g g' : deliver node rnd hash g = Some g' ->
  (rnd < round g /\ g' = g) \/
  (round g <= rnd /\
   (forall h, resolved g !! rnd ≫= (.!! node) = Some h -> h = hash) /\
   let g1 := set_resolved (resolve node rnd hash g) g in
   (g' = g1 \/ (rnd = round g /\ exists hs, deliverRound (round g) hs g1 = Some g'))).
Proof.
  unfold deliver. case_decide as Hlt; [intros; left; by simplify_eq|]. intros H.
  right. split; [lia|].
  apply bind_Some in H as ([hs g1] & H1 & H).
  assert ((forall h, resolved g !! rnd ≫= (.!! node) = Some h -> h = hash) /\
          g1 = set_resolved (resolve node rnd hash g) g) as [Hu ->].
  { unfold resolve. destruct (resolved g !! rnd) as [hs0|] eqn:E; simpl in *.
    - destruct (hs0 !! node) as [h0|] eqn:E0.
      + destruct (decide (h0 <> hash)) as [|Hd]; [done|]. apply dec_stable in Hd. simplify_eq.
        split; [congruence|]. rewrite (insert_id hs), (insert_id (resolved g1)) by done.
        by destruct g1.
      + simplify_eq. split; [congruence|done].
    - simplify_eq. done. }
  split; [done|]. simpl in *.
  destruct (decide (rnd <> round g)) as [|Hne]; simplify_eq; [by left|].
  apply dec_stable in Hne as ->. case_decide; simplify_eq; [|by left]. eauto.
Qed.

(** ** What a delivery leaves alone *)

Lemma forget_subseteq {A} info (m : gmap BlockID A) : forget info m ⊆ m.
Proof.
  unfold forget. generalize (bg_Deps (bi_data info)) as deps. intros deps.
  transitivity (delete (bg_Block (bi_data info)) m); [|apply delete_subseteq].
  generalize (delete (bg_Block (bi_data info)) m) as m'.
  induction deps as [|d deps IH]; intros m'; simpl; [done|].
  etrans; [apply IH|apply delete_subseteq].
Qed.

Lemma consume_subseteq rnd bs mx sts c bs' mx' sts' c' :
  consume rnd bs mx sts c = (bs', mx', sts', c') -> mx' ⊆ mx /\ sts' ⊆ sts.
Proof.
  revert mx sts c. induction bs as [|info bs IH]; intros mx sts c; simpl.
  { intros; by simplify_eq. }
  case_decide; [intros; by simplify_eq|]. intros [??]%IH.
  split; etrans; eauto using forget_subseteq.
Qed.

(** The configuration is constant, states are only forgotten and the heap of
    view change maps only grows. *)
Record frame (g g' : Graph) : Prop := {
  fr_nodeCount : nodeCount g' = nodeCount g;
  fr_nodes : nodes g' = nodes g;
  fr_quorum2f : quorum2f g' = quorum2f g;
  fr_quorum2f1 : quorum2f1 g' = quorum2f1 g;
  fr_entries : entries g' = entries g;
  fr_vcs : (length (vcs g) <= length (vcs g'))%nat;
  fr_statess : statess g' ⊆ statess g
}.

#[export] Instance frame_refl : Reflexive frame.
Proof. intros g. by constructor. Qed.
#[export] Instance frame_trans : Transitive frame.
Proof. intros g1 g2 g3 [] []. constructor; try congruence; [lia|etrans; eauto]. Qed.

Lemma deliverOne_frame' rnd hs g g' : deliverOne rnd hs g = Some g' -> frame g g'.
Proof.
  intros H. pose proof H as (_ & _ & _ & ? & ? & ? & ? & ? & Hv)%deliverOne_frame.
  constructor; try congruence; [rewrite Hv; lia|].
  unfold deliverOne in H. opt_inv.
  destruct (consume _ _ _ _ _) as [[[? ?] ?] ?] eqn:E. simplify_eq/=.
  by apply consume_subseteq in E as [_ ?].
Qed.

(** The hash resolved for a node in a round. *)
Definition hash_at (g : Graph) (rnd node : uint64) : option bytes :=
  resolved g !! rnd ≫= (.!! node).

(** The rounds stay below the wrap-around of [graph.round]. *)
Definition no_wrap (r0 : uint64) (g : Graph) : Prop := r0 + Z.of_nat (length (cbs g)) < 2 ^ 64.

Lemma deliverRound_inv r0 hs g g' : 0 <= r0 -> in_order r0 g ->
  deliverRound (round g) hs g = Some g' ->
  in_order r0 g' /\ frame g g' /\ (length (cbs g) <= length (cbs g'))%nat /\
  (no_wrap r0 g' -> forall r n, round g' <= r -> hash_at g' r n = hash_at g r n).
Proof.
  intros Hr0 Hord H.
  refine (deliverRound_ind (fun x => in_order r0 x /\ frame g x /\
    (length (cbs g) <= length (cbs x))%nat /\
    (no_wrap r0 x -> forall r n, round x <= r -> hash_at x r n = hash_at g r n)) hs g g' _ _ H);
    [|by repeat split; try apply Hord].
  clear hs g' H. intros hs x x' (Ho & Hf & Hl & Hh) Hone.
  destruct (deliverOne_in_order _ _ _ _ Ho Hone) as [Ho' Hr'].
  pose proof (deliverOne_frame' _ _ _ _ Hone) as Hf'.
  apply deliverOne_frame in Hone as (Hres & _ & [c Hc] & _).
  split; [|done]. split_and!; [done|by etrans|rewrite Hc, length_app; lia|].
  intros Hb r n Hr. unfold no_wrap in *. rewrite Hc, length_app in Hb. simpl in Hb.
  destruct Ho as [Hround _]. rewrite wrap_small in Hround by (split; lia).
  rewrite Hr', wrap_small in Hr by (split; lia).
  rewrite <-Hh by lia. unfold hash_at. rewrite Hres, lookup_delete_ne by lia. done.
Qed.

(** [deliver] in full: rounds stay in order, and a hash resolved for a round
    that is still open is kept, the new one being recorded. *)
Lemma deliver_inv r0 node rnd hash g g' : 0 <= r0 -> in_order r0 g ->
  deliver node rnd hash g = Some g' ->
  in_order r0 g' /\ frame g g' /\ (length (cbs g) <= length (cbs g'))%nat /\
  (no_wrap r0 g' -> round g <= round g' /\
     (round g' <= rnd -> hash_at g' rnd node = Some hash) /\
     forall r n h, round g' <= r -> hash_at g r n = Some h -> hash_at g' r n = Some h).
Proof.
  intros Hr0 Hord H. apply deliver_cases in H as [[? ->]|(Hge & Hu & Hcase)].
  { split_and!; try done. intros _. split_and!; try done. lia. }
  set (g1 := set_resolved (resolve node rnd hash g) g) in *.
  assert (in_order r0 g1) as Hord1 by apply Hord.
  assert (frame g g1) as Hf1 by by constructor.
  assert (hash_at g1 rnd node = Some hash) as Hnew.
  { unfold hash_at, g1, resolve. simpl. by rewrite lookup_insert_eq; simpl; rewrite lookup_insert_eq. }
  assert (forall r n h, hash_at g r n = Some h -> hash_at g1 r n = Some h) as Hold.
  { intros r n h Hh. unfold hash_at, g1, resolve in *. simpl.
    destruct (decide (r = rnd)) as [->|]; [|by rewrite lookup_insert_ne].
    rewrite lookup_insert_eq. simpl. destruct (decide (n = node)) as [->|].
    - rewrite lookup_insert_eq. by rewrite (Hu h Hh).
    - rewrite lookup_insert_ne by done. by destruct (resolved g !! rnd). }
  destruct Hcase as [->|(-> & hs & Hd)].
  { split_and!; try done. intros _. split_and!; try done. auto. }
  change (round g) with (round g1) in Hd at 1.
  apply (deliverRound_inv r0) in Hd as (Ho' & Hf' & Hl & Hh); [|done|done].
  split_and!; [done|by etrans|done|]. intros Hb. specialize (Hh Hb).
  assert (round g <= round g') as Hmono.
  { destruct Hord as [-> _], Ho' as [-> _]. unfold no_wrap in Hb. simpl in Hl.
    rewrite !wrap_small by (split; lia). lia. }
  split_and!; [done|intros; by rewrite Hh|intros; rewrite Hh by done; auto].
Qed.

Lemma deliverRound_loop_frame fuel rnd hs g g' :
  deliverRound_loop fuel rnd hs g = Some g' ->
  frame g g' /\ (length (cbs g) <= length (cbs g'))%nat.
Proof.
  revert rnd hs g. induction fuel as [|fuel IH]; intros rnd hs g H; [done|].
  simpl in H. apply bind_Some in H as (g1 & H1 & H).
  pose proof (deliverOne_frame' _ _ _ _ H1) as Hf.
  apply deliverOne_frame in H1 as (_ & _ & [c Hc] & _).
  assert (length (cbs g) <= length (cbs g1))%nat by (rewrite Hc, length_app; lia).
  destruct (resolved g1 !! _); simplify_eq; [|done].
  case_decide; simplify_eq; [|done].
  apply IH in H as [??]. split; [by etrans|lia].
Qed.

Lemma deliver_frame node rnd hash g g' : deliver node rnd hash g = Some g' ->
  frame g g' /\ (length (cbs g) <= length (cbs g'))%nat.
Proof.
  intros [[_ ->]|(_ & _ & [->|(_ & hs & Hd)])]%deliver_cases; [done|by split|].
  apply deliverRound_loop_frame in Hd as [[] Hl]. split; [by constructor|done].
Qed.
