(* ===== verification/GraphInv.v ===== *)
(** * GraphInv: invariants of the interpretation

    The handlers of [processMessage] keep the state of a block well formed,
    never lower a view, never change a final hash, and back every final hash
    by a quorum of commits. *)
From S2P Require Import Prelude Bitset Messages BmState Graph GraphDelivery.

(** ** Well-formed states *)

(** The values of the data map have the type their key calls for; [Final] keys
    do not occur, and view change maps are allocated. *)
Definition data_ok (heap : nat) (k : StateData) (v : DataVal) : Prop :=
  match k, v with
  | HNV _ _ _, DBool b => b = true
  | Prepared _ _ _, DString _ => True
  | PrePrepared n r w, DPrePrepare m => n = pp_Node m /\ r = pp_Round m /\ w = pp_View m
  | View _ _, DUint32 _ => True
  | ViewChanged _ _ _, DVcs addr => (addr < heap)%nat
  | _, _ => False
  end.

(** Senders are node IDs, hence unsigned. *)
Definition msg_ok (m : Message) : Prop :=
  match m with
  | MPrePrepare _ => True
  | MPrepare m | MCommit m | MViewChange m | MNewView m => 0 <= m_Sender m
  end.

(** A final hash was committed by at least [q] nodes in some view. *)
Definition backed (q : Z) (bs : gmap PrePrepare bitset) (nr : uint64 * uint64) (h : bytes) : Prop :=
  exists view b, bs !! MkPrePrepare h nr.1 nr.2 view = Some b /\ q <= commitCount b.

Record state_ok (cap q : Z) (heap : nat) (s : state) : Prop := {
  so_bits : map_Forall (fun _ => bitset_ok cap) (bitsets s);
  so_data : map_Forall (data_ok heap) (data s);
  so_final : map_Forall (backed q (bitsets s)) (final s);
  so_out : Forall msg_ok (out s)
}.

Definition st_ok (g : Graph) (s : state) : Prop :=
  state_ok (capacity (nodeCount g)) (quorum2f1 g) (length (vcs g)) s.

Definition view_of (s : state) (n r : uint64) : uint32 :=
  match data s !! View n r with Some (DUint32 v) => v | _ => 0 end.

Lemma emptyState_ok cap q heap : state_ok cap q heap emptyState.
Proof. constructor; [apply map_Forall_empty..|constructor]. Qed.

Lemma data_ok_mono heap heap' k v : (heap <= heap')%nat -> data_ok heap k v -> data_ok heap' k v.
Proof. intros ?. destruct k, v; simpl; auto with lia. Qed.

Lemma st_ok_mono g g' s : frame g g' -> st_ok g s -> st_ok g' s.
Proof.
  unfold st_ok. intros [-> _ _ -> _ Hv _] []. constructor; try done.
  eapply map_Forall_impl; [done|]. intros. by eapply data_ok_mono.
Qed.

(** [clone] keeps the bitsets that back the final hashes it keeps. *)
Lemma clone_ok cap q heap s minround :
  (forall s', s = Some s' -> state_ok cap q heap s') -> state_ok cap q heap (clone s minround).
Proof.
  destruct s as [s|]; [|intros; apply emptyState_ok]. intros H. destruct (H s eq_refl).
  constructor; simpl.
  - intros pp b (b0 & <- & [Hl _]%map_lookup_filter_Some)%lookup_fmap_Some.
    by destruct (so_bits0 _ _ Hl) as (?&?&?&?).
  - intros k v [Hl _]%map_lookup_filter_Some. by apply so_data0.
  - intros [n r] h [Hl Hr]%map_lookup_filter_Some.
    destruct (so_final0 _ _ Hl) as (view & b & Hb & Hq). exists view, (Bitset.clone b).
    split; [|done]. rewrite lookup_fmap.
    by rewrite (map_lookup_filter_Some_2 _ (bitsets s) _ b).
  - apply Forall_forall. intros m [_ Hm]%list_elem_of_filter.
    by eapply Forall_forall in so_out0.
Qed.

(** ** Elementary updates *)

Lemma getBitset_eq n pp s : let b := default (newBitset n) (bitsets s !! pp) in
  getBitset n pp s = (putBitset pp b s, b).
Proof.
  unfold getBitset, putBitset. destruct (bitsets s !! pp) eqn:E; simpl; [|done].
  rewrite insert_id by done. by destruct s.
Qed.

Lemma putBitset_twice pp b b' s : putBitset pp b (putBitset pp b' s) = putBitset pp b s.
Proof. unfold putBitset, set_bitsets. simpl. by rewrite insert_insert_eq. Qed.

Lemma getBitset_ok g pp s : 0 <= nodeCount g -> st_ok g s ->
  bitset_ok (capacity (nodeCount g)) (default (newBitset (nodeCount g)) (bitsets s !! pp)).
Proof.
  intros ? []. destruct (bitsets s !! pp) eqn:E; simpl; [by eapply so_bits0|].
  by apply newBitset_ok.
Qed.

(** Votes are only added. *)
Definition grows (b b' : bitset) : Prop := commit_set b ⊆ commit_set b'.

Lemma grows_commitCount b b' : grows b b' -> commitCount b <= commitCount b'.
Proof.
  unfold grows. intros H. rewrite !commitCount_size.
  apply subseteq_size in H. lia.
Qed.

Lemma putBitset_ok g pp b s : st_ok g s ->
  bitset_ok (capacity (nodeCount g)) b ->
  grows (default (newBitset (nodeCount g)) (bitsets s !! pp)) b -> st_ok g (putBitset pp b s).
Proof.
  intros [] Hb Hg. constructor; simpl; try done.
  - by apply map_Forall_insert_2.
  - intros nr h Hl. destruct (so_final0 _ _ Hl) as (view & b0 & Hb0 & Hq). exists view.
    destruct (decide (pp = MkPrePrepare h nr.1 nr.2 view)) as [->|].
    + exists b. rewrite lookup_insert_eq. split; [done|]. rewrite Hb0 in Hg.
      apply grows_commitCount in Hg. simpl in Hg. lia.
    + exists b0. by rewrite lookup_insert_ne.
Qed.

Lemma put_data_ok g k v s : st_ok g s -> data_ok (length (vcs g)) k v -> st_ok g (put_data k v s).
Proof. intros [] ?. constructor; simpl; try done. by apply map_Forall_insert_2. Qed.

Lemma set_timeouts_ok g x s : st_ok g s -> st_ok g (set_timeouts x s).
Proof. intros []. by constructor. Qed.
#[export] Hint Resolve putBitset_ok put_data_ok set_timeouts_ok getBitset_ok st_ok_mono : chain.

Lemma view_of_put_data k v s n r :
  view_of (put_data k v s) n r =
  if decide (k = View n r) then match v with DUint32 w => w | _ => 0 end else view_of s n r.
Proof. unfold view_of, put_data. simpl. rewrite lookup_insert. by case_decide. Qed.

(** [getView] only adds the view it returns. *)
Lemma getView_data n r s s' v : getView n r s = Some (s', v) ->
  data s' = <[View n r := DUint32 v]> (data s) /\ bitsets s' = bitsets s /\ final s' = final s.
Proof.
  unfold getView. destruct (data s !! View n r) as [[]|] eqn:E; intros; simplify_eq; simpl; [|done].
  by rewrite insert_id.
Qed.

(** ** One step of the interpretation *)

(** Every final hash of a round that is still open has been resolved. *)
Definition agrees (g : Graph) (s : state) : Prop :=
  forall n r h, final s !! (n, r) = Some h -> round g <= r -> hash_at g r n = Some h.

(** What every handler guarantees of the graph and of the state. *)
Record evolves (r0 : uint64) (g : Graph) (s : state) (g' : Graph) (s' : state) : Prop := {
  ev_frame : frame g g';
  ev_cbs : (length (cbs g) <= length (cbs g'))%nat;
  ev_order : in_order r0 g -> in_order r0 g';
  ev_ok : st_ok g s -> st_ok g' s';
  ev_final : final s ⊆ final s';
  ev_view : forall n r, view_of s n r <= view_of s' n r;
  ev_round : in_order r0 g -> no_wrap r0 g' -> round g <= round g';
  ev_hash : in_order r0 g -> no_wrap r0 g' ->
    forall r n h, round g' <= r -> hash_at g r n = Some h -> hash_at g' r n = Some h;
  ev_agrees : in_order r0 g -> no_wrap r0 g' -> agrees g s -> agrees g' s'
}.

Lemma no_wrap_mono r0 g g' : (length (cbs g) <= length (cbs g'))%nat -> no_wrap r0 g' -> no_wrap r0 g.
Proof. unfold no_wrap. lia. Qed.

Lemma evolves_refl r0 g s : evolves r0 g s g s.
Proof. by constructor. Qed.

Lemma evolves_trans r0 g1 s1 g2 s2 g3 s3 :
  evolves r0 g1 s1 g2 s2 -> evolves r0 g2 s2 g3 s3 -> evolves r0 g1 s1 g3 s3.
Proof.
  intros [F1 C1 O1 K1 L1 V1 R1 H1 A1] [F2 C2 O2 K2 L2 V2 R2 H2 A2].
  constructor; [by etrans|lia|auto|auto|etrans; eauto|intros n r; specialize (V1 n r); specialize (V2 n r); lia|..];
    intros Hi Hb; pose proof (no_wrap_mono _ _ _ C2 Hb) as Hb1.
  - etrans; auto.
  - intros r n h Hr Hh. apply H2; auto. apply H1; auto.
    etrans; [apply R2|]; auto.
  - auto.
Qed.

(** A handler that leaves the graph alone. *)
Lemma evolves_state r0 g s s' :
  (st_ok g s -> st_ok g s') -> final s' = final s ->
  (forall n r, view_of s n r <= view_of s' n r) -> evolves r0 g s g s'.
Proof.
  intros Hok Hf Hv. constructor; try done; [by rewrite Hf|].
  intros _ _ Ha n r h. rewrite Hf. apply Ha.
Qed.

(** ** The handlers *)

#[export] Instance grows_refl : Reflexive grows.
Proof. intros b. unfold grows. done. Qed.
#[export] Instance grows_trans : Transitive grows.
Proof. unfold grows. intros b1 b2 b3 ??. by etrans. Qed.

Lemma setPrepare_grows cap b v b' : bitset_ok cap b -> 0 <= v -> setPrepare b v = Some b' ->
  bitset_ok cap b' /\ grows b b'.
Proof.
  intros Hb Hv Hs. destruct (setPrepare_Some _ _ _ _ Hb Hv Hs) as (? & _ & _ & Hc).
  split; [done|]. unfold grows. by rewrite Hc.
Qed.

Lemma setCommit_grows cap b v b' : bitset_ok cap b -> 0 <= v -> setCommit b v = Some b' ->
  bitset_ok cap b' /\ grows b b'.
Proof.
  intros Hb Hv Hs. destruct (setCommit_Some _ _ _ _ Hb Hv Hs) as (? & _ & Hc & _).
  split; [done|]. unfold grows. rewrite Hc. apply union_subseteq_r.
Qed.

Section handlers.
Context (r0 : uint64) (g : Graph).
Context (Hr0 : 0 <= r0) (Hn : 0 <= nodeCount g).

Lemma onPrePrepare_evolves m v sender receiver s g' s' resp :
  0 <= sender -> 0 <= receiver ->
  onPrePrepare m v sender receiver s g = Some (g', s', resp) ->
  evolves r0 g s g' s' /\ (forall r, resp = Some r -> msg_ok r /\ (rank r < 3)%nat).
Proof using Hn Hr0.
  intros Hs Hr H. unfold onPrePrepare in H. cbv zeta in H. rewrite getBitset_eq in H.
  case_decide; [injection H as <- <- <-; split; [apply evolves_refl|done]|].
  case_decide; [injection H as <- <- <-; split; [apply evolves_refl|done]|].
  apply bind_Some in H as (b1 & Hb1 & H). apply bind_Some in H as (b2 & Hb2 & H).
  rewrite putBitset_twice in H. injection H as <- <- <-. split; [|intros ? [= <-]; simpl; auto with lia].
  apply evolves_state; [|done|].
  - intros Hok. pose proof (getBitset_ok g m s Hn Hok) as Hb0.
    destruct (setPrepare_grows _ _ _ _ Hb0 Hs Hb1) as [Hk1 Hg1].
    destruct (setPrepare_grows _ _ _ _ Hk1 Hr Hb2) as [Hk2 Hg2].
    apply put_data_ok; [|done]. apply putBitset_ok; [done..|by etrans].
  - intros n r. rewrite view_of_put_data. by case_decide.
Qed.

Lemma onPrepare_evolves m v receiver s g' s' resp :
  0 <= m_Sender m -> 0 <= receiver ->
  onPrepare m v receiver s g = Some (g', s', resp) ->
  evolves r0 g s g' s' /\ (forall r, resp = Some r -> msg_ok r /\ (rank r < 2)%nat).
Proof using Hn Hr0.
  intros Hs Hr H. unfold onPrepare in H. cbv zeta in H. rewrite !getBitset_eq in H.
  case_decide; [injection H as <- <- <-; split; [apply evolves_refl|done]|].
  assert (forall b1, setPrepare (default (newBitset (nodeCount g)) (bitsets s !! Pre m)) (m_Sender m)
            = Some b1 -> evolves r0 g s g (putBitset (Pre m) b1 s)) as Hput.
  { intros b1 Hb1. apply evolves_state; [|done..].
    intros Hok. pose proof (getBitset_ok g (Pre m) s Hn Hok) as Hb0.
    destruct (setPrepare_grows _ _ _ _ Hb0 Hs Hb1). by apply putBitset_ok. }
  destruct (decide (v < m_View m)).
  { apply bind_Some in H as (b1 & Hb1 & H). rewrite putBitset_twice in H.
    injection H as <- <- <-. split; [auto|done]. }
  apply bind_Some in H as (b1 & Hb1 & H). rewrite putBitset_twice in H.
  destruct (decide (prepareCount b1 <> quorum2f1 g)); [injection H as <- <- <-; split; [auto|done]|].
  apply bind_Some in H as (hc & Hhc & H). destruct hc; [injection H as <- <- <-; split; [auto|done]|].
  apply bind_Some in H as (b2 & Hb2 & H). rewrite putBitset_twice in H.
  injection H as <- <- <-. split; [|intros ? [= <-]; simpl; auto with lia].
  apply evolves_state; [|by repeat case_match|].
  - intros Hok. pose proof (getBitset_ok g (Pre m) s Hn Hok) as Hb0.
    destruct (setPrepare_grows _ _ _ _ Hb0 Hs Hb1) as [Hk1 Hg1].
    destruct (setCommit_grows _ _ _ _ Hk1 Hr Hb2) as [Hk2 Hg2].
    assert (st_ok g (putBitset (Pre m) b2 s)).
    { apply putBitset_ok; [done..|by etrans]. }
    case_match; [done|by apply put_data_ok].
  - intros nd r. simpl. case_match; [done|].
    rewrite view_of_put_data. by case_decide.
Qed.

Lemma onCommit_evolves m v s g' s' resp : 0 <= m_Sender m ->
  onCommit m v s g = Some (g', s', resp) ->
  evolves r0 g s g' s' /\ resp = None.
Proof using Hn Hr0.
  intros Hs H. unfold onCommit in H. cbv zeta in H. rewrite getBitset_eq in H.
  case_decide; [injection H as <- <- <-; split; [apply evolves_refl|done]|].
  apply bind_Some in H as (b1 & Hb1 & H). rewrite putBitset_twice in H.
  set (s1 := putBitset (Pre m) b1 s) in *.
  assert (st_ok g s -> st_ok g s1) as Hok1.
  { intros Hok. pose proof (getBitset_ok g (Pre m) s Hn Hok) as Hb0.
    destruct (setCommit_grows _ _ _ _ Hb0 Hs Hb1). by apply putBitset_ok. }
  assert (evolves r0 g s g s1) as Hev1 by by apply evolves_state.
  destruct (decide (commitCount b1 <> quorum2f1 g)) as [|Hq]; [by injection H as <- <- <-|].
  apply dec_stable in Hq.
  destruct (final s1 !! _) eqn:Ef; [by injection H as <- <- <-|].
  apply bind_Some in H as (g1 & Hd & H). injection H as <- <- <-. rename g1 into g'. split; [|done].
  assert (in_order r0 g -> in_order r0 g' /\ (no_wrap r0 g' -> round g <= round g' /\
     (round g' <= m_Round m -> hash_at g' (m_Round m) (m_Node m) = Some (m_Hash m)) /\
     forall r n h, round g' <= r -> hash_at g r n = Some h -> hash_at g' r n = Some h)) as Hdel.
  { intros Ho. destruct (deliver_inv r0 _ _ _ _ _ Hr0 Ho Hd) as (?&?&?&?). auto. }
  pose proof (deliver_frame _ _ _ _ _ Hd) as [Hf Hl].
  constructor; simpl; try done.
  - intros Ho. by apply Hdel.
  - intros Hok. apply (st_ok_mono g g'); [done|]. specialize (Hok1 Hok). destruct Hok1.
    constructor; simpl in *; try done. apply map_Forall_insert_2; [|done].
    exists (m_View m), b1. simpl. change (MkPrePrepare _ _ _ _) with (Pre m).
    rewrite lookup_insert_eq. split; [done|lia].
  - by apply insert_subseteq.
  - intros Ho Hb. by apply Hdel.
  - intros Ho Hb. by apply Hdel.
  - intros Ho Hb Ha n r h. simpl. destruct (Hdel Ho) as [_ Hd']. specialize (Hd' Hb).
    destruct Hd' as (Hr & Hnew & Hold). rewrite lookup_insert. case_decide as E.
    + injection E as <- <-. intros [= <-]. auto.
    + intros Hl' Hr'. apply Hold; [done|]. apply Ha; [done|lia].
Qed.

Lemma set_vcs_evolves x s : (length (vcs g) <= length x)%nat -> evolves r0 g s (set_vcs x g) s.
Proof using Hn Hr0.
  intros Hx. assert (frame g (set_vcs x g)) by by constructor.
  constructor; try done. by apply st_ok_mono.
Qed.

Lemma onViewChange_evolves m v receiver s g' s' resp : 0 <= receiver ->
  view_of s (m_Node m) (m_Round m) = v ->
  onViewChange m v receiver s g = Some (g', s', resp) ->
  evolves r0 g s g' s' /\ (forall r, resp = Some r -> msg_ok r /\ (rank r < 5)%nat).
Proof using Hn Hr0.
  intros Hr Hv H. unfold onViewChange in H. cbv zeta in H.
  case_decide; [injection H as <- <- <-; split; [apply evolves_refl|done]|].
  apply bind_Some in H as ([[addr s1] g1] & Halloc & H).
  assert (evolves r0 g s g1 s1 /\ view_of s1 (m_Node m) (m_Round m) = v) as [Hev1 Hv1].
  { destruct (data s !! _) as [[]|] eqn:E; simplify_eq; [split; [apply evolves_refl|done]|].
    split; [|by rewrite view_of_put_data].
    eapply evolves_trans; [apply (set_vcs_evolves (vcs g ++ [∅])); rewrite length_app; lia|].
    apply evolves_state; [|done|].
    - intros Hok. apply put_data_ok; [done|]. simpl. rewrite length_app. simpl. lia.
    - intros n r. rewrite view_of_put_data. by case_decide. }
  apply bind_Some in H as (votes & Hvotes & H).
  set (g2 := set_vcs _ g1) in *.
  assert (evolves r0 g s g2 s1) as Hev2.
  { eapply evolves_trans; [done|]. assert (frame g1 g2).
    { constructor; try done. unfold g2. simpl. by rewrite length_insert. }
    constructor; try done. by apply st_ok_mono. }
  destruct (decide (_ <> quorum2f1 g2)); [injection H as <- <- <-; by split|].
  apply bind_Some in H as (hash & _ & H). injection H as <- <- <-.
  split; [|intros ? [= <-]; simpl; auto with lia].
  eapply evolves_trans; [done|]. apply evolves_state; [by intros; apply put_data_ok|done|].
  intros nd r. rewrite view_of_put_data. case_decide as E; [|done]. injection E as <- <-. lia.
Qed.

Lemma onNewView_evolves m v origin s g' s' resp :
  view_of s (m_Node m) (m_Round m) = v ->
  onNewView m v origin s g = Some (g', s', resp) ->
  evolves r0 g s g' s' /\ (forall r, resp = Some r -> msg_ok r /\ (rank r < 4)%nat).
Proof using Hn Hr0.
  intros Hv H. unfold onNewView in H. cbv zeta in H.
  case_decide; [injection H as <- <- <-; split; [apply evolves_refl|done]|].
  case_decide; [injection H as <- <- <-; split; [apply evolves_refl|done]|].
  injection H as <- <- <-. split; [|intros ? [= <-]; simpl; auto with lia].
  apply evolves_state; [|done|].
  - intros Hok. apply put_data_ok; [|done]. apply set_timeouts_ok. by apply put_data_ok.
  - intros n r. rewrite view_of_put_data, decide_False by done.
    transitivity (view_of (put_data (View (m_Node m) (m_Round m)) (DUint32 (m_View m)) s) n r);
      [|done].
    rewrite view_of_put_data. case_decide as E; [|done]. injection E as <- <-. lia.
Qed.

Lemma getView_evolves n r s s' v : getView n r s = Some (s', v) ->
  evolves r0 g s g s' /\ view_of s' n r = v.
Proof using Hn Hr0.
  unfold getView. destruct (data s !! View n r) as [[]|] eqn:E; intros; simplify_eq.
  - split; [apply evolves_refl|]. unfold view_of. by rewrite E.
  - change (set_data _ s) with (put_data (View n r) (DUint32 0) s).
    split; [|by rewrite view_of_put_data, decide_True].
    apply evolves_state; [by intros; apply put_data_ok|done|].
    intros n' r'. rewrite view_of_put_data. case_decide as E'; [|done].
    injection E' as <- <-. unfold view_of. by rewrite E.
Qed.

Theorem processMessage_evolves sender receiver origin msg s g' s' resp :
  0 <= sender -> 0 <= receiver -> msg_ok msg ->
  processMessage sender receiver origin msg s g = Some (g', s', resp) ->
  evolves r0 g s g' s' /\ (forall r, resp = Some r -> msg_ok r /\ (rank r < rank msg)%nat).
Proof using Hn Hr0.
  intros Hs Hr Hm H. unfold processMessage in H.
  destruct (NodeRound msg) as [node rnd] eqn:En.
  destruct (is_final s node rnd); [injection H as <- <- <-; split; [apply evolves_refl|done]|].
  apply bind_Some in H as ([s1 v] & Hgv & H).
  destruct (getView_evolves _ _ _ _ _ Hgv) as [Hev Hv].
  cut (evolves r0 g s1 g' s' /\ (forall r, resp = Some r -> msg_ok r /\ (rank r < rank msg)%nat)).
  { intros [??]. split; [by eapply evolves_trans|done]. }
  destruct msg as [m|m|m|m|m]; simpl in *; injection En as <- <-.
  - by apply onPrePrepare_evolves in H.
  - by apply onPrepare_evolves in H.
  - apply onCommit_evolves in H as [? ->]; done.
  - by apply onViewChange_evolves in H.
  - by apply onNewView_evolves in H.
Qed.
End handlers.
