(* ===== verification/GraphRun.v ===== *)
(** * GraphRun: the invariants over whole runs of the graph

    Termination of [processMessages], and the properties of every graph that
    can be reached by adding block graphs and running the loop. *)
From S2P Require Import Prelude Bitset Messages BmState Graph GraphDelivery GraphInv.

(** ** [processMessages] *)

(** The fuel left to handle the messages from position [i] on. *)
Definition work (outs : list Message) (i : nat) : nat := sum_list_with rank (drop i outs).

Lemma rank_bounds m : (1 <= rank m <= 5)%nat.
Proof. destruct m; simpl; lia. Qed.

Lemma work_drop outs i m : outs !! i = Some m -> work outs i = (rank m + work outs (S i))%nat.
Proof. intros H. unfold work. by rewrite (drop_S _ _ _ H). Qed.

Lemma work_app outs outs' i : (i <= length outs)%nat ->
  work (outs ++ outs') i = (work outs i + sum_list_with rank outs')%nat.
Proof. intros ?. unfold work. rewrite drop_app_le by lia. apply sum_list_with_app. Qed.

Lemma work_le outs : (work outs 0 <= 5 * length outs)%nat.
Proof.
  unfold work. rewrite drop_0. induction outs as [|m outs IH]; simpl; [lia|].
  pose proof (rank_bounds m). lia.
Qed.

(** Every response has a smaller rank, whatever the state. *)
Lemma processMessage_rank sender receiver origin msg s g g' s' resp r :
  processMessage sender receiver origin msg s g = Some (g', s', resp) ->
  resp = Some r -> (rank r < rank msg)%nat.
Proof.
  unfold processMessage. intros H Hr.
  destruct (NodeRound msg) as [node rnd]. destruct (is_final s node rnd); [simplify_eq|].
  apply bind_Some in H as ([s1 v] & _ & H).
  destruct msg; [unfold onPrePrepare in H|unfold onPrepare in H|unfold onCommit in H
                |unfold onViewChange in H|unfold onNewView in H];
    cbv zeta in H; rewrite ?getBitset_eq in H;
    repeat (case_match || case_decide || opt_inv); simplify_eq; simpl; lia.
Qed.

Lemma pm_step_work sender receiver origin msg st outs st' outs' i :
  outs !! i = Some msg ->
  pm_step sender receiver origin msg st outs = Some (st', outs') ->
  (work outs' (S i) < work outs i)%nat /\ outs `prefix_of` outs'.
Proof.
  intros Hi H. destruct st as [[g s] processed]. unfold pm_step in H.
  rewrite (work_drop _ _ _ Hi). pose proof (rank_bounds msg).
  pose proof (lookup_lt_Some _ _ _ Hi).
  case_decide; [simplify_eq; split; [lia|done]|].
  apply bind_Some in H as ([[g1 s1] resp] & Hp & H). simplify_eq.
  split; [|by apply prefix_app_r]. rewrite work_app by lia.
  destruct resp as [r|]; simpl; [|lia].
  pose proof (processMessage_rank _ _ _ _ _ _ _ _ _ _ Hp eq_refl). lia.
Qed.

Lemma pm_step_length sender receiver origin msg st outs st' outs' :
  pm_step sender receiver origin msg st outs = Some (st', outs') ->
  (length outs' <= S (length outs))%nat.
Proof.
  destruct st as [[g s] processed]. unfold pm_step. case_decide; [intros; simplify_eq; lia|].
  intros ([[g1 s1] resp] & _ & Hs)%bind_Some. simplify_eq. rewrite length_app.
  destruct resp; simpl; lia.
Qed.

Lemma pm_drain_enough f1 f2 sender receiver origin i st outs :
  (work outs i <= f1)%nat -> (work outs i <= f2)%nat ->
  pm_drain f1 sender receiver origin i st outs = pm_drain f2 sender receiver origin i st outs.
Proof.
  revert f2 i st outs. induction f1 as [|f1 IH]; intros f2 i st outs H1 H2.
  - destruct (outs !! i) as [m|] eqn:E.
    + rewrite (work_drop _ _ _ E) in H1. pose proof (rank_bounds m). lia.
    + destruct f2; simpl; by rewrite E.
  - destruct (outs !! i) as [m|] eqn:E; [|destruct f2; simpl; by rewrite E].
    pose proof (rank_bounds m). pose proof (work_drop _ _ _ E).
    destruct f2 as [|f2]; [lia|]. simpl. rewrite E.
    destruct (pm_step _ _ _ _ _ _) as [[st' outs']|] eqn:Es; simpl; [|done].
    apply (pm_step_work _ _ _ _ _ _ _ _ i) in Es as [? _]; [|done]. apply IH; lia.
Qed.

Lemma pm_drain_length fuel sender receiver origin i st outs st' outs' :
  pm_drain fuel sender receiver origin i st outs = Some (st', outs') ->
  (length outs' <= length outs + work outs i)%nat.
Proof.
  revert i st outs. induction fuel as [|fuel IH]; intros i st outs H; simpl in H;
    destruct (outs !! i) as [m|] eqn:E; simplify_eq; try lia.
  apply bind_Some in H as ([st1 outs1] & Hs & H).
  apply IH in H. destruct st as [[g s] processed]. unfold pm_step in Hs.
  rewrite (work_drop _ _ _ E). pose proof (lookup_lt_Some _ _ _ E).
  case_decide; [simplify_eq; lia|].
  apply bind_Some in Hs as ([[g1 s1] resp] & Hp & Hs). simplify_eq.
  rewrite work_app, length_app in H by lia.
  destruct resp as [r|]; simpl in *; [|lia].
  pose proof (processMessage_rank _ _ _ _ _ _ _ _ _ _ Hp eq_refl). lia.
Qed.

(** ** Evolution of the graph and of the state of the block being processed *)

Section evolution.
Context (r0 : uint64) (Hr0 : 0 <= r0).

Definition pm_evolves (st st' : pm_state) : Prop :=
  evolves r0 st.1.1 st.1.2 st'.1.1 st'.1.2.

Lemma pm_step_evolves sender receiver origin msg st outs st' outs' :
  0 <= nodeCount st.1.1 -> 0 <= sender -> 0 <= receiver -> msg_ok msg -> Forall msg_ok outs ->
  pm_step sender receiver origin msg st outs = Some (st', outs') ->
  pm_evolves st st' /\ Forall msg_ok outs'.
Proof using Hr0.
  intros Hn Hs Hr Hm Ho H. destruct st as [[g s] processed]. unfold pm_step in H.
  case_decide; [simplify_eq; split; [apply evolves_refl|done]|].
  apply bind_Some in H as ([[g1 s1] resp] & Hp & H). simplify_eq.
  apply (processMessage_evolves r0) in Hp as [Hev Hresp]; [|done..].
  split; [done|]. apply Forall_app. split; [done|].
  destruct resp; simpl; repeat constructor. by apply (Hresp m).
Qed.

Lemma pm_evolves_trans st1 st2 st3 :
  pm_evolves st1 st2 -> pm_evolves st2 st3 -> pm_evolves st1 st3.
Proof. apply evolves_trans. Qed.

Lemma pm_nodeCount st st' : pm_evolves st st' -> nodeCount st'.1.1 = nodeCount st.1.1.
Proof. intros []. by apply fr_nodeCount. Qed.

Lemma pm_range_evolves sender receiver origin msgs st outs st' outs' :
  0 <= nodeCount st.1.1 -> 0 <= sender -> 0 <= receiver ->
  Forall msg_ok msgs -> Forall msg_ok outs ->
  pm_range sender receiver origin msgs st outs = Some (st', outs') ->
  pm_evolves st st' /\ Forall msg_ok outs'.
Proof using Hr0.
  revert st outs. induction msgs as [|m msgs IH]; intros st outs Hn Hs Hr Hm Ho H; simpl in H.
  { simplify_eq. split; [apply evolves_refl|done]. }
  apply bind_Some in H as ([st1 outs1] & H1 & H). inversion_clear Hm.
  apply pm_step_evolves in H1 as [Hev Ho1]; [|done..].
  apply IH in H as [Hev' ?]; [|by rewrite (pm_nodeCount _ _ Hev)|done..].
  split; [by eapply pm_evolves_trans|done].
Qed.

Lemma pm_drain_evolves fuel sender receiver origin i st outs st' outs' :
  0 <= nodeCount st.1.1 -> 0 <= sender -> 0 <= receiver -> Forall msg_ok outs ->
  pm_drain fuel sender receiver origin i st outs = Some (st', outs') ->
  pm_evolves st st' /\ Forall msg_ok outs'.
Proof using Hr0.
  revert i st outs. induction fuel as [|fuel IH]; intros i st outs Hn Hs Hr Ho H; simpl in H;
    (destruct (outs !! i) as [m|] eqn:E; [|simplify_eq; split; [apply evolves_refl|done]]);
    [done|].
  apply bind_Some in H as ([st1 outs1] & H1 & H).
  pose proof (Forall_lookup_1 _ _ _ _ Ho E) as Hm.
  apply pm_step_evolves in H1 as [Hev Ho1]; [|done..].
  apply IH in H as [Hev' ?]; [|by rewrite (pm_nodeCount _ _ Hev)|done..].
  split; [by eapply pm_evolves_trans|done].
Qed.

Lemma processMessages_evolves sender receiver origin msgs st st' outs' :
  0 <= nodeCount st.1.1 -> 0 <= sender -> 0 <= receiver -> Forall msg_ok msgs ->
  processMessages sender receiver origin msgs st = Some (st', outs') ->
  pm_evolves st st' /\ Forall msg_ok outs'.
Proof using Hr0.
  intros Hn Hs Hr Hm H. unfold processMessages in H.
  apply bind_Some in H as ([st1 outs1] & H1 & H).
  apply pm_range_evolves in H1 as [Hev Ho]; [|by constructor || done..].
  apply pm_drain_evolves in H as [Hev' ?]; [|by rewrite (pm_nodeCount _ _ Hev)|done..].
  split; [by eapply pm_evolves_trans|done].
Qed.

(** ** Blocks *)

(** What holds of the graph between two blocks. *)
Record graph_ok (g : Graph) : Prop := {
  go_nodeCount : 0 <= nodeCount g;
  go_order : in_order r0 g;
  go_states : forall id s, statess g !! id = Some s -> st_ok g s;
  go_agrees : no_wrap r0 g -> forall id s, statess g !! id = Some s -> agrees g s
}.

(** The node IDs of a received block are unsigned. *)
Definition id_ok (b : BlockID) : Prop := 0 <= Node b.
Definition entry_ok (e : entry) : Prop := id_ok (e_block e) /\ Forall id_ok (e_deps e).

Lemma graph_ok_evolves g s g' s' : graph_ok g -> evolves r0 g s g' s' -> graph_ok g'.
Proof using Hr0.
  intros [Hn Ho Hs Ha] [F C O K L V R H A]. pose proof F as [? ? ? ? ? ? Hsub].
  constructor; [congruence|auto|..].
  - intros id s0 Hl. eapply st_ok_mono; [done|]. eapply Hs, lookup_weaken; eauto.
  - intros Hb id s0 Hl n r h Hf Hr.
    specialize (R Ho Hb). apply H; auto.
    eapply Ha; [by eapply no_wrap_mono|by eapply lookup_weaken|done|lia].
Qed.

Lemma fireTimeouts_ok g node ts s outs s' outs' : 0 <= node ->
  fireTimeouts node ts s outs = Some (s', outs') ->
  (st_ok g s -> st_ok g s') /\ final s' = final s /\ (Forall msg_ok outs -> Forall msg_ok outs').
Proof using Type.
  intros Hnode. revert s outs. induction ts as [|t ts IH]; intros s outs H; simpl in H.
  { by simplify_eq. }
  destruct (is_final s _ _); [eauto|].
  apply bind_Some in H as (v & _ & H). case_decide; [eauto|].
  apply bind_Some in H as (hval & _ & H). apply IH in H as (Hok & Hf & Hm).
  split_and!; [|done|].
  - intros. apply Hok. by apply put_data_ok.
  - intros. apply Hm. apply Forall_app. split; [done|]. by repeat constructor.
Qed.

Lemma processDeps_evolves block deps st outs st' outs' :
  graph_ok st.1.1 -> id_ok block -> Forall id_ok deps -> Forall msg_ok outs ->
  processDeps block deps st outs = Some (st', outs') ->
  pm_evolves st st' /\ Forall msg_ok outs'.
Proof using Hr0.
  revert st outs. induction deps as [|d deps IH]; intros st outs Hg Hb Hd Ho H; simpl in H.
  { simplify_eq. split; [apply evolves_refl|done]. }
  apply bind_Some in H as ([st1 resp] & H1 & H). inversion_clear Hd.
  apply processMessages_evolves in H1 as [Hev Hr]; [|apply Hg|done|done|].
  - apply IH in H as [Hev' ?]; [| |done|done|by apply Forall_app].
    + split; [by eapply pm_evolves_trans|done].
    + by eapply graph_ok_evolves.
  - unfold getOutput. destruct (statess _ !! d) as [s0|] eqn:E; [|constructor].
    destruct Hg as [_ _ Hst _]. by destruct (Hst _ _ E).
Qed.

Lemma findOrCreateState_ok g e : graph_ok g ->
  st_ok g (findOrCreateState e g) /\ (no_wrap r0 g -> agrees g (findOrCreateState e g)).
Proof using Type.
  intros [Hn Ho Hs Ha]. unfold findOrCreateState. destruct (Valid _).
  - split; [apply clone_ok; by apply Hs|]. intros Hb.
    destruct (statess g !! e_prev e) as [s0|] eqn:E; [|by intros ???].
    intros n r h [Hl _]%map_lookup_filter_Some. by eapply Ha.
  - split; [apply emptyState_ok|by intros _ ???].
Qed.

(** Recording the state of the processed block. *)
Lemma record_ok g block s outs : graph_ok g -> st_ok g s -> (no_wrap r0 g -> agrees g s) ->
  Forall msg_ok outs -> graph_ok (set_statess (<[block := set_out outs s]> (statess g)) g).
Proof using Type.
  intros [Hn Ho Hs Ha] Hok Hag Hm. constructor; simpl; try done.
  - intros id s0. rewrite lookup_insert_Some. intros [[_ <-]|[_ Hl]]; [|by eapply Hs].
    destruct Hok. by constructor.
  - intros Hb id s0. rewrite lookup_insert_Some. intros [[_ <-]|[_ Hl]]; [by apply Hag|by eapply Ha].
Qed.

Lemma process_frame_ok e g g' : graph_ok g -> entry_ok e -> process e g = Some g' ->
  graph_ok g' /\ nodes g' = nodes g /\ nodeCount g' = nodeCount g /\
  quorum2f1 g' = quorum2f1 g /\ quorum2f g' = quorum2f g /\ entries g' = entries g.
Proof using Hr0.
  intros Hg [Hb Hd] H. unfold process in H.
  destruct (findOrCreateState_ok g e Hg) as [Hok Hag].
  set (s0 := findOrCreateState e g) in *. cbv zeta in H.
  apply bind_Some in H as (tval & _ & H).
  apply bind_Some in H as ([s1 outs1] & Ht & H).
  apply bind_Some in H as ([st2 resp2] & H2 & H).
  apply bind_Some in H as ([[[g3 s3] p3] outs3] & H3 & H). injection H as <-.
  apply (fireTimeouts_ok g) in Ht as (Hok1 & Hf1 & Hm1); [|done]. simpl in Hf1.
  assert (st_ok g s1) as Hs1 by (apply Hok1; destruct Hok; by constructor).
  assert (no_wrap r0 g -> agrees g s1) as Ha1.
  { intros Hw n r h. rewrite Hf1. by apply Hag. }
  apply processMessages_evolves in H2 as [Hev2 Hm2];
    [|apply Hg|done|done|apply Hm1; by repeat constructor].
  assert (graph_ok st2.1.1) as Hg2 by by eapply graph_ok_evolves.
  apply processDeps_evolves in H3 as [Hev3 Hm3];
    [|done|done|done|apply Forall_app; split; [apply Hm1; by repeat constructor|done]].
  pose proof (pm_evolves_trans _ _ _ Hev2 Hev3) as Hev. unfold pm_evolves in Hev. simpl in Hev.
  pose proof (graph_ok_evolves _ _ _ _ Hg Hev) as Hg3.
  destruct Hev as [[] C O K L V R HH A].
  split; [|done]. apply record_ok; [done|auto| |done].
  intros Hw. apply A; [apply Hg|done|]. apply Ha1. by eapply no_wrap_mono.
Qed.

Lemma processAll_ok es g g' : graph_ok g -> Forall entry_ok es -> processAll es g = Some g' ->
  graph_ok g' /\ nodes g' = nodes g /\ nodeCount g' = nodeCount g /\
  quorum2f1 g' = quorum2f1 g /\ quorum2f g' = quorum2f g /\ entries g' = entries g.
Proof using Hr0.
  revert g. induction es as [|e es IH]; intros g Hg He H; simpl in H; [by simplify_eq|].
  apply bind_Some in H as (g1 & H1 & H). inversion_clear He.
  apply process_frame_ok in H1 as (Hg1 & ? & ? & ? & ? & ?); [|done..].
  apply IH in H as (? & ? & ? & ? & ? & ?); [|done..]. split_and!; [done|congruence..].
Qed.

Definition dep_ok (d : Dep) : Prop :=
  id_ok (dep_Block d) /\ id_ok (dep_Prev d) /\ Forall id_ok (dep_Deps d).
Definition bg_ok (d : BlockGraph) : Prop :=
  id_ok (bg_Block d) /\ id_ok (bg_Prev d) /\ Forall dep_ok (bg_Deps d).

Lemma depEntries_ok rnd deps mx m es mx' m' : Forall dep_ok deps ->
  depEntries rnd deps mx m = (es, mx', m') -> Forall entry_ok es.
Proof using Type.
  revert mx m es. induction deps as [|d deps IH]; intros mx m es Hd H; simpl in H.
  { simplify_eq. constructor. }
  inversion_clear Hd as [|? ? (Hb & Hp & Hl) Hd'].
  destruct (if decide (Round (dep_Block d) <> 1) then _ else _) as [edeps acc] eqn:Ea.
  assert (Forall id_ok edeps).
  { destruct (decide (Round (dep_Block d) <> 1)); simplify_eq; [by constructor|done]. }
  cbv zeta in H. destruct (depEntries rnd deps _ _) as [[es2 mx2] m2] eqn:E2. simplify_eq.
  constructor; [by split|by eapply IH].
Qed.

Lemma runStep_ok d g g' : graph_ok g -> bg_ok d -> runStep d g = Some g' ->
  graph_ok g' /\ nodes g' = nodes g /\ nodeCount g' = nodeCount g /\
  quorum2f1 g' = quorum2f1 g /\ quorum2f g' = quorum2f g /\ entries g' = entries g.
Proof using Hr0.
  intros Hg (Hb & Hp & Hd) H. unfold runStep in H.
  destruct (depEntries _ _ _ _) as [[es mx] m] eqn:E. cbv zeta in H.
  apply bind_Some in H as (g1 & H1 & H).
  apply processAll_ok in H1 as (Hg1 & ? & ? & ? & ? & ?);
    [|by destruct Hg; constructor|by eapply depEntries_ok].
  apply process_frame_ok in H as (? & ? & ? & ? & ? & ?); [|done|].
  - simpl in *. split_and!; [done|congruence..].
  - split; [done|]. constructor; [done|]. apply Forall_fmap.
    eapply Forall_impl; [done|]. by intros ? [].
Qed.
End evolution.

(** ** Every reachable graph *)

(** The graphs reached from a configuration by adding well-typed block graphs
    and running the loop. *)
Inductive step : Graph -> Graph -> Prop :=
  | step_add d g : bg_ok d -> step g (Add d g)
  | step_run g g' : entries g <> [] -> run g = Some g' -> step g g'.

Definition reachable (cfg : Config) (g : Graph) : Prop := rtc step (New cfg) g.

Definition first_round (cfg : Config) : uint64 := u64 (LastInterpreted cfg + 1).

(** The quorums of a configuration. *)
Definition config_ok (cfg : Config) (g : Graph) : Prop :=
  nodes g = Nodes cfg /\ nodeCount g = Z.of_nat (length (Nodes cfg)) /\
  quorum2f g = quorum2f (New cfg) /\ quorum2f1 g = quorum2f1 (New cfg).

Lemma New_ok cfg : graph_ok (first_round cfg) (New cfg).
Proof.
  constructor; simpl; try done; [lia|].
  split; simpl; [|done]. unfold first_round. rewrite Z.add_0_r. unfold wrap.
  by rewrite Zmod_mod.
Qed.

Lemma reachable_ok cfg g : reachable cfg g ->
  graph_ok (first_round cfg) g /\ Forall bg_ok (entries g) /\ config_ok cfg g.
Proof.
  unfold reachable. intros H.
  refine (rtc_ind_r (fun g => graph_ok (first_round cfg) g /\ Forall bg_ok (entries g) /\
            config_ok cfg g) (New cfg) _ _ _ H).
  { split_and!; [apply New_ok|constructor|done]. }
  clear g H. intros g g' _ Hstep (Hg & He & Hc). destruct Hstep as [d g Hd|g g' Hne Hrun].
  { split_and!; [by destruct Hg; constructor|by apply Forall_app_2; [|constructor]|done]. }
  unfold run in Hrun. destruct (entries g) as [|d ds] eqn:E; [done|]. inversion_clear He.
  assert (0 <= first_round cfg) by (apply Z.mod_pos_bound; lia).
  apply (runStep_ok (first_round cfg)) in Hrun as (Hg' & Hn & Hnc & Hq1 & Hq & Hen);
    [|done|by destruct Hg; constructor|done].
  split_and!; [done|by rewrite Hen|].
  destruct Hc as (? & ? & ? & ?). split_and!; simpl in *; congruence.
Qed.
