(* ===== verification/GraphProps.v ===== *)
(** * GraphProps: what the consensus core promises

    The statements about [src/blockmania] that the rest of the system relies
    on, with a concrete run of four nodes as witness. *)
From S2P Require Import Prelude Bitset Messages BmState Graph GraphDelivery GraphInv GraphRun.

(** ** Feeding block graphs to the loop *)

Definition feed (ds : list BlockGraph) (g : Graph) : option Graph :=
  foldl (fun g d => g ← g; run (Add d g)) (Some g) ds.

Lemma feed_None ds : foldl (fun g d => g ← g; run (Add d g)) None ds = None.
Proof. induction ds; simpl; auto. Qed.

Lemma feed_reachable ds g g' : Forall bg_ok ds -> feed ds g = Some g' -> rtc step g g'.
Proof.
  unfold feed. intros Hd. revert g. induction Hd as [|d ds Hd Hds IH]; intros g H; simpl in H.
  { by simplify_eq. }
  destruct (run (Add d g)) as [g1|] eqn:E; [|by rewrite feed_None in H].
  eapply rtc_l; [by apply step_add|]. eapply rtc_l; [|by apply IH].
  apply step_run; [simpl; by destruct (entries g)|done].
Qed.

(** A shard of four nodes seen by node 1: every block refers to the blocks of
    the previous round of the nodes [active], the others being silent. *)
Module Example4.
Definition cfg : Config := MkConfig 0 [1; 2; 3; 4] 1 4.
Definition B (n r : Z) : BlockID := if r <=? 0 then zeroBlockID else MkBlockID [n; r] n r.
Section active.
Context (active : list Z).
Definition others (n : Z) : list Z := filter (fun m => m <> n) active.
Definition links (n r : Z) : list BlockID :=
  if r <=? 1 then [] else (fun m => B m (r - 1)) <$> others n.
Definition bg (r : Z) : BlockGraph :=
  MkBlockGraph (B 1 r)
    (if r <=? 1 then []
     else (fun m => MkDep (B m (r - 1)) (links m (r - 1)) (B m (r - 2))) <$> others 1)
    (B 1 (r - 1)).
(** The graph after the first [n] blocks of node 1. *)
Definition after (n : Z) : option Graph := feed (bg <$> seqZ 1 n) (New cfg).
Definition graph (n : Z) : Graph := default (New cfg) (after n).
End active.

Lemma graph_reachable active n :
  Forall bg_ok (bg active <$> seqZ 1 n) -> bool_decide (is_Some (after active n)) = true ->
  reachable cfg (graph active n).
Proof.
  intros Hb [g Hg]%bool_decide_eq_true. unfold graph. rewrite Hg.
  by apply (feed_reachable (bg active <$> seqZ 1 n)).
Qed.

Lemma full_reachable : reachable cfg (graph [1; 2; 3; 4] 6).
Proof. apply graph_reachable; [repeat (constructor || done)|by vm_compute]. Qed.
Lemma partial_reachable : reachable cfg (graph [1; 2; 3] 6).
Proof. apply graph_reachable; [repeat (constructor || done)|by vm_compute]. Qed.
End Example4.

(** ** Agreement and finality *)

(** The hash that the state of block [id] holds as final for [node] in [rnd]. *)
Definition final_at (g : Graph) (id : BlockID) (node rnd : uint64) : option bytes :=
  s ← statess g !! id; final s !! (node, rnd).

Lemma final_at_Some g id node rnd h : final_at g id node rnd = Some h ->
  exists s, statess g !! id = Some s /\ final s !! (node, rnd) = Some h.
Proof. intros (s & ? & ?)%bind_Some. eauto. Qed.

(** C1. Agreement: in every reachable graph, all block states that hold a final
    hash for the same node in a round that is still open hold the same hash,
    and it is the hash that will be delivered for that node and round. *)
Theorem final_agreement cfg g id1 id2 node rnd h1 h2 :
  reachable cfg g -> first_round cfg + Z.of_nat (length (cbs g)) < 2 ^ 64 ->
  round g <= rnd ->
  final_at g id1 node rnd = Some h1 -> final_at g id2 node rnd = Some h2 ->
  h1 = h2 /\ hash_at g rnd node = Some h1.
Proof.
  intros Hg%reachable_ok Hw Hr (s1 & Hs1 & Hf1)%final_at_Some (s2 & Hs2 & Hf2)%final_at_Some.
  destruct Hg as [[_ _ _ Ha] _].
  pose proof (Ha Hw _ _ Hs1 _ _ _ Hf1 Hr). pose proof (Ha Hw _ _ Hs2 _ _ _ Hf2 Hr).
  split; congruence.
Qed.

Lemma final_agreement_witness :
  let g := Example4.graph [1; 2; 3] 6 in
  final_at g (Example4.B 2 4) 3 1 = Some [3; 1] /\ hash_at g 1 3 = Some [3; 1].
Proof.
  split; [by vm_compute|].
  apply (final_agreement Example4.cfg _ (Example4.B 2 4) (Example4.B 1 6) 3 1 [3; 1] [3; 1]);
    [apply Example4.partial_reachable|by vm_compute..].
Defined.

Lemma reachable_backed cfg g id node rnd h :
  reachable cfg g -> final_at g id node rnd = Some h ->
  exists s view b, statess g !! id = Some s /\
    bitsets s !! MkPrePrepare h node rnd view = Some b /\ quorum2f1 (New cfg) <= commitCount b.
Proof.
  intros Hg%reachable_ok (s & Hs & Hf)%final_at_Some.
  destruct Hg as ([_ _ Hst _] & _ & _ & _ & _ & Hq).
  destruct (Hst _ _ Hs) as [_ _ Hb _]. destruct (Hb _ _ Hf) as (view & b & Hl & Hc).
  exists s, view, b. by rewrite <-Hq.
Qed.

(** C2. Every final hash of a reachable state is backed by a quorum: some
    pre-prepare of that node, round and hash has commit votes of at least
    [2f+1] distinct nodes recorded in the same state. *)
Theorem final_has_quorum cfg g id node rnd h :
  reachable cfg g -> final_at g id node rnd = Some h ->
  exists s view b, statess g !! id = Some s /\
    bitsets s !! MkPrePrepare h node rnd view = Some b /\
    quorum2f1 (New cfg) <= Z.of_nat (size (commit_set b)).
Proof.
  intros Hg Hf. destruct (reachable_backed _ _ _ _ _ _ Hg Hf) as (s & view & b & ? & ? & ?).
  exists s, view, b. by rewrite <-commitCount_size.
Qed.

Lemma final_has_quorum_witness :
  final_at (Example4.graph [1; 2; 3] 6) (Example4.B 2 4) 3 1 = Some [3; 1] /\
  exists s view b, statess (Example4.graph [1; 2; 3] 6) !! Example4.B 2 4 = Some s /\
    bitsets s !! MkPrePrepare [3; 1] 3 1 view = Some b /\
    quorum2f1 (New Example4.cfg) <= Z.of_nat (size (commit_set b)).
Proof.
  split; [by vm_compute|].
  apply (final_has_quorum Example4.cfg); [apply Example4.partial_reachable|by vm_compute].
Defined.

(** C3. Rounds are delivered in order: in every reachable graph the [i]-th call
    of the callback was for round [LastInterpreted + 1 + i], and the next round
    to deliver follows the last delivered one. *)
Theorem rounds_in_order cfg g : reachable cfg g ->
  round g = u64 (first_round cfg + Z.of_nat (length (cbs g))) /\
  forall i c, cbs g !! i = Some c -> in_Round c = u64 (first_round cfg + Z.of_nat i).
Proof. intros Hg%reachable_ok. apply Hg. Qed.

Lemma rounds_in_order_witness :
  length (cbs (Example4.graph [1; 2; 3; 4] 6)) = 3%nat /\
  round (Example4.graph [1; 2; 3; 4] 6) = u64 (1 + 3).
Proof.
  split; [by vm_compute|].
  destruct (rounds_in_order _ _ Example4.full_reachable) as [Hr _].
  etrans; [exact Hr|]. by vm_compute.
Defined.

(** Handling a message never revokes anything: a final hash stays, and the
    view of every node and round grows or stays. *)
Theorem processMessage_monotone sender receiver origin msg s g g' s' resp :
  0 <= nodeCount g -> 0 <= sender -> 0 <= receiver -> msg_ok msg ->
  processMessage sender receiver origin msg s g = Some (g', s', resp) ->
  final s ⊆ final s' /\ (forall n r, view_of s n r <= view_of s' n r) /\
  nodeCount g' = nodeCount g /\ quorum2f1 g' = quorum2f1 g /\ statess g' ⊆ statess g.
Proof.
  intros Hn Hs Hr Hm H.
  apply (processMessage_evolves 0) in H as [[[] _ _ _ Hf Hv _ _ _] _]; done.
Qed.

Lemma processMessage_monotone_witness :
  match processMessage 2 1 zeroBlockID (MViewChange (MkSigned [] 3 1 2 1)) emptyState
          (New Example4.cfg) with
  | Some (_, s', _) => forall n r, view_of emptyState n r <= view_of s' n r
  | None => False
  end.
Proof.
  destruct (processMessage _ _ _ _ _ _) as [[[g' s'] resp]|] eqn:E; [|by vm_compute in E].
  by apply processMessage_monotone in E as (_ & Hv & _).
Defined.

(** ** Termination *)

(** [processMessages] ends: every response ranks below the message it
    answers, so the loop that consumes its own output stops after at most five
    iterations per initial response; any larger fuel gives the same result, and
    the number of messages it emits is bounded accordingly. *)
Theorem processMessages_terminates sender receiver origin msgs st :
  (forall extra, (st1 ← pm_range sender receiver origin msgs st [];
                  pm_drain (5 * length st1.2 + extra) sender receiver origin 0 st1.1 st1.2)
               = processMessages sender receiver origin msgs st) /\
  (forall st' outs, processMessages sender receiver origin msgs st = Some (st', outs) ->
     (length outs <= 6 * length msgs)%nat).
Proof.
  split.
  - intros extra. unfold processMessages.
    destruct (pm_range _ _ _ _ _ _) as [[st1 outs1]|]; simpl; [|done].
    pose proof (work_le outs1). apply pm_drain_enough; lia.
  - intros st' outs H. unfold processMessages in H.
    apply bind_Some in H as ([st1 outs1] & H1 & H). apply pm_drain_length in H.
    pose proof (work_le outs1).
    assert (forall msgs st outs st' outs', pm_range sender receiver origin msgs st outs
              = Some (st', outs') -> (length outs' <= length outs + length msgs)%nat) as Hrange.
    { clear. induction msgs as [|m msgs IH]; intros st outs st' outs' H; simpl in *.
      { simplify_eq. lia. }
      apply bind_Some in H as ([st1 outs1] & H1 & H). apply IH in H.
      apply pm_step_length in H1. lia. }
    apply Hrange in H1. simpl in H1. lia.
Qed.

(** [deliverRound] ends: each recursive call drops a resolved round, so any
    fuel above the number of resolved rounds gives the same result. *)
Theorem deliverRound_terminates fuel rnd hs g :
  (1 + size (resolved g) < fuel)%nat ->
  deliverRound_loop fuel rnd hs g = deliverRound rnd hs g.
Proof.
  intros Hf. pose proof (map_size_delete rnd (resolved g)). unfold deliverRound.
  apply deliverRound_loop_enough; case_match; unfold id in *; lia.
Qed.

Lemma deliverRound_terminates_witness :
  deliverRound_loop 7 1 {[ 1 := [5] ]} (New Example4.cfg) =
  deliverRound 1 {[ 1 := [5] ]} (New Example4.cfg).
Proof. apply deliverRound_terminates. vm_compute. lia. Defined.
