(* ===== verification/GraphLocal.v ===== *)
(** * GraphLocal: the instances of the interpretation are independent

    A state interprets one agreement for every node and round.  The handlers of
    [processMessage] in [src/blockmania/graph.go] read and write only the part of
    the state that belongs to the node and round of the message, so that [clone]
    in [src/blockmania/state.go] can drop the rounds that are over. *)
From S2P Require Import Prelude Bitset Messages BmState Graph GraphDelivery GraphInv GraphRun GraphProps.

(** ** The part of a state that belongs to some instances *)

Definition key_instance (k : StateData) : uint64 * uint64 :=
  match k with
  | Final n r | View n r => (n, r)
  | HNV n r _ | Prepared n r _ | PrePrepared n r _ | ViewChanged n r _ => (n, r)
  end.

(** A value of the data map with the map that it refers to. *)
Definition val_at (g : Graph) (v : option DataVal) : option (DataVal + option (gmap uint64 bytes)) :=
  match v with
  | Some (DVcs a) => Some (inr (vcs g !! a))
  | Some v => Some (inl v)
  | None => None
  end.

(** The timeouts of a round that concern some instances. *)
Definition timeouts_on (I : uint64 * uint64 -> Prop) {Idec : forall nr, Decision (I nr)} (s : state) (k : uint64) : list timeout :=
  filter (fun t => I (t_node t, t_round t)) (default [] (timeouts s !! k)).

(** The two states agree about the instances of [I], for the timeouts of these in
    the rounds of [J]. *)
Record same_on (I : uint64 * uint64 -> Prop) {Idec : forall nr, Decision (I nr)} (J : uint64 -> Prop) (g1 : Graph) (s1 : state) (g2 : Graph) (s2 : state) : Prop := {
  sa_data k : I (key_instance k) -> val_at g1 (data s1 !! k) = val_at g2 (data s2 !! k);
  sa_bits pp : I (pp_Node pp, pp_Round pp) -> bitsets s1 !! pp = bitsets s2 !! pp;
  sa_final nr : I nr -> final s1 !! nr = final s2 !! nr;
  sa_timeout : s_timeout s1 = s_timeout s2;
  sa_timeouts k : J k -> timeouts_on I s1 k = timeouts_on I s2 k }.

(** The graphs differ in the heap only. *)
Definition same_graph (g1 g2 : Graph) : Prop := g2 = set_vcs (vcs g2) g1.

(** The references of a state are allocated and not shared between its keys. *)
Record addr_ok (g : Graph) (s : state) : Prop := {
  ao_valid k a : data s !! k = Some (DVcs a) -> (a < length (vcs g))%nat;
  ao_inj k k' a : data s !! k = Some (DVcs a) -> data s !! k' = Some (DVcs a) -> k = k' }.

Definition not_ref (v : DataVal) : Prop := match v with DVcs _ => False | _ => True end.

Lemma val_at_cases g1 o1 g2 o2 : val_at g1 o1 = val_at g2 o2 ->
  (o1 = o2 /\ forall a, o1 <> Some (DVcs a)) \/
  (exists a1 a2, o1 = Some (DVcs a1) /\ o2 = Some (DVcs a2) /\ vcs g1 !! a1 = vcs g2 !! a2).
Proof.
  destruct o1 as [[]|], o2 as [[]|]; cbn; intros H; simplify_eq; eauto 10.
Qed.

Section primitives.
Context (I : uint64 * uint64 -> Prop) {Idec : forall nr, Decision (I nr)} (J : uint64 -> Prop).
Context (g1 g2 : Graph) (s1 s2 : state) (Hs : same_on I J g1 s1 g2 s2).

Lemma put_data_same k v : not_ref v -> same_on I J g1 (put_data k v s1) g2 (put_data k v s2).
Proof using Hs.
  destruct Hs. constructor; try done. intros k' Hk. cbn [put_data data set_data].
  destruct (decide (k' = k)) as [->|]; [rewrite !lookup_insert_eq; by destruct v|rewrite !lookup_insert_ne by done; auto].
Qed.
Lemma putBitset_same pp b : same_on I J g1 (putBitset pp b s1) g2 (putBitset pp b s2).
Proof using Hs.
  destruct Hs. constructor; try done. intros pp' Hp. cbn [putBitset bitsets set_bitsets].
  destruct (decide (pp' = pp)) as [->|]; [by rewrite !lookup_insert_eq|rewrite !lookup_insert_ne by done; auto].
Qed.
Lemma set_final_same nr h : same_on I J g1 (set_final (<[nr := h]> (final s1)) s1) g2 (set_final (<[nr := h]> (final s2)) s2).
Proof using Hs.
  destruct Hs. constructor; try done. intros nr' Hn. cbn [final set_final].
  destruct (decide (nr' = nr)) as [->|]; [by rewrite !lookup_insert_eq|rewrite !lookup_insert_ne by done; auto].
Qed.
Lemma set_timeouts_same k t :
  same_on I J g1 (set_timeouts (<[k := default [] (timeouts s1 !! k) ++ [t]]> (timeouts s1)) s1)
          g2 (set_timeouts (<[k := default [] (timeouts s2 !! k) ++ [t]]> (timeouts s2)) s2).
Proof using Hs.
  destruct Hs as [? ? ? ? Ht]. constructor; try done. intros k' Hk. specialize (Ht k' Hk). unfold timeouts_on in *. cbn [timeouts set_timeouts].
  destruct (decide (k' = k)) as [->|]; [|by rewrite !lookup_insert_ne].
  assert (filter (fun t => I (t_node t, t_round t)) (default [] (timeouts s1 !! k) ++ [t]) =
    filter (fun t => I (t_node t, t_round t)) (default [] (timeouts s2 !! k) ++ [t])) as Heq by (by rewrite !filter_app, Ht).
  by rewrite !lookup_insert_eq.
Qed.

(** Two references of a key: after the write they refer to the same map again. *)
Lemma write_same k a1 a2 votes : addr_ok g1 s1 -> addr_ok g2 s2 -> data s1 !! k = Some (DVcs a1) -> data s2 !! k = Some (DVcs a2) ->
  same_on I J (set_vcs (<[a1 := votes]> (vcs g1)) g1) s1 (set_vcs (<[a2 := votes]> (vcs g2)) g2) s2.
Proof using Hs.
  intros Ha1 Ha2 H1 H2. destruct Hs as [Hd ? ? ? ?]. constructor; try done. intros k' Hk.
  destruct (decide (k' = k)) as [->|Hne].
  - rewrite H1, H2. cbn. rewrite !list_lookup_insert_eq; [done|by eapply (ao_valid _ _ Ha2)|by eapply (ao_valid _ _ Ha1)].
  - specialize (Hd k' Hk). apply val_at_cases in Hd as [[Heq Hn]|(b1 & b2 & Hb1 & Hb2 & Heq)].
    + rewrite <-Heq. destruct (data s1 !! k') as [[]|]; try done. by destruct (Hn addr).
    + rewrite Hb1, Hb2. cbn. rewrite !list_lookup_insert_ne; [by rewrite Heq| |].
      * intros ->. apply Hne. by eapply (ao_inj _ _ Ha2).
      * intros ->. apply Hne. by eapply (ao_inj _ _ Ha1).
Qed.

(** A new map under a key, at the next address of each heap. *)
Lemma alloc_same k : addr_ok g1 s1 -> addr_ok g2 s2 ->
  same_on I J (set_vcs (vcs g1 ++ [∅]) g1) (put_data k (DVcs (length (vcs g1))) s1)
              (set_vcs (vcs g2 ++ [∅]) g2) (put_data k (DVcs (length (vcs g2))) s2).
Proof using Hs.
  intros Ha1 Ha2. destruct Hs as [Hd ? ? ? ?]. constructor; try done. intros k' Hk. cbn [put_data data set_data].
  destruct (decide (k' = k)) as [->|Hne].
  - rewrite !lookup_insert_eq. cbn. rewrite !lookup_app_r, !Nat.sub_diag by done. done.
  - rewrite !lookup_insert_ne by done. specialize (Hd k' Hk).
    apply val_at_cases in Hd as [[Heq Hn]|(b1 & b2 & Hb1 & Hb2 & Heq)].
    + rewrite <-Heq. destruct (data s1 !! k') as [[]|]; try done. by destruct (Hn addr).
    + rewrite Hb1, Hb2. cbn. pose proof (ao_valid _ _ Ha1 _ _ Hb1). pose proof (ao_valid _ _ Ha2 _ _ Hb2).
      by rewrite !lookup_app_l, Heq.
Qed.
End primitives.

(** ** The references stay in order *)

Section refs.
Context (g : Graph) (s : state) (Ha : addr_ok g s).

Lemma put_data_addr k v : not_ref v -> addr_ok g (put_data k v s).
Proof using Ha.
  intros Hv. destruct Ha as [Hval Hinj].
  assert (forall k' a, data (put_data k v s) !! k' = Some (DVcs a) -> data s !! k' = Some (DVcs a)) as Hk.
  { intros k' a. cbn. destruct (decide (k' = k)) as [->|]; [rewrite lookup_insert_eq; intros [= ->]; done|by rewrite lookup_insert_ne]. }
  constructor; [intros k' a H; eauto|]. intros k' k'' a H1 H2. eauto.
Qed.
Lemma alloc_addr k : addr_ok (set_vcs (vcs g ++ [∅]) g) (put_data k (DVcs (length (vcs g))) s).
Proof using Ha.
  destruct Ha as [Hval Hinj].
  assert (forall k' a, data (put_data k (DVcs (length (vcs g))) s) !! k' = Some (DVcs a) ->
    (k' = k /\ a = length (vcs g)) \/ (data s !! k' = Some (DVcs a) /\ (a < length (vcs g))%nat)) as Hk.
  { intros k' a. cbn. destruct (decide (k' = k)) as [->|]; [rewrite lookup_insert_eq; intros [= <-]; auto|].
    rewrite lookup_insert_ne by done. eauto. }
  constructor.
  - intros k' a [[-> ->]|[_ H]]%Hk; cbn; rewrite length_app; cbn; lia.
  - intros k' k'' a [[-> ->]|[H1 Hl1]]%Hk [[-> ?]|[H2 Hl2]]%Hk; [done|lia|lia|eauto].
Qed.
Lemma heap_addr x : (length (vcs g) <= length x)%nat -> addr_ok (set_vcs x g) s.
Proof using Ha. intros Hl. destruct Ha as [Hval Hinj]. constructor; [|done]. intros k a H. specialize (Hval k a H). cbn. lia. Qed.
Lemma same_data_addr s' : data s' = data s -> addr_ok g s'.
Proof using Ha. intros He. destruct Ha. constructor; intros *; rewrite He; eauto. Qed.
End refs.

(** ** Equal messages, equal answers *)

Lemma deliverOne_vcs x rnd hs g : deliverOne rnd hs (set_vcs x g) = set_vcs x <$> deliverOne rnd hs g.
Proof.
  unfold deliverOne. cbn [blocks set_vcs]. destruct (head (blocks g)) as [b|]; [|done]. cbn [mbind option_bind].
  cbn [max statess set_vcs]. destruct (consume _ _ _ _ _) as [[[? ?] ?] ?]. done.
Qed.
Lemma deliverRound_loop_vcs x fuel rnd hs g :
  deliverRound_loop fuel rnd hs (set_vcs x g) = set_vcs x <$> deliverRound_loop fuel rnd hs g.
Proof.
  revert rnd hs g. induction fuel as [|fuel IH]; intros rnd hs g; [done|]. cbn [deliverRound_loop].
  rewrite deliverOne_vcs. destruct (deliverOne rnd hs g) as [g'|]; [|done]. cbn.
  destruct (resolved g' !! _) as [hs'|]; [|done]. case_decide; [apply IH|done].
Qed.
Lemma deliver_vcs x node rnd h g : deliver node rnd h (set_vcs x g) = set_vcs x <$> deliver node rnd h g.
Proof.
  unfold deliver. cbn [round set_vcs resolved nodeCount]. case_decide; [done|].
  assert (forall hs g, (if decide (rnd <> round (set_vcs x g)) then Some (set_vcs x g)
    else if decide (Z.of_nat (size hs) = nodeCount (set_vcs x g)) then deliverRound rnd hs (set_vcs x g) else Some (set_vcs x g)) =
    set_vcs x <$> (if decide (rnd <> round g) then Some g
    else if decide (Z.of_nat (size hs) = nodeCount g) then deliverRound rnd hs g else Some g)) as Hd.
  { intros hs g'. cbn [round nodeCount set_vcs]. case_decide; [done|]. case_decide; [|done]. apply deliverRound_loop_vcs. }
  destruct (resolved g !! rnd) as [hs|]; [destruct (hs !! node) as [h'|]; [case_decide; [done|]|]|]; cbn [mbind option_bind].
  - exact (Hd hs g).
  - exact (Hd _ (set_resolved (<[rnd := <[node := h]> hs]> (resolved g)) g)).
  - exact (Hd _ (set_resolved (<[rnd := {[node := h]}]> (resolved g)) g)).
Qed.

Lemma set_vcs_id g : set_vcs (vcs g) g = g.
Proof. by destruct g. Qed.
Lemma deliver_heap node rnd h g g' : deliver node rnd h g = Some g' -> vcs g' = vcs g.
Proof. intros H. pose proof (deliver_vcs (vcs g) node rnd h g) as Hv. rewrite set_vcs_id, H in Hv. injection Hv as Hv. by rewrite Hv. Qed.

(** Only the heap of the graph matters. *)
Lemma same_on_heap I {Idec : forall nr, Decision (I nr)} J g1 s1 g2 s2 g1' g2' : vcs g1' = vcs g1 -> vcs g2' = vcs g2 ->
  same_on I J g1 s1 g2 s2 -> same_on I J g1' s1 g2' s2.
Proof.
  intros H1 H2 [Hd ? ? ? ?]. constructor; try done. intros k Hk. specialize (Hd k Hk).
  unfold val_at in *. by rewrite H1, H2.
Qed.
Lemma addr_ok_heap g g' s : vcs g' = vcs g -> addr_ok g s -> addr_ok g' s.
Proof. intros H []. constructor; [|done]. intros *. rewrite H. eauto. Qed.

Section agree.
Context (I : uint64 * uint64 -> Prop) {Idec : forall nr, Decision (I nr)} (J : uint64 -> Prop).

Record rel (g1 : Graph) (s1 : state) (g2 : Graph) (s2 : state) : Prop := {
  rel_graph : same_graph g1 g2; rel_same : same_on I J g1 s1 g2 s2;
  rel_addr1 : addr_ok g1 s1; rel_addr2 : addr_ok g2 s2 }.

Definition agree (r1 r2 : option (Graph * state * option Message)) : Prop :=
  match r1, r2 with
  | Some (g1, s1, m1), Some (g2, s2, m2) => m1 = m2 /\ rel g1 s1 g2 s2
  | None, None => True
  | _, _ => False
  end.

Lemma rel_put_data k v g1 s1 g2 s2 : rel g1 s1 g2 s2 -> not_ref v -> rel g1 (put_data k v s1) g2 (put_data k v s2).
Proof using Type. intros [] Hv. constructor; eauto using put_data_same, put_data_addr. Qed.
Lemma rel_putBitset pp b g1 s1 g2 s2 : rel g1 s1 g2 s2 -> rel g1 (putBitset pp b s1) g2 (putBitset pp b s2).
Proof using Type. intros []. constructor; [done|by apply putBitset_same|by eapply same_data_addr..]. Qed.
Lemma rel_set_final nr h g1 s1 g2 s2 : rel g1 s1 g2 s2 ->
  rel g1 (set_final (<[nr := h]> (final s1)) s1) g2 (set_final (<[nr := h]> (final s2)) s2).
Proof using Type. intros []. constructor; [done|by apply set_final_same|by eapply same_data_addr..]. Qed.
Lemma rel_set_timeouts k t g1 s1 g2 s2 : rel g1 s1 g2 s2 ->
  rel g1 (set_timeouts (<[k := default [] (timeouts s1 !! k) ++ [t]]> (timeouts s1)) s1)
      g2 (set_timeouts (<[k := default [] (timeouts s2 !! k) ++ [t]]> (timeouts s2)) s2).
Proof using Type. intros []. constructor; [done|by apply set_timeouts_same|by eapply same_data_addr..]. Qed.

Lemma same_graph_fields g1 g2 : same_graph g1 g2 -> nodeCount g1 = nodeCount g2 /\ quorum2f1 g1 = quorum2f1 g2.
Proof using Type. by intros ->. Qed.

Lemma rel_getBitset pp c g1 s1 g2 s2 : rel g1 s1 g2 s2 -> I (pp_Node pp, pp_Round pp) ->
  (getBitset c pp s1).2 = (getBitset c pp s2).2 /\ rel g1 (getBitset c pp s1).1 g2 (getBitset c pp s2).1.
Proof using Type.
  intros Hr Hi. unfold getBitset. rewrite <-(sa_bits _ _ _ _ _ _ (rel_same _ _ _ _ Hr) pp Hi).
  destruct (bitsets s1 !! pp) as [b|]; [done|]. split; [done|]. by apply (rel_putBitset pp (newBitset c)).
Qed.

Lemma rel_lookup g1 s1 g2 s2 k : rel g1 s1 g2 s2 -> I (key_instance k) ->
  (data s1 !! k = data s2 !! k /\ forall a, data s1 !! k <> Some (DVcs a)) \/
  (exists a1 a2, data s1 !! k = Some (DVcs a1) /\ data s2 !! k = Some (DVcs a2) /\ vcs g1 !! a1 = vcs g2 !! a2).
Proof using Type. intros Hr Hi. apply val_at_cases. by apply (sa_data _ _ _ _ _ _ (rel_same _ _ _ _ Hr)). Qed.

Lemma rel_isSome g1 s1 g2 s2 k : rel g1 s1 g2 s2 -> I (key_instance k) -> is_Some (data s1 !! k) <-> is_Some (data s2 !! k).
Proof using Type. intros Hr Hi. destruct (rel_lookup _ _ _ _ k Hr Hi) as [[-> _]|(a1 & a2 & -> & -> & _)]; [done|]. by split; eexists. Qed.

Lemma agree_getView n r g1 s1 g2 s2 : rel g1 s1 g2 s2 -> I (n, r) ->
  match getView n r s1, getView n r s2 with
  | Some (s1', v1), Some (s2', v2) => v1 = v2 /\ rel g1 s1' g2 s2'
  | None, None => True
  | _, _ => False
  end.
Proof using Type.
  intros Hr Hi. unfold getView. destruct (rel_lookup _ _ _ _ (View n r) Hr Hi) as [[<- Hn]|(a1 & a2 & -> & -> & _)]; [|done].
  destruct (data s1 !! View n r) as [[]|]; try done. split; [done|]. by apply rel_put_data.
Qed.

Lemma agree_onPrePrepare m v sender receiver g1 s1 g2 s2 : rel g1 s1 g2 s2 -> I (pp_Node m, pp_Round m) ->
  agree (onPrePrepare m v sender receiver s1 g1) (onPrePrepare m v sender receiver s2 g2).
Proof using Type.
  intros Hr Hi. unfold onPrePrepare. case_decide; [done|]. pose proof (rel_isSome _ _ _ _ (PrePrepared (pp_Node m) (pp_Round m) (pp_View m)) Hr Hi) as Hs.
  destruct (same_graph_fields _ _ (rel_graph _ _ _ _ Hr)) as [<- _].
  case_decide as H1; [rewrite decide_True by (by apply Hs)|rewrite decide_False by (by rewrite <-Hs)]; [done|].
  destruct (rel_getBitset m (nodeCount g1) _ _ _ _ Hr Hi) as [Hb Hr1].
  destruct (getBitset (nodeCount g1) m s1) as [s1' b], (getBitset (nodeCount g1) m s2) as [s2' b']. cbn in Hb, Hr1. subst b'.
  destruct (setPrepare b sender) as [b1|]; [|done]. cbn. destruct (setPrepare b1 receiver) as [b2|]; [|done]. cbn.
  split; [done|]. apply rel_put_data; [by apply rel_putBitset|done].
Qed.

Lemma agree_onPrepare m v receiver g1 s1 g2 s2 : rel g1 s1 g2 s2 -> I (m_Node m, m_Round m) ->
  agree (onPrepare m v receiver s1 g1) (onPrepare m v receiver s2 g2).
Proof using Type.
  intros Hr Hi. unfold onPrepare. destruct (same_graph_fields _ _ (rel_graph _ _ _ _ Hr)) as [<- <-].
  case_decide; [done|]. destruct (rel_getBitset (Pre m) (nodeCount g1) _ _ _ _ Hr Hi) as [Hb Hr1].
  destruct (getBitset (nodeCount g1) (Pre m) s1) as [s1' b], (getBitset (nodeCount g1) (Pre m) s2) as [s2' b']. cbn in Hb, Hr1. subst b'.
  case_decide; (destruct (setPrepare b (m_Sender m)) as [b1|]; [|done]); cbn [mbind option_bind].
  { split; [done|]. by apply rel_putBitset. }
  case_decide; [split; [done|]; by apply rel_putBitset|].
  destruct (hasCommit b1 receiver) as [[]|]; cbn [mbind option_bind]; [split; [done|]; by apply rel_putBitset| |done].
  destruct (setCommit b1 receiver) as [b2|]; [|done]. cbn [mbind option_bind]. split; [done|].
  pose proof (rel_putBitset (Pre m) b2 _ _ _ _ (rel_putBitset (Pre m) b1 _ _ _ _ Hr1)) as Hr2.
  pose proof (rel_isSome _ _ _ _ (Prepared (m_Node m) (m_Round m) (m_View m)) Hr2 Hi) as Hp.
  destruct (data _ !! _) eqn:E1, (data (putBitset (Pre m) b2 (putBitset (Pre m) b1 s2')) !! _) eqn:E2; [done| | |by apply rel_put_data].
  - destruct (proj1 Hp); [by eexists|]. done.
  - destruct (proj2 Hp); [by eexists|]. done.
Qed.

Lemma agree_onCommit m v g1 s1 g2 s2 : rel g1 s1 g2 s2 -> I (m_Node m, m_Round m) ->
  agree (onCommit m v s1 g1) (onCommit m v s2 g2).
Proof using Type.
  intros Hr Hi. unfold onCommit. destruct (same_graph_fields _ _ (rel_graph _ _ _ _ Hr)) as [<- <-].
  case_decide; [done|]. destruct (rel_getBitset (Pre m) (nodeCount g1) _ _ _ _ Hr Hi) as [Hb Hr1].
  destruct (getBitset (nodeCount g1) (Pre m) s1) as [s1' b], (getBitset (nodeCount g1) (Pre m) s2) as [s2' b']. cbn in Hb, Hr1. subst b'.
  destruct (setCommit b (m_Sender m)) as [b1|]; [|done]. cbn [mbind option_bind].
  pose proof (rel_putBitset (Pre m) b1 _ _ _ _ Hr1) as Hr2. case_decide; [done|].
  rewrite <-(sa_final _ _ _ _ _ _ (rel_same _ _ _ _ Hr2) _ Hi). destruct (final _ !! _) as [h|]; [done|].
  apply (rel_set_final (m_Node m, m_Round m) (m_Hash m)) in Hr2 as [Hg Hsame Ha1 Ha2].
  rewrite Hg, deliver_vcs. destruct (deliver _ _ _ g1) as [g'|] eqn:Hd; [|done]. split; [done|].
  apply deliver_heap in Hd. constructor; [done| | |].
  - exact (same_on_heap _ _ _ _ g2 _ g' (set_vcs (vcs g2) g') Hd eq_refl Hsame).
  - exact (addr_ok_heap _ g' _ Hd Ha1).
  - exact (addr_ok_heap g2 (set_vcs (vcs g2) g') _ eq_refl Ha2).
Qed.

Lemma agree_onNewView m v origin g1 s1 g2 s2 : rel g1 s1 g2 s2 -> I (m_Node m, m_Round m) ->
  agree (onNewView m v origin s1 g1) (onNewView m v origin s2 g2).
Proof using Type.
  intros Hr Hi. unfold onNewView. case_decide; [done|].
  pose proof (rel_isSome _ _ _ _ (HNV (m_Node m) (m_Round m) (m_View m)) Hr Hi) as Hs.
  case_decide as H1; [rewrite decide_True by (by apply Hs)|rewrite decide_False by (by rewrite <-Hs)]; [done|].
  split; [done|]. apply rel_put_data; [|done]. cbn [s_timeout put_data set_data].
  rewrite <-(sa_timeout _ _ _ _ _ _ (rel_same _ _ _ _ Hr)). by apply rel_set_timeouts, rel_put_data.
Qed.

Lemma agree_onViewChange m v receiver g1 s1 g2 s2 : rel g1 s1 g2 s2 -> I (m_Node m, m_Round m) ->
  agree (onViewChange m v receiver s1 g1) (onViewChange m v receiver s2 g2).
Proof using Type.
  intros Hr Hi. unfold onViewChange. case_decide; [done|].
  set (key := ViewChanged (m_Node m) (m_Round m) v).
  assert (forall a1 a2 s1 g1 s2 g2, rel g1 s1 g2 s2 -> data s1 !! key = Some (DVcs a1) -> data s2 !! key = Some (DVcs a2) ->
    vcs g1 !! a1 = vcs g2 !! a2 ->
    agree (votes ← vcs g1 !! a1;
           let votes := <[m_Sender m := m_Hash m]> votes in
           let g := set_vcs (<[a1 := votes]> (vcs g1)) g1 in
           if decide (Z.of_nat (size votes) <> quorum2f1 g) then Some (g, s1, None) else
           let s := put_data (View (m_Node m) (m_Round m)) (DUint32 (m_View m)) s1 in
           hash ← vcs_hash votes;
           Some (g, s, Some (MNewView (MkSigned hash (m_Node m) (m_Round m) receiver (m_View m)))))
          (votes ← vcs g2 !! a2;
           let votes := <[m_Sender m := m_Hash m]> votes in
           let g := set_vcs (<[a2 := votes]> (vcs g2)) g2 in
           if decide (Z.of_nat (size votes) <> quorum2f1 g) then Some (g, s2, None) else
           let s := put_data (View (m_Node m) (m_Round m)) (DUint32 (m_View m)) s2 in
           hash ← vcs_hash votes;
           Some (g, s, Some (MNewView (MkSigned hash (m_Node m) (m_Round m) receiver (m_View m)))))) as Hvote.
  { clear s1 g1 s2 g2 Hr. intros a1 a2 s1 g1 s2 g2 Hr H1 H2 <-. destruct (vcs g1 !! a1) as [votes|]; [|done].
    cbn [mbind option_bind]. cbv zeta. set (votes' := <[_ := _]> votes).
    assert (rel (set_vcs (<[a1 := votes']> (vcs g1)) g1) s1 (set_vcs (<[a2 := votes']> (vcs g2)) g2) s2) as Hr'.
    { destruct Hr as [Hg Hsm Ha1 Ha2]. constructor; [by rewrite Hg|by eapply write_same|by apply heap_addr; [|rewrite length_insert]..]. }
    cbn [quorum2f1 set_vcs]. destruct (same_graph_fields _ _ (rel_graph _ _ _ _ Hr)) as [_ <-].
    case_decide; [done|]. destruct (vcs_hash votes') as [h|]; [|done]. cbn. split; [done|]. by apply rel_put_data. }
  destruct (rel_lookup _ _ _ _ key Hr Hi) as [[<- Hn]|(a1 & a2 & H1 & H2 & Hv)].
  - destruct (data s1 !! key) as [[| | |a|]|] eqn:E; try done; [by destruct (Hn a)|]. cbn [mbind option_bind].
    destruct Hr as [Hg Hsm Ha1 Ha2]. apply Hvote.
    + constructor; [by rewrite Hg|by apply alloc_same|by apply alloc_addr..].
    + cbn. by rewrite lookup_insert_eq.
    + cbn. by rewrite lookup_insert_eq.
    + cbn. by rewrite !lookup_app_r, !Nat.sub_diag by done.
  - rewrite H1, H2. cbn [mbind option_bind]. by apply Hvote.
Qed.

(** The answer to a message, and what it changes in the instances of [I], depend
    only on these instances. *)
Lemma agree_processMessage sender receiver origin msg g1 s1 g2 s2 : rel g1 s1 g2 s2 -> I (NodeRound msg) ->
  agree (processMessage sender receiver origin msg s1 g1) (processMessage sender receiver origin msg s2 g2).
Proof using Type.
  intros Hr Hi. unfold processMessage. destruct (NodeRound msg) as [n r] eqn:Hnr.
  assert (is_final s1 n r = is_final s2 n r) as <-.
  { unfold is_final. apply bool_decide_ext. by apply (rel_isSome _ _ _ _ (Final n r) Hr). }
  destruct (is_final s1 n r); [done|]. pose proof (agree_getView n r _ _ _ _ Hr Hi) as Hv.
  destruct (getView n r s1) as [[s1' v]|], (getView n r s2) as [[s2' v']|]; try done. destruct Hv as [<- Hr1].
  cbn [mbind option_bind]. destruct msg as [m|m|m|m|m]; cbn in Hnr; injection Hnr as <- <-.
  - by apply agree_onPrePrepare.
  - by apply agree_onPrepare.
  - by apply agree_onCommit.
  - by apply agree_onViewChange.
  - by apply agree_onNewView.
Qed.
End agree.

(** ** A message leaves the other instances alone *)

Section others.
Context (I : uint64 * uint64 -> Prop) {Idec : forall nr, Decision (I nr)} (J : uint64 -> Prop).

Lemma same_on_refl g s : same_on I J g s g s.
Proof using Type. by constructor. Qed.
Lemma same_on_sym g1 s1 g2 s2 : same_on I J g1 s1 g2 s2 -> same_on I J g2 s2 g1 s1.
Proof using Type. intros []. constructor; intros; symmetry; auto. Qed.
Lemma same_on_trans g1 s1 g2 s2 g3 s3 : same_on I J g1 s1 g2 s2 -> same_on I J g2 s2 g3 s3 -> same_on I J g1 s1 g3 s3.
Proof using Type.
  intros [Hd Hb Hf Ht Hts] [Hd' Hb' Hf' Ht' Hts']. constructor.
  - intros k Hk. by rewrite Hd, Hd'.
  - intros pp Hk. by rewrite Hb, Hb'.
  - intros nr Hk. by rewrite Hf, Hf'.
  - by rewrite Ht, Ht'.
  - intros k Hk. by rewrite Hts, Hts'.
Qed.

(** [s'] in [g'] is like [s] in [g] but for instances outside of [I]. *)
Definition outside (g : Graph) (s : state) (g' : Graph) (s' : state) : Prop :=
  addr_ok g s -> same_on I J g s g' s' /\ addr_ok g' s'.

Lemma outside_refl g s : outside g s g s.
Proof using Type. intros Ha. split; [apply same_on_refl|done]. Qed.
Lemma outside_trans g1 s1 g2 s2 g3 s3 : outside g1 s1 g2 s2 -> outside g2 s2 g3 s3 -> outside g1 s1 g3 s3.
Proof using Type. intros H1 H2 Ha. destruct (H1 Ha) as [? Ha2]. destruct (H2 Ha2). split; [by eapply same_on_trans|done]. Qed.

Lemma outside_put_data k v g s : ~ I (key_instance k) -> not_ref v -> outside g s g (put_data k v s).
Proof using Type.
  intros Hk Hv Ha. split; [|by apply put_data_addr]. constructor; try done. intros k' Hk'. cbn [put_data data set_data].
  by rewrite lookup_insert_ne by (intros ->; done).
Qed.
Lemma outside_putBitset pp b g s : ~ I (pp_Node pp, pp_Round pp) -> outside g s g (putBitset pp b s).
Proof using Type.
  intros Hp Ha. split; [|by eapply same_data_addr]. constructor; try done. intros pp' Hp'. cbn [putBitset bitsets set_bitsets].
  by rewrite lookup_insert_ne by (intros ->; done).
Qed.
Lemma outside_set_final nr h g s : ~ I nr -> outside g s g (set_final (<[nr := h]> (final s)) s).
Proof using Type.
  intros Hn Ha. split; [|by eapply same_data_addr]. constructor; try done. intros nr' Hn'. cbn [final set_final].
  by rewrite lookup_insert_ne by (intros ->; done).
Qed.
Lemma outside_set_timeouts k t g s : ~ I (t_node t, t_round t) ->
  outside g s g (set_timeouts (<[k := default [] (timeouts s !! k) ++ [t]]> (timeouts s)) s).
Proof using Type.
  intros Ht Ha. split; [|by eapply same_data_addr]. constructor; try done. intros k' _. unfold timeouts_on. cbn [timeouts set_timeouts].
  destruct (decide (k' = k)) as [->|]; [|by rewrite lookup_insert_ne].
  assert (filter (fun t => I (t_node t, t_round t)) (default [] (timeouts s !! k) ++ [t]) =
    filter (fun t => I (t_node t, t_round t)) (default [] (timeouts s !! k))) as Heq
    by (rewrite filter_app, filter_cons_False by done; apply app_nil_r).
  by rewrite lookup_insert_eq.
Qed.
Lemma outside_heap g g' s : vcs g' = vcs g -> outside g s g' s.
Proof using Type. intros Hv Ha. split; [|by eapply addr_ok_heap]. constructor; try done. intros k _. unfold val_at. by rewrite Hv. Qed.

Lemma outside_write k a votes g s : ~ I (key_instance k) -> data s !! k = Some (DVcs a) ->
  outside g s (set_vcs (<[a := votes]> (vcs g)) g) s.
Proof using Type.
  intros Hk Hd Ha. split; [|apply heap_addr; [done|by rewrite length_insert]]. constructor; try done.
  intros k' Hk'. unfold val_at. destruct (data s !! k') as [[| | |a'|]|] eqn:Hd'; try done. cbn.
  rewrite list_lookup_insert_ne; [done|]. intros ->. apply Hk. by rewrite (ao_inj _ _ Ha _ _ _ Hd Hd').
Qed.
Lemma outside_alloc k g s : ~ I (key_instance k) ->
  outside g s (set_vcs (vcs g ++ [∅]) g) (put_data k (DVcs (length (vcs g))) s).
Proof using Type.
  intros Hk Ha. split; [|by apply alloc_addr]. constructor; try done. intros k' Hk'. cbn [put_data data set_data].
  rewrite lookup_insert_ne by (intros ->; done). unfold val_at. destruct (data s !! k') as [[| | |a'|]|] eqn:Hd'; try done. cbn.
  by rewrite lookup_app_l by (by eapply (ao_valid _ _ Ha)).
Qed.
Lemma outside_getBitset c pp g s : ~ I (pp_Node pp, pp_Round pp) -> outside g s g (getBitset c pp s).1.
Proof using Type. intros Hp. unfold getBitset. destruct (bitsets s !! pp); [apply outside_refl|by apply (outside_putBitset pp (newBitset c))]. Qed.
Lemma outside_getView n r g s s' v : ~ I (n, r) -> getView n r s = Some (s', v) -> outside g s g s'.
Proof using Type.
  intros Hn. unfold getView. destruct (data s !! View n r) as [[]|]; intros [= <- <-]; [apply outside_refl|].
  by apply (outside_put_data (View n r) (DUint32 0)).
Qed.

(** What a message of the instance [nr] does. *)
Definition stays (nr : uint64 * uint64) (g : Graph) (s : state) (r : Graph * state * option Message) : Prop :=
  let '(g', s', resp) := r in
  outside g s g' s' /\ (forall m, resp = Some m -> NodeRound m = nr) /\
  (same_graph g g' /\ (length (vcs g) <= length (vcs g'))%nat \/ exists h, deliver nr.1 nr.2 h g = Some g').

Lemma stays_state nr g s s' resp : outside g s g s' -> (forall m, resp = Some m -> NodeRound m = nr) -> stays nr g s (g, s', resp).
Proof using Type. intros Ho Hr. split; [done|]. split; [done|]. left. split; [symmetry; apply set_vcs_id|done]. Qed.

Lemma onPrePrepare_stays m v sender receiver g s r : ~ I (pp_Node m, pp_Round m) ->
  onPrePrepare m v sender receiver s g = Some r -> stays (pp_Node m, pp_Round m) g s r.
Proof using Type.
  intros Hi. unfold onPrePrepare. case_decide; [intros [= <-]; by apply stays_state; [apply outside_refl|]|].
  case_decide; [intros [= <-]; by apply stays_state; [apply outside_refl|]|].
  pose proof (outside_getBitset (nodeCount g) m g s Hi) as Hb. destruct (getBitset (nodeCount g) m s) as [s1 b].
  intros (b1 & _ & (b2 & _ & [= <-])%bind_Some)%bind_Some. apply stays_state; [|by intros ? [= <-]].
  eapply outside_trans; [exact Hb|]. eapply outside_trans; [by apply (outside_putBitset m b2)|]. by apply outside_put_data.
Qed.

Lemma onPrepare_stays m v receiver g s r : ~ I (m_Node m, m_Round m) ->
  onPrepare m v receiver s g = Some r -> stays (m_Node m, m_Round m) g s r.
Proof using Type.
  intros Hi. unfold onPrepare. case_decide; [intros [= <-]; by apply stays_state; [apply outside_refl|]|].
  pose proof (outside_getBitset (nodeCount g) (Pre m) g s Hi) as Hb. destruct (getBitset (nodeCount g) (Pre m) s) as [s1 b]. cbn in Hb.
  assert (forall b, outside g s g (putBitset (Pre m) b s1)) as Hp
    by (intros b'; eapply outside_trans; [exact Hb|]; by apply outside_putBitset).
  case_decide; intros (b1 & _ & Hrun)%bind_Some; [injection Hrun as <-; by apply stays_state|].
  case_decide; [injection Hrun as <-; by apply stays_state|]. apply bind_Some in Hrun as (hc & _ & Hrun).
  destruct hc; [injection Hrun as <-; by apply stays_state|]. apply bind_Some in Hrun as (b2 & _ & Hrun). injection Hrun as <-.
  apply stays_state; [|by intros ? [= <-]].
  assert (outside g s g (putBitset (Pre m) b2 (putBitset (Pre m) b1 s1))) as Hp2
    by (eapply outside_trans; [apply (Hp b1)|]; by apply outside_putBitset).
  destruct (data _ !! _); [done|]. eapply outside_trans; [exact Hp2|]. by apply outside_put_data.
Qed.

Lemma onCommit_stays m v g s r : ~ I (m_Node m, m_Round m) -> onCommit m v s g = Some r -> stays (m_Node m, m_Round m) g s r.
Proof using Type.
  intros Hi. unfold onCommit. case_decide; [intros [= <-]; by apply stays_state; [apply outside_refl|]|].
  pose proof (outside_getBitset (nodeCount g) (Pre m) g s Hi) as Hb. destruct (getBitset (nodeCount g) (Pre m) s) as [s1 b]. cbn in Hb.
  intros (b1 & _ & Hrun)%bind_Some.
  assert (outside g s g (putBitset (Pre m) b1 s1)) as Hp by (eapply outside_trans; [exact Hb|]; by apply outside_putBitset).
  case_decide; [injection Hrun as <-; by apply stays_state|]. destruct (final _ !! _); [injection Hrun as <-; by apply stays_state|].
  apply bind_Some in Hrun as (g' & Hd & Hrun). injection Hrun as <-. split; [|split; [done|right; by exists (m_Hash m)]].
  eapply outside_trans; [exact Hp|]. eapply outside_trans; [by apply (outside_set_final (m_Node m, m_Round m) (m_Hash m))|].
  by apply outside_heap, (deliver_heap _ _ _ _ _ Hd).
Qed.

Lemma onViewChange_stays m v receiver g s r : ~ I (m_Node m, m_Round m) ->
  onViewChange m v receiver s g = Some r -> stays (m_Node m, m_Round m) g s r.
Proof using Type.
  intros Hi. unfold onViewChange. case_decide; [intros [= <-]; by apply stays_state; [apply outside_refl|]|].
  intros ([[a s1] g1] & Ha & (votes & _ & Hrun)%bind_Some)%bind_Some.
  assert (outside g s g1 s1 /\ data s1 !! ViewChanged (m_Node m) (m_Round m) v = Some (DVcs a) /\ same_graph g g1 /\
    (length (vcs g) <= length (vcs g1))%nat) as (Ho & Hd & Hg & Hl).
  { destruct (data s !! _) as [[| | |a0|]|] eqn:E; try done; injection Ha as <- <- <-.
    - split; [apply outside_refl|]. split; [done|]. split; [symmetry; apply set_vcs_id|done].
    - split; [by apply outside_alloc|]. split; [cbn; by rewrite lookup_insert_eq|]. split; [done|cbn; rewrite length_app; lia]. }
  set (votes' := <[_ := _]> votes) in Hrun.
  assert (outside g s (set_vcs (<[a := votes']> (vcs g1)) g1) s1) as Hw
    by (eapply outside_trans; [exact Ho|]; by apply (outside_write (ViewChanged (m_Node m) (m_Round m) v))).
  assert (same_graph g (set_vcs (<[a := votes']> (vcs g1)) g1) /\ (length (vcs g) <= length (<[a := votes']> (vcs g1)))%nat) as Hg'
    by (rewrite length_insert; split; [unfold same_graph; by rewrite Hg|done]).
  case_decide; [injection Hrun as <-; by split_and!; [|done|left]|]. apply bind_Some in Hrun as (h & _ & Hrun). injection Hrun as <-.
  split_and!; [|by intros ? [= <-]|by left]. eapply outside_trans; [exact Hw|]. by apply outside_put_data.
Qed.

Lemma onNewView_stays m v origin g s r : ~ I (m_Node m, m_Round m) ->
  onNewView m v origin s g = Some r -> stays (m_Node m, m_Round m) g s r.
Proof using Type.
  intros Hi. unfold onNewView. case_decide; [intros [= <-]; by apply stays_state; [apply outside_refl|]|].
  case_decide; [intros [= <-]; by apply stays_state; [apply outside_refl|]|]. intros [= <-].
  apply stays_state; [|by intros ? [= <-]]. eapply outside_trans; [|by apply outside_put_data].
  eapply outside_trans; [by apply (outside_put_data (View (m_Node m) (m_Round m)) (DUint32 (m_View m)))|].
  exact (outside_set_timeouts (u64 (Round origin + s_timeout s + 5)) (MkTimeout (m_Node m) (m_Round m) (m_View m)) g
    (put_data (View (m_Node m) (m_Round m)) (DUint32 (m_View m)) s) Hi).
Qed.

Lemma processMessage_stays sender receiver origin msg g s r : ~ I (NodeRound msg) ->
  processMessage sender receiver origin msg s g = Some r -> stays (NodeRound msg) g s r.
Proof using Type.
  intros Hi. unfold processMessage. destruct (NodeRound msg) as [n rnd] eqn:Hnr.
  destruct (is_final s n rnd); [intros [= <-]; by apply stays_state; [apply outside_refl|]|].
  intros ([s1 v] & Hv & Hrun)%bind_Some. apply (outside_getView n rnd g) in Hv; [|done].
  assert (stays (n, rnd) g s1 r) as Hs.
  { destruct msg as [m|m|m|m|m]; cbn in Hnr; injection Hnr as <- <-;
      eauto using onPrePrepare_stays, onPrepare_stays, onCommit_stays, onViewChange_stays, onNewView_stays. }
  destruct r as [[g' s'] resp]. destruct Hs as (Ho & Hr). split; [by eapply outside_trans|done].
Qed.
End others.

#[export] Hint Resolve outside_refl outside_put_data outside_putBitset outside_set_final outside_set_timeouts outside_getBitset : chain.

(** ** Without the rounds that are over *)

(** What a message does to the graph, whatever its instance. *)
Lemma processMessage_graph sender receiver origin msg g s g' s' resp :
  processMessage sender receiver origin msg s g = Some (g', s', resp) ->
  (forall m, resp = Some m -> NodeRound m = NodeRound msg) /\ (addr_ok g s -> addr_ok g' s') /\
  (same_graph g g' /\ (length (vcs g) <= length (vcs g'))%nat \/ exists h, deliver (NodeRound msg).1 (NodeRound msg).2 h g = Some g').
Proof.
  intros Hrun. apply (processMessage_stays (fun _ => False) (fun _ => True)) in Hrun as (Ho & Hm & Hg); [|auto].
  split; [done|]. split; [|done]. intros Ha. by apply Ho.
Qed.

(** *** Relations that every message respects *)

Section loops.
Context (T : relation pm_state) `{!PreOrder T}.
Context (HT : forall sender receiver origin m g s p g' s' resp,
  processMessage sender receiver origin m s g = Some (g', s', resp) -> T (g, s, p) (g', s', {[m]} ∪ p)).

Lemma pm_step_loop sender receiver origin m st outs st' outs' :
  pm_step sender receiver origin m st outs = Some (st', outs') -> T st st'.
Proof using All.
  destruct st as [[g s] p]. unfold pm_step. case_decide; [by intros [= <- <-]|].
  intros ([[g' s'] resp] & Hp & [= <- <-])%bind_Some. by eapply HT.
Qed.
Lemma pm_range_loop sender receiver origin msgs st outs st' outs' :
  pm_range sender receiver origin msgs st outs = Some (st', outs') -> T st st'.
Proof using All.
  revert st outs. induction msgs as [|m msgs IH]; intros st outs Hrun; cbn [pm_range] in Hrun; [by injection Hrun as <- <-|].
  apply bind_Some in Hrun as ([st1 outs1] & Hs & Hrun). etrans; [by eapply pm_step_loop|by eapply IH].
Qed.
Lemma pm_drain_loop fuel sender receiver origin i st outs st' outs' :
  pm_drain fuel sender receiver origin i st outs = Some (st', outs') -> T st st'.
Proof using All.
  revert i st outs. induction fuel as [|fuel IH]; intros i st outs Hrun; cbn [pm_drain] in Hrun;
    (destruct (outs !! i); [|by injection Hrun as <- <-]); [done|].
  apply bind_Some in Hrun as ([st1 outs1] & Hs & Hrun). etrans; [by eapply pm_step_loop|by eapply IH].
Qed.
Lemma processMessages_loop sender receiver origin msgs st st' outs :
  processMessages sender receiver origin msgs st = Some (st', outs) -> T st st'.
Proof using All.
  unfold processMessages. intros ([st1 outs1] & H1 & H2)%bind_Some. etrans; [by eapply pm_range_loop|by eapply pm_drain_loop].
Qed.
Lemma processDeps_loop block deps st outs st' outs' : processDeps block deps st outs = Some (st', outs') -> T st st'.
Proof using All.
  revert st outs. induction deps as [|d deps IH]; intros st outs Hrun; cbn [processDeps] in Hrun; [by injection Hrun as <- <-|].
  apply bind_Some in Hrun as ([st1 resp] & Hm & Hrun). etrans; [by eapply processMessages_loop|by eapply IH].
Qed.
End loops.

Section erase.
Context (r0 : uint64) (Hr0 : 0 <= r0) (R : uint64).

(** The instances and the messages of the rounds from [R] on. *)
Definition open_instance (nr : uint64 * uint64) : Prop := R <= nr.2.
#[global] Instance open_instance_dec nr : Decision (open_instance nr) := _.
Definition open_msg (m : Message) : Prop := open_instance (NodeRound m).
#[global] Instance open_msg_dec m : Decision (open_msg m) := _.
Abbreviation open_rel := (rel open_instance (fun k => R <= k)).

(** The second run has the same open instances and has seen the same messages of
    them. *)
Record pm_rel (st1 st2 : pm_state) : Prop := {
  pr_rel : open_rel st1.1.1 st1.1.2 st2.1.1 st2.1.2;
  pr_seen m : open_msg m -> m ∈ st1.2 <-> m ∈ st2.2;
  pr_order : in_order r0 st1.1.1;
  pr_round : R <= round st1.1.1 }.

(** The graph moves on. *)
Lemma graph_moves n rnd g g' : in_order r0 g ->
  (same_graph g g' /\ (length (vcs g) <= length (vcs g'))%nat \/ exists h, deliver n rnd h g = Some g') ->
  in_order r0 g' /\ (length (cbs g) <= length (cbs g'))%nat /\ (no_wrap r0 g' -> round g <= round g').
Proof using Hr0.
  intros Ho [[-> _]|[h Hd]]; [by split; [apply Ho|]|].
  destruct (deliver_inv r0 _ _ _ _ _ Hr0 Ho Hd) as (? & _ & ? & Hw). split_and!; [done|done|]. intros Hnw. by apply Hw.
Qed.

(** A step for a message that is over changes nothing in this sense; any other one
    is made by both runs alike. *)
Lemma pm_step_erase sender receiver origin m st1 st2 outs st1' outs' :
  pm_rel st1 st2 -> pm_step sender receiver origin m st1 outs = Some (st1', outs') ->
  (exists more, outs' = outs ++ more) /\
  (no_wrap r0 st1'.1.1 ->
   if decide (open_msg m)
   then exists st2', pm_step sender receiver origin m st2 (filter open_msg outs) = Some (st2', filter open_msg outs') /\ pm_rel st1' st2'
   else pm_rel st1' st2 /\ filter open_msg outs' = filter open_msg outs).
Proof using Hr0.
  intros Hrel. destruct st1 as [[g1 s1] p1], st2 as [[g2 s2] p2]. destruct Hrel as [Hr Hseen Ho HR]. cbn in Hr, Hseen, Ho, HR.
  unfold pm_step. destruct (decide (m ∈ p1)) as [Hin|Hin].
  { intros [= <- <-]. split; [exists []; by rewrite app_nil_r|]. intros _. case_decide as Hop.
    - exists (g2, s2, p2). rewrite decide_True by (by apply Hseen). split; [done|]. by constructor.
    - split; [by constructor|done]. }
  intros ([[g1' s1'] resp] & Hp & [= <- <-])%bind_Some. pose proof (processMessage_graph _ _ _ _ _ _ _ _ _ Hp) as (Hresp & Haddr & Hg).
  destruct (graph_moves _ _ _ _ Ho Hg) as (Ho' & _ & Hround). split; [by eexists|]. intros Hw. cbn in Hw.
  specialize (Hround Hw). case_decide as Hop.
  - rewrite decide_False by (by rewrite <-Hseen).
    pose proof (agree_processMessage open_instance (fun k => R <= k) sender receiver origin m _ _ _ _ Hr Hop) as Hag.
    rewrite Hp in Hag. destruct (processMessage sender receiver origin m s2 g2) as [[[g2' s2'] resp2]|]; [|done].
    destruct Hag as [<- Hr']. eexists. split.
    + cbn [mbind option_bind]. rewrite filter_app. do 3 f_equal. destruct resp as [m'|]; [|done]. change (option_list (Some m')) with [m']. rewrite filter_cons_True; [done|].
      unfold open_msg. by rewrite (Hresp m' eq_refl).
    + constructor; cbn; [done| |done|lia]. intros m' Hm'. specialize (Hseen m' Hm'). set_solver.
  - assert (same_graph g1 g1') as Hsg.
    { destruct Hg as [[Hg _]|[h Hd]]; [done|]. apply deliver_cases in Hd as [[_ ->]|[Hge _]]; [symmetry; apply set_vcs_id|].
      unfold open_msg, open_instance in Hop. lia. }
    apply (processMessage_stays open_instance (fun k => R <= k)) in Hp as (Hout & _ & _); [|done].
    destruct Hr as [Hg12 Hsame Ha1 Ha2]. destruct (Hout Ha1) as [Hs1 Ha1']. split.
    + constructor; cbn; [constructor| |done|lia].
      * unfold same_graph in *. by rewrite Hsg, Hg12.
      * eapply same_on_trans; [|exact Hsame]. by apply same_on_sym.
      * done.
      * done.
      * intros m' Hm'. rewrite <-Hseen by done. assert (m' <> m) by (by intros ->). set_solver.
    + rewrite filter_app. destruct resp as [m'|]; [|by rewrite app_nil_r]. change (option_list (Some m')) with [m']. rewrite filter_cons_False; [by rewrite app_nil_r|].
      unfold open_msg. by rewrite (Hresp m' eq_refl).
Qed.

Definition moves (st st' : pm_state) : Prop :=
  in_order r0 st.1.1 -> in_order r0 st'.1.1 /\ (length (cbs st.1.1) <= length (cbs st'.1.1))%nat.
#[global] Instance moves_refl : Reflexive moves.
Proof. by intros st Ho. Qed.
#[global] Instance moves_trans : Transitive moves.
Proof. intros st1 st2 st3 H1 H2 Ho. destruct (H1 Ho) as [Ho2 ?]. destruct (H2 Ho2) as [? ?]. split; [done|lia]. Qed.

#[global] Instance moves_preorder : PreOrder moves.
Proof. by split; typeclasses eauto. Qed.
Lemma processMessage_moves sender receiver origin m g s p g' s' resp :
  processMessage sender receiver origin m s g = Some (g', s', resp) -> moves (g, s, p) (g', s', {[m]} ∪ p).
Proof using Hr0.
  intros Hp Ho. apply processMessage_graph in Hp as (_ & _ & Hg). destruct (graph_moves _ _ _ _ Ho Hg) as (? & ? & _). done.
Qed.
#[local] Hint Resolve processMessage_moves : core.
Lemma moves_no_wrap st st' : moves st st' -> in_order r0 st.1.1 -> no_wrap r0 st'.1.1 -> no_wrap r0 st.1.1.
Proof using Type. intros Hm Ho. eapply no_wrap_mono. by apply Hm. Qed.

Lemma pm_range_erase sender receiver origin msgs st1 st2 outs st1' outs' :
  pm_rel st1 st2 -> pm_range sender receiver origin msgs st1 outs = Some (st1', outs') -> no_wrap r0 st1'.1.1 ->
  exists st2', pm_range sender receiver origin (filter open_msg msgs) st2 (filter open_msg outs) = Some (st2', filter open_msg outs') /\
    pm_rel st1' st2'.
Proof using Hr0.
  revert st1 st2 outs. induction msgs as [|m msgs IH]; intros st1 st2 outs Hrel Hrun Hw; cbn [pm_range] in Hrun.
  { injection Hrun as <- <-. by exists st2. }
  apply bind_Some in Hrun as ([stm outsm] & Hs & Hrun). pose proof (pm_step_loop moves processMessage_moves _ _ _ _ _ _ _ _ Hs) as Hm.
  destruct (Hm (pr_order _ _ Hrel)) as [Hom _]. pose proof (moves_no_wrap _ _ (pm_range_loop moves processMessage_moves _ _ _ _ _ _ _ _ Hrun) Hom Hw) as Hwm.
  apply (pm_step_erase _ _ _ _ _ _ _ _ _ Hrel) in Hs as [_ Hstep]. specialize (Hstep Hwm). rewrite filter_cons. case_decide.
  - destruct Hstep as (st2m & Hs2 & Hrelm). destruct (IH _ st2m _ Hrelm Hrun Hw) as (st2' & Hr2 & Hrel').
    exists st2'. split; [|done]. cbn [pm_range]. rewrite Hs2. cbn. exact Hr2.
  - destruct Hstep as [Hrelm <-]. by eapply IH.
Qed.

(** The position in the filtered list. *)
Lemma filter_lookup {A} (P : A -> Prop) `{!forall x, Decision (P x)} (l : list A) i x : l !! i = Some x ->
  if decide (P x) then filter P l !! length (filter P (take i l)) = Some x /\
    length (filter P (take (S i) l)) = S (length (filter P (take i l)))
  else length (filter P (take (S i) l)) = length (filter P (take i l)).
Proof using Type.
  intros Hi. assert (filter P l = filter P (take i l) ++ filter P (x :: drop (S i) l)) as Hf
    by (by rewrite <-filter_app, take_drop_middle).
  rewrite (take_S_r _ _ _ Hi), Hf, filter_app, !filter_cons. case_decide; rewrite length_app, filter_nil; cbn [length].
  - split; [by rewrite lookup_app_r, Nat.sub_diag by done|lia].
  - lia.
Qed.

Lemma pm_drain_erase f1 f2 sender receiver origin i st1 st2 outs st1' outs' :
  pm_rel st1 st2 -> pm_drain f1 sender receiver origin i st1 outs = Some (st1', outs') -> no_wrap r0 st1'.1.1 ->
  (f1 <= f2)%nat -> (i <= length outs)%nat ->
  exists st2', pm_drain f2 sender receiver origin (length (filter open_msg (take i outs))) st2 (filter open_msg outs) =
      Some (st2', filter open_msg outs') /\ pm_rel st1' st2'.
Proof using Hr0.
  revert f2 i st1 st2 outs. induction f1 as [|f1 IH]; intros f2 i st1 st2 outs Hrel Hrun Hw Hf Hi; cbn [pm_drain] in Hrun;
    (destruct (outs !! i) as [m|] eqn:Hl;
     [|injection Hrun as <- <-; exists st2; split; [|done];
       rewrite take_ge by (by apply lookup_ge_None); destruct f2; cbn [pm_drain]; by rewrite lookup_ge_None_2]).
  { done. }
  destruct f2 as [|f2]; [lia|].
  apply bind_Some in Hrun as ([stm outsm] & Hs & Hrun). pose proof (pm_step_loop moves processMessage_moves _ _ _ _ _ _ _ _ Hs) as Hm.
  destruct (Hm (pr_order _ _ Hrel)) as [Hom _]. pose proof (moves_no_wrap _ _ (pm_drain_loop moves processMessage_moves _ _ _ _ _ _ _ _ _ Hrun) Hom Hw) as Hwm.
  apply (pm_step_erase _ _ _ _ _ _ _ _ _ Hrel) in Hs as [[more ->] Hstep]. specialize (Hstep Hwm).
  pose proof (lookup_lt_Some _ _ _ Hl) as Hlt.
  pose proof (filter_lookup open_msg _ _ _ Hl) as Hfl.
  assert (length (filter open_msg (take (S i) (outs ++ more))) = length (filter open_msg (take (S i) outs))) as Htake
    by (by rewrite take_app_le by lia).
  assert ((S i <= length (outs ++ more))%nat) as HSi by (rewrite length_app; lia).
  case_decide.
  - destruct Hfl as [Hfl Hlen]. destruct Hstep as (st2m & Hs2 & Hrelm). cbn [pm_drain]. rewrite Hfl, Hs2. cbn [mbind option_bind].
    destruct (IH f2 (S i) _ st2m _ Hrelm Hrun Hw ltac:(lia) HSi) as (st2' & Hr2 & Hrel'). rewrite Htake, Hlen in Hr2. by exists st2'.
  - destruct Hstep as [Hrelm Hfe]. destruct (IH (S f2) (S i) _ st2 _ Hrelm Hrun Hw ltac:(lia) HSi) as (st2' & Hr2 & Hrel').
    rewrite Htake, Hfl, Hfe in Hr2. by exists st2'.
Qed.

Lemma processMessages_erase sender receiver origin msgs st1 st2 st1' outs' :
  pm_rel st1 st2 -> processMessages sender receiver origin msgs st1 = Some (st1', outs') -> no_wrap r0 st1'.1.1 ->
  exists st2', processMessages sender receiver origin (filter open_msg msgs) st2 = Some (st2', filter open_msg outs') /\ pm_rel st1' st2'.
Proof using Hr0.
  intros Hrel Hrun Hw. unfold processMessages in *. apply bind_Some in Hrun as ([stm outsm] & Hr & Hd).
  destruct (pm_range_loop moves processMessage_moves _ _ _ _ _ _ _ _ Hr (pr_order _ _ Hrel)) as [Hom _].
  pose proof (moves_no_wrap _ _ (pm_drain_loop moves processMessage_moves _ _ _ _ _ _ _ _ _ Hd) Hom Hw) as Hwm.
  destruct (pm_range_erase _ _ _ _ _ _ _ _ _ Hrel Hr Hwm) as (st2m & Hr2 & Hrelm). change (filter open_msg []) with (@nil Message) in Hr2.
  rewrite Hr2. cbn [mbind option_bind].
  destruct (pm_drain_erase _ (5 * length outsm) _ _ _ _ _ _ _ _ _ Hrelm Hd Hw ltac:(lia) ltac:(lia)) as (st2' & Hd2 & Hrel').
  exists st2'. split; [|done]. rewrite <-Hd2. rewrite take_0. apply pm_drain_enough; [apply work_le|].
  pose proof (work_le (filter open_msg outsm)). pose proof (length_filter open_msg outsm). change (length (filter open_msg [])) with 0%nat. lia.
Qed.

(** Two runs that agree about what is open go on to agree. *)
Lemma pm_rel_refl st : addr_ok st.1.1 st.1.2 -> in_order r0 st.1.1 -> R <= round st.1.1 -> pm_rel st st.
Proof using Type. intros Ha Ho HR. constructor; try done. constructor; [symmetry; apply set_vcs_id|apply same_on_refl|done..]. Qed.

Lemma pm_rel_join st1 st2 st3 : pm_rel st1 st3 -> pm_rel st2 st3 -> pm_rel st1 st2.
Proof using Type.
  intros [[Hg1 Hs1 Ha1 _] Hp1 Ho1 HR1] [[Hg2 Hs2 Ha2 _] Hp2 _ _]. constructor; [|intros m Hm; by rewrite Hp1, Hp2|done..].
  constructor; [|eapply same_on_trans; [exact Hs1|by apply same_on_sym]|done..].
  unfold same_graph in *. rewrite Hg2 in Hg1. apply (f_equal (set_vcs (vcs st2.1.1))) in Hg1. cbn in Hg1. rewrite <-(set_vcs_id st2.1.1) at 1. exact Hg1.
Qed.

Lemma processMessages_agree sender receiver origin msgs st1 st2 st1' outs1 st2' outs2 : pm_rel st1 st2 ->
  processMessages sender receiver origin msgs st1 = Some (st1', outs1) -> no_wrap r0 st1'.1.1 ->
  forall msgs', filter open_msg msgs' = filter open_msg msgs ->
  processMessages sender receiver origin msgs' st2 = Some (st2', outs2) -> no_wrap r0 st2'.1.1 ->
  pm_rel st1' st2' /\ filter open_msg outs1 = filter open_msg outs2.
Proof using Hr0.
  intros Hrel H1 Hw1 msgs' Hf H2 Hw2. destruct (processMessages_erase _ _ _ _ _ _ _ _ Hrel H1 Hw1) as (st3 & H3 & Hr3).
  assert (pm_rel st2 st2) as Hrefl.
  { destruct Hrel as [[Hg Hs Ha1 Ha2] Hp Ho HR]. apply pm_rel_refl; [done|rewrite Hg; apply Ho|by rewrite Hg]. }
  destruct (processMessages_erase _ _ _ _ _ _ _ _ Hrefl H2 Hw2) as (st4 & H4 & Hr4). rewrite Hf, H3 in H4.
  injection H4 as <- Ho. split; [by eapply pm_rel_join|done].
Qed.

(** *** Blocks *)

Definition open_timeout (t : timeout) : Prop := open_instance (t_node t, t_round t).
#[global] Instance open_timeout_dec t : Decision (open_timeout t) := _.

Lemma fireTimeouts_erase node g1 g2 ts s1 s2 outs s1' outs' : open_rel g1 s1 g2 s2 ->
  fireTimeouts node ts s1 outs = Some (s1', outs') ->
  exists s2', fireTimeouts node (filter open_timeout ts) s2 (filter open_msg outs) = Some (s2', filter open_msg outs') /\ open_rel g1 s1' g2 s2'.
Proof using Type.
  revert s1 s2 outs. induction ts as [|t ts IH]; intros s1 s2 outs Hr Hrun; cbn [fireTimeouts] in Hrun.
  { injection Hrun as <- <-. by exists s2. }
  rewrite filter_cons. destruct (decide (open_timeout t)) as [Hop|Hop].
  - cbn [fireTimeouts].
    assert (is_final s1 (t_node t) (t_round t) = is_final s2 (t_node t) (t_round t)) as Hfin.
    { unfold is_final. apply bool_decide_ext. by apply (rel_isSome _ _ _ _ _ _ (Final (t_node t) (t_round t)) Hr). }
    rewrite <-Hfin. destruct (is_final s1 _ _); [by eapply IH|].
    assert (forall B (f : DataVal -> option B) (d : option B) k, open_instance (key_instance k) -> (forall a, f (DVcs a) = None) ->
      match data s1 !! k with Some x => f x | None => d end = match data s2 !! k with Some x => f x | None => d end) as Hsame.
    { intros B f d k Hk Hf. destruct (rel_lookup _ _ _ _ _ _ k Hr Hk) as [[-> _]|(a1 & a2 & -> & -> & _)]; [done|by rewrite !Hf]. }
    rewrite <-(Hsame _ (fun x => match x with DUint32 v => Some v | _ => None end) (Some 0) (View (t_node t) (t_round t))) by done.
    apply bind_Some in Hrun as (v & Hv & Hrun). rewrite Hv. cbn [mbind option_bind]. case_decide; [by eapply IH|].
    rewrite <-(Hsame _ (fun x => match x with DString h => Some h | _ => None end) (Some []) (Prepared (t_node t) (t_round t) (t_view t))) by done.
    apply bind_Some in Hrun as (h & Hh & Hrun). rewrite Hh. cbn [mbind option_bind].
    apply (IH _ (put_data (View (t_node t) (t_round t)) (DUint32 (u32 (v + 1))) s2)) in Hrun as (s2' & Hrun2 & Hr'); [|by apply rel_put_data].
    exists s2'. split; [|done]. rewrite filter_app, filter_cons_True in Hrun2 by done. exact Hrun2.
  - destruct (is_final s1 _ _); [by eapply IH|]. apply bind_Some in Hrun as (v & _ & Hrun).
    case_decide; [by eapply IH|]. apply bind_Some in Hrun as (h & _ & Hrun).
    eapply IH in Hrun as (s2' & Hrun2 & Hr').
    + exists s2'. split; [|exact Hr']. rewrite filter_app, filter_cons_False, app_nil_r in Hrun2 by done. exact Hrun2.
    + destruct Hr as [Hg Hs Ha1 Ha2].
      destruct (outside_put_data open_instance (fun k => R <= k) (View (t_node t) (t_round t)) (DUint32 (u32 (v + 1))) g1 s1 Hop Logic.I Ha1) as [Hs' Ha1'].
      constructor; [done|eapply same_on_trans; [by apply same_on_sym|exact Hs]|done|done].
Qed.

Lemma fireTimeouts_agree node g1 g2 ts1 ts2 s1 s2 outs s1' outs1 s2' outs2 : open_rel g1 s1 g2 s2 ->
  filter open_timeout ts1 = filter open_timeout ts2 ->
  fireTimeouts node ts1 s1 outs = Some (s1', outs1) -> fireTimeouts node ts2 s2 outs = Some (s2', outs2) ->
  open_rel g1 s1' g2 s2' /\ filter open_msg outs1 = filter open_msg outs2.
Proof using Type.
  intros Hr Ht H1 H2. destruct (fireTimeouts_erase _ _ _ _ _ _ _ _ _ Hr H1) as (s3 & H3 & Hr3).
  assert (open_rel g2 s2 g2 s2) as Hrefl.
  { destruct Hr as [Hg Hs Ha1 Ha2]. constructor; [symmetry; apply set_vcs_id|apply same_on_refl|done..]. }
  destruct (fireTimeouts_erase _ _ _ _ _ _ _ _ _ Hrefl H2) as (s4 & H4 & Hr4). rewrite <-Ht, H3 in H4. injection H4 as <- Ho.
  split; [|done]. destruct Hr3 as [Hg3 Hs3 Ha3 _], Hr4 as [Hg4 Hs4 Ha4 _].
  constructor; [done|eapply same_on_trans; [exact Hs3|by apply same_on_sym]|done..].
Qed.

Lemma pm_rel_order2 st1 st2 : pm_rel st1 st2 -> in_order r0 st2.1.1.
Proof using Type. intros [[Hg _ _ _] _ Ho _]. rewrite Hg. apply Ho. Qed.

Lemma processDeps_agree block deps st1 st2 o1 o2 st1' o1' st2' o2' : pm_rel st1 st2 ->
  filter open_msg o1 = filter open_msg o2 ->
  processDeps block deps st1 o1 = Some (st1', o1') -> no_wrap r0 st1'.1.1 ->
  processDeps block deps st2 o2 = Some (st2', o2') -> no_wrap r0 st2'.1.1 ->
  pm_rel st1' st2' /\ filter open_msg o1' = filter open_msg o2'.
Proof using Hr0.
  revert st1 st2 o1 o2. induction deps as [|d deps IH]; intros st1 st2 o1 o2 Hrel Hf H1 Hw1 H2 Hw2; cbn [processDeps] in H1, H2.
  { by injection H1 as <- <-; injection H2 as <- <-. }
  apply bind_Some in H1 as ([sta ra] & Ha & H1). apply bind_Some in H2 as ([stb rb] & Hb & H2).
  assert (statess st2.1.1 = statess st1.1.1) as Hst by (destruct Hrel as [[Hg _ _ _] _ _ _]; by rewrite Hg). rewrite Hst in Hb.
  destruct (processMessages_loop moves processMessage_moves _ _ _ _ _ _ _ Ha (pr_order _ _ Hrel)) as [Hoa _].
  destruct (processMessages_loop moves processMessage_moves _ _ _ _ _ _ _ Hb (pm_rel_order2 _ _ Hrel)) as [Hob _].
  pose proof (moves_no_wrap _ _ (processDeps_loop moves processMessage_moves _ _ _ _ _ _ H1) Hoa Hw1) as Hwa.
  pose proof (moves_no_wrap _ _ (processDeps_loop moves processMessage_moves _ _ _ _ _ _ H2) Hob Hw2) as Hwb.
  destruct (processMessages_agree _ _ _ _ _ _ _ _ _ _ Hrel Ha Hwa _ eq_refl Hb Hwb) as [Hrel' Hr].
  eapply IH; [exact Hrel'| |done..]. by rewrite !filter_app, Hf, Hr.
Qed.

(** The timeouts that every block adds. *)
Lemma rel_add_timeouts k (f : uint64 -> timeout) ns g1 s1 g2 s2 : open_rel g1 s1 g2 s2 ->
  open_rel g1 (set_timeouts (foldl (fun ts n => <[k := default [] (ts !! k) ++ [f n]]> ts) (timeouts s1) ns) s1)
           g2 (set_timeouts (foldl (fun ts n => <[k := default [] (ts !! k) ++ [f n]]> ts) (timeouts s2) ns) s2).
Proof using Type.
  revert s1 s2. induction ns as [|n ns IH]; intros s1 s2 Hr; cbn [foldl]; [by destruct s1, s2|].
  exact (IH _ _ (rel_set_timeouts _ _ k (f n) _ _ _ _ Hr)).
Qed.

(** What [rel] says nothing about. *)
Lemma rel_other g1 s1 g2 s2 x tv : open_rel g1 s1 g2 s2 ->
  open_rel g1 (set_timeout tv (set_delay x s1)) g2 (set_timeout tv (set_delay x s2)).
Proof using Type.
  intros [Hg [Hd Hb Hf Ht Hts] Ha1 Ha2]. constructor; [done|by constructor|by eapply same_data_addr|by eapply same_data_addr].
Qed.
End erase.

(** [process] from a given state of the previous block. *)
Definition process_from (s : state) (ntry : entry) (g : Graph) : option Graph :=
  let block := e_block ntry in
  let node := Node block in let rnd := Round block in
  let outs := [MPrePrepare (MkPrePrepare (Hash block) node rnd 0)] in
  let s := set_delay
             (foldl (fun dl dep => <[Node dep := u64 (diff rnd (Round dep) * 10)]> dl)
                    (delay s) (e_deps ntry)) s in
  tval ← timeoutValue g (delay s);
  let s := set_timeout tval s in
  let tround := u64 (rnd + tval) in
  let s := set_timeouts
             (foldl (fun ts xnode =>
                <[tround := default [] (ts !! tround) ++ [MkTimeout xnode rnd 0]]> ts)
                (timeouts s) (nodes g)) s in
  '(s, outs) ← fireTimeouts node (default [] (timeouts s !! rnd)) s outs;
  '(st, resp) ← processMessages node node block outs (g, s, ∅);
  '(st, outs) ← processDeps block (e_deps ntry) st (outs ++ resp);
  let '(g, s, _) := st in
  Some (set_statess (<[block := set_out outs s]> (statess g)) g).

Lemma process_from_spec ntry g : process ntry g = process_from (findOrCreateState ntry g) ntry g.
Proof. done. Qed.

(** Two states of the previous block that agree about the open rounds. *)
Lemma process_from_agree r0 R s1 s2 ntry g g1 g2 : 0 <= r0 ->
  rel (open_instance R) (fun k => R <= k) g s1 g s2 -> delay s1 = delay s2 -> in_order r0 g -> R <= round g -> R <= Round (e_block ntry) ->
  process_from s1 ntry g = Some g1 -> no_wrap r0 g1 -> process_from s2 ntry g = Some g2 -> no_wrap r0 g2 ->
  exists s1' s2', statess g1 !! e_block ntry = Some s1' /\
    g2 = set_vcs (vcs g2) (set_statess (<[e_block ntry := s2']> (statess g1)) g1) /\
    same_on (open_instance R) (fun k => R <= k) g1 s1' g2 s2' /\ filter (open_msg R) (out s1') = filter (open_msg R) (out s2').
Proof.
  intros Hr0 Hr Hdl Ho HR HRb H1 Hw1 H2 Hw2. unfold process_from in H1, H2. cbv zeta in H1, H2. rewrite <-Hdl in H2.
  set (dl := foldl _ (delay s1) _) in H1, H2. cbn [delay set_delay] in H1, H2.
  apply bind_Some in H1 as (tval & Htv & H1). rewrite Htv in H2. cbn [mbind option_bind] in H2.
  apply (rel_other R _ _ _ _ dl tval) in Hr.
  apply (rel_add_timeouts R (u64 (Round (e_block ntry) + tval)) (fun n => MkTimeout n (Round (e_block ntry)) 0) (nodes g)) in Hr.
  set (t1 := set_timeouts _ (set_timeout tval (set_delay dl s1))) in *.
  set (t2 := set_timeouts _ (set_timeout tval (set_delay dl s2))) in *.
  apply bind_Some in H1 as ([u1 o1] & Hf1 & H1). apply bind_Some in H2 as ([u2 o2] & Hf2 & H2).
  destruct (fireTimeouts_agree R _ _ _ _ _ _ _ _ _ _ _ _ Hr (sa_timeouts _ _ _ _ _ _ (rel_same _ _ _ _ _ _ Hr) _ HRb) Hf1 Hf2) as [Hru Hou].
  apply bind_Some in H1 as ([st1 r1] & Hm1 & H1). apply bind_Some in H2 as ([st2 r2] & Hm2 & H2).
  apply bind_Some in H1 as ([[[g1' v1] p1] q1] & Hd1 & H1). apply bind_Some in H2 as ([[[g2' v2] p2] q2] & Hd2 & H2).
  injection H1 as <-. injection H2 as <-. change (no_wrap r0 g1') in Hw1. change (no_wrap r0 g2') in Hw2.
  assert (pm_rel r0 R (g, u1, ∅) (g, u2, ∅)) as Hrel by by constructor.
  destruct (processMessages_loop (moves r0) (processMessage_moves r0 Hr0) _ _ _ _ _ _ _ Hm1 Ho) as [Ho1 _].
  destruct (processMessages_loop (moves r0) (processMessage_moves r0 Hr0) _ _ _ _ _ _ _ Hm2 Ho) as [Ho2 _].
  pose proof (moves_no_wrap r0 _ _ (processDeps_loop (moves r0) (processMessage_moves r0 Hr0) _ _ _ _ _ _ Hd1) Ho1 Hw1) as Hwm1.
  pose proof (moves_no_wrap r0 _ _ (processDeps_loop (moves r0) (processMessage_moves r0 Hr0) _ _ _ _ _ _ Hd2) Ho2 Hw2) as Hwm2.
  destruct (processMessages_agree r0 Hr0 R _ _ _ _ _ _ _ _ _ _ Hrel Hm1 Hwm1 _ (eq_sym Hou) Hm2 Hwm2) as [Hrelm Hrm].
  assert (filter (open_msg R) (o1 ++ r1) = filter (open_msg R) (o2 ++ r2)) as Hor by (by rewrite !filter_app, Hou, Hrm).
  destruct (processDeps_agree r0 Hr0 R _ _ _ _ _ _ _ _ _ _ Hrelm Hor Hd1 Hw1 Hd2 Hw2) as [[[Hg Hs _ _] _ _ _] Hout].
  exists (set_out q1 v1), (set_out q2 v2). cbn in Hg, Hs, Hout. split; [cbn; by rewrite lookup_insert_eq|]. split; [|split; [|done]].
  - cbn [statess set_statess vcs]. rewrite Hg. cbn. by rewrite insert_insert_eq.
  - destruct Hs as [Hd Hb Hf Ht Hts]. by constructor.
Qed.

(** ** The references of reachable graphs *)

Definition keeps (st st' : pm_state) : Prop :=
  statess st'.1.1 ⊆ statess st.1.1 /\ (length (vcs st.1.1) <= length (vcs st'.1.1))%nat /\
  (addr_ok st.1.1 st.1.2 -> addr_ok st'.1.1 st'.1.2).
#[export] Instance keeps_preorder : PreOrder keeps.
Proof.
  split; [by intros st|]. intros st1 st2 st3 (Hs & Hl & Ha) (Hs' & Hl' & Ha'). split; [by etrans|]. split; [lia|auto].
Qed.
Lemma processMessage_keeps sender receiver origin m g s p g' s' resp :
  processMessage sender receiver origin m s g = Some (g', s', resp) -> keeps (g, s, p) (g', s', {[m]} ∪ p).
Proof.
  intros Hp. apply processMessage_graph in Hp as (_ & Ha & [[Hg Hl]|[h Hd]]).
  - split; [cbn; by rewrite Hg|done].
  - destruct (deliver_frame _ _ _ _ _ Hd) as [[] _]. by split_and!.
Qed.

Definition refs_ok (g : Graph) : Prop := forall id s, statess g !! id = Some s -> addr_ok g s.

Lemma refs_ok_heap g g' : statess g' = statess g -> vcs g' = vcs g -> refs_ok g -> refs_ok g'.
Proof. intros Hs Hv Hr id s. rewrite Hs. intros Hl. by eapply addr_ok_heap, Hr. Qed.

Lemma clone_addr g s R : (forall s', s = Some s' -> addr_ok g s') -> addr_ok g (BmState.clone s R).
Proof.
  destruct s as [s|]; intros Ha; [destruct (Ha s eq_refl) as [Hv Hi]|by constructor]. constructor; cbn.
  - intros k a [H _]%map_lookup_filter_Some. eauto.
  - intros k k' a [H _]%map_lookup_filter_Some [H' _]%map_lookup_filter_Some. eauto.
Qed.

Lemma fireTimeouts_addr node ts s outs s' outs' g : fireTimeouts node ts s outs = Some (s', outs') -> addr_ok g s -> addr_ok g s'.
Proof.
  revert s outs. induction ts as [|t ts IH]; intros s outs Hrun Ha; cbn [fireTimeouts] in Hrun; [by injection Hrun as <- _|].
  destruct (is_final s _ _); [by eapply IH|]. apply bind_Some in Hrun as (v & _ & Hrun). case_decide; [by eapply IH|].
  apply bind_Some in Hrun as (h & _ & Hrun). eapply IH; [exact Hrun|]. by apply put_data_addr.
Qed.

Lemma process_refs e g g' : process e g = Some g' -> refs_ok g -> refs_ok g'.
Proof.
  intros Hrun Hrefs. unfold process in Hrun. cbv zeta in Hrun. apply bind_Some in Hrun as (tval & _ & Hrun).
  apply bind_Some in Hrun as ([s1 o1] & Hf & Hrun). apply bind_Some in Hrun as ([st2 r2] & Hm & Hrun).
  apply bind_Some in Hrun as ([[[g3 s3] p3] o3] & Hd & Hrun). injection Hrun as <-.
  apply (processMessages_loop keeps processMessage_keeps) in Hm. apply (processDeps_loop keeps processMessage_keeps) in Hd.
  destruct (PreOrder_Transitive _ _ _ Hm Hd) as (Hs & Hl & Ha). cbn in Hs, Hl, Ha. intros id s. cbn [statess set_statess].
  rewrite lookup_insert_Some. intros [[_ <-]|[_ Hid]].
  - apply (addr_ok_heap g3); [done|]. apply (same_data_addr g3 s3); [|done]. apply Ha. eapply fireTimeouts_addr; [exact Hf|].
    apply (same_data_addr g (findOrCreateState e g)); [|done]. unfold findOrCreateState. destruct (Valid _); [apply clone_addr; intros; by eapply Hrefs|].
    by constructor.
  - destruct (Hrefs id s) as [Hv Hi]; [by eapply lookup_weaken|]. constructor; [|done]. intros k a Hk. specialize (Hv k a Hk). cbn. lia.
Qed.

Lemma processAll_refs es g g' : processAll es g = Some g' -> refs_ok g -> refs_ok g'.
Proof.
  revert g. induction es as [|e es IH]; intros g Hrun Hr; cbn in Hrun; [by injection Hrun as <-|].
  apply bind_Some in Hrun as (g1 & H1 & Hrun). eapply IH; [exact Hrun|]. by eapply process_refs.
Qed.

Lemma reachable_refs cfg g : reachable cfg g -> refs_ok g.
Proof.
  intros Hre. refine (rtc_ind_r refs_ok (New cfg) _ _ _ Hre); [intros id s Hl; cbn in Hl; by rewrite lookup_empty in Hl|].
  intros g1 g2 _ [d g0 _|g0 g' _ Hrun] Hr; [by apply (refs_ok_heap g0)|]. unfold run in Hrun. destruct (entries g0) as [|d ds]; [by injection Hrun as <-|].
  unfold runStep in Hrun. destruct (depEntries _ _ _ _) as [[es mx] m]. cbv zeta in Hrun. apply bind_Some in Hrun as (g1' & H1 & Hrun).
  eapply process_refs; [exact Hrun|]. eapply processAll_refs; [exact H1|]. by apply (refs_ok_heap g0).
Qed.

(** ** What [clone] may forget *)

Lemma clone_rel R g s : addr_ok g s -> rel (open_instance R) (fun k => R <= k) g s g (BmState.clone (Some s) R).
Proof.
  intros Ha. constructor; [symmetry; apply set_vcs_id| |done|by apply clone_addr; intros ? [= <-]].
  constructor; try done; cbn [BmState.clone data bitsets final timeouts].
  - intros k Hk. f_equal. destruct (data s !! k) eqn:E.
    + symmetry. apply map_lookup_filter_Some_2; [done|]. cbn. unfold open_instance in Hk. destruct k; cbn in *; lia.
    + symmetry. apply map_lookup_filter_None_2. by left.
  - intros pp Hk. unfold open_instance in Hk. cbn in Hk. rewrite lookup_fmap. destruct (bitsets s !! pp) as [b|] eqn:E.
    + rewrite (map_lookup_filter_Some_2 _ _ _ b); [by destruct b|done|cbn; lia].
    + rewrite map_lookup_filter_None_2; [done|by left].
  - intros nr Hk. unfold open_instance in Hk. destruct (final s !! nr) eqn:E.
    + symmetry. apply map_lookup_filter_Some_2; [done|]. cbn. lia.
    + symmetry. apply map_lookup_filter_None_2. by left.
  - intros k Hk. unfold timeouts_on. cbn [timeouts]. do 2 f_equal. destruct (timeouts s !! k) eqn:E.
    + symmetry. apply map_lookup_filter_Some_2; [done|]. cbn. lia.
    + symmetry. apply map_lookup_filter_None_2. by left.
Qed.

(** C12. Forgetting is transparent.  In every reachable graph, a block whose round
    is not over yet is interpreted from the state of its previous block as [clone]
    leaves it, without the rounds before the current one, just as it would be from
    the whole of that state: the same rounds reach the callback with the same
    blocks, the same hashes are resolved, and the new states agree about every
    node and round that is still open, in their votes, views and final hashes, in
    the timeouts that are left, and in the messages they send. *)
Theorem pruning_is_transparent cfg g ntry s g1 g2 : reachable cfg g ->
  Valid (e_prev ntry) = true -> statess g !! e_prev ntry = Some s -> round g <= Round (e_block ntry) ->
  process_from s ntry g = Some g1 -> no_wrap (first_round cfg) g1 ->
  process ntry g = Some g2 -> no_wrap (first_round cfg) g2 ->
  cbs g2 = cbs g1 /\ resolved g2 = resolved g1 /\ round g2 = round g1 /\ blocks g2 = blocks g1 /\
  exists s1 s2, statess g1 !! e_block ntry = Some s1 /\ statess g2 = <[e_block ntry := s2]> (statess g1) /\
    same_on (open_instance (round g)) (fun k => round g <= k) g1 s1 g2 s2 /\
    filter (open_msg (round g)) (out s1) = filter (open_msg (round g)) (out s2).
Proof.
  intros Hre Hv Hs HR H1 Hw1 H2 Hw2. destruct (reachable_ok _ _ Hre) as ([_ Ho _ _] & _).
  assert (0 <= first_round cfg) as Hr0 by (apply Z.mod_pos_bound; lia).
  rewrite process_from_spec in H2. unfold findOrCreateState in H2. rewrite Hv, Hs in H2.
  pose proof (clone_rel (round g) g s (reachable_refs _ _ Hre _ _ Hs)) as Hrel.
  destruct (process_from_agree _ _ _ _ _ _ _ _ Hr0 Hrel eq_refl Ho (Z.le_refl _) HR H1 Hw1 H2 Hw2) as (s1 & s2 & Hl & Hg & Hsame & Hout).
  rewrite Hg. split_and!; [done..|]. exists s1, s2. split_and!; [done|done| |done]. by rewrite <-Hg.
Qed.

(** The block of round 6 of node 2, whose previous state still has rounds that are
    over in the run of four nodes. *)
Definition ex_ntry : entry := MkEntry (Example4.B 2 6) (Example4.B 2 5 :: Example4.links [1; 2; 3; 4] 2 6) (Example4.B 2 5).

(** That state, and whether the graph after it exists and has not wrapped. *)
Definition ex_state : state :=
  default emptyState (statess (Example4.graph [1; 2; 3; 4] 6) !! e_prev ex_ntry).
Definition ex_runs (g : option Graph) : bool :=
  match g with Some g => bool_decide (1 + Z.of_nat (length (cbs g)) < 2 ^ 64) | None => false end.

Lemma ex_runs_Some og : ex_runs og = true -> exists g, og = Some g /\ no_wrap (first_round Example4.cfg) g.
Proof. destruct og as [g|]; intros H; [|discriminate]. exists g. split; [done|]. by apply bool_decide_eq_true in H. Qed.

Lemma pruning_is_transparent_witness :
  let g := Example4.graph [1; 2; 3; 4] 6 in
  exists g1 g2 s1 s2, (size (data (BmState.clone (Some ex_state) (round g))) < size (data ex_state))%nat /\
    process_from ex_state ex_ntry g = Some g1 /\ process ex_ntry g = Some g2 /\ cbs g2 = cbs g1 /\
    statess g1 !! e_block ex_ntry = Some s1 /\ statess g2 = <[e_block ex_ntry := s2]> (statess g1) /\
    filter (open_msg (round g)) (out s1) = filter (open_msg (round g)) (out s2).
Proof.
  cbv zeta. set (g := Example4.graph [1; 2; 3; 4] 6).
  assert (statess g !! e_prev ex_ntry = Some ex_state) as Hs by (vm_compute; reflexivity).
  assert (Nat.ltb (size (data (BmState.clone (Some ex_state) (round g)))) (size (data ex_state)) = true) as Hlt by (vm_compute; reflexivity).
  assert (ex_runs (process_from ex_state ex_ntry g) = true) as (g1 & H1 & Hw1)%ex_runs_Some by (vm_compute; reflexivity).
  assert (ex_runs (process ex_ntry g) = true) as (g2 & H2 & Hw2)%ex_runs_Some by (vm_compute; reflexivity).
  assert (Z.leb (round g) (Round (e_block ex_ntry)) = true) as HR%Z.leb_le by (vm_compute; reflexivity).
  assert (reachable Example4.cfg g) as Hre by exact Example4.full_reachable.
  destruct (pruning_is_transparent Example4.cfg g ex_ntry ex_state g1 g2 Hre eq_refl Hs HR H1 Hw1 H2 Hw2)
    as (Hc & _ & _ & _ & s1 & s2 & Hl & Hg & _ & Hout).
  exists g1, g2, s1, s2. split; [exact (proj1 (Nat.ltb_lt _ _) Hlt)|]. split; [exact H1|]. split; [exact H2|]. split; [exact Hc|].
  split; [exact Hl|]. split; [exact Hg|exact Hout].
Defined.
