(* ===== verification/GraphVotes.v ===== *)
(** * GraphVotes: votes, quorums and the blocks of a round

    What the vote handling of [processMessage] guarantees, also along a chain of
    blocks that are interpreted one from the other, why all voters are members of
    the shard and two quorums of it meet, and the order in which the blocks of a
    round are delivered. *)
From S2P Require Import Prelude Bitset Messages BmState Graph GraphDelivery GraphInv GraphRun GraphProps GraphLocal.

(** ** What the interpretation of a block does to its state

    A relation [T] between a state, the messages that were sent and the state
    afterwards, which every message of a kind [P] respects, holds for a block. *)

Section traced.
Context (P : Message -> Prop) (T : state -> list Message -> state -> Prop) (receiver_ok : uint64 -> Prop).
Context (T_refl : forall s, T s [] s) (T_trans : forall s1 l1 s2 l2 s3, T s1 l1 s2 -> T s2 l2 s3 -> T s1 (l1 ++ l2) s3).
Context (T_step : forall sender receiver origin m g s g' s' resp, receiver_ok receiver -> P m ->
  processMessage sender receiver origin m s g = Some (g', s', resp) -> T s (option_list resp) s' /\ Forall P (option_list resp)).

(** The blocks of the graph have sent such messages. *)
Definition sent_ok (g : Graph) : Prop := forall id s, statess g !! id = Some s -> Forall P (out s).

(** What a loop that appends to [outs] does. *)
Definition traces (st : pm_state) (outs : list Message) (st' : pm_state) (outs' : list Message) : Prop :=
  statess st'.1.1 ⊆ statess st.1.1 /\ exists ms, outs' = outs ++ ms /\ T st.1.2 ms st'.1.2 /\ Forall P ms.

Lemma traces_refl st outs : traces st outs st outs.
Proof using T_refl. split; [done|]. exists []. by rewrite app_nil_r. Qed.
Lemma traces_trans st1 o1 st2 o2 st3 o3 : traces st1 o1 st2 o2 -> traces st2 o2 st3 o3 -> traces st1 o1 st3 o3.
Proof using T_trans.
  intros (Hs1 & l1 & -> & HT1 & HP1) (Hs2 & l2 & -> & HT2 & HP2). split; [by etrans|]. exists (l1 ++ l2).
  split_and!; [by rewrite app_assoc|by eapply T_trans|by apply Forall_app].
Qed.
Lemma traces_all st outs st' outs' : traces st outs st' outs' -> Forall P outs -> Forall P outs'.
Proof using Type. intros (_ & ms & -> & _ & Hm) Ho. by apply Forall_app. Qed.
Lemma traces_sent st outs st' outs' : traces st outs st' outs' -> sent_ok st.1.1 -> sent_ok st'.1.1.
Proof using Type. intros [Hs _] Hok id s Hl. eapply Hok, lookup_weaken; eauto. Qed.

Context (receiver : uint64) (Hreceiver : receiver_ok receiver).

Lemma pm_step_traces sender origin m st outs st' outs' : P m ->
  pm_step sender receiver origin m st outs = Some (st', outs') -> traces st outs st' outs'.
Proof using T_refl T_step Hreceiver.
  intros Hm. destruct st as [[g s] p]. unfold pm_step. case_decide; [intros [= <- <-]; apply traces_refl|].
  intros ([[g' s'] resp] & Hp & [= <- <-])%bind_Some. split.
  - apply (processMessage_keeps _ _ _ _ _ _ p _ _ _ Hp).
  - exists (option_list resp). split; [done|]. by eapply T_step.
Qed.

Lemma pm_range_traces sender origin msgs st outs st' outs' : Forall P msgs ->
  pm_range sender receiver origin msgs st outs = Some (st', outs') -> traces st outs st' outs'.
Proof using T_refl T_trans T_step Hreceiver.
  intros Hm. revert st outs. induction Hm as [|m msgs Hm _ IH]; intros st outs H; cbn [pm_range] in H.
  { injection H as <- <-. apply traces_refl. }
  apply bind_Some in H as ([st1 outs1] & H1 & H). eapply traces_trans; [by eapply pm_step_traces|by apply IH].
Qed.

Lemma pm_drain_traces fuel sender origin i st outs st' outs' : Forall P outs ->
  pm_drain fuel sender receiver origin i st outs = Some (st', outs') -> traces st outs st' outs'.
Proof using T_refl T_trans T_step Hreceiver.
  revert i st outs. induction fuel as [|fuel IH]; intros i st outs Ho H; cbn [pm_drain] in H;
    (destruct (outs !! i) as [m|] eqn:E; [|injection H as <- <-; apply traces_refl]); [done|].
  apply bind_Some in H as ([st1 outs1] & H1 & H).
  apply pm_step_traces in H1; [|by eapply Forall_lookup_1]. eapply traces_trans; [exact H1|].
  eapply IH; [by eapply traces_all|done].
Qed.

Lemma processMessages_traces sender origin msgs st outs st' resp : Forall P msgs ->
  processMessages sender receiver origin msgs st = Some (st', resp) -> traces st outs st' (outs ++ resp).
Proof using T_refl T_trans T_step Hreceiver.
  intros Hm H. unfold processMessages in H. apply bind_Some in H as ([st1 outs1] & H1 & H).
  apply pm_range_traces in H1; [|done]. apply pm_drain_traces in H; [|by eapply traces_all; [|constructor]].
  destruct (traces_trans _ _ _ _ _ _ H1 H) as (Hs & ms & -> & HT & HP). split; [done|]. by exists ms.
Qed.

Lemma processDeps_traces block deps st outs st' outs' : Node block = receiver -> sent_ok st.1.1 ->
  processDeps block deps st outs = Some (st', outs') -> traces st outs st' outs'.
Proof using T_refl T_trans T_step Hreceiver.
  intros Hb. revert st outs. induction deps as [|dep deps IH]; intros st outs Hok H; cbn [processDeps] in H.
  { injection H as <- <-. apply traces_refl. }
  apply bind_Some in H as ([st1 resp] & H1 & H). rewrite Hb in H1.
  apply (processMessages_traces _ _ _ _ outs) in H1; [|unfold getOutput; destruct (statess _ !! dep) eqn:E; [by eapply Hok|constructor]].
  eapply traces_trans; [exact H1|]. apply IH; [by eapply traces_sent|done].
Qed.

(** The state of a processed block, and the messages it has sent. *)
Lemma process_traces e g g' : Node (e_block e) = receiver -> sent_ok g ->
  (forall ts s outs s' outs', fireTimeouts receiver ts s outs = Some (s', outs') ->
     exists ms, outs' = outs ++ ms /\ T s ms s' /\ Forall P ms) ->
  (forall m, pp_Node m = receiver -> P (MPrePrepare m)) ->
  (forall s m, T s [MPrePrepare m] s) -> (forall s x, T s [] (set_delay x s)) -> (forall s x, T s [] (set_timeout x s)) ->
  (forall s x, T s [] (set_timeouts x s)) -> (forall s x, T s [] (set_out x s)) ->
  process e g = Some g' ->
  exists s', statess g' = <[e_block e := s']> (statess g') /\ T (findOrCreateState e g) (out s') s' /\
    Forall P (out s') /\ forall id s, statess g' !! id = Some s -> id = e_block e /\ s = s' \/ statess g !! id = Some s.
Proof using T_refl T_trans T_step Hreceiver.
  intros Hb Hok Hfire Hpp HTp HTd HTt HTts HTo H. unfold process in H. cbv zeta in H. rewrite Hb in H.
  apply bind_Some in H as (tval & _ & H). apply bind_Some in H as ([s1 o1] & Hf & H).
  apply bind_Some in H as ([st2 r2] & Hm & H). apply bind_Some in H as ([[[g3 s3] p3] o3] & Hd & H). injection H as <-.
  set (s0 := set_timeouts _ _) in Hf.
  assert (T (findOrCreateState e g) [] s0) as HT0 by (change [] with (([] ++ []) ++ [] : list Message); eauto).
  destruct (Hfire _ _ _ _ _ Hf) as (vs & -> & HT1 & HP1).
  assert (Forall P ([MPrePrepare (MkPrePrepare (Hash (e_block e)) receiver (Round (e_block e)) 0)] ++ vs)) as Ho1
    by (apply Forall_app; split; [constructor; [by apply Hpp|constructor]|done]).
  apply (processMessages_traces _ _ _ _ ([MPrePrepare (MkPrePrepare (Hash (e_block e)) receiver (Round (e_block e)) 0)] ++ vs)) in Hm; [|done].
  apply processDeps_traces in Hd; [|done|by eapply traces_sent].
  destruct (traces_trans _ _ _ _ _ _ Hm Hd) as (Hs & ms & Ho3 & HT & HP). cbn in Hs, HT.
  exists (set_out o3 s3). cbn [statess set_statess out set_out]. split_and!.
  - by rewrite insert_insert_eq.
  - rewrite Ho3. rewrite <-(app_nil_r (_ ++ ms)). eapply T_trans; [|apply HTo].
    change (([MPrePrepare ?m] ++ vs) ++ ms) with ([] ++ [MPrePrepare m] ++ (vs ++ ms)). eauto 6.
  - rewrite Ho3. by apply Forall_app.
  - intros id s. rewrite lookup_insert_Some. intros [[<- <-]|[_ Hl]]; [by left|right]. by eapply lookup_weaken.
Qed.
End traced.

(** ** Prepares and commits *)

(** The state knows a pre-prepare of the node, round and view. *)
Definition preprepared (n r : uint64) (v : uint32) (s : state) : Prop := is_Some (data s !! PrePrepared n r v).
Definition is_prepare (n r : uint64) (v : uint32) (m : Message) : Prop :=
  match m with MPrepare m => m_Node m = n /\ m_Round m = r /\ m_View m = v | _ => False end.
#[export] Instance is_prepare_dec n r v m : Decision (is_prepare n r v m).
Proof. destruct m; apply _. Defined.

(** The number of prepares for the node, round and view among some messages. *)
Definition prepares_in (n r : uint64) (v : uint32) (ms : list Message) : nat := length (filter (is_prepare n r v) ms).

Lemma prepares_app n r v l k : prepares_in n r v (l ++ k) = (prepares_in n r v l + prepares_in n r v k)%nat.
Proof. unfold prepares_in. by rewrite filter_app, length_app. Qed.

(** A prepare is sent only without a pre-prepare, which is there afterwards. *)
Definition prep (n r : uint64) (v : uint32) (s : state) (ms : list Message) (s' : state) : Prop :=
  (prepares_in n r v ms <= 1)%nat /\ (prepares_in n r v ms <> 0%nat -> ~ preprepared n r v s /\ preprepared n r v s') /\
  (preprepared n r v s -> preprepared n r v s').

Lemma prep_same n r v s s' ms : prepares_in n r v ms = 0%nat -> (preprepared n r v s -> preprepared n r v s') -> prep n r v s ms s'.
Proof. intros Hz Hp. unfold prep. rewrite Hz. split_and!; [lia|done|done]. Qed.
Lemma prep_trans n r v s1 l1 s2 l2 s3 : prep n r v s1 l1 s2 -> prep n r v s2 l2 s3 -> prep n r v s1 (l1 ++ l2) s3.
Proof.
  intros (Hc1 & Hs1 & Hp1) (Hc2 & Hs2 & Hp2). unfold prep. rewrite prepares_app.
  destruct (decide (prepares_in n r v l1 = 0%nat)) as [E1|E1], (decide (prepares_in n r v l2 = 0%nat)) as [E2|E2]; rewrite ?E1, ?E2 in *.
  - split_and!; [lia|lia|auto].
  - destruct (Hs2 E2). split_and!; [lia|naive_solver|auto].
  - destruct (Hs1 E1). split_and!; [lia|naive_solver|auto].
  - destruct (Hs1 E1), (Hs2 E2). naive_solver.
Qed.

(** No handler forgets a key. *)
Lemma processMessage_dom sender receiver origin m g s g' s' resp k :
  processMessage sender receiver origin m s g = Some (g', s', resp) -> is_Some (data s !! k) -> is_Some (data s' !! k).
Proof.
  intros H Hk. unfold processMessage in H. destruct (NodeRound m) as [n r]. destruct (is_final s n r); [by simplify_eq|].
  apply bind_Some in H as ([s1 v] & Hgv & H). apply getView_data in Hgv as (Hd & _ & _).
  assert (forall (d : gmap StateData DataVal) k2 x, is_Some (d !! k) -> is_Some (<[k2 := x]> d !! k)) as Hput.
  { intros d k2 x Hx. rewrite lookup_insert. case_decide; [by eexists|done]. }
  assert (is_Some (data s1 !! k)) as Hk1 by (rewrite Hd; by apply Hput).
  destruct m as [m|m|m|m|m]; [unfold onPrePrepare in H|unfold onPrepare in H|unfold onCommit in H|unfold onViewChange in H|unfold onNewView in H];
    cbv zeta in H; rewrite ?getBitset_eq in H; repeat (case_match || case_decide || opt_inv); simplify_eq; cbn; eauto 8.
Qed.

(** Only a pre-prepare is answered by a prepare, and only the first one. *)
Lemma processMessage_prepare sender receiver origin m g s g' s' q :
  processMessage sender receiver origin m s g = Some (g', s', Some (MPrepare q)) ->
  data s !! PrePrepared (m_Node q) (m_Round q) (m_View q) = None /\
  is_Some (data s' !! PrePrepared (m_Node q) (m_Round q) (m_View q)).
Proof.
  intros H. unfold processMessage in H. destruct (NodeRound m) as [n r]. destruct (is_final s n r); [by simplify_eq|].
  apply bind_Some in H as ([s1 v] & Hgv & H). apply getView_data in Hgv as (Hd & _ & _).
  destruct m as [m|m|m|m|m].
  - unfold onPrePrepare in H. cbv zeta in H. rewrite getBitset_eq in H. case_decide; [by simplify_eq|].
    case_decide as Hk; [by simplify_eq|]. apply bind_Some in H as (b1 & _ & H). apply bind_Some in H as (b2 & _ & H).
    injection H as _ <- <-. cbn. rewrite Hd, lookup_insert_ne in Hk by done. split; [by apply eq_None_not_Some|].
    rewrite lookup_insert_eq. by eexists.
  - unfold onPrepare in H. cbv zeta in H. rewrite !getBitset_eq in H. repeat (case_match || case_decide || opt_inv); simplify_eq.
  - unfold onCommit in H. cbv zeta in H. rewrite getBitset_eq in H. repeat (case_match || case_decide || opt_inv); simplify_eq.
  - unfold onViewChange in H. cbv zeta in H. repeat (case_match || case_decide || opt_inv); simplify_eq.
  - unfold onNewView in H. cbv zeta in H. repeat (case_match || case_decide || opt_inv); simplify_eq.
Qed.

Lemma processMessage_prep n r v sender receiver origin m g s g' s' resp :
  processMessage sender receiver origin m s g = Some (g', s', resp) -> prep n r v s (option_list resp) s'.
Proof.
  intros H. assert (preprepared n r v s -> preprepared n r v s') as Hmono by (by eapply processMessage_dom).
  destruct (decide (prepares_in n r v (option_list resp) = 0%nat)) as [E|E]; [by apply prep_same|].
  destruct resp as [[q|q|q|q|q]|]; try done. change (option_list (Some (MPrepare q))) with [MPrepare q] in *. unfold prepares_in in E.
  rewrite filter_cons in E. case_decide as Hq; [|done]. destruct Hq as (<- & <- & <-).
  apply processMessage_prepare in H as [Hn Hs]. split_and!; [|intros _; split; [|done]|done].
  - unfold prepares_in. rewrite filter_cons. case_decide; cbn; lia.
  - unfold preprepared. rewrite Hn. by intros [].
Qed.

(** The timeouts of a round neither prepare nor forget. *)
Lemma fireTimeouts_prep n r v node ts s outs s' outs' : fireTimeouts node ts s outs = Some (s', outs') ->
  exists ms, outs' = outs ++ ms /\ prep n r v s ms s'.
Proof.
  revert s outs. induction ts as [|t ts IH]; intros s outs H; cbn [fireTimeouts] in H.
  { injection H as <- <-. exists []. rewrite app_nil_r. split; [done|]. by apply prep_same. }
  destruct (is_final s _ _); [by apply IH|]. apply bind_Some in H as (v0 & _ & H). case_decide; [by apply IH|].
  apply bind_Some in H as (h & _ & H). apply IH in H as (ms & -> & Hp). eexists. rewrite <-app_assoc. split; [done|].
  eapply prep_trans; [|exact Hp]. apply prep_same; [done|]. unfold preprepared. cbn. by rewrite lookup_insert_ne.
Qed.

Lemma process_prep n r v e g g' s' : process e g = Some g' -> statess g' !! e_block e = Some s' ->
  prep n r v (findOrCreateState e g) (out s') s'.
Proof.
  intros H Hl. destruct (process_traces (fun _ => True) (prep n r v) (fun _ => True) (fun s => prep_same n r v s s [] eq_refl id)
    (prep_trans n r v)) with (receiver := Node (e_block e)) (e := e) (g := g) (g' := g') as (s2 & Hs & HT & _ & _); try done.
  - intros. split; [by eapply processMessage_prep|by apply Forall_true].
  - intros id s _. by apply Forall_true.
  - intros ts s outs s1 outs1 Hf. destruct (fireTimeouts_prep n r v _ _ _ _ _ _ Hf) as (ms & ? & ?). exists ms.
    split_and!; [done|done|by apply Forall_true].
  - intros. by apply prep_same.
  - intros. by apply prep_same.
  - intros. by apply prep_same.
  - intros. by apply prep_same.
  - intros. by apply prep_same.
  - rewrite Hs, lookup_insert_eq in Hl. by injection Hl as <-.
Qed.

(** A chain of blocks, each interpreted from the state of the one before it while
    the round [rnd] is open: the messages that they have sent, and the state of
    the last one. *)
Inductive lineage (rnd : uint64) : list Message -> state -> Prop :=
  | lineage_first e g g' s : process e g = Some g' -> statess g' !! e_block e = Some s -> lineage rnd (out s) s
  | lineage_next ms s1 e g g' s2 : lineage rnd ms s1 ->
      Valid (e_prev e) = true -> statess g !! e_prev e = Some s1 -> round g <= rnd ->
      process e g = Some g' -> statess g' !! e_block e = Some s2 -> lineage rnd (ms ++ out s2) s2.

(** C10. A node prepares at most one block per node, round and view: whatever
    messages the blocks of a chain receive, as long as the round is open and each
    block is interpreted from the state of the one before it, they send together
    at most one prepare for the node, round and view, and once one is sent the
    state keeps the pre-prepare that it answers, so that no later one is. *)
Theorem prepare_once n r v ms s : lineage r ms s ->
  (prepares_in n r v ms <= 1)%nat /\ (prepares_in n r v ms <> 0%nat -> preprepared n r v s).
Proof.
  induction 1 as [e g g' s Hp Hl|ms s1 e g g' s2 _ [IH1 IH2] Hv Hs Hr Hp Hl];
    destruct (process_prep n r v _ _ _ _ Hp Hl) as (Hc & Hq & Hk).
  - split; [done|]. intros E. by apply Hq.
  - rewrite prepares_app. assert (preprepared n r v s1 -> preprepared n r v (findOrCreateState e g)) as Hcl.
    { unfold findOrCreateState. rewrite Hv, Hs. unfold preprepared. intros [x Hx]. exists x. cbn.
      apply map_lookup_filter_Some_2; [done|]. cbn. lia. }
    destruct (decide (prepares_in n r v ms = 0%nat)) as [E|E].
    + rewrite E. split; [done|]. intros E'. by apply Hq.
    + specialize (Hk (Hcl (IH2 E))). destruct (decide (prepares_in n r v (out s2) = 0%nat)) as [E'|E']; [rewrite E'; split; [lia|done]|].
      destruct (Hq E') as [Hn _]. by destruct Hn; auto.
Qed.

(** Messages with their senders, handled by node 1 one after the other. *)
Definition handle (ms : list (uint64 * Message)) (s : state) (g : Graph)
    : option (Graph * state * option Message) :=
  foldl (fun acc sm => '(g, s, _) ← acc; processMessage sm.1 1 zeroBlockID sm.2 s g)
        (Some (g, s, None)) ms.

(** The graph and state of node 1 after handling the messages. *)
Definition handled (ms : list (uint64 * Message)) : Graph * state :=
  default (New Example4.cfg, emptyState) (fst <$> handle ms emptyState (New Example4.cfg)).

Definition answered (r : option (Graph * state * option Message)) : bool :=
  match r with Some (_, _, Some _) => true | _ => false end.

(** The first two blocks of node 2. *)
Definition ex_first : entry := MkEntry (Example4.B 2 1) [] zeroBlockID.
Definition ex_next : entry := MkEntry (Example4.B 2 2) [Example4.B 2 1; Example4.B 1 1; Example4.B 3 1] (Example4.B 2 1).
Definition ex_g1 : Graph := default (New Example4.cfg) (process ex_first (New Example4.cfg)).
Definition ex_g2 : Graph := default (New Example4.cfg) (process ex_next ex_g1).

Lemma prepare_once_witness : exists ms s, lineage 1 ms s /\ prepares_in 2 1 0 ms = 1%nat /\ preprepared 2 1 0 s.
Proof.
  assert (exists s1 s2, process ex_first (New Example4.cfg) = Some ex_g1 /\ statess ex_g1 !! Example4.B 2 1 = Some s1 /\
    process ex_next ex_g1 = Some ex_g2 /\ statess ex_g2 !! Example4.B 2 2 = Some s2 /\ prepares_in 2 1 0 (out s1 ++ out s2) = 1%nat)
    as (s1 & s2 & H1 & L1 & H2 & L2 & Hc).
  { eexists _, _. split; [vm_compute; reflexivity|]. split; [vm_compute; reflexivity|]. split; [vm_compute; reflexivity|].
    split; [vm_compute; reflexivity|]. vm_compute. reflexivity. }
  assert (lineage 1 (out s1 ++ out s2) s2) as Hl.
  { eapply (lineage_next 1 (out s1) s1 ex_next ex_g1 ex_g2 s2); [|reflexivity|exact L1|vm_compute; discriminate|exact H2|exact L2].
    exact (lineage_first 1 ex_first _ _ _ H1 L1). }
  exists (out s1 ++ out s2), s2. split; [exact Hl|]. split; [exact Hc|].
  apply (prepare_once 2 1 0 _ _ Hl). rewrite Hc. discriminate.
Defined.

(** The votes recorded for a pre-prepare. *)
Definition votes (s : state) (pp : PrePrepare) (n : goint) : bitset :=
  default (newBitset n) (bitsets s !! pp).

(** C13. A commit is only sent for a prepared block: when a prepare is answered,
    the answer is the commit of the receiver for that very block and view, the
    prepare votes of exactly [2f+1] distinct nodes including the sender are
    recorded, the receiver had not committed it before and has now, and some
    hash is recorded as prepared. *)
Theorem commit_needs_quorum sender receiver origin m s g g' s' resp :
  0 <= receiver -> 0 <= m_Sender m ->
  processMessage sender receiver origin (MPrepare m) s g = Some (g', s', Some resp) ->
  let b := votes s (Pre m) (nodeCount g) in
  let b' := votes s' (Pre m) (nodeCount g) in
  resp = MCommit (MkSigned (m_Hash m) (m_Node m) (m_Round m) receiver (m_View m)) /\
  prepare_set b' = {[m_Sender m]} ∪ prepare_set b /\
  Z.of_nat (size (prepare_set b')) = quorum2f1 g /\
  receiver ∉ commit_set b /\ commit_set b' = {[receiver]} ∪ commit_set b /\
  exists h, data s' !! Prepared (m_Node m) (m_Round m) (m_View m) = Some h.
Proof.
  intros Hr Hs H. unfold processMessage in H. cbn [NodeRound] in H. cbv zeta.
  destruct (is_final s _ _); [by simplify_eq|].
  apply bind_Some in H as ([s1 v] & Hgv & H). apply getView_data in Hgv as (_ & Hb & _).
  unfold onPrepare in H. cbv zeta in H. rewrite !getBitset_eq, Hb in H.
  destruct (decide (v > _)); [by simplify_eq|].
  destruct (decide (v < _)); [by opt_inv|].
  change (default _ (bitsets s !! Pre m)) with (votes s (Pre m) (nodeCount g)) in H.
  set (b := votes s (Pre m) (nodeCount g)) in *.
  apply bind_Some in H as (b1 & Hb1 & H). case_decide as Hq; [by simplify_eq|].
  apply bind_Some in H as (hc & Hhc & H). destruct hc; [by simplify_eq|].
  apply bind_Some in H as (b2 & Hb2 & H).
  assert (votes s' (Pre m) (nodeCount g) = b2 /\ resp = MCommit (MkSigned (m_Hash m) (m_Node m) (m_Round m) receiver (m_View m)) /\
    exists h, data s' !! Prepared (m_Node m) (m_Round m) (m_View m) = Some h) as (-> & -> & ?).
  { unfold votes. destruct (data _ !! Prepared _ _ _) eqn:E in H; injection H as _ <- <-;
      simpl; rewrite lookup_insert_eq; split_and!; try done; [by eexists|].
    eexists. by rewrite lookup_insert_eq. }
  unfold setPrepare in Hb1. apply bind_Some in Hb1 as (ws1 & Hw1 & [= <-]).
  unfold setCommit in Hb2. apply bind_Some in Hb2 as (ws2 & Hw2 & [= <-]). simpl in *.
  apply voters_word_set in Hw1 as Hv1; [|done]. apply voters_word_set in Hw2 as Hv2; [|done].
  unfold prepare_set, commit_set. simpl.
  split_and!; try done.
  - by rewrite <-Hq, prepareCount_size.
  - rewrite elem_of_voters by done. unfold member, hasCommit in *. simpl in Hhc. congruence.
Qed.

Lemma commit_needs_quorum_witness :
  let gs := handled [(2, MPrePrepare (MkPrePrepare [7] 2 1 0))] in
  match processMessage 3 1 zeroBlockID (MPrepare (MkSigned [7] 2 1 3 0)) gs.2 gs.1 with
  | Some (g', s', Some resp) =>
      resp = MCommit (MkSigned [7] 2 1 1 0) /\
      Z.of_nat (size (prepare_set (votes s' (MkPrePrepare [7] 2 1 0) (nodeCount gs.1)))) =
        quorum2f1 gs.1
  | _ => False
  end.
Proof.
  cbv zeta. set (gs := handled _).
  assert (answered (processMessage 3 1 zeroBlockID (MPrepare (MkSigned [7] 2 1 3 0)) gs.2 gs.1) = true)
    as Ha by by vm_compute.
  destruct (processMessage _ _ _ _ gs.2 gs.1) as [[[g' s'] [resp|]]|] eqn:E; [|done..].
  pose proof (commit_needs_quorum 3 1 zeroBlockID (MkSigned [7] 2 1 3 0) gs.2 gs.1 g' s' resp
                ltac:(lia) ltac:(simpl; lia) E) as (Hr & _ & Hq & _).
  exact (conj Hr Hq).
Defined.

(** The quorums of a shard of [3f+1] nodes. *)
Lemma New_quorums cfg f : Z.of_nat (length (Nodes cfg)) = 3 * f + 1 ->
  quorumf1 (New cfg) = f + 1 /\ quorum2f1 (New cfg) = 2 * f + 1.
Proof.
  intros H. simpl. rewrite H. replace (3 * f + 1 - 1) with (f * 3) by lia.
  by rewrite Z.quot_mul by done.
Qed.

Lemma size_list_to_set_le (l : list Z) : (size (list_to_set l :> gset Z) <= length l)%nat.
Proof.
  induction l as [|x l IH]; [done|]. simpl list_to_set.
  pose proof (size_vote x (list_to_set l)). simpl. case_decide; lia.
Qed.

(** Two subsets of a set meet in as many elements as their sizes exceed it. *)
Lemma size_overlap (X Y U : gset Z) : X ⊆ U -> Y ⊆ U ->
  (size X + size Y <= size U + size (X ∩ Y))%nat.
Proof.
  intros HX HY. assert (Y ∩ X = X ∩ Y) as Hc by set_solver.
  assert (size (Y ∩ X) <= size Y)%nat by (apply subseteq_size; set_solver).
  assert (size (X ∪ Y) <= size U)%nat by (by apply subseteq_size, union_least).
  pose proof (size_union_alt X Y). pose proof (size_difference_alt Y X). rewrite Hc in *. lia.
Qed.

(** ** The voters are members *)

(** A message that names its sender names a member; the votes of a state are those
    of members. *)
Definition by_member (N : gset Z) (m : Message) : Prop :=
  match m with
  | MPrePrepare _ => True
  | MPrepare m | MCommit m | MViewChange m | MNewView m => 0 <= m_Sender m /\ m_Sender m ∈ N
  end.
Definition votes_in (N : gset Z) (s : state) : Prop := map_Forall (fun _ b => commit_set b ⊆ N) (bitsets s).
Definition keeps_votes (N : gset Z) (s : state) (_ : list Message) (s' : state) : Prop := votes_in N s -> votes_in N s'.

Lemma votes_in_get N n pp s : votes_in N s -> commit_set (default (newBitset n) (bitsets s !! pp)) ⊆ N.
Proof.
  intros Hv. destruct (bitsets s !! pp) as [b|] eqn:E; cbn [default from_option]; [by apply (Hv pp)|].
  destruct (newBitset_sets n) as [-> _]. apply empty_subseteq.
Qed.
Lemma setPrepare_commits b v b' : setPrepare b v = Some b' -> commit_set b' = commit_set b.
Proof. unfold setPrepare. by intros (ws & _ & [= <-])%bind_Some. Qed.
Lemma setCommit_commits b v b' : 0 <= v -> setCommit b v = Some b' -> commit_set b' = {[v]} ∪ commit_set b.
Proof. unfold setCommit, commit_set. intros Hv (ws & Hw & [= <-])%bind_Some. cbn. by apply voters_word_set. Qed.

Lemma votes_in_put N pp b s : votes_in N s -> commit_set b ⊆ N -> votes_in N (putBitset pp b s).
Proof. intros Hv Hb. by apply map_Forall_insert_2. Qed.

Section members.
Context (N : gset Z) (receiver : uint64) (Hr : 0 <= receiver /\ receiver ∈ N).

Lemma onPrePrepare_votes m v sender s g g' s' resp : onPrePrepare m v sender receiver s g = Some (g', s', resp) ->
  keeps_votes N s [] s' /\ Forall (by_member N) (option_list resp).
Proof using Hr.
  unfold onPrePrepare. cbv zeta. rewrite getBitset_eq. case_decide; [intros [= _ <- <-]; split; [by intros ?|constructor]|].
  case_decide; [intros [= _ <- <-]; split; [by intros ?|constructor]|].
  intros (b1 & H1 & (b2 & H2 & [= _ <- <-])%bind_Some)%bind_Some. split; [|constructor; [exact Hr|constructor]].
  intros Hv. rewrite putBitset_twice. apply (votes_in_put N m); [done|].
  rewrite (setPrepare_commits _ _ _ H2), (setPrepare_commits _ _ _ H1). by apply votes_in_get.
Qed.

Lemma onPrepare_votes m v s g g' s' resp : onPrepare m v receiver s g = Some (g', s', resp) ->
  keeps_votes N s [] s' /\ Forall (by_member N) (option_list resp).
Proof using Hr.
  unfold onPrepare. cbv zeta. rewrite !getBitset_eq.
  assert (forall b1, setPrepare (default (newBitset (nodeCount g)) (bitsets s !! Pre m)) (m_Sender m) = Some b1 ->
            votes_in N s -> commit_set b1 ⊆ N) as H1.
  { intros b1 Hb Hv. rewrite (setPrepare_commits _ _ _ Hb). by apply votes_in_get. }
  destruct (decide (v > m_View m)); [intros [= _ <- <-]; split; [by intros ?|constructor]|].
  destruct (decide (v < m_View m)).
  { intros (b1 & Hb1 & [= _ <- <-])%bind_Some. split; [|constructor]. intros Hv. rewrite putBitset_twice. apply votes_in_put; auto. }
  intros (b1 & Hb1 & H)%bind_Some. rewrite putBitset_twice in H.
  destruct (decide (prepareCount b1 <> quorum2f1 g)).
  { injection H as _ <- <-. split; [|constructor]. intros Hv. apply votes_in_put; auto. }
  apply bind_Some in H as ([] & _ & H).
  { injection H as _ <- <-. split; [|constructor]. intros Hv. apply votes_in_put; auto. }
  apply bind_Some in H as (b2 & Hb2 & H). rewrite putBitset_twice in H. injection H as _ <- <-. split; [|constructor; [exact Hr|constructor]].
  intros Hv. assert (votes_in N (putBitset (Pre m) b2 s)) as Hp.
  { apply votes_in_put; [done|]. rewrite (setCommit_commits _ _ _ (proj1 Hr) Hb2). specialize (H1 b1 Hb1 Hv). set_solver. }
  by case_match.
Qed.

Lemma onCommit_votes m v s g g' s' resp : 0 <= m_Sender m /\ m_Sender m ∈ N -> onCommit m v s g = Some (g', s', resp) ->
  keeps_votes N s [] s' /\ Forall (by_member N) (option_list resp).
Proof using Hr.
  intros [Hs Hm]. unfold onCommit. cbv zeta. rewrite getBitset_eq. destruct (decide (v < m_View m)); [intros [= _ <- <-]; split; [by intros ?|constructor]|].
  intros (b1 & Hb1 & H)%bind_Some. rewrite putBitset_twice in H.
  assert (votes_in N s -> votes_in N (putBitset (Pre m) b1 s)) as Hp.
  { intros Hv. apply votes_in_put; [done|]. rewrite (setCommit_commits _ _ _ Hs Hb1).
    pose proof (votes_in_get N (nodeCount g) (Pre m) s Hv). set_solver. }
  destruct (decide (commitCount b1 <> quorum2f1 g)); [injection H as _ <- <-; split; [done|constructor]|].
  destruct (final _ !! _); [injection H as _ <- <-; split; [done|constructor]|].
  apply bind_Some in H as (g1 & _ & [= _ <- <-]). split; [done|constructor].
Qed.

Lemma onViewChange_votes m v s g g' s' resp : onViewChange m v receiver s g = Some (g', s', resp) ->
  bitsets s' = bitsets s /\ Forall (by_member N) (option_list resp).
Proof using Hr.
  unfold onViewChange. cbv zeta. destruct (decide (v > m_View m)); [intros [= _ <- <-]; split; [done|constructor]|].
  intros ([[addr s1] g1] & Ha & H)%bind_Some. assert (bitsets s1 = bitsets s) as Hb by (repeat case_match; by simplify_eq).
  apply bind_Some in H as (votes & _ & H). case_decide; [injection H as _ <- <-; split; [done|constructor]|].
  apply bind_Some in H as (h & _ & [= _ <- <-]). split; [done|]. constructor; [exact Hr|constructor].
Qed.

Lemma processMessage_votes sender origin m g s g' s' resp : by_member N m ->
  processMessage sender receiver origin m s g = Some (g', s', resp) ->
  keeps_votes N s (option_list resp) s' /\ Forall (by_member N) (option_list resp).
Proof using Hr.
  intros Hm H. unfold processMessage in H. destruct (NodeRound m) as [n r]. destruct (is_final s n r).
  { injection H as _ <- <-. split; [by intros ?|constructor]. }
  apply bind_Some in H as ([s1 v] & Hgv & H). apply getView_data in Hgv as (_ & Hb & _).
  assert (votes_in N s -> votes_in N s1) as H1 by (unfold votes_in; by rewrite Hb).
  destruct m as [m|m|m|m|m].
  - apply onPrePrepare_votes in H as [? ?]. split; [intros ?; auto|done].
  - apply onPrepare_votes in H as [? ?]. split; [intros ?; auto|done].
  - apply onCommit_votes in H as [? ?]; [|done]. split; [intros ?; auto|done].
  - apply onViewChange_votes in H as [Hb' ?]. split; [|done]. intros Hv%H1. unfold votes_in. by rewrite Hb'.
  - unfold onNewView in H. cbv zeta in H. repeat case_decide; injection H as _ <- <-; (split; [intros Hv%H1; exact Hv|]); [constructor..|constructor; [done|constructor]].
Qed.

Lemma fireTimeouts_votes ts s outs s' outs' : fireTimeouts receiver ts s outs = Some (s', outs') ->
  exists ms, outs' = outs ++ ms /\ keeps_votes N s ms s' /\ Forall (by_member N) ms.
Proof using Hr.
  revert s outs. induction ts as [|t ts IH]; intros s outs H; cbn [fireTimeouts] in H.
  { injection H as <- <-. exists []. rewrite app_nil_r. split_and!; [done|by intros ?|constructor]. }
  destruct (is_final s _ _); [by apply IH|]. apply bind_Some in H as (v0 & _ & H). case_decide; [by apply IH|].
  apply bind_Some in H as (h & _ & H). apply IH in H as (ms & -> & Hp & Hm). eexists. rewrite <-app_assoc. split; [done|].
  split; [intros Hv; by apply Hp|]. by constructor.
Qed.

End members.

(** The states of the graph hold votes of members, and have sent their messages. *)
Definition graph_members (N : gset Z) (g : Graph) : Prop :=
  sent_ok (by_member N) g /\ forall id s, statess g !! id = Some s -> votes_in N s.

Lemma clone_votes N s R : (forall s', s = Some s' -> votes_in N s') -> votes_in N (BmState.clone s R).
Proof.
  destruct s as [s|]; [|intros; apply map_Forall_empty]. intros Hv pp b (b0 & <- & [Hl _]%map_lookup_filter_Some)%lookup_fmap_Some.
  exact (Hv s eq_refl pp b0 Hl).
Qed.

Lemma process_members N e g g' : 0 <= Node (e_block e) /\ Node (e_block e) ∈ N -> graph_members N g ->
  process e g = Some g' -> graph_members N g'.
Proof.
  intros Hr [Hs Hv] H.
  destruct (process_traces (by_member N) (keeps_votes N) (fun r => 0 <= r /\ r ∈ N) (fun s => id)) with
    (receiver := Node (e_block e)) (e := e) (g := g) (g' := g') as (s2 & _ & HT & HP & Hall);
    try (intros s0 x0 Hv0; exact Hv0); try done.
  - intros s1 l1 s2 l2 s3 H1 H2 ?. auto.
  - intros sender r0 origin m0 g0 s0 g1 s1 resp Hr0 Hm0 Hp0. by eapply processMessage_votes.
  - intros. by eapply fireTimeouts_votes.
  - assert (votes_in N s2) as Hv2.
    { apply HT. unfold findOrCreateState. destruct (Valid _); [|apply map_Forall_empty]. apply clone_votes. intros s' Hl. by eapply Hv. }
    split; intros id s [[_ ->]|Hl]%Hall; [done|by eapply Hs|done|by eapply Hv].
Qed.

(** Graphs that are reached by adding blocks of the members of the shard. *)
Definition of_members (N : gset Z) (d : BlockGraph) : Prop :=
  Node (bg_Block d) ∈ N /\ Forall (fun dep => Node (dep_Block dep) ∈ N) (bg_Deps d).
Inductive member_step (N : gset Z) : Graph -> Graph -> Prop :=
  | member_add d g : bg_ok d -> of_members N d -> member_step N g (Add d g)
  | member_run g g' : entries g <> [] -> run g = Some g' -> member_step N g g'.
Definition members (cfg : Config) : gset Z := list_to_set (Nodes cfg).
Definition reachable_members (cfg : Config) (g : Graph) : Prop := rtc (member_step (members cfg)) (New cfg) g.

Lemma members_reachable cfg g : reachable_members cfg g -> reachable cfg g.
Proof. apply rtc_subrel. intros g1 g2 [d g0 Hd _|g0 g' Hne Hrun]; [by constructor|by eapply step_run]. Qed.

Lemma processAll_members N es g g' : Forall (fun e => 0 <= Node (e_block e) /\ Node (e_block e) ∈ N) es ->
  graph_members N g -> processAll es g = Some g' -> graph_members N g'.
Proof.
  intros He. revert g. induction He as [|e es He _ IH]; intros g Hg H; cbn in H; [by injection H as <-|].
  apply bind_Some in H as (g1 & H1 & H). eapply IH; [|exact H]. by eapply process_members.
Qed.

Lemma depEntries_blocks rnd deps mx m es mx' m' : depEntries rnd deps mx m = (es, mx', m') -> e_block <$> es = dep_Block <$> deps.
Proof.
  revert mx m es. induction deps as [|d deps IH]; intros mx m es H; simpl in H; [by simplify_eq|].
  destruct (if decide (Round (dep_Block d) <> 1) then _ else _) as [edeps acc]. cbv zeta in H.
  destruct (depEntries rnd deps _ _) as [[es2 mx2] m2] eqn:E2. simplify_eq. csimpl. f_equal. by eapply IH.
Qed.

Lemma runStep_members N d g g' : bg_ok d -> of_members N d -> graph_members N g -> runStep d g = Some g' -> graph_members N g'.
Proof.
  intros (Hb & _ & Hd) [Hn Hdn] Hg H. unfold runStep in H. destruct (depEntries _ _ _ _) as [[es mx] m] eqn:E. cbv zeta in H.
  apply bind_Some in H as (g1 & H1 & H). apply depEntries_blocks in E.
  eapply process_members; [| |exact H]; [split; [apply Hb|exact Hn]|].
  eapply processAll_members; [| |exact H1]; [|exact Hg].
  apply (Forall_fmap e_block (fun id => 0 <= Node id /\ Node id ∈ N)). rewrite E. apply Forall_fmap.
  rewrite Forall_forall in *. intros x Hx. destruct (Hd x Hx) as [? _]. split; [done|by apply Hdn].
Qed.

Lemma reachable_votes cfg g : reachable_members cfg g -> graph_members (members cfg) g.
Proof.
  intros Hg. enough (reachable cfg g /\ graph_members (members cfg) g /\
    Forall (fun d => bg_ok d /\ of_members (members cfg) d) (entries g)) by tauto.
  refine (rtc_ind_r (fun g => reachable cfg g /\ graph_members (members cfg) g /\
            Forall (fun d => bg_ok d /\ of_members (members cfg) d) (entries g)) (New cfg) _ _ _ Hg).
  { split_and!; [constructor|split; intros id s; cbn; by rewrite lookup_empty|constructor]. }
  intros g1 g2 _ Hst (Hre & Hm & He). destruct Hst as [d g0 Hd Hdm|g0 g' Hne Hrun].
  { split_and!; [|done|apply Forall_app; split; [done|by constructor]].
    eapply rtc_r; [exact Hre|by constructor]. }
  assert (reachable cfg g') as Hre' by (eapply rtc_r; [exact Hre|by eapply step_run]). split; [done|].
  destruct (reachable_ok _ _ Hre) as (Hok & _). unfold run in Hrun. destruct (entries g0) as [|d ds] eqn:E; [done|].
  apply Forall_cons in He as [[Hd Hdm] He]. split; [by eapply runStep_members; [..|exact Hrun]|].
  apply (runStep_ok (first_round cfg)) in Hrun as (_ & _ & _ & _ & _ & Hen);
    [|apply Z.mod_pos_bound; lia|by destruct Hok; constructor|done]. by rewrite Hen.
Qed.

(** C6. Safety across nodes: when all blocks that were added are of members of a
    shard of [3f+1] nodes, and two nodes hold final hashes for one node and
    round, different or the same, then the commit votes behind them are of
    members of the shard and have at least [f+1] of them in common; a conflict
    therefore needs more than [f] members that voted for both. *)
Theorem finals_share_voters cfg1 cfg2 g1 g2 id1 id2 node rnd h1 h2 f :
  reachable_members cfg1 g1 -> reachable_members cfg2 g2 ->
  Nodes cfg2 = Nodes cfg1 -> Z.of_nat (length (Nodes cfg1)) = 3 * f + 1 ->
  final_at g1 id1 node rnd = Some h1 -> final_at g2 id2 node rnd = Some h2 ->
  quorumf1 (New cfg1) = f + 1 /\
  exists s1 s2 v1 v2 b1 b2,
    statess g1 !! id1 = Some s1 /\ bitsets s1 !! MkPrePrepare h1 node rnd v1 = Some b1 /\
    statess g2 !! id2 = Some s2 /\ bitsets s2 !! MkPrePrepare h2 node rnd v2 = Some b2 /\
    commit_set b1 ⊆ members cfg1 /\ commit_set b2 ⊆ members cfg1 /\
    f + 1 <= Z.of_nat (size (commit_set b1 ∩ commit_set b2)).
Proof.
  intros Hg1 Hg2 Hn Hf Hf1 Hf2.
  destruct (reachable_backed _ _ _ _ _ _ (members_reachable _ _ Hg1) Hf1) as (s1 & v1 & b1 & Hs1 & Hb1 & Hq1).
  destruct (reachable_backed _ _ _ _ _ _ (members_reachable _ _ Hg2) Hf2) as (s2 & v2 & b2 & Hs2 & Hb2 & Hq2).
  destruct (New_quorums cfg1 f Hf) as [Hqf1 Hq]. destruct (New_quorums cfg2 f) as [_ Hq'].
  { by rewrite Hn. }
  assert (commit_set b1 ⊆ members cfg1) as Hm1 by (by apply (proj2 (reachable_votes _ _ Hg1) _ _ Hs1 _ _ Hb1)).
  assert (commit_set b2 ⊆ members cfg1) as Hm2.
  { replace (members cfg1) with (members cfg2) by (unfold members; by rewrite Hn).
    by apply (proj2 (reachable_votes _ _ Hg2) _ _ Hs2 _ _ Hb2). }
  split; [done|]. exists s1, s2, v1, v2, b1, b2. split_and!; try done.
  rewrite commitCount_size in *.
  pose proof (size_overlap _ _ _ Hm1 Hm2). pose proof (size_list_to_set_le (Nodes cfg1)). unfold members in *. lia.
Qed.

Lemma feed_members cfg ds g g' : Forall (fun d => bg_ok d /\ of_members (members cfg) d) ds ->
  feed ds g = Some g' -> reachable_members cfg g -> reachable_members cfg g'.
Proof.
  unfold feed. intros Hd. revert g. induction Hd as [|d ds [Hd Hm] _ IH]; intros g H Hg; simpl in H; [by injection H as <-|].
  destruct (run (Add d g)) as [g1|] eqn:E; [|by rewrite feed_None in H]. apply (IH g1 H).
  eapply rtc_r; [eapply rtc_r; [exact Hg|by apply member_add]|]. eapply member_run; [|exact E]. cbn. by destruct (entries g).
Qed.

(** The run of three of the four nodes adds blocks of members only. *)
Lemma partial_members : reachable_members Example4.cfg (Example4.graph [1; 2; 3] 6).
Proof.
  assert (bool_decide (is_Some (Example4.after [1; 2; 3] 6)) = true) as [g Hg]%bool_decide_eq_true by (by vm_compute).
  unfold Example4.graph. rewrite Hg. apply (feed_members Example4.cfg (Example4.bg [1; 2; 3] <$> seqZ 1 6) (New Example4.cfg));
    [|exact Hg|constructor].
  apply Forall_fmap. repeat constructor; first [done | set_solver].
Qed.

Lemma finals_share_voters_witness :
  let g := Example4.graph [1; 2; 3] 6 in
  exists s1 s2 v1 v2 b1 b2,
    statess g !! Example4.B 2 4 = Some s1 /\ bitsets s1 !! MkPrePrepare [3; 1] 3 1 v1 = Some b1 /\
    statess g !! Example4.B 1 6 = Some s2 /\ bitsets s2 !! MkPrePrepare [3; 1] 3 1 v2 = Some b2 /\
    2 <= Z.of_nat (size (commit_set b1 ∩ commit_set b2)).
Proof.
  cbv zeta.
  pose proof (finals_share_voters Example4.cfg Example4.cfg _ _
    (Example4.B 2 4) (Example4.B 1 6) 3 1 [3; 1] [3; 1] 1
    partial_members partial_members eq_refl eq_refl
    ltac:(by vm_compute) ltac:(by vm_compute)) as [_ (s1 & s2 & v1 & v2 & b1 & b2 & ? & ? & ? & ? & _ & _ & H)].
  exists s1, s2, v1, v2, b1, b2. by split_and!.
Defined.

(** ** The blocks of a round *)

(** The non-empty hashes of a round, in some order of the map. *)
Definition block_ids (rnd : uint64) (es : list (uint64 * bytes)) : list BlockID :=
  es ≫= fun '(node, hash) => if decide (hash = []) then [] else [MkBlockID hash node rnd].

#[export] Instance hash_le_dec x y : Decision (hash_le x y).
Proof. unfold hash_le. apply _. Defined.
#[export] Instance hash_le_total : Total hash_le.
Proof. intros x y. apply (total bytes_le). Qed.
#[export] Instance hash_le_trans : Transitive hash_le.
Proof. intros x y z. apply (transitivity (R := bytes_le)). Qed.

Lemma elem_of_block_ids rnd (hs : gmap uint64 bytes) es id : es ≡ₚ map_to_list hs ->
  id ∈ block_ids rnd es <->
  Round id = rnd /\ hs !! Node id = Some (Hash id) /\ Hash id <> [].
Proof.
  intros He. unfold block_ids. rewrite list_elem_of_bind. split.
  - intros ([node hash] & Hid & Hin). rewrite He, elem_of_map_to_list in Hin.
    case_decide; [by apply not_elem_of_nil in Hid|].
    apply list_elem_of_singleton in Hid as ->. done.
  - destruct id as [hash node r]. simpl. intros (-> & Hl & Hne). exists (node, hash).
    rewrite decide_False by done. rewrite He, elem_of_map_to_list.
    split; [by apply list_elem_of_singleton|done].
Qed.

(** A sorted list is determined by its elements when no two of them tie. *)
Lemma sorted_unique {A} (R : relation A) `{!Transitive R} (l1 l2 : list A) :
  (forall x y, x ∈ l1 -> y ∈ l1 -> R x y -> R y x -> x = y) ->
  Sorted R l1 -> Sorted R l2 -> l1 ≡ₚ l2 -> l1 = l2.
Proof.
  intros Hanti Hs1%Sorted_StronglySorted Hs2%Sorted_StronglySorted; [|done..].
  revert l2 Hs2 Hanti. induction Hs1 as [|x l1 Hs1 IH Hx]; intros l2 Hs2 Hanti Hp.
  { by apply Permutation_nil in Hp as ->. }
  destruct Hs2 as [|y l2 Hs2 Hy]; [by apply symmetry, Permutation_nil in Hp|].
  assert (x = y) as <-.
  { assert (y ∈ x :: l1) as Hyin by (rewrite Hp; left).
    assert (x ∈ y :: l2) as Hxin by (rewrite <-Hp; left).
    apply elem_of_cons in Hyin as [->|Hyin]; [done|].
    apply elem_of_cons in Hxin as [->|Hxin]; [done|].
    rewrite Forall_forall in Hx, Hy.
    apply Hanti; [left|by right|by apply Hx|by apply Hy]. }
  f_equal. apply IH; [done| |by apply (inj (x ::.)) in Hp].
  intros ? ? ? ?. apply Hanti; by right.
Qed.

(** The blocks delivered for a round are the ones with a non-empty hash,
    each once and in ascending order of hash; when no two nodes have the same
    hash, the list depends neither on the order in which the map is iterated
    nor on how the sort treats ties. *)
Theorem roundBlocks_spec rnd hs :
  Sorted hash_le (roundBlocks rnd hs) /\ NoDup (roundBlocks rnd hs) /\
  (forall id, id ∈ roundBlocks rnd hs <->
     Round id = rnd /\ hs !! Node id = Some (Hash id) /\ Hash id <> []) /\
  ((forall n1 n2 h, hs !! n1 = Some h -> hs !! n2 = Some h -> h <> [] -> n1 = n2) ->
   forall es l, es ≡ₚ map_to_list hs -> Sorted hash_le l -> l ≡ₚ block_ids rnd es ->
     l = roundBlocks rnd hs).
Proof.
  assert (Hperm : roundBlocks rnd hs ≡ₚ block_ids rnd (map_to_list hs))
    by apply merge_sort_Permutation.
  split_and!; [apply (Sorted_merge_sort _)|rewrite Hperm|intros id|].
  - apply NoDup_bind; [| |apply NoDup_map_to_list].
    + intros [n1 h1] [n2 h2] id Hi1 Hi2 H1 H2. repeat case_decide;
        rewrite ?list_elem_of_singleton in *; set_solver.
    + intros [n h] _. case_decide; [constructor|apply NoDup_singleton].
  - rewrite Hperm. by apply elem_of_block_ids.
  - intros Hd es l He Hs Hl. apply (sorted_unique hash_le); [|done|apply (Sorted_merge_sort _)|].
    + intros x y Hx Hy Hxy Hyx. rewrite Hl in Hx, Hy.
      apply (elem_of_block_ids rnd hs) in Hx as (Hrx & Hlx & Hnx); [|done].
      apply (elem_of_block_ids rnd hs) in Hy as (Hry & Hly & Hny); [|done].
      pose proof (bytes_le_antisym _ _ Hxy Hyx) as Heq.
      assert (Node x = Node y) by (eapply Hd; [done|by rewrite Heq|done]).
      destruct x, y; simpl in *; congruence.
    + rewrite Hl, Hperm. unfold block_ids. by rewrite He.
Qed.

(** ** Behaviours that differ from what the code sets out to do *)

(** No state ever records a [Final] key, so the test for finality that
    guards [processMessage] and the timeouts never fires, even for a node and
    round whose final hash is known: messages for it are still handled. *)
Theorem finality_guard_never_fires cfg g id s node rnd :
  reachable cfg g -> statess g !! id = Some s -> is_final s node rnd = false.
Proof.
  intros Hg%reachable_ok Hs. destruct Hg as ([_ _ Hst _] & _). destruct (Hst _ _ Hs) as [_ Hd _ _].
  apply bool_decide_eq_false_2. intros [v Hv]. exact (Hd _ _ Hv).
Qed.

Lemma finality_guard_never_fires_witness :
  final_at (Example4.graph [1; 2; 3] 6) (Example4.B 2 4) 3 1 = Some [3; 1] /\
  match statess (Example4.graph [1; 2; 3] 6) !! Example4.B 2 4 with
  | Some s => is_final s 3 1 = false
  | None => False
  end.
Proof.
  split; [by vm_compute|].
  destruct (statess _ !! _) as [s|] eqn:E.
  - exact (finality_guard_never_fires _ _ _ s 3 1 Example4.partial_reachable E).
  - assert (bool_decide (is_Some (statess (Example4.graph [1; 2; 3] 6) !! Example4.B 2 4)) = true)
      as Hs by by vm_compute.
    rewrite E in Hs. done.
Defined.

(** The view change votes that a state sees for a view. *)
Definition view_votes (g : Graph) (s : state) (node rnd : uint64) (v : uint32)
    : option (gmap uint64 bytes) :=
  match data s !! ViewChanged node rnd v with Some (DVcs addr) => vcs g !! addr | _ => None end.

(** View change maps are shared between a state and its clones: a vote
    handled on the clone of a state is also seen through the state itself, and
    so through every other block that follows it. *)
Theorem view_change_votes_leak sender receiver origin m s g g' s' resp minround old :
  minround <= m_Round m ->
  view_of s (m_Node m) (m_Round m) <= m_View m ->
  view_votes g s (m_Node m) (m_Round m) (view_of s (m_Node m) (m_Round m)) = Some old ->
  processMessage sender receiver origin (MViewChange m) (BmState.clone (Some s) minround) g
    = Some (g', s', resp) ->
  is_final (BmState.clone (Some s) minround) (m_Node m) (m_Round m) = false ->
  view_votes g' s (m_Node m) (m_Round m) (view_of s (m_Node m) (m_Round m))
    = Some (<[m_Sender m := m_Hash m]> old).
Proof.
  intros Hmin Hv Hold H Hfin. unfold processMessage in H. cbn [NodeRound] in H. rewrite Hfin in H.
  apply bind_Some in H as ([s1 v] & Hgv & H).
  assert (forall k, GetRound k = m_Round m ->
            data (BmState.clone (Some s) minround) !! k = data s !! k) as Hcl.
  { intros k Hk. simpl. destruct (data s !! k) eqn:E.
    - apply map_lookup_filter_Some_2; [done|]. simpl. lia.
    - by apply map_lookup_filter_None_2; left. }
  assert (v = view_of s (m_Node m) (m_Round m)) as Hvv.
  { unfold getView in Hgv. unfold view_of. rewrite Hcl in Hgv by done.
    repeat case_match; by simplify_eq. }
  apply getView_data in Hgv as (Hd & _ & _). rewrite <-Hvv in *.
  unfold view_votes in *.
  destruct (data s !! ViewChanged _ _ v) as [[| | |addr|]|] eqn:Ek; try done.
  unfold onViewChange in H. rewrite decide_False in H by lia. cbv zeta in H.
  rewrite Hd, lookup_insert_ne, Hcl, Ek in H by done. simpl in H. rewrite Hold in H. simpl in H.
  assert (vcs g' = <[addr := <[m_Sender m := m_Hash m]> old]> (vcs g)) as ->.
  { repeat case_decide; opt_inv; done. }
  rewrite list_lookup_insert_eq; [done|]. by eapply lookup_lt_Some.
Qed.

Lemma view_change_votes_leak_witness :
  let gs := handled [(2, MViewChange (MkSigned [] 3 1 2 1))] in
  let c := BmState.clone (Some gs.2) 1 in
  view_votes gs.1 gs.2 3 1 0 = Some {[ 2 := [] ]} /\
  match processMessage 4 1 zeroBlockID (MViewChange (MkSigned [] 3 1 4 1)) c gs.1 with
  | Some (g', s', resp) => view_votes g' gs.2 3 1 0 = Some (<[4 := []]> {[ 2 := [] ]})
  | None => False
  end.
Proof.
  cbv zeta. set (gs := handled _).
  assert (view_votes gs.1 gs.2 3 1 0 = Some {[ 2 := [] ]}) as Hold by by vm_compute.
  split; [done|].
  assert (is_Some (processMessage 4 1 zeroBlockID (MViewChange (MkSigned [] 3 1 4 1))
            (BmState.clone (Some gs.2) 1) gs.1)) as Hs.
  { apply (bool_decide_unpack _). by vm_compute. }
  destruct (processMessage _ _ _ _ _ _) as [[[g' s'] resp]|] eqn:E; [|by destruct Hs].
  assert (view_of gs.2 3 1 = 0) as Hv by by vm_compute.
  rewrite <-Hv. apply (view_change_votes_leak 4 1 zeroBlockID (MkSigned [] 3 1 4 1) gs.2 gs.1 g' s' resp 1);
    [simpl; lia|simpl; rewrite Hv; lia|simpl; by rewrite Hv|exact E|by vm_compute].
Defined.

(** The tests for a quorum of prepares is an equality, so a prepare is
    never answered once more than [2f+1] votes are recorded. *)
Theorem prepare_overshoot_never_commits sender receiver origin m s g :
  0 <= m_Sender m -> m_Sender m < 64 * Z.of_nat (length (prepares (votes s (Pre m) (nodeCount g)))) ->
  quorum2f1 g < prepareCount (votes s (Pre m) (nodeCount g)) ->
  (exists v, getView (m_Node m) (m_Round m) s = Some v) ->
  exists s', processMessage sender receiver origin (MPrepare m) s g = Some (g, s', None) /\
    quorum2f1 g < prepareCount (votes s' (Pre m) (nodeCount g)).
Proof.
  intros Hs Hcap Hq [[s1 v] Hgv]. unfold processMessage. cbn [NodeRound].
  destruct (is_final s _ _); [by eexists|]. rewrite Hgv. simpl.
  apply getView_data in Hgv as (_ & Hb & _).
  assert (votes s1 (Pre m) (nodeCount g) = votes s (Pre m) (nodeCount g)) as Hvs
    by (unfold votes; by rewrite Hb).
  destruct (proj2 (word_set_is_Some (prepares (votes s (Pre m) (nodeCount g))) (m_Sender m) Hs) Hcap)
    as [ws Hw].
  set (b := votes s (Pre m) (nodeCount g)) in *.
  assert (prepareCount b <= prepareCount (Bitset (commits b) ws)) as Hle.
  { rewrite !prepareCount_size. unfold prepare_set. simpl. rewrite (voters_word_set _ _ _ Hs Hw).
    apply inj_le, subseteq_size, union_subseteq_r. }
  unfold onPrepare. cbv zeta. rewrite !getBitset_eq.
  change (default _ (bitsets s1 !! Pre m)) with (votes s1 (Pre m) (nodeCount g)).
  rewrite Hvs. unfold setPrepare. rewrite Hw. simpl.
  destruct (decide (v > _)); [eexists; split; [done|]; by rewrite Hvs|].
  destruct (decide (v < _)); [|rewrite decide_True by lia];
    (eexists; split; [done|]; unfold votes; simpl; rewrite lookup_insert_eq; simpl; lia).
Qed.

Lemma prepare_overshoot_never_commits_witness :
  let gs := handled [(2, MPrepare (MkSigned [7] 3 1 2 1)); (3, MPrepare (MkSigned [7] 3 1 3 1));
                     (4, MNewView (MkSigned [7] 3 1 4 1)); (4, MPrePrepare (MkPrePrepare [7] 3 1 1))] in
  prepareCount (votes gs.2 (MkPrePrepare [7] 3 1 1) 4) = 4 /\
  commitCount (votes gs.2 (MkPrePrepare [7] 3 1 1) 4) = 0 /\
  exists s', processMessage 1 1 zeroBlockID (MPrepare (MkSigned [7] 3 1 1 1)) gs.2 gs.1
               = Some (gs.1, s', None).
Proof.
  cbv zeta. set (gs := handled _). split_and!; [by vm_compute..|].
  assert (exists v, getView 3 1 gs.2 = Some v) as Hv.
  { assert (is_Some (getView 3 1 gs.2)) as [v Hv]; [|by exists v].
    apply (bool_decide_unpack _). by vm_compute. }
  destruct (prepare_overshoot_never_commits 1 1 zeroBlockID (MkSigned [7] 3 1 1 1) gs.2 gs.1)
    as (s' & H & _); [by vm_compute..|exact Hv|].
  exists s'. exact H.
Defined.
