(* ===== verification/Lexinum.v ===== *)
(** * Lexinum: order-preserving encoding of unsigned integers

    Model of [src/internal/lexinum/lexinum.go].  The three loops carry fuel:
    [pow] halves its exponent, the other two divide [lead] by 253 or compare
    it with a growing power, so 64 iterations are enough for 64-bit values
    ([pow_spec], [size_loop_spec], [digits_spec]). *)
From S2P Require Import Prelude.

Definition maxSmall : uint64 := 8258175.

Fixpoint pow_loop (fuel : nat) (a b n : uint64) : uint64 :=
  match fuel with
  | O => n
  | S fuel =>
      if b >? 0 then
        let n := if negb (Z.land b 1 =? 0) then u64 (n * a) else n in
        pow_loop fuel (u64 (a * a)) (Z.shiftr b 1) n
      else n
  end.

Definition pow (a b : uint64) : uint64 := pow_loop 64 a b 1.

(** The loop of [Decode] over [d[2:]]. *)
Fixpoint decode_big (d : bytes) (i : nat) (chars : bytes) (v : uint64) : go (uint64 * uint64) :=
  match chars with
  | [] => Ret (v, 0)
  | char :: chars =>
      if char =? 1 then rem ← or_crash (d !! (i + 3)%nat); Ret (v, rem)
      else decode_big d (S i) chars (u64 (v + u64 (u64 (v * 252) + u8 (char - 2))))
  end.

Definition Decode (d : bytes) : go uint64 :=
  if (Z.of_nat (length d) <? 2) then Fail "lexinum: received too small a slice to decode" else
  d0 ← or_crash (d !! 0%nat);
  if d0 <? 128 then
    Fail "lexinum: only support for positive numbers have been implemented: received first byte %q"
  else if d0 =? 255 then
    '(v, rem) ← decode_big d 0 (drop 2 d) 0;
    Ret (u64 (u64 (u64 (v * 255) + rem) + maxSmall))
  else if (Z.of_nat (length d) <? 3) then
    Fail "lexinum: received too small a slice to decode a small positive integer"
  else
    d1 ← or_crash (d !! 1%nat);
    d2 ← or_crash (d !! 2%nat);
    Ret (u64 (u64 (u64 (u64 (u8 (d0 - 128) * 255) + u8 (d1 - 1)) * 255) + u8 (d2 - 1))).

(** [for lead/pow(253, n) > 0 { n++ }]. *)
Fixpoint size_loop (fuel : nat) (lead n : uint64) : uint64 :=
  match fuel with
  | O => n
  | S fuel => if lead `div` pow 253 n >? 0 then size_loop fuel lead (u64 (n + 1)) else n
  end.

(** The digits of [lead] in base 253, the least significant first. *)
Fixpoint digits_loop (fuel : nat) (lead : uint64) (chars : bytes) : bytes :=
  match fuel with
  | O => chars
  | S fuel =>
      if lead =? 0 then chars
      else digits_loop fuel (lead `div` 253) (chars ++ [u8 (lead `mod` 253 + 2)])
  end.

Definition encode_small (v : uint64) : bytes :=
  let enc0 := 128 in let enc1 := 1 in
  let div := v `div` 255 in let md := v `mod` 255 in
  let enc2 := u8 (md + 1) in
  if div >? 0 then
    let '(div, md) := (div `div` 255, div `mod` 255) in
    let enc1 := u8 (md + 1) in
    if div >? 0 then [u8 (div + 128); enc1; enc2] else [enc0; enc1; enc2]
  else [enc0; enc1; enc2].

Definition encode_big (v : uint64) : bytes :=
  let v := u64 (v - maxSmall) in
  let lead := v `div` 255 in let rem := v `mod` 255 in
  let n := size_loop 64 lead 1 in
  let enc := [255; u8 (u8 n + 1)] in
  let chars := digits_loop 64 lead [] in
  let enc := enc ++ rev chars in
  if rem >? 0 then enc ++ [1; u8 rem] else enc.

Definition Encode (v : uint64) : bytes :=
  if v =? 0 then [128; 1; 1]
  else if v <? maxSmall then encode_small v
  else encode_big v.

Example Encode_0 : Encode 0 = [128; 1; 1]. Proof. reflexivity. Qed.
Example Decode_max : Decode (Encode (2 ^ 64 - 1)) = Ret (2 ^ 64 - 1).
Proof. by vm_compute. Qed.

(** ** [pow] *)

Lemma u64_pow a b : 0 <= b -> u64 (u64 a ^ b) = u64 (a ^ b).
Proof.
  intros Hb. pattern b. apply natlike_ind; [done| |done]. clear. intros b Hb IH.
  rewrite !Z.pow_succ_r by done.
  rewrite u64_mul_l, <-u64_mul_r, IH, u64_mul_r. done.
Qed.

Lemma pow_loop_spec fuel a b n : 0 <= b < 2 ^ Z.of_nat fuel -> is_u64 n ->
  pow_loop fuel a b n = u64 (n * a ^ b).
Proof.
  revert a b n. induction fuel as [|fuel IH]; intros a b n Hb Hn.
  { assert (b = 0) as -> by (simpl in Hb; lia). simpl. rewrite Z.mul_1_r. by rewrite wrap_small. }
  cbn [pow_loop]. destruct (Z.gtb_spec b 0).
  - rewrite Nat2Z.inj_succ, Z.pow_succ_r in Hb by lia.
    rewrite Z.shiftr_div_pow2 by lia. change (2 ^ 1) with 2.
    change (Z.land b 1) with (Z.land b (Z.ones 1)). rewrite Z.land_ones by lia. change (2 ^ 1) with 2.
    pose proof (Z.div_mod b 2 ltac:(lia)) as Hdm. pose proof (Z.mod_pos_bound b 2 ltac:(lia)).
    assert (0 <= b `div` 2 < 2 ^ Z.of_nat fuel) by (split; [apply Z.div_pos|apply Z.div_lt_upper_bound]; lia).
    rewrite IH; [|done|destruct (b `mod` 2 =? 0); simpl; auto with chain lia;
                     apply wrap_in_width; lia].
    rewrite <-u64_mul_r, u64_pow, u64_mul_r by lia.
    replace (a * a) with (a ^ 2) by ring. rewrite <-Z.pow_mul_r by lia.
    destruct (Z.eqb_spec (b `mod` 2) 0) as [Hm|Hm]; simpl.
    + do 2 f_equal. f_equal. lia.
    + rewrite u64_mul_l. f_equal. rewrite <-Z.mul_assoc. f_equal.
      rewrite <-Z.pow_succ_r by lia. f_equal. lia.
  - assert (b = 0) as -> by lia. rewrite Z.mul_1_r. by rewrite wrap_small.
Qed.

(** [pow a b] is [a] to the [b], modulo the width. *)
Lemma pow_spec a b : is_u64 b -> pow a b = u64 (a ^ b).
Proof. intros [??]. unfold pow. rewrite pow_loop_spec by done. by rewrite Z.mul_1_l. Qed.

(** ** The number of digits *)

Lemma pow253 n : 0 <= n <= 8 -> pow 253 n = 253 ^ n.
Proof.
  intros Hn. rewrite pow_spec by (split; lia). apply wrap_small. split; [apply Z.pow_nonneg; lia|].
  apply Z.le_lt_trans with (253 ^ 8); [apply Z.pow_le_mono_r; lia|done].
Qed.

(** The loop stops at the least [n] with [lead < 253 ^ n]; leads are below
    [2^64 / 255], so [n] is at most 8 and the power does not wrap. *)
Lemma size_loop_spec fuel lead n :
  0 <= lead < 253 ^ 8 -> 1 <= n <= 8 -> 8 - n < Z.of_nat fuel ->
  (n = 1 \/ 253 ^ (n - 1) <= lead) ->
  let m := size_loop fuel lead n in
  1 <= m <= 8 /\ lead < 253 ^ m /\ (m = 1 \/ 253 ^ (m - 1) <= lead).
Proof.
  intros Hl. revert n. induction fuel as [|fuel IH]; intros n Hn Hf Hp; [lia|].
  cbn [size_loop]. rewrite pow253 by lia.
  assert (0 < 253 ^ n) by (apply Z.pow_pos_nonneg; lia).
  destruct (Z.gtb_spec (lead `div` 253 ^ n) 0) as [Hgt|Hle].
  - assert (253 ^ n <= lead).
    { destruct (decide (253 ^ n <= lead)); [done|]. rewrite Z.div_small in Hgt by lia. lia. }
    assert (n <> 8) by (intros ->; lia).
    rewrite (wrap_small 64 (n + 1)) by (split; lia).
    apply IH; [lia..|]. right. by replace (n + 1 - 1) with n by lia.
  - split; [lia|]. split; [|done].
    assert (0 <= lead `div` 253 ^ n) by (apply Z.div_pos; lia).
    assert (lead `div` 253 ^ n = 0) as Hz by lia.
    apply Z.div_small_iff in Hz; lia.
Qed.

(** ** Digits *)

(** The value of digits, the most significant first. *)
Definition value (ds : bytes) : Z := foldl (fun v c => v * 253 + (c - 2)) 0 ds.
Definition digit (c : Z) : Prop := 2 <= c < 255.

Lemma value_snoc ds c : value (ds ++ [c]) = value ds * 253 + (c - 2).
Proof. unfold value. by rewrite foldl_app. Qed.

Lemma value_cons c ds : value (c :: ds) = (c - 2) * 253 ^ Z.of_nat (length ds) + value ds.
Proof.
  induction ds as [|d ds IH] using rev_ind; [unfold value; simpl; lia|].
  rewrite app_comm_cons, !value_snoc, IH, length_app. simpl length.
  rewrite Nat2Z.inj_add, Z.pow_add_r by lia. lia.
Qed.

Lemma value_bounds ds : Forall digit ds -> 0 <= value ds < 253 ^ Z.of_nat (length ds).
Proof.
  induction 1 as [|c ds Hc Hds IH]; [done|]. rewrite value_cons. simpl length.
  rewrite Nat2Z.inj_succ, Z.pow_succ_r by lia. destruct Hc.
  pose proof (Z.pow_pos_nonneg 253 (Z.of_nat (length ds))). nia.
Qed.

Lemma digits_spec fuel lead chars : 0 <= lead < 253 ^ Z.of_nat fuel ->
  exists ds, digits_loop fuel lead chars = chars ++ rev ds /\ Forall digit ds /\
    value ds = lead /\ (lead = 0 -> ds = []) /\
    (lead <> 0 -> 253 ^ (Z.of_nat (length ds) - 1) <= lead).
Proof.
  revert lead chars. induction fuel as [|fuel IH]; intros lead chars Hl.
  { assert (lead = 0) as -> by (simpl in Hl; lia). exists []. simpl. rewrite app_nil_r. done. }
  cbn [digits_loop]. destruct (Z.eqb_spec lead 0) as [->|Hne].
  { exists []. simpl. rewrite app_nil_r. done. }
  rewrite Nat2Z.inj_succ, Z.pow_succ_r in Hl by lia.
  pose proof (Z.div_mod lead 253 ltac:(lia)) as Hdm.
  pose proof (Z.mod_pos_bound lead 253 ltac:(lia)) as Hm.
  assert (0 <= lead `div` 253) by (apply Z.div_pos; lia).
  destruct (IH (lead `div` 253) (chars ++ [u8 (lead `mod` 253 + 2)])) as (ds & -> & Hd & Hv & H0 & Hge).
  { split; [done|]. apply Z.div_lt_upper_bound; lia. }
  rewrite (wrap_small 8 (lead `mod` 253 + 2)) by (split; simpl; lia).
  exists (ds ++ [lead `mod` 253 + 2]).
  rewrite rev_app_distr, <-app_assoc. split_and!; [done| | |done|].
  - apply Forall_app_2; [done|]. repeat constructor; lia.
  - rewrite value_snoc, Hv. lia.
  - intros _. rewrite length_app. simpl length.
    destruct (decide (lead `div` 253 = 0)) as [Hz|Hz].
    + rewrite (H0 Hz). simpl. lia.
    + specialize (Hge Hz). replace (Z.of_nat (length ds + 1) - 1) with (Z.succ (Z.of_nat (length ds) - 1)) by lia.
      destruct ds as [|d ds]; [simpl in Hv; unfold value in Hv; simpl in Hv; lia|].
      rewrite Z.pow_succ_r by (simpl; lia). lia.
Qed.

(** ** Shape of the encoding *)

Lemma Encode_small v : 0 <= v < maxSmall ->
  Encode v = [v `div` 65025 + 128; v `div` 255 `mod` 255 + 1; v `mod` 255 + 1].
Proof.
  unfold maxSmall. intros Hv. unfold Encode. destruct (Z.eqb_spec v 0) as [->|Hne]; [done|].
  destruct (Z.ltb_spec v maxSmall); [|unfold maxSmall in *; lia]. unfold encode_small.
  assert (v `div` 65025 = v `div` 255 `div` 255) as -> by (by rewrite Z.div_div).
  pose proof (Z.mod_pos_bound v 255 ltac:(lia)). pose proof (Z.mod_pos_bound (v `div` 255) 255 ltac:(lia)).
  pose proof (Z.div_mod v 255 ltac:(lia)). pose proof (Z.div_mod (v `div` 255) 255 ltac:(lia)).
  assert (0 <= v `div` 255) by (apply Z.div_pos; lia).
  assert (0 <= v `div` 255 `div` 255) by (apply Z.div_pos; lia).
  unwrap. destruct (Z.gtb_spec (v `div` 255) 0) as [?|Hz].
  - destruct (Z.gtb_spec (v `div` 255 `div` 255) 0) as [?|Hz]; [done|].
    replace (v `div` 255 `div` 255) with 0 by lia. done.
  - replace (v `div` 255) with 0 by lia. done.
Qed.

(** What follows the digits. *)
Definition tail (rem : Z) : bytes := if rem >? 0 then [1; rem] else [].

(** [ds] are the base 253 digits of [lead], [n] is their number, at least 1. *)
Record shape (lead n : Z) (ds : bytes) : Prop := {
  sh_digits : Forall digit ds;
  sh_value : value ds = lead;
  sh_n : 1 <= n <= 8;
  sh_len : n = Z.max 1 (Z.of_nat (length ds));
  sh_zero : lead = 0 -> ds = [];
  sh_low : lead <> 0 -> 253 ^ (Z.of_nat (length ds) - 1) <= lead
}.

Lemma pow253_8 : 253 ^ 8 <= 2 ^ 64.
Proof. by vm_compute. Qed.

Lemma lead_bound v : maxSmall <= v < 2 ^ 64 -> 0 <= (v - maxSmall) `div` 255 < 253 ^ 8.
Proof.
  unfold maxSmall. intros Hv. split; [apply Z.div_pos; lia|].
  apply Z.div_lt_upper_bound; [lia|]. apply Z.lt_trans with (2 ^ 64); [lia|done].
Qed.

Lemma Encode_big v : maxSmall <= v < 2 ^ 64 ->
  exists n ds, shape ((v - maxSmall) `div` 255) n ds /\
    Encode v = 255 :: n + 1 :: ds ++ tail ((v - maxSmall) `mod` 255).
Proof.
  intros Hv. pose proof (lead_bound v Hv) as Hl. unfold maxSmall in Hv.
  unfold Encode. destruct (Z.eqb_spec v 0) as [|_]; [lia|].
  destruct (Z.ltb_spec v maxSmall) as [|_]; [unfold maxSmall in *; lia|]. unfold encode_big. cbv zeta.
  rewrite (wrap_small 64) by (unfold maxSmall; split; lia).
  set (lead := (v - maxSmall) `div` 255) in *. set (rem := (v - maxSmall) `mod` 255).
  assert (0 <= rem < 255) by (apply Z.mod_pos_bound; lia).
  destruct (size_loop_spec 64 lead 1) as (Hn & Hlt & Hge); [done|lia|lia|by left|].
  set (n := size_loop 64 lead 1) in *.
  destruct (digits_spec 64 lead []) as (ds & -> & Hd & Hval & H0 & Hlen).
  { split; [lia|]. etrans; [apply Hl|]. apply Z.pow_lt_mono_r; lia. }
  exists n, ds. unwrap.
  simpl app at 2. rewrite app_nil_l, rev_involutive. split.
  - constructor; try done. destruct (decide (lead = 0)) as [Hz|Hz].
    + rewrite (H0 Hz). simpl. destruct Hge as [|Hge]; [done|].
      pose proof (Z.pow_pos_nonneg 253 (n - 1)). lia.
    + specialize (Hlen Hz). pose proof (value_bounds _ Hd) as [_ Hup]. rewrite Hval in Hup.
      assert (0 < Z.of_nat (length ds)).
      { destruct ds; [unfold value in Hval; simpl in Hval; lia|simpl; lia]. }
      assert (Z.of_nat (length ds) - 1 < n) by (apply (Z.pow_lt_mono_r_iff 253); lia).
      destruct Hge as [Hge|Hge]; [lia|].
      assert (n - 1 < Z.of_nat (length ds)) by (apply (Z.pow_lt_mono_r_iff 253); lia). lia.
  - unfold tail. destruct (rem >? 0); simpl; [|by rewrite app_nil_r].
    done.
Qed.

(** ** Decoding *)

Lemma decode_big_spec d m pre ds rem :
  d = 255 :: m :: pre ++ ds ++ tail rem -> Forall digit (pre ++ ds) ->
  (length (pre ++ ds) <= 8)%nat -> 0 <= rem ->
  decode_big d (length pre) (ds ++ tail rem) (value pre) = Ret (value (pre ++ ds), rem).
Proof.
  revert pre. induction ds as [|c ds IH]; intros pre Hd Hdig Hlen Hr.
  - rewrite app_nil_r in *. simpl app in *. unfold tail in *. destruct (Z.gtb_spec rem 0).
    + cbn [decode_big]. rewrite Z.eqb_refl.
      assert (d !! (length pre + 3)%nat = Some rem) as ->.
      { rewrite Hd. rewrite (Nat.add_comm _ 3). simpl.
        rewrite lookup_app_r by lia. by replace (S (length pre) - length pre)%nat with 1%nat by lia. }
      done.
    + simpl. do 2 f_equal. lia.
  - assert (value (pre ++ [c]) < 2 ^ 64 /\ digit c) as [Hb Hc].
    { replace (pre ++ c :: ds) with ((pre ++ [c]) ++ ds) in * by (by rewrite <-app_assoc).
      apply Forall_app in Hdig as [Hdig _]. split.
      - pose proof (value_bounds _ Hdig) as [_ H]. eapply Z.lt_le_trans; [exact H|].
        etrans; [|apply pow253_8]. apply Z.pow_le_mono_r; [lia|].
        rewrite length_app in Hlen. lia.
      - apply Forall_app in Hdig as [_ Hdig]. by inversion Hdig. }
    assert (0 <= value pre) by (apply value_bounds; by apply Forall_app in Hdig as [??]).
    rewrite value_snoc in Hb. destruct Hc as [Hc1 Hc2].
    cbn [app decode_big]. destruct (Z.eqb_spec c 1); [lia|].
    unwrap.
    replace (value pre + (value pre * 252 + (c - 2))) with (value (pre ++ [c]))
      by (rewrite value_snoc; lia).
    replace (S (length pre)) with (length (pre ++ [c])) by (rewrite length_app; simpl; lia).
    replace (pre ++ c :: ds) with ((pre ++ [c]) ++ ds) in * by (by rewrite <-app_assoc).
    apply IH; [|done..]. rewrite Hd. by rewrite <-!app_assoc.
Qed.

Lemma Decode_255 m cs :
  Decode (255 :: m :: cs) =
  ('(v, rem) ← decode_big (255 :: m :: cs) 0 cs 0; Ret (u64 (u64 (u64 (v * 255) + rem) + maxSmall))).
Proof.
  unfold Decode. destruct (Z.ltb_spec (Z.of_nat (length (255 :: m :: cs))) 2) as [Hlt|_]; [|done].
  simpl in Hlt. lia.
Qed.

Lemma Decode_Encode_u64 v : is_u64 v -> Decode (Encode v) = Ret v.
Proof.
  intros [Hv1 Hv2]. destruct (decide (v < maxSmall)) as [Hs|Hs].
  - rewrite Encode_small by lia. unfold maxSmall in Hs.
    assert (v `div` 65025 = v `div` 255 `div` 255) as -> by (by rewrite Z.div_div).
    pose proof (Z.div_mod v 255 ltac:(lia)). pose proof (Z.div_mod (v `div` 255) 255 ltac:(lia)).
    pose proof (Z.mod_pos_bound v 255 ltac:(lia)). pose proof (Z.mod_pos_bound (v `div` 255) 255 ltac:(lia)).
    set (c := v `mod` 255) in *. set (b := v `div` 255 `mod` 255) in *. set (a := v `div` 255 `div` 255) in *.
    assert (0 <= a) by (do 2 (apply Z.div_pos; [|lia]); lia).
    unfold Decode. simpl length. change (Z.of_nat 3) with 3. simpl.
    destruct (Z.ltb_spec (a + 128) 128); [lia|]. destruct (Z.eqb_spec (a + 128) 255); [lia|].
    unwrap. f_equal. lia.
  - destruct (Encode_big v) as (n & ds & [Hd Hval Hn Hlen Hz Hlow] & ->); [lia|].
    set (lead := (v - maxSmall) `div` 255) in *. set (rem := (v - maxSmall) `mod` 255).
    assert (0 <= rem < 255) by (apply Z.mod_pos_bound; lia).
    pose proof (Z.div_mod (v - maxSmall) 255 ltac:(lia)) as Hdm. fold lead rem in Hdm.
    pose proof (lead_bound v ltac:(lia)) as Hl. fold lead in Hl. unfold maxSmall in *.
    rewrite Decode_255.
    rewrite (decode_big_spec (255 :: n + 1 :: ds ++ tail rem) (n + 1) [] ds rem eq_refl Hd
               ltac:(simpl; lia) ltac:(lia) : decode_big _ 0 _ 0 = _).
    cbn [mbind go_bind app]. rewrite Hval.
    unfold maxSmall. unwrap. f_equal. lia.
Qed.

(** ** Order *)

(** Digit strings of the same length compare like their values. *)
Lemma digits_lt x y s t : Forall digit x -> Forall digit y -> length x = length y ->
  value x < value y -> bytes_cmp (x ++ s) (y ++ t) = Lt.
Proof.
  intros Hx. revert y. induction Hx as [|a x Ha Hx IH]; intros y Hy Hlen Hlt.
  { destruct y; [unfold value in Hlt; simpl in Hlt; lia|done]. }
  destruct Hy as [|b y Hb Hy]; [done|]. simpl in Hlen. injection Hlen as Hlen.
  rewrite !value_cons, Hlen in Hlt. simpl.
  pose proof (value_bounds _ Hx) as Hbx. pose proof (value_bounds _ Hy) as Hby. rewrite Hlen in Hbx.
  destruct (Z.compare_spec a b) as [->| |]; [|done|nia].
  apply IH; [done..|lia].
Qed.

Lemma value_inj x y : Forall digit x -> Forall digit y -> length x = length y ->
  value x = value y -> x = y.
Proof.
  intros Hx. revert y. induction Hx as [|a x Ha Hx IH]; intros y Hy Hlen Hv; [by destruct y|].
  destruct Hy as [|b y Hb Hy]; [done|]. simpl in Hlen. injection Hlen as Hlen.
  rewrite !value_cons, Hlen in Hv.
  pose proof (value_bounds _ Hx) as Hbx. pose proof (value_bounds _ Hy) as Hby. rewrite Hlen in Hbx.
  assert (a = b) as -> by nia. f_equal. apply IH; [done..|lia].
Qed.

Lemma value_nonzero ds lead : value ds = lead -> lead <> 0 -> (0 < length ds)%nat.
Proof. intros <-. destruct ds; simpl; [done|lia]. Qed.

Lemma tail_lt r r' ds : 0 <= r < 255 -> 0 <= r' < 255 -> r < r' ->
  bytes_cmp (ds ++ tail r) (ds ++ tail r') = Lt.
Proof.
  intros Hr Hr' Hlt. induction ds as [|c ds IH]; simpl; [|by rewrite Z.compare_refl].
  unfold tail. destruct (Z.gtb_spec r 0), (Z.gtb_spec r' 0); try lia; [|done].
  simpl. by rewrite (proj2 (Z.compare_lt_iff r r')).
Qed.

Lemma Encode_lt_big a b : maxSmall <= a -> a < b -> b < 2 ^ 64 -> bytes_cmp (Encode a) (Encode b) = Lt.
Proof.
  intros Ha Hab Hb. destruct (Encode_big a) as (n & ds & [Hd Hval Hn Hlen Hz Hlow] & ->); [lia|].
  destruct (Encode_big b) as (n' & ds' & [Hd' Hval' Hn' Hlen' Hz' Hlow'] & ->); [lia|]. simpl.
  set (lead := (a - maxSmall) `div` 255) in *. set (rem := (a - maxSmall) `mod` 255).
  set (lead' := (b - maxSmall) `div` 255) in *. set (rem' := (b - maxSmall) `mod` 255).
  pose proof (Z.div_mod (a - maxSmall) 255 ltac:(lia)) as Hdm. fold lead rem in Hdm.
  pose proof (Z.div_mod (b - maxSmall) 255 ltac:(lia)) as Hdm'. fold lead' rem' in Hdm'.
  assert (0 <= rem < 255) by (apply Z.mod_pos_bound; lia).
  assert (0 <= rem' < 255) by (apply Z.mod_pos_bound; lia).
  assert (lead <= lead') by (apply Z.div_le_mono; lia).
  destruct (Z.compare_spec (n + 1) (n' + 1)) as [Heq|?|Hgt]; [|done|].
  - destruct (decide (lead = lead')) as [He|Hne].
    + assert (ds = ds') as ->; [|apply tail_lt; lia].
      destruct (decide (lead = 0)) as [Hzero|Hzero]; [rewrite Hz, Hz' by congruence; done|].
      apply value_inj; [done..| |congruence].
      pose proof (value_nonzero _ _ Hval Hzero). pose proof (value_nonzero _ _ Hval' ltac:(congruence)). lia.
    + pose proof (value_nonzero _ _ Hval' ltac:(lia)).
      destruct (decide (lead = 0)) as [Hzero|Hzero].
      * rewrite Hz by done. destruct Hd' as [|c ds' [Hc _] _]; [simpl in *; lia|]. simpl.
        unfold tail. destruct (rem >? 0); [|done]. apply bytes_cmp_cons_lt. lia.
      * pose proof (value_nonzero _ _ Hval Hzero). apply digits_lt; [done..|lia|lia].
  - exfalso. assert (lead <> 0) as Hzero by (intros Hzero; rewrite (Hz Hzero) in Hlen; simpl in Hlen; lia).
    specialize (Hlow Hzero). pose proof (value_bounds _ Hd') as [_ Hup]. rewrite Hval' in Hup.
    assert (253 ^ Z.of_nat (length ds') <= 253 ^ (Z.of_nat (length ds) - 1))
      by (apply Z.pow_le_mono_r; lia). lia.
Qed.

Lemma Encode_lt_small a b : 0 <= a -> a < b -> b < maxSmall -> bytes_cmp (Encode a) (Encode b) = Lt.
Proof.
  intros Ha Hab Hb. rewrite !Encode_small by lia. unfold maxSmall in Hb. simpl.
  assert (forall v, v `div` 65025 = v `div` 255 `div` 255) as Hdd by (intros; by rewrite Z.div_div).
  rewrite !Hdd.
  pose proof (Z.div_mod a 255 ltac:(lia)). pose proof (Z.div_mod (a `div` 255) 255 ltac:(lia)).
  pose proof (Z.div_mod b 255 ltac:(lia)). pose proof (Z.div_mod (b `div` 255) 255 ltac:(lia)).
  pose proof (Z.mod_pos_bound a 255 ltac:(lia)). pose proof (Z.mod_pos_bound (a `div` 255) 255 ltac:(lia)).
  pose proof (Z.mod_pos_bound b 255 ltac:(lia)). pose proof (Z.mod_pos_bound (b `div` 255) 255 ltac:(lia)).
  destruct (Z.compare_spec (a `div` 255 `div` 255 + 128) (b `div` 255 `div` 255 + 128)); [|done|lia].
  destruct (Z.compare_spec (a `div` 255 `mod` 255 + 1) (b `div` 255 `mod` 255 + 1)); [|done|lia].
  destruct (Z.compare_spec (a `mod` 255 + 1) (b `mod` 255 + 1)); [lia|done|lia].
Qed.

Lemma Encode_lt a b : 0 <= a -> a < b -> b < 2 ^ 64 -> bytes_cmp (Encode a) (Encode b) = Lt.
Proof.
  intros Ha Hab Hb. destruct (decide (b < maxSmall)) as [?|Hnb]; [by apply Encode_lt_small|].
  destruct (decide (a < maxSmall)) as [Hs|?]; [|apply Encode_lt_big; lia].
  rewrite Encode_small by lia. destruct (Encode_big b) as (n & ds & _ & ->); [lia|].
  assert (a `div` 65025 < 127) by (apply Z.div_lt_upper_bound; unfold maxSmall in *; lia).
  apply bytes_cmp_cons_lt. lia.
Qed.

Lemma Encode_cmp a b : is_u64 a -> is_u64 b -> bytes_cmp (Encode a) (Encode b) = (a ?= b).
Proof.
  intros [??] [??]. destruct (Z.compare_spec a b) as [->| |].
  - by apply bytes_cmp_eq.
  - by apply Encode_lt.
  - rewrite bytes_cmp_antisym, Encode_lt; done.
Qed.

(** The encoding is lexicographically comparable in numeric order: byte
    strings compare exactly like the numbers they encode, and different
    numbers have different encodings. *)
Theorem Encode_order a b : is_u64 a -> is_u64 b ->
  bytes_cmp (Encode a) (Encode b) = (a ?= b) /\ (Encode a = Encode b <-> a = b).
Proof.
  intros Ha Hb. split; [by apply Encode_cmp|]. split; [|by intros ->].
  intros He. apply bytes_cmp_eq in He. rewrite Encode_cmp in He by done. by apply Z.compare_eq.
Qed.

Lemma Encode_order_witness : bytes_cmp (Encode 8258174) (Encode 8258175) = Lt.
Proof. apply (Encode_order 8258174 8258175); split; lia. Defined.

(** No byte of an encoding is zero, so a zero byte can end it within a key. *)
Lemma Encode_nonzero v : is_u64 v -> Forall (fun c => 1 <= c <= 255) (Encode v).
Proof.
  intros [??]. destruct (decide (v < maxSmall)) as [Hs|Hs].
  - rewrite Encode_small by lia.
    assert (v `div` 65025 < 127) by (apply Z.div_lt_upper_bound; unfold maxSmall in *; lia).
    assert (0 <= v `div` 65025) by (apply Z.div_pos; lia).
    pose proof (Z.mod_pos_bound v 255 ltac:(lia)). pose proof (Z.mod_pos_bound (v `div` 255) 255 ltac:(lia)).
    repeat constructor; lia.
  - destruct (Encode_big v) as (n & ds & [Hd _ Hn _ _ _] & ->); [lia|].
    pose proof (Z.mod_pos_bound (v - maxSmall) 255 ltac:(lia)).
    constructor; [lia|]. constructor; [lia|]. apply Forall_app. split.
    + eapply Forall_impl; [done|]. intros c [??]. lia.
    + unfold tail. destruct (Z.gtb_spec ((v - maxSmall) `mod` 255) 0); repeat constructor; lia.
Qed.

(** Decoding undoes encoding for every 64-bit value, and no byte of the
    encoding is zero, so that a key can end it with a zero byte. *)
Theorem Decode_Encode v : is_u64 v ->
  Decode (Encode v) = Ret v /\ Forall (fun c => 1 <= c <= 255) (Encode v).
Proof. intros. split; [by apply Decode_Encode_u64|by apply Encode_nonzero]. Qed.

Lemma Decode_Encode_witness : Decode (Encode 18446744073709551615) = Ret 18446744073709551615.
Proof. apply Decode_Encode. split; lia. Defined.
