(* ===== verification/Codec.v ===== *)
(** * Codec: keys and values of the broadcast store

    Model of the key functions and of the binary formats of
    [src/broadcast/store.go].  A value read from the database is taken to have
    no spare capacity, so a slice expression beyond its length panics. *)
From S2P Require Import Prelude Messages Lexinum.

(** ** [encoding/binary.LittleEndian] on [n] bytes *)

Fixpoint PutUint (n : nat) (v : Z) : bytes :=
  match n with O => [] | S n => u8 v :: PutUint n (Z.shiftr v 8) end.
Abbreviation PutUint16 := (PutUint 2).
Abbreviation PutUint32 := (PutUint 4).
Abbreviation PutUint64 := (PutUint 8).

Definition le_value (b : bytes) : Z := foldr (fun c v => c + 256 * v) 0 b.

(** Reading from a slice that is too short panics. *)
Definition Uint (n : nat) (b : bytes) : go Z :=
  if decide (n <= length b)%nat then Ret (le_value (take n b)) else Crash.
Abbreviation Uint16 := (Uint 2).
Abbreviation Uint32 := (Uint 4).
Abbreviation Uint64 := (Uint 8).

(** [v[lo:hi]] and [v[lo:]]. *)
Definition subslice (v : bytes) (lo hi : nat) : go bytes := or_crash (slice v lo hi).
Definition slice_from (v : bytes) (lo : nat) : go bytes :=
  if decide (lo <= length v)%nat then Ret (drop lo v) else Crash.

(** ** Keys *)

Definition blockPrefix : Z := 1.
Definition blockGraphPrefix : Z := 2.
Definition includedPrefix : Z := 3.
Definition interpretedPrefix : Z := 4.
Definition lastBlockRefPrefix : Z := 5.
Definition lastHashPrefix : Z := 6.
Definition lastInterpretedPrefix : Z := 7.
Definition lastRoundPrefix : Z := 8.
Definition notIncludedPrefix : Z := 9.
Definition ownBlockPrefix : Z := 10.
Definition receivedMapPrefix : Z := 11.
Definition roundAcknowledgedPrefix : Z := 12.
Definition sentMapPrefix : Z := 13.

Definition encodeBlockID (id : BlockID) : bytes :=
  (Encode (Node id) ++ [0]) ++ (Encode (Round id) ++ [0]) ++ Hash id.

(** The keys of a block under a prefix. *)
Definition idKey (prefix : Z) (id : BlockID) : bytes :=
  [prefix] ++ (Encode (Node id) ++ [0]) ++ (Encode (Round id) ++ [0]) ++ Hash id.

Definition blockKey (id : BlockID) : bytes := idKey blockPrefix id.
Definition blockGraphKey (id : BlockID) : bytes := idKey blockGraphPrefix id.
Definition includedKey (id : BlockID) : bytes := idKey includedPrefix id.
Definition notIncludedKey (id : BlockID) : bytes := idKey notIncludedPrefix id.
Definition interpretedKey (round : uint64) : bytes := [interpretedPrefix] ++ Encode round.
Definition ownBlockKey (round : uint64) : bytes := [ownBlockPrefix] ++ Encode round.

(** The loop of [decodeBlockID] from index [i], where [rest] is [d[i:]]. *)
Fixpoint decodeBlockID_loop (d : bytes) (i : nat) (rest : bytes) (stage : nat)
    (nodeID : uint64) (rstart : nat) : go BlockID :=
  match rest with
  | [] => Ret (MkBlockID [] nodeID 0)
  | char :: rest =>
      if char =? 0 then
        match stage with
        | O =>
            k ← subslice d 0 i; nodeID ← Decode k;
            decodeBlockID_loop d (S i) rest 1 nodeID (S i)
        | _ =>
            k ← subslice d rstart i; round ← Decode k;
            Ret (MkBlockID (drop (S i) d) nodeID round)
        end
      else decodeBlockID_loop d (S i) rest stage nodeID rstart
  end.

Definition decodeBlockID (d : bytes) : go BlockID := decodeBlockID_loop d 0 d 0 0 0.

(** The loop of [decodeBlockRound] over [d[1:]], giving [rstart] and [rend]. *)
Fixpoint decodeBlockRound_loop (i : nat) (rest : bytes) (rstart : nat) : nat * nat :=
  match rest with
  | [] => (rstart, 0%nat)
  | char :: rest =>
      if char =? 0 then
        if decide (rstart = 0%nat) then decodeBlockRound_loop (S i) rest (i + 2)%nat
        else (rstart, (i + 1)%nat)
      else decodeBlockRound_loop (S i) rest rstart
  end.

Definition decodeBlockRound (d : bytes) : go uint64 :=
  rest ← slice_from d 1;
  let '(rstart, rend) := decodeBlockRound_loop 0 rest 0 in
  k ← subslice d rstart rend;
  Decode k.

(** ** Block graphs *)

(** A block ID preceded by its length. *)
Definition encodeSized (id : BlockID) : bytes :=
  let k := encodeBlockID id in PutUint16 (u16 (Z.of_nat (length k))) ++ k.

(** The same for a previous block, which may be missing. *)
Definition encodePrev (id : BlockID) : bytes :=
  if Valid id then encodeSized id else [0; 0].

Definition encodeDep (dep : Dep) : bytes :=
  encodeSized (dep_Block dep) ++ encodePrev (dep_Prev dep) ++
  PutUint32 (u32 (Z.of_nat (length (dep_Deps dep)))) ++ (dep_Deps dep ≫= encodeSized).

Definition encodeBlockGraph (block : BlockGraph) : bytes :=
  encodePrev (bg_Prev block) ++
  PutUint32 (u32 (Z.of_nat (length (bg_Deps block)))) ++ (bg_Deps block ≫= encodeDep).

(** [decodeBlockID(val[idx:idx+ksize])], with the index after it. *)
Definition decodeID (val : bytes) (idx ksize : nat) : go (BlockID * nat) :=
  k ← subslice val idx (idx + ksize); id ← decodeBlockID k; Ret (id, idx + ksize)%nat.

Definition readSize (n : nat) (val : bytes) (idx : nat) : go (nat * nat) :=
  b ← slice_from val idx; v ← Uint n b; Ret (Z.to_nat v, idx + n)%nat.

Definition decodeSized (val : bytes) (idx : nat) : go (BlockID * nat) :=
  '(ksize, idx) ← readSize 2 val idx; decodeID val idx ksize.

Definition decodePrev (val : bytes) (idx : nat) : go (BlockID * nat) :=
  '(ksize, idx) ← readSize 2 val idx;
  if decide (0 < ksize)%nat then decodeID val idx ksize else Ret (zeroBlockID, idx).

(** [n] elements read one after the other. *)
Fixpoint decodeMany {A} (dec : bytes -> nat -> go (A * nat)) (n : nat) (val : bytes) (idx : nat)
    : go (list A * nat) :=
  match n with
  | O => Ret ([], idx)
  | S n =>
      '(x, idx) ← dec val idx;
      '(xs, idx) ← decodeMany dec n val idx;
      Ret (x :: xs, idx)
  end.

Definition decodeDep (val : bytes) (idx : nat) : go (Dep * nat) :=
  '(id, idx) ← decodeSized val idx;
  '(prev, idx) ← decodePrev val idx;
  '(lsize, idx) ← readSize 4 val idx;
  '(links, idx) ← decodeMany decodeSized lsize val idx;
  Ret (MkDep id links prev, idx).

(** The body of the loop of [getBlockGraphs]: the value stored for block [id]. *)
Definition decodeBlockGraph (id : BlockID) (val : bytes) : go BlockGraph :=
  '(prev, idx) ← decodePrev val 0;
  '(size, idx) ← readSize 4 val idx;
  '(deps, _) ← decodeMany decodeDep size val idx;
  Ret (MkBlockGraph id deps prev).

(** ** Little endian *)

Lemma length_PutUint n v : length (PutUint n v) = n.
Proof. revert v. induction n; intros; simpl; auto. Qed.

Lemma le_value_PutUint n v : 0 <= v < 2 ^ (8 * Z.of_nat n) -> le_value (PutUint n v) = v.
Proof.
  revert v. induction n as [|n IH]; intros v Hv; simpl.
  { change (2 ^ (8 * Z.of_nat 0)) with 1 in Hv. lia. }
  rewrite Z.shiftr_div_pow2 by lia. change (2 ^ 8) with 256.
  replace (8 * Z.of_nat (S n)) with (8 + 8 * Z.of_nat n) in Hv by lia.
  rewrite Z.pow_add_r in Hv by lia. change (2 ^ 8) with 256 in Hv.
  unfold le_value in *. rewrite IH by (split; [apply Z.div_pos|apply Z.div_lt_upper_bound]; lia).
  unfold wrap. change (2 ^ 8) with 256. pose proof (Z.div_mod v 256). lia.
Qed.

Lemma Uint_PutUint n v b : 0 <= v < 2 ^ (8 * Z.of_nat n) -> Uint n (PutUint n v ++ b) = Ret v.
Proof.
  intros Hv. unfold Uint. rewrite decide_True by (rewrite length_app, length_PutUint; lia).
  rewrite take_app_length' by (by rewrite length_PutUint). by rewrite le_value_PutUint.
Qed.

(** ** Slices of concatenations *)

Lemma slice_from_app pre post : slice_from (pre ++ post) (length pre) = Ret post.
Proof.
  unfold slice_from. rewrite decide_True by (rewrite length_app; lia).
  by rewrite drop_app_length.
Qed.

Lemma subslice_app pre k post :
  subslice (pre ++ k ++ post) (length pre) (length pre + length k) = Ret k.
Proof.
  unfold subslice, slice. rewrite decide_True by (rewrite !length_app; lia). simpl.
  rewrite drop_app_length. replace (length pre + length k - length pre)%nat with (length k) by lia.
  by rewrite take_app_length.
Qed.

(** ** Round trip of block IDs *)

(** Node IDs and rounds are 64-bit values. *)
Definition id_width (id : BlockID) : Prop := is_u64 (Node id) /\ is_u64 (Round id).

Lemma decodeBlockID_skip d i x rest stage nodeID rstart :
  Forall (fun c => 1 <= c <= 255) x ->
  decodeBlockID_loop d i (x ++ rest) stage nodeID rstart =
  decodeBlockID_loop d (i + length x) rest stage nodeID rstart.
Proof.
  intros Hx. revert i. induction Hx as [|c x Hc Hx IH]; intros i; simpl.
  { by rewrite Nat.add_0_r. }
  destruct (Z.eqb_spec c 0); [lia|]. rewrite IH. f_equal. lia.
Qed.

Lemma decodeBlockRound_skip i x rest rstart : Forall (fun c => 1 <= c <= 255) x ->
  decodeBlockRound_loop i (x ++ rest) rstart = decodeBlockRound_loop (i + length x) rest rstart.
Proof.
  intros Hx. revert i. induction Hx as [|c x Hc Hx IH]; intros i; simpl.
  { by rewrite Nat.add_0_r. }
  destruct (Z.eqb_spec c 0); [lia|]. rewrite IH. f_equal. lia.
Qed.

Lemma decode_encode_id id : id_width id -> decodeBlockID (encodeBlockID id) = Ret id.
Proof.
  intros [Hn Hr]. unfold decodeBlockID, encodeBlockID.
  set (en := Encode (Node id)). set (er := Encode (Round id)).
  set (d := (en ++ [0]) ++ (er ++ [0]) ++ Hash id).
  assert (d = en ++ 0 :: er ++ 0 :: Hash id) as Hd by (unfold d; by rewrite <-!app_assoc).
  rewrite Hd at 2. rewrite decodeBlockID_skip by (by apply Encode_nonzero).
  cbn [decodeBlockID_loop Z.eqb].
  assert (subslice d 0 (0 + length en) = Ret en) as ->.
  { rewrite Hd. by apply (subslice_app [] en). }
  cbn [mbind go_bind]. rewrite (Decode_Encode_u64 (Node id) Hn : Decode en = _). cbn [mbind go_bind].
  rewrite decodeBlockID_skip by (by apply Encode_nonzero). cbn [decodeBlockID_loop Z.eqb].
  assert (subslice d (S (0 + length en)) (S (0 + length en) + length er) = Ret er) as ->.
  { rewrite Hd. replace (S (0 + length en)) with (length (en ++ [0])) by (rewrite length_app; simpl; lia).
    change (en ++ 0 :: er ++ 0 :: Hash id) with (en ++ [0] ++ er ++ 0 :: Hash id).
    rewrite app_assoc. apply subslice_app. }
  cbn [mbind go_bind]. rewrite (Decode_Encode_u64 (Round id) Hr : Decode er = _). cbn [mbind go_bind].
  f_equal. destruct id; unfold d; simpl. f_equal.
  rewrite app_assoc. apply drop_app_length'. rewrite !length_app. simpl. lia.
Qed.

Lemma decode_round prefix id : id_width id -> decodeBlockRound (idKey prefix id) = Ret (Round id).
Proof.
  intros [Hn Hr].
  unfold decodeBlockRound, idKey.
  set (en := Encode (Node id)). set (er := Encode (Round id)).
  set (d := [prefix] ++ (en ++ [0]) ++ (er ++ [0]) ++ Hash id).
  assert (slice_from d 1 = Ret (en ++ 0 :: er ++ 0 :: Hash id)) as ->.
  { unfold d. rewrite (slice_from_app [prefix]). f_equal. by rewrite <-!app_assoc. }
  cbn [mbind go_bind]. rewrite decodeBlockRound_skip by (by apply Encode_nonzero).
  cbn [decodeBlockRound_loop Z.eqb]. rewrite decide_True by done.
  rewrite decodeBlockRound_skip by (by apply Encode_nonzero).
  cbn [decodeBlockRound_loop Z.eqb]. rewrite decide_False by lia.
  set (pre := prefix :: en ++ [0]).
  assert (length pre = length en + 2)%nat as Hpre by (unfold pre; simpl; rewrite length_app; simpl; lia).
  replace (0 + length en + 2)%nat with (length pre) by lia.
  replace (S (0 + length en) + length er + 1)%nat with (length pre + length er)%nat by lia.
  assert (d = pre ++ er ++ 0 :: Hash id) as -> by (unfold d, pre; simpl; by rewrite <-!app_assoc).
  rewrite subslice_app. cbn [mbind go_bind]. by apply Decode_Encode_u64.
Qed.

(** A block ID is recovered from its encoding, and the ID and the round of
    a block from each of its keys. *)
Theorem block_id_roundtrip id prefix : id_width id ->
  decodeBlockID (encodeBlockID id) = Ret id /\
  decodeBlockID (drop 1 (idKey prefix id)) = Ret id /\
  decodeBlockRound (idKey prefix id) = Ret (Round id).
Proof. intros Hid. split_and!; [by apply decode_encode_id..|by apply decode_round]. Qed.

Lemma block_id_roundtrip_witness :
  decodeBlockRound (blockKey (MkBlockID [0; 1; 0] 3 9000000)) = Ret 9000000.
Proof. apply (block_id_roundtrip (MkBlockID [0; 1; 0] 3 9000000)). split; split; simpl; lia. Defined.

(** ** Round trip of block graphs *)

(** [dec] reads what [enc] wrote, wherever it stands, and stops after it. *)
Definition reads {A} (dec : bytes -> nat -> go (A * nat)) (enc : A -> bytes) (x : A) : Prop :=
  forall pre post, dec (pre ++ enc x ++ post) (length pre) = Ret (x, (length pre + length (enc x))%nat).

Lemma readSize_app n v pre post : 0 <= v < 2 ^ (8 * Z.of_nat n) ->
  readSize n (pre ++ PutUint n v ++ post) (length pre) = Ret (Z.to_nat v, (length pre + n)%nat).
Proof.
  intros Hv. unfold readSize. rewrite slice_from_app. cbn [mbind go_bind].
  rewrite Uint_PutUint by done. done.
Qed.

Lemma decodeMany_reads {A} dec (enc : A -> bytes) xs : Forall (reads dec enc) xs ->
  forall pre post, decodeMany dec (length xs) (pre ++ (xs ≫= enc) ++ post) (length pre)
    = Ret (xs, (length pre + length (xs ≫= enc))%nat).
Proof.
  induction 1 as [|x xs Hx Hxs IH]; intros pre post; csimpl; [by rewrite Nat.add_0_r|].
  rewrite <-app_assoc, Hx. cbn [mbind go_bind].
  rewrite app_assoc, <-length_app, IH. cbn [mbind go_bind].
  by rewrite !length_app, Nat.add_assoc.
Qed.

(** The encoded ID fits the two bytes of its length. *)
Definition id_fits (id : BlockID) : Prop :=
  id_width id /\ Z.of_nat (length (encodeBlockID id)) < 2 ^ 16.

(** An invalid previous block is the zero one. *)
Definition prev_fits (id : BlockID) : Prop := id = zeroBlockID \/ id_fits id /\ Valid id = true.

Lemma length_encodeBlockID id : (1 < length (encodeBlockID id))%nat.
Proof. unfold encodeBlockID. rewrite !length_app. simpl. lia. Qed.

Lemma decodeID_app id pre post : id_width id ->
  decodeID (pre ++ encodeBlockID id ++ post) (length pre) (length (encodeBlockID id))
    = Ret (id, (length pre + length (encodeBlockID id))%nat).
Proof.
  intros Hid. unfold decodeID. rewrite subslice_app. cbn [mbind go_bind].
  by rewrite decode_encode_id.
Qed.

Lemma readSized_app id pre post : id_fits id ->
  readSize 2 (pre ++ encodeSized id ++ post) (length pre)
    = Ret (length (encodeBlockID id), (length pre + 2)%nat).
Proof.
  intros [_ Hl]. unfold encodeSized. rewrite wrap_small by (split; lia).
  rewrite <-app_assoc, readSize_app by (simpl; lia). by rewrite Nat2Z.id.
Qed.

Lemma decodeSized_body id pre post : id_fits id ->
  decodeID (pre ++ encodeSized id ++ post) (length pre + 2) (length (encodeBlockID id))
    = Ret (id, (length pre + length (encodeSized id))%nat).
Proof.
  intros [Hid Hl]. unfold encodeSized. cbv zeta. rewrite <-app_assoc, app_assoc.
  set (sz := PutUint16 _). assert (length sz = 2%nat) as Hsz by apply length_PutUint.
  rewrite <-Hsz, <-length_app. rewrite decodeID_app by done. rewrite !length_app.
  by rewrite Nat.add_assoc.
Qed.

Lemma decodeSized_reads id : id_fits id -> reads decodeSized encodeSized id.
Proof.
  intros Hid pre post. unfold decodeSized. rewrite readSized_app by done. cbn [mbind go_bind].
  by apply decodeSized_body.
Qed.

Lemma decodePrev_reads id : prev_fits id -> reads decodePrev encodePrev id.
Proof.
  intros [->|[Hid Hv]] pre post; unfold decodePrev, encodePrev.
  - change (Valid zeroBlockID) with false. cbn iota.
    change [0; 0] with (PutUint16 0). rewrite readSize_app by done. done.
  - rewrite Hv. rewrite readSized_app by done. cbn [mbind go_bind].
    rewrite decide_True by (pose proof (length_encodeBlockID id); lia).
    by apply decodeSized_body.
Qed.

Definition dep_fits (d : Dep) : Prop :=
  id_fits (dep_Block d) /\ prev_fits (dep_Prev d) /\ Forall id_fits (dep_Deps d) /\
  Z.of_nat (length (dep_Deps d)) < 2 ^ 32.
Definition graph_fits (b : BlockGraph) : Prop :=
  prev_fits (bg_Prev b) /\ Forall dep_fits (bg_Deps b) /\ Z.of_nat (length (bg_Deps b)) < 2 ^ 32.

(** A count followed by that many elements. *)
Lemma decodeMany_counted {A} dec (enc : A -> bytes) xs pre post :
  Forall (reads dec enc) xs -> Z.of_nat (length xs) < 2 ^ 32 ->
  let val := pre ++ PutUint32 (u32 (Z.of_nat (length xs))) ++ (xs ≫= enc) ++ post in
  ('(n, idx) ← readSize 4 val (length pre); decodeMany dec n val idx)
    = Ret (xs, (length pre + 4 + length (xs ≫= enc))%nat).
Proof.
  intros Hxs Hl. cbv zeta. rewrite wrap_small by (split; lia).
  rewrite readSize_app by (simpl; lia). cbn [mbind go_bind]. rewrite Nat2Z.id.
  set (sz := PutUint32 _). assert (length sz = 4%nat) as Hsz by apply length_PutUint.
  rewrite app_assoc, <-Hsz, <-length_app. rewrite decodeMany_reads by done. done.
Qed.

Lemma decodeDep_reads d : dep_fits d -> reads decodeDep encodeDep d.
Proof.
  intros (Hb & Hp & Hl & Hn) pre post. unfold decodeDep, encodeDep. rewrite <-!app_assoc.
  rewrite (decodeSized_reads _ Hb). cbn [mbind go_bind].
  rewrite app_assoc, <-length_app. rewrite (decodePrev_reads _ Hp). cbn [mbind go_bind].
  rewrite app_assoc, <-length_app.
  pose proof (decodeMany_counted decodeSized encodeSized (dep_Deps d)
    ((pre ++ encodeSized (dep_Block d)) ++ encodePrev (dep_Prev d)) post) as Hc.
  cbv zeta in Hc. destruct (readSize 4 _ _) as [[n idx]| |]; cbn [mbind go_bind] in *.
  - rewrite Hc; [|by eapply Forall_impl; [done|apply decodeSized_reads]|done]. cbn [mbind go_bind].
    destruct d; simpl. do 2 f_equal. rewrite !length_app. simpl. lia.
  - exfalso. discriminate Hc; [by eapply Forall_impl; [done|apply decodeSized_reads]|done].
  - exfalso. discriminate Hc; [by eapply Forall_impl; [done|apply decodeSized_reads]|done].
Qed.

(** The stored form of a block graph decodes to that block graph: reading
    back with [getBlockGraphs] what [setOwnBlock] wrote loses nothing, provided
    the encoded IDs and the counts fit the widths of their length fields. *)
Theorem block_graph_roundtrip b : graph_fits b ->
  decodeBlockGraph (bg_Block b) (encodeBlockGraph b) = Ret b.
Proof.
  intros (Hp & Hd & Hn). unfold decodeBlockGraph, encodeBlockGraph.
  pose proof (decodePrev_reads _ Hp [] (PutUint32 (u32 (Z.of_nat (length (bg_Deps b))))
                ++ (bg_Deps b ≫= encodeDep))) as Hprev.
  cbn [app length Nat.add] in Hprev. rewrite Hprev. cbn [mbind go_bind].
  pose proof (decodeMany_counted decodeDep encodeDep (bg_Deps b) (encodePrev (bg_Prev b)) []) as Hc.
  cbv zeta in Hc. rewrite app_nil_r in Hc.
  specialize (Hc ltac:(by eapply Forall_impl; [done|apply decodeDep_reads]) Hn).
  destruct (readSize 4 _ _) as [[n idx]| |]; cbn [mbind go_bind] in *; [|done..].
  rewrite Hc. cbn [mbind go_bind]. by destruct b.
Qed.

Lemma block_graph_roundtrip_witness :
  let b := MkBlockGraph (MkBlockID [9] 1 2)
             [MkDep (MkBlockID [7; 0] 2 1) [MkBlockID [5] 3 1] zeroBlockID] (MkBlockID [8] 1 1) in
  decodeBlockGraph (bg_Block b) (encodeBlockGraph b) = Ret b.
Proof.
  apply block_graph_roundtrip.
  assert (forall h n r, is_u64 n -> is_u64 r -> Z.of_nat (length (encodeBlockID (MkBlockID h n r))) < 2 ^ 16
            -> id_fits (MkBlockID h n r)) as Hf by (intros; by split).
  assert (forall n, 0 <= n < 10 -> is_u64 n) as H10 by (intros; split; lia).
  split_and!; [right; split; [|done]; apply Hf; [apply H10; lia..|by vm_compute]| |done].
  constructor; [|constructor]. split_and!; [|by left| |done].
  - apply Hf; [apply H10; lia..|by vm_compute].
  - constructor; [|constructor]. apply Hf; [apply H10; lia..|by vm_compute].
Defined.

(** ** Order of the keys *)

(** The zero byte that ends a part of a key keeps the order of the parts. *)
Lemma bytes_cmp_terminated x y s t : Forall (fun c => 1 <= c <= 255) x ->
  Forall (fun c => 1 <= c <= 255) y ->
  bytes_cmp (x ++ 0 :: s) (y ++ 0 :: t) =
  match bytes_cmp x y with Eq => bytes_cmp s t | c => c end.
Proof.
  intros Hx. revert y. induction Hx as [|a x Ha Hx IH]; intros y Hy; destruct Hy as [|b y Hb Hy].
  - done.
  - apply bytes_cmp_cons_lt. lia.
  - change ((a :: x) ++ 0 :: s) with (a :: x ++ 0 :: s). rewrite bytes_cmp_antisym.
    change ([] ++ 0 :: t) with (0 :: t). by rewrite bytes_cmp_cons_lt by lia.
  - cbn [app bytes_cmp]. destruct (a ?= b); [by apply IH|done..].
Qed.

Lemma idKey_cmp prefix x y : id_width x -> id_width y ->
  bytes_cmp (idKey prefix x) (idKey prefix y) =
  match Node x ?= Node y with
  | Eq => match Round x ?= Round y with Eq => bytes_cmp (Hash x) (Hash y) | c => c end
  | c => c
  end.
Proof.
  intros [Hnx Hrx] [Hny Hry]. unfold idKey. rewrite <-!app_assoc.
  cbn [app bytes_cmp]. rewrite Z.compare_refl.
  rewrite bytes_cmp_terminated by (by apply Encode_nonzero). rewrite Encode_cmp by done.
  destruct (Node x ?= Node y); [|done..].
  rewrite bytes_cmp_terminated by (by apply Encode_nonzero). by rewrite Encode_cmp.
Qed.

Lemma idKey_inj prefix x y : id_width x -> id_width y -> idKey prefix x = idKey prefix y -> x = y.
Proof.
  intros Hx Hy He. apply bytes_cmp_eq in He. rewrite idKey_cmp in He by done.
  destruct (Z.compare_spec (Node x) (Node y)), (Z.compare_spec (Round x) (Round y)); try done.
  apply bytes_cmp_eq in He. destruct x, y; simpl in *; congruence.
Qed.

(** The keys of blocks sort by node, then by round as a number, then by
    hash: a scan of the keys of a node meets its blocks in round order; and
    different blocks never share a key. *)
Theorem block_keys_ordered prefix x y : id_width x -> id_width y ->
  bytes_cmp (idKey prefix x) (idKey prefix y) =
    (match Node x ?= Node y with
     | Eq => match Round x ?= Round y with Eq => bytes_cmp (Hash x) (Hash y) | c => c end
     | c => c
     end) /\
  (idKey prefix x = idKey prefix y -> x = y).
Proof. intros. split; [by apply idKey_cmp|by apply idKey_inj]. Qed.

Lemma block_keys_ordered_witness :
  bytes_cmp (blockKey (MkBlockID [9] 2 255)) (blockKey (MkBlockID [1] 2 9000000)) = Lt.
Proof.
  apply (block_keys_ordered blockPrefix (MkBlockID [9] 2 255) (MkBlockID [1] 2 9000000));
    split; split; simpl; lia.
Defined.
