(* ===== verification/Database.v ===== *)
(** * Database: the transactional key-value store and the serialisers

    What [src/broadcast/store.go] and [src/sbac/store.go] use of the badger
    database and of protocol buffers.  Neither is code of this program: the
    database is a finite map from byte strings to byte strings with atomic
    transactions, whose operations may fail as a [Faults] says, and which has no
    empty key; serialisers are instances of [Proto]. *)
From S2P Require Import Prelude.

(** ** Serialisers *)

Class Proto (A : Type) := { Marshal : A -> go bytes; Unmarshal : bytes -> go A }.

(** What is documented of a serialiser: it reads back what it wrote. *)
Class ProtoOk (A : Type) `{Proto A} : Prop :=
  unmarshal_marshal x b : Marshal x = Ret b -> Unmarshal b = Ret x.

(** ** Transactions *)

Abbreviation contents := (gmap (list Z) (list Z)).

(** Which operations fail, and how. *)
Record Faults := {
  get_err : bytes -> option string;
  value_err : bytes -> option string;
  set_err : bytes -> option string;
  commit_err : option string
}.

Definition noFaults : Faults :=
  {| get_err := fun _ => None; value_err := fun _ => None; set_err := fun _ => None;
     commit_err := None |}.

Definition fails {A} (e : option string) (k : go A) : go A :=
  match e with Some e => Fail e | None => k end.

Definition ErrKeyNotFound : string := "Key not found".
Definition ErrEmptyKey : string := "Key cannot be empty".

(** An empty key is refused by every operation on a key; a key or a value that is
    too long is one of the faults of [set_err]. *)
Definition key_err (err : bytes -> option string) (k : bytes) : option string :=
  if decide (k = []) then Some ErrEmptyKey else err k.

(** A transaction body works on the contents it sees. *)
Definition Txn (A : Type) : Type := contents -> go (A * contents).
#[export] Instance txn_ret : MRet Txn := fun A x db => Ret (x, db).
#[export] Instance txn_bind : MBind Txn := fun A B f m db =>
  '(x, db) ← m db; f x db.

Lemma txn_bind_eq {A B} (m : Txn A) (f : A -> Txn B) db :
  (m ≫= f) db = ('(x, db) ← m db; f x db).
Proof. done. Qed.

Definition lift {A} (m : go A) : Txn A := fun db => x ← m; Ret (x, db).

Section faults.
Context (F : Faults).

(** [txn.Get]: the item, [None] being [ErrKeyNotFound]. *)
Definition txn_Get (k : bytes) : Txn (option bytes) := fun db =>
  fails (key_err (get_err F) k) (Ret (db !! k, db)).

(** [txn.Get] followed by [item.Value]. *)
Definition txn_Value (k : bytes) : Txn bytes := fun db =>
  '(o, db) ← txn_Get k db;
  match o with
  | Some v => fails (value_err F k) (Ret (v, db))
  | None => Fail ErrKeyNotFound
  end.

Definition txn_Set (k v : bytes) : Txn () := fun db =>
  fails (key_err (set_err F) k) (Ret (tt, <[k := v]> db)).
Definition txn_Delete (k : bytes) : Txn () := fun db =>
  fails (key_err (set_err F) k) (Ret (tt, delete k db)).

(** The loop [for _, k := range keys { txn... }]. *)
Fixpoint txn_each {A} (f : A -> Txn ()) (xs : list A) : Txn () :=
  match xs with [] => mret tt | x :: xs => f x ≫= fun _ => txn_each f xs end.

(** A read-only transaction; a read-write one is committed as a whole, or not
    at all when its body or the commit fails. *)
Definition View {A} (body : Txn A) (db : contents) : go A := '(x, _) ← body db; Ret x.
Definition Update (body : Txn ()) (db : contents) : go contents :=
  '(_, db') ← body db; fails (commit_err F) (Ret db').
End faults.

(** ** Iterators *)

Definition key_le (x y : bytes * bytes) : Prop := bytes_le x.1 y.1.

Definition hasPrefix (p k : bytes) : bool := bool_decide (p = take (length p) k).

Fixpoint take_while {A} (f : A -> bool) (l : list A) : list A :=
  match l with [] => [] | x :: l => if f x then x :: take_while f l else [] end.

(** [for it.Seek(start); it.ValidForPrefix(prefix); it.Next()]: the items from
    [start] on in key order, as long as they have the prefix. *)
Definition scan (start prefix : bytes) (db : contents) : list (bytes * bytes) :=
  take_while (fun kv => hasPrefix prefix kv.1)
    (filter (fun kv => bytes_le start kv.1) (merge_sort key_le (map_to_list db))).

(** ** Theory of scans *)

#[export] Instance key_le_total : Total key_le.
Proof. intros x y. apply (total bytes_le). Qed.
#[export] Instance key_le_trans : Transitive key_le.
Proof. intros x y z. apply (transitivity (R := bytes_le)). Qed.

Lemma hasPrefix_spec p k : hasPrefix p k = true <-> p `prefix_of` k.
Proof.
  unfold hasPrefix. rewrite bool_decide_eq_true. split.
  - intros ->. eexists. symmetry. apply take_drop.
  - intros [r ->]. by rewrite take_app_length.
Qed.

(** The keys with a given prefix form an interval. *)
Lemma prefix_interval p a b c : p `prefix_of` a -> p `prefix_of` c ->
  bytes_le a b -> bytes_le b c -> p `prefix_of` b.
Proof.
  revert a b c. induction p as [|x p IH]; intros a b c [a' ->] [c' ->] Hab Hbc.
  { apply prefix_nil. }
  unfold bytes_le in *. destruct b as [|y b]; simpl in *; [done|].
  destruct (Z.compare_spec x y) as [->|Hlt|Hgt]; [|by rewrite (proj2 (Z.compare_gt_iff y x)) in Hbc|done].
  rewrite Z.compare_refl in Hbc. apply prefix_cons. eapply IH; [..|exact Hbc]; [by eexists| by eexists|done].
Qed.

Lemma elem_of_take_while {A} (R : relation A) (f : A -> bool) (l : list A) x :
  StronglySorted R l -> (forall y z, y ∈ l -> z ∈ l -> R y z -> f z = true -> f y = true) ->
  x ∈ take_while f l <-> x ∈ l /\ f x = true.
Proof.
  induction 1 as [|y l Hs IH Hy]; intros Hf; simpl.
  { split; [by intros []%not_elem_of_nil|by intros [[]%not_elem_of_nil _]]. }
  rewrite Forall_forall in Hy. destruct (f y) eqn:E.
  - rewrite !elem_of_cons, IH by (intros ? ? ? ?; apply Hf; by right). naive_solver.
  - split; [by intros []%not_elem_of_nil|]. intros [[->|Hx]%elem_of_cons Hfx]; [congruence|].
    rewrite (Hf y x) in E; [done|left|by right|by apply Hy|done].
Qed.

Lemma take_while_sublist {A} (f : A -> bool) (l : list A) : take_while f l `prefix_of` l.
Proof. induction l as [|x l IH]; simpl; [done|]. case_match; [by apply prefix_cons|apply prefix_nil]. Qed.

Lemma StronglySorted_prefix {A} (R : relation A) (l k : list A) :
  l `prefix_of` k -> StronglySorted R k -> StronglySorted R l.
Proof. intros [r ->] Hs. by apply StronglySorted_app_1_l in Hs. Qed.

Lemma StronglySorted_filter_key (P : bytes * bytes -> Prop) `{!forall x, Decision (P x)} l :
  StronglySorted key_le l -> StronglySorted key_le (filter P l).
Proof.
  induction 1 as [|x l Hs IH Hx]; [constructor|]. rewrite filter_cons. case_decide; [|done].
  constructor; [done|]. apply Forall_forall. intros y [_ Hy]%list_elem_of_filter.
  by eapply Forall_forall in Hx.
Qed.

Section scan.
Context (start prefix : bytes) (db : contents).
Context (Hstart : prefix `prefix_of` start).

Lemma scan_base_sorted :
  StronglySorted key_le (filter (fun kv => bytes_le start kv.1) (merge_sort key_le (map_to_list db))).
Proof using Type.
  apply StronglySorted_filter_key. apply Sorted_StronglySorted; [apply _|].
  apply (Sorted_merge_sort _).
Qed.

(** A scan visits exactly the keys from [start] on that have the prefix... *)
Lemma elem_of_scan k v : (k, v) ∈ scan start prefix db <->
  db !! k = Some v /\ bytes_le start k /\ prefix `prefix_of` k.
Proof using Hstart.
  unfold scan. rewrite (elem_of_take_while key_le).
  - rewrite list_elem_of_filter, merge_sort_Permutation, elem_of_map_to_list, hasPrefix_spec. simpl. tauto.
  - apply scan_base_sorted.
  - intros [ky vy] [kz vz] [Hy _]%list_elem_of_filter _ Hle. simpl in *.
    rewrite !hasPrefix_spec. intros Hz. by apply (prefix_interval _ start _ kz).
Qed.

(** ... in key order, each once. *)
Lemma scan_sorted : StronglySorted key_le (scan start prefix db).
Proof using Type.
  eapply StronglySorted_prefix; [apply take_while_sublist|]. apply scan_base_sorted.
Qed.

Lemma scan_NoDup : NoDup (scan start prefix db).*1.
Proof using Type.
  destruct (take_while_sublist (fun kv => hasPrefix prefix kv.1)
    (filter (fun kv => bytes_le start kv.1) (merge_sort key_le (map_to_list db)))) as [r Hr].
  fold (scan start prefix db) in Hr. apply NoDup_fmap_fst.
  - assert (forall k v, (k, v) ∈ scan start prefix db -> db !! k = Some v) as Hin.
    { intros k v Hk. rewrite <-elem_of_map_to_list, <-(merge_sort_Permutation key_le).
      assert ((k, v) ∈ scan start prefix db ++ r) as Hk' by (apply elem_of_app; by left).
      rewrite <-Hr in Hk'. by apply list_elem_of_filter in Hk' as [_ ?]. }
    intros k v1 v2 H1%Hin H2%Hin. congruence.
  - assert (NoDup (scan start prefix db ++ r)) as Hnd; [|by apply NoDup_app in Hnd as [? _]].
    rewrite <-Hr. apply NoDup_filter. rewrite merge_sort_Permutation. apply NoDup_map_to_list.
Qed.
End scan.

(** ** Running transactions *)

Lemma txn_Set_inv F k v db u db' : txn_Set F k v db = Ret (u, db') -> db' = <[k := v]> db.
Proof. unfold txn_Set, fails. by destruct (key_err (set_err F) k); intros; simplify_eq. Qed.
Lemma txn_Delete_inv F k db u db' : txn_Delete F k db = Ret (u, db') -> db' = delete k db.
Proof. unfold txn_Delete, fails. by destruct (key_err (set_err F) k); intros; simplify_eq. Qed.
Lemma txn_Get_inv F k db o db' : txn_Get F k db = Ret (o, db') -> o = db !! k /\ db' = db.
Proof. unfold txn_Get, fails. by destruct (key_err (get_err F) k); intros; simplify_eq. Qed.
Lemma txn_bind_inv {A B} (f : A -> Txn B) (m : Txn A) db y db2 :
  (m ≫= f) db = Ret (y, db2) -> exists x db1, m db = Ret (x, db1) /\ f x db1 = Ret (y, db2).
Proof.
  unfold mbind at 1, txn_bind. intros H. apply go_bind_Ret in H as ([x db1] & H1 & H2). eauto.
Qed.

Lemma txn_each_set F v ks db u db' : txn_each (fun k => txn_Set F k v) ks db = Ret (u, db') ->
  forall k, db' !! k = if decide (k ∈ ks) then Some v else db !! k.
Proof.
  revert db. induction ks as [|k0 ks IH]; intros db H k.
  { injection H as _ <-. by rewrite decide_False by apply not_elem_of_nil. }
  apply txn_bind_inv in H as (? & db1 & H1 & H). apply txn_Set_inv in H1 as ->.
  rewrite (IH _ H k). destruct (decide (k ∈ ks)); [by rewrite decide_True by (by right)|].
  destruct (decide (k = k0)) as [->|].
  - by rewrite decide_True, lookup_insert_eq by left.
  - rewrite decide_False by (by rewrite elem_of_cons; intros []). by rewrite lookup_insert_ne.
Qed.

Lemma txn_each_delete F ks db u db' : txn_each (txn_Delete F) ks db = Ret (u, db') ->
  forall k, db' !! k = if decide (k ∈ ks) then None else db !! k.
Proof.
  revert db. induction ks as [|k0 ks IH]; intros db H k.
  { injection H as _ <-. by rewrite decide_False by apply not_elem_of_nil. }
  apply txn_bind_inv in H as (? & db1 & H1 & H). apply txn_Delete_inv in H1 as ->.
  rewrite (IH _ H k). destruct (decide (k ∈ ks)); [by rewrite decide_True by (by right)|].
  destruct (decide (k = k0)) as [->|].
  - by rewrite decide_True, lookup_delete_eq by left.
  - rewrite decide_False by (by rewrite elem_of_cons; intros []). by rewrite lookup_delete_ne.
Qed.

(** A value read back through a database without faults. *)
Lemma txn_Value_ok k v db : k <> [] -> db !! k = Some v -> txn_Value noFaults k db = Ret (v, db).
Proof. intros Hne Hk. unfold txn_Value, txn_Get, key_err. rewrite decide_False by done. simpl. by rewrite Hk. Qed.

Lemma txn_Set_ok k v db : k <> [] -> txn_Set noFaults k v db = Ret (tt, <[k := v]> db).
Proof. intros Hk. unfold txn_Set, key_err. by rewrite decide_False. Qed.

Lemma txn_Value_inv F k db v db' : txn_Value F k db = Ret (v, db') -> db !! k = Some v /\ db' = db.
Proof.
  unfold txn_Value. intros H. apply go_bind_Ret in H as ([o db1] & Hg & H).
  apply txn_Get_inv in Hg as [-> ->]. destruct (db !! k); [|done].
  unfold fails in H. destruct (value_err F k); [done|]. by simplify_eq.
Qed.

Lemma Update_inv F body db db' : Update F body db = Ret db' -> exists u, body db = Ret (u, db').
Proof.
  unfold Update. intros H. apply go_bind_Ret in H as ([u db2] & H1 & H2). unfold fails in H2.
  destruct (commit_err F); simplify_eq. eauto.
Qed.
