(* ===== verification/BroadcastStore.v ===== *)
(** * BroadcastStore: the persistent state of the broadcast service

    Model of [src/broadcast/store.go].  Every method runs under the store's
    mutex, so a method is one atomic step here; methods that only read return
    [go] values, the others the new store.  Protocol buffer messages and the
    hash function are parameters. *)
From S2P Require Import Prelude Messages Lexinum Codec Database.

(** ** Messages of [types.proto] *)

Record SignedData := MkSignedData { Data : bytes; Signature : bytes }.
Record Transactions := MkTransactions { Count : uint64; tx_Data : bytes }.
Record Block := MkBlock {
  b_Node : uint64; Previous : option SignedData; References : list SignedData;
  b_Round : uint64; b_Transactions : option Transactions }.
Record BlockReference := MkBlockReference { r_Hash : bytes; r_Node : uint64; r_Round : uint64 }.

#[export] Instance SignedData_eq_dec : EqDecision SignedData.
Proof. solve_decision. Defined.

(** The dependencies of a block, see [depgraph.go]. *)
Record blockData := MkBlockData {
  bd_deps : list BlockID; bd_id : BlockID; bd_prev : BlockID; bd_ref : SignedData }.

Record receivedInfo := MkReceivedInfo { latest : uint64; sequence : uint64 }.

Record store := MkStore { closed : bool; db : contents; st_nodeCount : goint }.
Definition set_db (x : contents) (s : store) : store := MkStore (closed s) x (st_nodeCount s).

Definition errDBClosed : string := "broadcast: DB has been closed".

Section store.
Context `{Proto SignedData, Proto Block, Proto BlockReference}.
Context (sha512_256 : bytes -> bytes).
Context (F : Faults).

(** The test for a closed database at the start of every method. *)
Definition opened {A} (s : store) (k : go A) : go A :=
  if closed s then Fail errDBClosed else k.

Definition update (s : store) (body : Txn ()) : go store :=
  db' ← Update F body (db s); Ret (set_db db' s).

Definition view {A} (s : store) (body : Txn A) : go A := View body (db s).

(** A value under a key, unmarshalled. *)
Definition txn_Proto {A} `{Proto A} (k : bytes) : Txn A :=
  v ← txn_Value F k; lift (Unmarshal v).

(** A failure to unmarshal that ends in [log.Fatal]. *)
Definition fatal {A} (m : go A) : go A := match m with Ret x => Ret x | _ => Crash end.

Definition ref_id (r : BlockReference) : BlockID := MkBlockID (r_Hash r) (r_Node r) (r_Round r).

Fixpoint getBlockData_refs (refs : list SignedData) : go (list BlockID) :=
  match refs with
  | [] => Ret []
  | sref :: refs =>
      ref ← fatal (Unmarshal (Data sref));
      ids ← getBlockData_refs refs;
      Ret (ref_id ref :: ids)
  end.

Definition getBlockData (signed : SignedData) : go blockData :=
  block ← fatal (Unmarshal (Data signed) : go Block);
  let hash := sha512_256 (Data signed) in
  let id := MkBlockID hash (b_Node block) (b_Round block) in
  enc ← fatal (Marshal (MkBlockReference hash (b_Node block) (b_Round block)));
  prev ← (if decide (b_Round block <> 1) then
            previous ← or_crash (Previous block);
            ref ← fatal (Unmarshal (Data previous)); Ret (ref_id ref)
          else Ret zeroBlockID);
  deps ← getBlockData_refs (References block);
  Ret (MkBlockData deps id prev (MkSignedData enc (Signature signed))).

(** ** Reading *)

Definition getBlock (id : BlockID) (s : store) : go SignedData :=
  opened s (view s (txn_Proto (blockKey id))).

Definition st_getBlockData (id : BlockID) (s : store) : go blockData :=
  opened s (signed ← getBlock id s; getBlockData signed).

(** The loop over the iterator: at most [limit] block graphs. *)
Fixpoint getBlockGraphs_loop (limit : goint) (items : list (bytes * bytes)) (blocks : list BlockGraph)
    : go (list BlockGraph) :=
  match items with
  | [] => Ret blocks
  | (k, v) :: items =>
      k1 ← slice_from k 1;
      id ← decodeBlockID k1;
      val ← fails (value_err F k) (Ret v);
      block ← decodeBlockGraph id val;
      let blocks := blocks ++ [block] in
      if decide (Z.of_nat (length blocks) = limit) then Ret blocks
      else getBlockGraphs_loop limit items blocks
  end.

Definition nodePrefix (prefix : Z) (nodeID : uint64) : bytes := ([prefix] ++ Encode nodeID) ++ [0].

Definition getBlockGraphs (nodeID from : uint64) (limit : goint) (s : store) : go (list BlockGraph) :=
  opened s (
    let prefix := nodePrefix blockGraphPrefix nodeID in
    getBlockGraphs_loop limit (scan (prefix ++ Encode from) prefix (db s)) []).

(** The loop over the keys of the wanted blocks. *)
Fixpoint getAll (keys : list bytes) : Txn (list SignedData) :=
  match keys with
  | [] => mret []
  | key :: keys =>
      block ← txn_Proto key;
      blocks ← getAll keys;
      mret (block :: blocks)
  end.

Definition getBlocks (ids : list BlockID) (s : store) : go (list SignedData) :=
  opened s (view s (getAll (blockKey <$> ids))).

Definition getDeliverAcknowledged (s : store) : go uint64 :=
  opened s (view s (val ← txn_Value F [roundAcknowledgedPrefix]; lift (Uint64 val))).

(** [n] keys, each preceded by its length, followed to the blocks. *)
Fixpoint getInterpreted_loop (n : nat) (val : bytes) (idx : nat) (blocks : list SignedData)
    : Txn (list SignedData) :=
  match n with
  | O => mret blocks
  | S n =>
      kl ← lift (subslice val idx (idx + 2));
      ksize ← lift (Uint16 kl);
      key ← lift (subslice val (idx + 2) (idx + 2 + Z.to_nat ksize));
      block ← txn_Proto key;
      getInterpreted_loop n val (idx + 2 + Z.to_nat ksize) (blocks ++ [block])
  end.

Definition getInterpreted (round : uint64) (s : store) : go (list SignedData) :=
  opened s (view s (
    val ← txn_Value F (interpretedKey round);
    head ← lift (subslice val 0 8);
    size ← lift (Uint64 head);
    getInterpreted_loop (Z.to_nat (to_int size)) val 8 [])).

Definition getLastInterpreted (s : store) : go (uint64 * uint64) :=
  opened s (view s (
    val ← txn_Value F [lastInterpretedPrefix];
    a ← lift (subslice val 0 8); round ← lift (Uint64 a);
    b ← lift (subslice val 8 16); consumed ← lift (Uint64 b);
    mret (round, consumed))).

Definition getLastRoundData (s : store) : go (uint64 * bytes * SignedData) :=
  opened s (view s (
    hash ← txn_Value F [lastHashPrefix];
    val ← txn_Value F [lastRoundPrefix];
    round ← lift (Uint64 val);
    blockRef ← txn_Proto [lastBlockRefPrefix];
    mret (round, hash, blockRef))).

(** [for i := latest + 1; i < next; i++], [None] being the early return. *)
Fixpoint getMissing_fill (fuel : nat) (i next : uint64) (limit : goint)
    (rounds : list uint64) (latest : uint64) (added : goint)
    : (list uint64 * uint64) * option goint :=
  match fuel with
  | O => (rounds, latest, Some added)
  | S fuel =>
      if decide (i < next) then
        let latest := i in
        let rounds := rounds ++ [i] in
        if decide (added = limit) then (rounds, latest, None)
        else getMissing_fill fuel (u64 (i + 1)) next limit rounds latest (added + 1)
      else (rounds, latest, Some added)
  end.

Fixpoint getMissing_loop (limit : goint) (keys : list bytes)
    (rounds : list uint64) (latest : uint64) (added : goint) : go (list uint64 * uint64) :=
  match keys with
  | [] => Ret (rounds, latest)
  | key :: keys =>
      next ← decodeBlockRound key;
      let i := u64 (latest + 1) in
      match getMissing_fill (Z.to_nat (next - i)) i next limit rounds latest added with
      | (rounds, latest, None) => Ret (rounds, latest)
      | (rounds, _, Some added) => getMissing_loop limit keys rounds next added
      end
  end.

Definition getMissing (nodeID since : uint64) (limit : goint) (s : store) : go (list uint64 * uint64) :=
  opened s (
    let prefix := nodePrefix blockPrefix nodeID in
    getMissing_loop limit (scan (prefix ++ Encode (u64 (since + 1))) prefix (db s)).*1 [] since 0).

Fixpoint getBlockData_all (blocks : list SignedData) : go (list blockData) :=
  match blocks with
  | [] => Ret []
  | b :: blocks => d ← getBlockData b; ds ← getBlockData_all blocks; Ret (d :: ds)
  end.

Definition getNotIncluded (s : store) : go (list blockData) :=
  opened s (
    let start := [notIncludedPrefix] in
    let keys := (fun kv => blockPrefix :: drop 1 kv.1) <$> scan start start (db s) in
    blocks ← view s (getAll keys);
    getBlockData_all blocks).

Definition getOwnBlock (round : uint64) (s : store) : go SignedData :=
  opened s (view s (txn_Proto (ownBlockKey round))).

Fixpoint getReceivedMap_loop (n : nat) (val : bytes) (idx : nat) (data : gmap uint64 receivedInfo)
    : go (gmap uint64 receivedInfo) :=
  match n with
  | O => Ret data
  | S n =>
      a ← subslice val idx (idx + 8); k ← Uint64 a;
      b ← subslice val (idx + 8) (idx + 16); l ← Uint64 b;
      c ← subslice val (idx + 16) (idx + 24); q ← Uint64 c;
      getReceivedMap_loop n val (idx + 24) (<[k := MkReceivedInfo l q]> data)
  end.

Definition getReceivedMap (s : store) : go (gmap uint64 receivedInfo) :=
  opened s (view s (
    val ← txn_Value F [receivedMapPrefix];
    head ← lift (subslice val 0 8); n ← lift (Uint64 head);
    lift (getReceivedMap_loop (Z.to_nat (to_int n)) val 8 ∅))).

(** The loop over the iterator, with the offsets as they are in the code. *)
Fixpoint getRoundBlocks_loop (round : uint64) (items : list (bytes * bytes)) (data : gmap BlockID Block)
    : go (gmap BlockID Block) :=
  match items with
  | [] => Ret data
  | (key, v) :: items =>
      val ← fails (value_err F key) (Ret v);
      k21 ← slice_from key 21;
      nodeID ← Decode k21;
      hash ← slice_from key 41;
      signed ← (Unmarshal val : go SignedData);
      block ← (Unmarshal (Data signed) : go Block);
      getRoundBlocks_loop round items (<[MkBlockID hash nodeID round := block]> data)
  end.

Definition getRoundBlocks (round : uint64) (s : store) : go (gmap BlockID Block) :=
  opened s (
    let prefix := [blockPrefix] ++ Encode round in
    getRoundBlocks_loop round (scan prefix prefix (db s)) ∅).

Fixpoint getSentMap_loop (n : nat) (val : bytes) (idx : nat) (data : gmap uint64 uint64)
    : go (gmap uint64 uint64) :=
  match n with
  | O => Ret data
  | S n =>
      a ← subslice val idx (idx + 8); k ← Uint64 a;
      b ← subslice val (idx + 8) (idx + 16); v ← Uint64 b;
      getSentMap_loop n val (idx + 16) (<[k := v]> data)
  end.

Definition getSentMap (s : store) : go (gmap uint64 uint64) :=
  opened s (view s (
    val ← txn_Value F [sentMapPrefix];
    head ← lift (subslice val 0 8); n ← lift (Uint64 head);
    lift (getSentMap_loop (Z.to_nat (to_int n)) val 8 ∅))).

Definition isIncluded (id : BlockID) (s : store) : go bool :=
  opened s (view s (
    o ← txn_Get F (includedKey id);
    match o with
    | None => mret false
    | Some _ =>
        val ← txn_Value F (includedKey id);
        c ← lift (or_crash (val !! 0%nat));
        mret (c =? 1)
    end)).

(** ** Writing *)

Definition setBlock (id : BlockID) (block : SignedData) (s : store) : go store :=
  opened s (
    val ← Marshal block;
    update s (
      o ← txn_Get F (includedKey id);
      match o with
      | Some _ => mret tt
      | None =>
          _ ← txn_Set F (includedKey id) [0];
          _ ← txn_Set F (notIncludedKey id) [];
          txn_Set F (blockKey id) val
      end)).

Definition setDeliverAcknowledged (round : uint64) (s : store) : go store :=
  opened s (update s (txn_Set F [roundAcknowledgedPrefix] (PutUint64 round))).

(** A block key preceded by its length. *)
Definition sizedKey (key : bytes) : bytes := PutUint16 (u16 (Z.of_nat (length key))) ++ key.

Definition encodeInterpreted (blocks : list BlockID) : bytes :=
  PutUint64 (u64 (Z.of_nat (length blocks))) ++ ((blockKey <$> blocks) ≫= sizedKey).

Definition setInterpreted (data : Interpreted) (s : store) : go store :=
  opened s (update s (
    _ ← txn_Set F (interpretedKey (in_Round data)) (encodeInterpreted (in_Blocks data));
    txn_Set F [lastInterpretedPrefix] (PutUint64 (in_Round data) ++ PutUint64 (in_Consumed data)))).

Definition setOwnBlock (block blockRef : SignedData) (graph : BlockGraph) (s : store) : go store :=
  opened s (
    val ← Marshal block;
    blockRefVal ← Marshal blockRef;
    let id := bg_Block graph in
    let refs := dep_Block <$> bg_Deps graph in
    update s (
      _ ← txn_Set F (blockKey id) val;
      _ ← txn_Set F [lastBlockRefPrefix] blockRefVal;
      _ ← txn_Set F (blockGraphKey id) (encodeBlockGraph graph);
      _ ← txn_Set F [lastHashPrefix] (Hash id);
      _ ← txn_Set F [lastRoundPrefix] (PutUint64 (Round id));
      _ ← txn_each (fun refkey => txn_Set F refkey [1]) (includedKey <$> refs);
      _ ← txn_each (txn_Delete F) (notIncludedKey <$> refs);
      txn_Set F (ownBlockKey (Round id)) val)).

Definition receivedEntry (e : uint64 * receivedInfo) : bytes :=
  PutUint64 e.1 ++ PutUint64 (latest e.2) ++ PutUint64 (sequence e.2).
Definition encodeReceivedMap (es : list (uint64 * receivedInfo)) : bytes :=
  PutUint64 (u64 (Z.of_nat (length es))) ++ (es ≫= receivedEntry).

Definition setReceivedMap (data : gmap uint64 receivedInfo) (s : store) : go store :=
  opened s (update s (txn_Set F [receivedMapPrefix] (encodeReceivedMap (map_to_list data)))).

Definition sentEntry (e : uint64 * uint64) : bytes := PutUint64 e.1 ++ PutUint64 e.2.
Definition encodeSentMap (es : list (uint64 * uint64)) : bytes :=
  PutUint64 (u64 (Z.of_nat (length es))) ++ (es ≫= sentEntry).

Definition setSentMap (data : gmap uint64 uint64) (s : store) : go store :=
  opened s (update s (txn_Set F [sentMapPrefix] (encodeSentMap (map_to_list data)))).
End store.
