(* ===== verification/BroadcastStoreData.v ===== *)
(** * BroadcastStoreData: round trips of the records of the broadcast store

    What [setInterpreted], [setReceivedMap] and [setSentMap] write is what
    [getInterpreted], [getLastInterpreted], [getReceivedMap] and [getSentMap]
    read, in whatever order the maps were iterated. *)
From S2P Require Import Prelude Messages Lexinum Codec Database BroadcastStore BroadcastStoreProps.

(** ** Reading fixed width fields *)

Lemma read_field n v pre post i j : 0 <= v < 2 ^ (8 * Z.of_nat n) -> i = length pre -> j = (i + n)%nat ->
  (b ← subslice (pre ++ PutUint n v ++ post) i j; Uint n b) = Ret v.
Proof.
  intros Hv -> ->. rewrite <-(length_PutUint n v) at 2. rewrite subslice_app. cbn [mbind go_bind].
  rewrite <-(app_nil_r (PutUint n v)). by rewrite Uint_PutUint.
Qed.

(** The same with the rest of the computation. *)
Lemma read_field_bind {A} n v pre post i j (k : Z -> go A) :
  0 <= v < 2 ^ (8 * Z.of_nat n) -> i = length pre -> j = (i + n)%nat ->
  (b ← subslice (pre ++ PutUint n v ++ post) i j; x ← Uint n b; k x) = k v.
Proof.
  intros Hv Hi Hj. pose proof (read_field n v pre post i j Hv Hi Hj) as Hr.
  destruct (subslice _ i j) as [b| |]; cbn [mbind go_bind] in *; [|done..]. by rewrite Hr.
Qed.

(** The same within a transaction. *)
Lemma txn_field {A} n v pre post i j (f : Z -> Txn A) d :
  0 <= v < 2 ^ (8 * Z.of_nat n) -> i = length pre -> j = (i + n)%nat ->
  (b ← lift (subslice (pre ++ PutUint n v ++ post) i j); x ← lift (Uint n b); f x) d = f v d.
Proof.
  intros Hv Hi Hj. pose proof (read_field n v pre post i j Hv Hi Hj) as Hr.
  unfold mbind, go_bind in Hr. unfold mbind, txn_bind, lift, mbind, go_bind.
  destruct (subslice _ i j) as [b| |]; [|done..]. by rewrite Hr.
Qed.

Lemma txn_head {A} n v post (f : Z -> Txn A) d : 0 <= v < 2 ^ (8 * Z.of_nat n) ->
  (b ← lift (subslice (PutUint n v ++ post) 0 n); x ← lift (Uint n b); f x) d = f v d.
Proof. intros Hv. by apply (txn_field n v [] post 0 n). Qed.

Lemma View_bind {B} key v (f : bytes -> Txn B) d :
  key <> [] -> d !! key = Some v -> View (txn_Value noFaults key ≫= f) d = View (f v) d.
Proof. intros Hne Hk. unfold View. rewrite txn_bind_eq, (txn_Value_ok _ _ _ Hne Hk). done. Qed.

(** ** Maps *)

Lemma foldl_insert_map {V} (es : list (uint64 * V)) (m m0 : gmap uint64 V) :
  NoDup es.*1 -> (forall k v, (k, v) ∈ es -> m !! k = Some v) ->
  (forall k, k ∉ es.*1 -> m0 !! k = m !! k) ->
  foldl (fun m '(k, v) => <[k := v]> m) m0 es = m.
Proof.
  revert m0. induction es as [|[k v] es IH]; intros m0 Hnd Hin Hout; simpl.
  { apply map_eq. intros k. apply Hout, not_elem_of_nil. }
  inversion_clear Hnd as [|? ? Hk Hnd']. apply IH; [done| |].
  - intros k' v' Hk'. apply Hin. by right.
  - intros k' Hk'. destruct (decide (k' = k)) as [->|].
    + rewrite lookup_insert_eq. symmetry. apply Hin. left.
    + rewrite lookup_insert_ne by done. apply Hout. csimpl. by rewrite not_elem_of_cons.
Qed.

Lemma foldl_insert_enum {V} (es : list (uint64 * V)) (m : gmap uint64 V) :
  es ≡ₚ map_to_list m -> foldl (fun m '(k, v) => <[k := v]> m) ∅ es = m.
Proof.
  intros He. apply foldl_insert_map.
  - rewrite He. apply NoDup_fst_map_to_list.
  - intros k v. by rewrite He, elem_of_map_to_list.
  - intros k Hk. rewrite lookup_empty. symmetry. apply eq_None_not_Some. intros [v Hv].
    apply Hk. rewrite He. apply list_elem_of_fmap. exists (k, v). by rewrite elem_of_map_to_list.
Qed.

Definition entry_width (e : uint64 * uint64) : Prop := is_u64 e.1 /\ is_u64 e.2.
Definition info_width (e : uint64 * receivedInfo) : Prop :=
  is_u64 e.1 /\ is_u64 (latest e.2) /\ is_u64 (sequence e.2).

Lemma getSentMap_loop_spec es pre post data : Forall entry_width es ->
  getSentMap_loop (length es)
    (pre ++ (es ≫= sentEntry) ++ post) (length pre) data
  = Ret (foldl (fun m '(k, v) => <[k := v]> m) data es).
Proof.
  intros Hes. revert pre data. induction Hes as [|[k v] es [Hk Hv] Hes IH]; intros pre data; [done|].
  assert (pre ++ (((k, v) :: es) ≫= sentEntry) ++ post =
          pre ++ PutUint64 k ++ PutUint64 v ++ (es ≫= sentEntry) ++ post) as ->
    by (rewrite bind_cons; unfold sentEntry at 1; by rewrite <-!app_assoc).
  cbn [length getSentMap_loop].
  rewrite read_field_bind by (done || lia).
  rewrite (app_assoc pre). rewrite read_field_bind; [|done|rewrite length_app, length_PutUint; lia|lia].
  rewrite (app_assoc (pre ++ _)).
  replace (length pre + 16)%nat with (length ((pre ++ PutUint64 k) ++ PutUint64 v))
    by (rewrite !length_app, !length_PutUint; lia).
  apply IH.
Qed.

Lemma getReceivedMap_loop_spec es pre post data : Forall info_width es ->
  getReceivedMap_loop (length es)
    (pre ++ (es ≫= receivedEntry) ++ post)
    (length pre) data
  = Ret (foldl (fun m '(k, v) => <[k := v]> m) data es).
Proof.
  intros Hes. revert pre data. induction Hes as [|[k v] es (Hk & Hl & Hq) Hes IH]; intros pre data; [done|].
  assert (pre ++ (((k, v) :: es) ≫= receivedEntry) ++ post =
          pre ++ PutUint64 k ++ PutUint64 (latest v) ++ PutUint64 (sequence v) ++ (es ≫= receivedEntry) ++ post) as ->
    by (rewrite bind_cons; unfold receivedEntry at 1; by rewrite <-!app_assoc).
  cbn [length getReceivedMap_loop].
  rewrite read_field_bind by (done || lia).
  rewrite (app_assoc pre). rewrite read_field_bind; [|done|rewrite length_app, length_PutUint; lia|lia].
  rewrite (app_assoc (pre ++ _)).
  rewrite read_field_bind; [|done|rewrite !length_app, !length_PutUint; lia|lia].
  rewrite (app_assoc ((pre ++ _) ++ _)).
  replace (length pre + 24)%nat with
    (length (((pre ++ PutUint64 k) ++ PutUint64 (latest v)) ++ PutUint64 (sequence v)))
    by (rewrite !length_app, !length_PutUint; lia).
  replace (MkReceivedInfo (latest v) (sequence v)) with v by (by destruct v). apply IH.
Qed.

(** ** Through the database *)

Section data.
Context `{PS : Proto SignedData}.

Lemma single_write F s s' k v : opened s (update F s (txn_Set F k v)) = Ret s' ->
  closed s = false /\ s' = set_db (<[k := v]> (db s)) s.
Proof using Type.
  intros [Hc (u & db' & Hb & ->)%update_inv]%opened_inv. by apply txn_Set_inv in Hb as ->.
Qed.

(** A count of at most [2^63 - 1] read from the head of a value. *)
Lemma view_count {A} key val n rest (k : bytes -> nat -> go A) d :
  key <> [] -> d !! key = Some val -> val = PutUint64 (u64 (Z.of_nat n)) ++ rest -> Z.of_nat n < 2 ^ 63 ->
  View (v ← txn_Value noFaults key; h ← lift (subslice v 0 8); n ← lift (Uint64 h);
        lift (k v (Z.to_nat (to_int n)))) d = k val n.
Proof using Type.
  intros Hne Hk Hv Hn. rewrite (View_bind _ val) by done. rewrite Hv, wrap_small by (split; lia).
  unfold View. rewrite (txn_head 8 (Z.of_nat n)) by (done || (split; simpl; lia)).
  rewrite to_int_small, Nat2Z.id by lia. unfold lift. by destruct (k _ n).
Qed.

(** The maps of received and sent rounds survive a restart: what was
    written last is read back. *)
Theorem peer_maps_roundtrip F F' rmap smap s s1 s2 :
  setReceivedMap F rmap s = Ret s1 -> setSentMap F' smap s1 = Ret s2 ->
  Forall info_width (map_to_list rmap) -> Forall entry_width (map_to_list smap) ->
  Z.of_nat (size rmap) < 2 ^ 63 -> Z.of_nat (size smap) < 2 ^ 63 ->
  getReceivedMap noFaults s2 = Ret rmap /\ getSentMap noFaults s2 = Ret smap.
Proof using Type.
  intros [Hc ->]%single_write [_ ->]%single_write Hr Hs Hnr Hns. split.
  - unfold getReceivedMap, opened, view. simpl. rewrite Hc.
    set (val := encodeReceivedMap (map_to_list rmap)).
    etrans; [apply (view_count [receivedMapPrefix] val (length (map_to_list rmap)) (map_to_list rmap ≫= receivedEntry)
                      (fun v n => getReceivedMap_loop n v 8 ∅)); [done|by lookups|done|by rewrite length_map_to_list]|].
    unfold val, encodeReceivedMap.
    rewrite <-(app_nil_r (map_to_list rmap ≫= receivedEntry)).
    rewrite (getReceivedMap_loop_spec _ (PutUint64 _)) by done. f_equal. by apply foldl_insert_enum.
  - unfold getSentMap, opened, view. simpl. rewrite Hc.
    set (val := encodeSentMap (map_to_list smap)).
    etrans; [apply (view_count [sentMapPrefix] val (length (map_to_list smap)) (map_to_list smap ≫= sentEntry)
                      (fun v n => getSentMap_loop n v 8 ∅)); [done|by lookups|done|by rewrite length_map_to_list]|].
    unfold val, encodeSentMap.
    rewrite <-(app_nil_r (map_to_list smap ≫= sentEntry)).
    rewrite (getSentMap_loop_spec _ (PutUint64 _)) by done. f_equal. by apply foldl_insert_enum.
Qed.

(** The loop follows the keys like [getBlocks] does. *)
Lemma getInterpreted_loop_spec F keys pre acc d :
  Forall (fun k => Z.of_nat (length k) < 2 ^ 16) keys ->
  getInterpreted_loop F (length keys) (pre ++ (keys ≫= sizedKey)) (length pre) acc d =
  ('(bs, d) ← getAll F keys d; Ret (acc ++ bs, d)).
Proof using Type.
  intros Hk. revert pre acc d. induction Hk as [|k keys Hk Hks IH]; intros pre acc d.
  { cbn. by rewrite app_nil_r. }
  set (sz := PutUint16 (Z.of_nat (length k))).
  assert (pre ++ ((k :: keys) ≫= sizedKey) = pre ++ sz ++ k ++ (keys ≫= sizedKey)) as ->.
  { rewrite bind_cons. unfold sizedKey at 1. rewrite wrap_small by (split; lia). by rewrite <-!app_assoc. }
  assert (length sz = 2%nat) as Hsz by apply length_PutUint.
  cbn [length getInterpreted_loop getAll].
  unfold sz. rewrite txn_field by (done || simpl; lia). fold sz.
  rewrite Nat2Z.id.
  rewrite app_assoc. replace (length pre + 2)%nat with (length (pre ++ sz)) by (rewrite length_app; lia).
  rewrite txn_bind_eq. unfold lift at 1. rewrite subslice_app. cbn [mbind go_bind].
  rewrite !txn_bind_eq. destruct (txn_Proto F k d) as [[b d1]| |]; cbn [mbind go_bind]; [|done..].
  rewrite app_assoc, <-(length_app (pre ++ sz)), IH.
  rewrite txn_bind_eq. destruct (getAll F keys d1) as [[bs d2]| |]; cbn [mbind go_bind]; [|done..].
  unfold mret, txn_ret. by rewrite <-app_assoc.
Qed.

(** [setInterpreted]: the last interpreted round and the count of consumed
    blocks are read back, and the interpreted blocks of the round are exactly
    the blocks stored under the delivered IDs, in the order of delivery. *)
Theorem interpreted_roundtrip F data s s' : setInterpreted F data s = Ret s' ->
  is_u64 (in_Round data) -> is_u64 (in_Consumed data) ->
  Z.of_nat (length (in_Blocks data)) < 2 ^ 63 ->
  Forall (fun id => Z.of_nat (length (blockKey id)) < 2 ^ 16) (in_Blocks data) ->
  getLastInterpreted noFaults s' = Ret (in_Round data, in_Consumed data) /\
  getInterpreted noFaults (in_Round data) s' = getBlocks noFaults (in_Blocks data) s'.
Proof using Type.
  intros [Hcl (u & db' & Hb & ->)%update_inv]%opened_inv Hr Hc Hn Hk.
  apply txn_bind_inv in Hb as (? & db1 & ->%txn_Set_inv & ->%txn_Set_inv). split.
  - unfold getLastInterpreted, opened, view. simpl. rewrite Hcl.
    rewrite (View_bind _ (PutUint64 (in_Round data) ++ PutUint64 (in_Consumed data))) by (done || by lookups).
    unfold View. rewrite (txn_head 8 (in_Round data)) by done.
    rewrite <-(app_nil_r (PutUint64 (in_Consumed data))).
    by rewrite (txn_field 8 (in_Consumed data) (PutUint64 (in_Round data)) []) by done.
  - unfold getInterpreted, getBlocks, opened, view. simpl. rewrite Hcl.
    rewrite (View_bind _ (encodeInterpreted (in_Blocks data))) by (done || by lookups).
    set (d := <[[lastInterpretedPrefix] := _]> _). unfold View, encodeInterpreted.
    rewrite wrap_small by (split; lia).
    rewrite (txn_head 8 (Z.of_nat (length (in_Blocks data)))) by (done || (split; simpl; lia)).
    rewrite to_int_small, Nat2Z.id by lia. rewrite <-(length_fmap blockKey (in_Blocks data)).
    pose proof (getInterpreted_loop_spec noFaults (blockKey <$> in_Blocks data)
      (PutUint64 (Z.of_nat (length (blockKey <$> in_Blocks data)))) [] d
      ltac:(by rewrite Forall_fmap)) as Hl.
    change (length (PutUint64 _)) with 8%nat in Hl. rewrite Hl.
    by destruct (getAll _ _ _) as [[bs d']| |].
Qed.
End data.
