(* ===== verification/BroadcastStoreScan.v ===== *)
(** * BroadcastStoreScan: the gaps in the rounds received from a node

    [getMissing] walks the block keys of a node in order and collects the
    rounds between them.  The walk is compared with the list [gaps] of all
    rounds missing between consecutive blocks. *)
From S2P Require Import Prelude Messages Lexinum Codec Database BroadcastStore BroadcastStoreProps.

(** The rounds strictly between [latest] and the rounds [rs], in order. *)
Fixpoint gaps (latest : Z) (rs : list Z) : list Z :=
  match rs with
  | [] => []
  | r :: rs => seqZ (latest + 1) (r - (latest + 1)) ++ gaps r rs
  end.

(** Rounds that do not go backwards, from [latest] on. *)
Fixpoint ascending (latest : Z) (rs : list Z) : Prop :=
  match rs with [] => True | r :: rs => latest <= r < 2 ^ 64 - 1 /\ ascending r rs end.

Lemma elem_of_gaps latest rs r : ascending latest rs ->
  r ∈ gaps latest rs <-> latest < r /\ r ∉ rs /\ exists r', r' ∈ rs /\ r < r'.
Proof.
  revert latest. induction rs as [|x rs IH]; intros latest Ha; simpl.
  { split; [by intros []%not_elem_of_nil|]. intros (_ & _ & x & []%not_elem_of_nil & _). }
  destruct Ha as [Hx Ha]. rewrite elem_of_app, elem_of_seqZ, IH by done.
  assert (forall y, y ∈ rs -> x <= y) as Hmin.
  { clear -Ha. revert x Ha. induction rs as [|y rs IH]; intros x Ha z; [by intros []%not_elem_of_nil|].
    destruct Ha as [? Ha]. intros [->|Hz]%elem_of_cons; [lia|]. specialize (IH _ Ha _ Hz). lia. }
  split.
  - intros [?|(? & Hr & y & Hy & ?)].
    + split_and!; [lia| |exists x; split; [left|lia]].
      intros [->|Hr]%elem_of_cons; [lia|]. specialize (Hmin _ Hr). lia.
    + split_and!; [lia| |exists y; split; [by right|done]]. rewrite not_elem_of_cons. split; [lia|done].
  - intros (? & [Hrx Hr]%not_elem_of_cons & y & [->|Hy]%elem_of_cons & ?); [left; lia|].
    destruct (decide (r < x)); [left; lia|]. right. split_and!; [lia|done|eauto].
Qed.

Lemma gaps_sorted latest rs : ascending latest rs -> StronglySorted Z.lt (gaps latest rs).
Proof.
  revert latest. induction rs as [|x rs IH]; intros latest Ha; simpl; [constructor|].
  destruct Ha as [Hx Ha]. apply StronglySorted_app_2.
  - intros a b Hin Hb. rewrite elem_of_seqZ in Hin.
    apply elem_of_gaps in Hb as [Hb _]; [lia|done].
  - clear. set (m := x - (latest + 1)). set (l := latest + 1). clearbody m l.
    destruct (decide (0 <= m)); [|rewrite seqZ_nil by lia; constructor].
    rewrite <-(Z2Nat.id m) by done. generalize (Z.to_nat m) as n. clear. intros n.
    revert l. induction n as [|n IH]; intros l; [rewrite seqZ_nil by lia; constructor|].
    rewrite seqZ_cons by lia. constructor.
    + replace (Z.pred (Z.of_nat (S n))) with (Z.of_nat n) by lia. apply IH.
    + apply Forall_forall. intros y Hy%elem_of_seqZ. lia.
  - by apply IH.
Qed.

(** The inner loop appends the rounds up to [next], or stops one past the limit. *)
Lemma getMissing_fill_spec fuel i next limit rounds latest added :
  fuel = Z.to_nat (next - i) -> 0 <= i -> next < 2 ^ 64 -> 0 <= added <= limit ->
  let all := seqZ i (next - i) in
  let room := Z.to_nat (limit - added + 1) in
  let '(rounds', latest', res) := getMissing_fill fuel i next limit rounds latest added in
  rounds' = rounds ++ take room all /\
  match res with
  | Some added' => added' = added + Z.of_nat (length all) /\ added' <= limit
  | None => (room <= length all)%nat /\ latest' = i + Z.of_nat room - 1
  end.
Proof.
  revert i rounds latest added. induction fuel as [|fuel IH]; intros i rounds latest added Hf Hi Hn Hl.
  { cbn zeta. simpl. rewrite seqZ_nil by lia. rewrite take_nil, app_nil_r. simpl. split; [done|lia]. }
  cbv zeta. cbn [getMissing_fill]. rewrite decide_True by lia.
  rewrite (seqZ_cons i) by lia.
  destruct (decide (added = limit)) as [->|Hne].
  - replace (Z.to_nat (limit - limit + 1)) with 1%nat by lia. simpl. rewrite take_0. split; [done|lia].
  - rewrite (wrap_small 64) by (split; lia).
    specialize (IH (i + 1) (rounds ++ [i]) i (added + 1) ltac:(lia) ltac:(lia) Hn ltac:(lia)).
    cbv zeta in IH. replace (next - (i + 1)) with (Z.pred (next - i)) in IH by lia.
    replace (Z.succ i) with (i + 1) by lia.
    destruct (getMissing_fill _ _ _ _ _ _ _) as [[rounds' latest'] res].
    replace (Z.to_nat (limit - added + 1)) with (S (Z.to_nat (limit - (added + 1) + 1))) by lia.
    simpl take. destruct IH as [-> IH]. rewrite <-app_assoc. split; [done|].
    destruct res; simpl; lia.
Qed.

Lemma elem_of_take_seqZ a n k x : (k <= length (seqZ a n))%nat ->
  x ∈ take k (seqZ a n) <-> a <= x < a + Z.of_nat k.
Proof.
  rewrite length_seqZ. intros Hk. rewrite elem_of_take. split.
  - intros (i & [-> ?]%lookup_seqZ & ?). lia.
  - intros Hx. exists (Z.to_nat (x - a)). rewrite lookup_seqZ. lia.
Qed.

(** What the round returned with the gaps [taken] of [rs] says. *)
Definition reaches (from latest : Z) (rs taken : list Z) : Prop :=
  from <= latest < 2 ^ 64 - 1 /\
  (forall r, from < r <= latest -> r ∈ rs \/ r ∈ taken) /\ (forall r, r ∈ taken -> r <= latest).

(** The outer loop returns the first [limit + 1 - added] gaps. *)
Lemma getMissing_loop_spec limit keys rs rounds latest added :
  Forall2 (fun k r => decodeBlockRound k = Ret r) keys rs -> ascending latest rs ->
  0 <= latest -> latest + 1 < 2 ^ 64 -> 0 <= added <= limit ->
  let taken := take (Z.to_nat (limit - added + 1)) (gaps latest rs) in
  exists latest', getMissing_loop limit keys rounds latest added = Ret (rounds ++ taken, latest') /\
    reaches latest latest' rs taken.
Proof.
  intros Hk. revert rounds latest added. induction Hk as [|k r keys rs Hk Hks IH];
    intros rounds latest added Ha Hl Hl2 Hadd; simpl.
  { exists latest. rewrite take_nil, app_nil_r. split; [done|]. split_and!; [lia..| |].
    - intros r Hr. lia.
    - by intros r ?%not_elem_of_nil. }
  destruct Ha as [Hr Ha]. rewrite Hk. cbn [mbind go_bind]. rewrite (wrap_small 64) by (split; lia).
  pose proof (getMissing_fill_spec (Z.to_nat (r - (latest + 1))) (latest + 1) r limit rounds latest added
                eq_refl ltac:(lia) ltac:(lia) Hadd) as Hfill. cbv zeta in Hfill.
  destruct (getMissing_fill _ _ _ _ _ _ _) as [[rounds' latest'] [added'|]].
  - destruct Hfill as (-> & Hadd' & Hle).
    assert (length (seqZ (latest + 1) (r - (latest + 1))) <= Z.to_nat (limit - added + 1))%nat as Hlen by lia.
    rewrite take_ge by done. rewrite take_app_ge by done.
    destruct (IH (rounds ++ seqZ (latest + 1) (r - (latest + 1))) r added' Ha) as (l' & -> & Hb & Hin & Hle');
      [lia..|].
    replace (Z.to_nat (limit - added' + 1)) with (Z.to_nat (limit - added + 1) -
      length (seqZ (latest + 1) (r - (latest + 1))))%nat in * by lia.
    exists l'. split; [by rewrite <-app_assoc|]. split_and!; [lia..| |].
    + intros x Hx. rewrite elem_of_app, elem_of_seqZ, elem_of_cons. destruct (decide (r < x)) as [Hrx|];
        [|destruct (decide (x = r)); [tauto|right; left; lia]].
      destruct (Hin x); [lia|tauto..].
    + intros x [Hx%elem_of_seqZ|Hx]%elem_of_app; [lia|auto].
  - destruct Hfill as (-> & Hge & ->). rewrite take_app_le by lia.
    eexists. split; [done|]. rewrite length_seqZ in Hge. split_and!; [lia..| |].
    + intros x Hx. right. rewrite elem_of_take_seqZ by (rewrite length_seqZ; lia). lia.
    + intros x. rewrite elem_of_take_seqZ by (rewrite length_seqZ; lia). lia.
Qed.

(** ** From the database to the rounds *)

(** The keys under the block prefix are keys of blocks, none of them in the
    very last round of the width. *)
Definition blocks_wf (db : contents) : Prop := forall k v,
  db !! k = Some v -> [blockPrefix] `prefix_of` k ->
  exists id, id_width id /\ Round id < 2 ^ 64 - 1 /\ k = blockKey id.

(** A block of [node] in [round] is stored. *)
Definition stored (db : contents) (node round : uint64) : Prop :=
  exists id, id_width id /\ Node id = node /\ Round id = round /\ is_Some (db !! blockKey id).

(** A round of [node] after [since] without a block, although a later one has. *)
Definition missing (db : contents) (node since round : uint64) : Prop :=
  since < round /\ ~ stored db node round /\ exists later, round < later /\ stored db node later.

Lemma idKey_split p id : idKey p id = nodePrefix p (Node id) ++ Encode (Round id) ++ 0 :: Hash id.
Proof. unfold idKey, nodePrefix. by rewrite <-!app_assoc. Qed.

Lemma bytes_cmp_app p x y : bytes_cmp (p ++ x) (p ++ y) = bytes_cmp x y.
Proof. induction p as [|a p IH]; simpl; [done|]. by rewrite Z.compare_refl. Qed.

(** The prefix of a node determines the node. *)
Lemma nodePrefix_inj p a b x y : is_u64 a -> is_u64 b ->
  nodePrefix p a ++ x = nodePrefix p b ++ y -> a = b.
Proof.
  intros Ha Hb He. unfold nodePrefix in He. rewrite <-!app_assoc in He. cbn [app] in He.
  injection He as He. apply bytes_cmp_eq in He.
  rewrite bytes_cmp_terminated in He by (by apply Encode_nonzero). rewrite Encode_cmp in He by done.
  destruct (Z.compare_spec a b); done.
Qed.

(** A key of a node is at or after the start of the scan when its round is. *)
Lemma scan_start_le p node since id : is_u64 since -> id_width id -> Node id = node ->
  bytes_le (nodePrefix p node ++ Encode since) (idKey p id) <-> since <= Round id.
Proof.
  intros Hs [Hn Hr] <-. rewrite idKey_split. unfold bytes_le. rewrite bytes_cmp_app.
  pose proof (Encode_cmp since (Round id) Hs Hr) as Hc.
  assert (bytes_cmp (Encode since) (Encode (Round id) ++ 0 :: Hash id) =
          match since ?= Round id with Eq => Lt | c => c end) as ->.
  { clear Hn. revert Hc. generalize (Encode_nonzero _ Hs). generalize (Encode since) as x.
    generalize (Encode (Round id)) as y. intros y x Hx <-. revert y.
    induction Hx as [|a x Ha Hx IH]; intros [|b y]; try done.
    - cbn [app]. rewrite bytes_cmp_antisym, bytes_cmp_cons_lt by lia. done.
    - cbn [app bytes_cmp]. destruct (a ?= b); auto. }
  destruct (Z.compare_spec since (Round id)); split; intros; try done; lia.
Qed.

(** Keys of one node in key order, read as rounds. *)
Lemma rounds_of_keys node ks lat : StronglySorted bytes_le ks ->
  Forall (fun k => exists id, id_width id /\ Node id = node /\ lat <= Round id < 2 ^ 64 - 1 /\
            k = blockKey id) ks ->
  exists rs, Forall2 (fun k r => decodeBlockRound k = Ret r) ks rs /\ ascending lat rs /\
    forall r, r ∈ rs <-> exists id, id_width id /\ Round id = r /\ blockKey id ∈ ks.
Proof.
  intros Hs. revert lat. induction Hs as [|k ks Hs IH Hk]; intros lat Hf.
  { exists []. split_and!; [constructor|done|]. intros r.
    split; [by intros []%not_elem_of_nil|by intros (? & _ & _ & []%not_elem_of_nil)]. }
  apply Forall_cons in Hf as [(id & Hid & Hn & Hr & ->) Hf].
  destruct (IH (Round id)) as (rs & Hdec & Hasc & Hin).
  { apply Forall_forall. intros k' Hk'. rewrite Forall_forall in Hf, Hk.
    destruct (Hf _ Hk') as (id' & Hid' & Hn' & Hr' & ->). specialize (Hk _ Hk').
    exists id'. split_and!; try done; [|lia]. unfold bytes_le, blockKey in Hk.
    rewrite idKey_cmp in Hk by done. rewrite Hn, Hn', Z.compare_refl in Hk.
    destruct (Z.compare_spec (Round id) (Round id')); [lia..|done]. }
  exists (Round id :: rs). split_and!.
  - constructor; [by apply decode_round|done].
  - simpl. split; [lia|done].
  - intros r. rewrite elem_of_cons, Hin. split.
    + intros [->|(id' & ? & ? & ?)]; [exists id; split_and!; [done..|left]|].
      exists id'. split_and!; [done..|by right].
    + intros (id' & Hid' & <- & [He|Hin']%elem_of_cons); [|by right; exists id'].
      apply idKey_inj in He as ->; [by left|done..].
Qed.

Section missing.
Context (s : store) (node since : uint64).
Context (Hnode : is_u64 node) (Hsince : 0 <= since < 2 ^ 64 - 1) (Hwf : blocks_wf (db s)).

Let keys := (scan (nodePrefix blockPrefix node ++ Encode (u64 (since + 1)))
               (nodePrefix blockPrefix node) (db s)).*1.

Lemma elem_of_keys k : k ∈ keys <-> exists id, id_width id /\ Node id = node /\ since < Round id /\
  Round id < 2 ^ 64 - 1 /\ k = blockKey id /\ is_Some (db s !! k).
Proof using Hnode Hsince Hwf.
  unfold keys. rewrite list_elem_of_fmap. rewrite (wrap_small 64) by (split; lia). split.
  - intros ([k' v] & -> & Hk). apply elem_of_scan in Hk as (Hk & Hle & [r Hp]); [|by eexists]. simpl.
    destruct (Hwf k' v Hk) as (id & Hid & Hmax & ->).
    { rewrite Hp. unfold nodePrefix. rewrite <-!app_assoc. by eexists. }
    assert (Node id = node) as Hn.
    { unfold blockKey in Hp. rewrite idKey_split in Hp. apply nodePrefix_inj in Hp; [done|apply Hid|done]. }
    exists id. split_and!; try done.
    apply scan_start_le in Hle; [lia|split; lia|done|done].
  - intros (id & Hid & Hn & Hs & _ & -> & [v Hv]). exists (blockKey id, v). split; [done|].
    apply elem_of_scan; [by eexists|]. split_and!; [done| |].
    + apply scan_start_le; [split; lia|done|done|lia].
    + unfold blockKey. rewrite idKey_split, Hn. by eexists.
Qed.

(** The rounds of the scanned keys ascend. *)
Lemma keys_rounds : exists rs, Forall2 (fun k r => decodeBlockRound k = Ret r) keys rs /\
  ascending since rs /\ forall r, r ∈ rs <-> since < r /\ stored (db s) node r.
Proof using Hnode Hsince Hwf.
  assert (StronglySorted bytes_le keys) as Hsorted.
  { unfold keys. pose proof (scan_sorted (nodePrefix blockPrefix node ++ Encode (u64 (since + 1)))
      (nodePrefix blockPrefix node) (db s)) as Hs.
    induction Hs as [|kv l Hl IH Hkv]; csimpl; constructor; [done|]. by apply Forall_fmap. }
  destruct (rounds_of_keys node keys since Hsorted) as (rs & Hdec & Hasc & Hin).
  { apply Forall_forall. intros k (id & ? & ? & ? & ? & -> & _)%elem_of_keys.
    exists id. split_and!; done || lia. }
  exists rs. split_and!; [done..|]. intros r. rewrite Hin. split.
  - intros (id & Hid & <- & (id' & Hid' & Hn & Hs & _ & He & Hsome)%elem_of_keys).
    apply idKey_inj in He as ->; [|done..]. split; [done|]. by exists id'.
  - intros [Hs (id & Hid & Hn & <- & [v Hv])]. exists id. split_and!; [done..|].
    apply elem_of_keys. exists id. split_and!; try done.
    destruct (Hwf _ _ Hv) as (id' & Hid' & Hmax & He).
    { unfold blockKey, idKey. by eexists. }
    by apply idKey_inj in He as ->.
Qed.

Lemma getMissing_gaps limit : closed s = false -> 0 <= limit ->
  exists rs latest, ascending since rs /\
    (forall r, r ∈ rs <-> since < r /\ stored (db s) node r) /\
    getMissing node since limit s = Ret (take (Z.to_nat (limit + 1)) (gaps since rs), latest) /\
    reaches since latest rs (take (Z.to_nat (limit + 1)) (gaps since rs)).
Proof using Hnode Hsince Hwf.
  intros Hc Hl. destruct keys_rounds as (rs & Hdec & Hasc & Hin).
  destruct (getMissing_loop_spec limit keys rs [] since 0 Hdec Hasc) as (l & Hg & Hr); [lia..|].
  rewrite Z.sub_0_r in *. exists rs, l. split_and!; [done|done| |done].
  unfold getMissing, opened. rewrite Hc. fold keys. by rewrite Hg.
Qed.

Lemma getMissing_found limit : closed s = false -> 0 <= limit ->
  exists rounds latest, getMissing node since limit s = Ret (rounds, latest) /\
    StronglySorted Z.lt rounds /\ Z.of_nat (length rounds) <= limit + 1 /\
    (forall r, r ∈ rounds -> missing (db s) node since r) /\
    (forall r, missing (db s) node since r -> r ∈ rounds \/
       Z.of_nat (length rounds) = limit + 1 /\ forall x, x ∈ rounds -> x < r) /\
    since <= latest < 2 ^ 64 - 1 /\ (forall r, r ∈ rounds -> r <= latest) /\
    (forall r, since < r <= latest -> stored (db s) node r \/ r ∈ rounds).
Proof using Hnode Hsince Hwf.
  intros Hc Hl.
  destruct (getMissing_gaps limit Hc Hl) as (rs & latest & Hasc & Hin & Hg & Hb & Hreach & Ht).
  assert (forall r, r ∈ gaps since rs <-> missing (db s) node since r) as Hgaps.
  { intros r. rewrite elem_of_gaps by done. unfold missing. split.
    - intros (? & Hr & r' & [? Hst]%Hin & ?). split_and!; [done| |by exists r'].
      intros Hst'. apply Hr, Hin. done.
    - intros (? & Hr & r' & ? & ?). split_and!; [done| |exists r'; rewrite Hin; split; [split; [lia|done]|done]].
      intros [_ ?]%Hin. done. }
  pose proof (gaps_sorted since rs Hasc) as Hsort.
  exists (take (Z.to_nat (limit + 1)) (gaps since rs)), latest. split_and!; [done| | | | |lia|lia|done|].
  - eapply StronglySorted_prefix; [|done]. apply prefix_take.
  - rewrite length_take. lia.
  - intros r (i & Hi & _)%elem_of_take. apply Hgaps. by eapply list_elem_of_lookup_2.
  - intros r Hr%Hgaps. rewrite <-(take_drop (Z.to_nat (limit + 1)) (gaps since rs)) in Hr, Hsort.
    apply elem_of_app in Hr as [Hr|Hr]; [by left|right]. split.
    + assert (length (drop (Z.to_nat (limit + 1)) (gaps since rs)) <> 0)%nat as Hne
        by (destruct (drop _ _); [by apply not_elem_of_nil in Hr|done]).
      rewrite length_drop in Hne. rewrite length_take. lia.
    + intros x Hx. by eapply StronglySorted_app_1_elem_of.
  - intros r Hx. destruct (Hreach r Hx) as [[_ ?]%Hin|?]; [by left|by right].
Qed.
End missing.

(** [getMissing] returns in ascending order rounds after [since] for which
    no block of the node is stored although a later one is; it leaves such a
    round out only when it has collected [limit + 1] smaller ones.  So it can
    return one round more than [limit].  Up to the round returned with them,
    every round after [since] is stored or among them. *)
Theorem getMissing_spec s node since limit :
  is_u64 node -> 0 <= since < 2 ^ 64 - 1 -> 0 <= limit -> closed s = false -> blocks_wf (db s) ->
  exists rounds latest, getMissing node since limit s = Ret (rounds, latest) /\
    StronglySorted Z.lt rounds /\ Z.of_nat (length rounds) <= limit + 1 /\
    (forall r, r ∈ rounds -> missing (db s) node since r) /\
    (forall r, missing (db s) node since r -> r ∈ rounds \/
       Z.of_nat (length rounds) = limit + 1 /\ forall x, x ∈ rounds -> x < r) /\
    since <= latest < 2 ^ 64 - 1 /\ (forall r, r ∈ rounds -> r <= latest) /\
    (forall r, since < r <= latest -> stored (db s) node r \/ r ∈ rounds).
Proof. intros. by apply getMissing_found. Qed.
