(* ===== verification/BroadcastExample.v ===== *)
(** * BroadcastExample: a concrete store

    A serialiser that satisfies the round trip the store relies on, and runs of
    the store with it. *)
From S2P Require Import Prelude Messages Lexinum Codec Database BroadcastStore BroadcastStoreProps.
From S2P Require Import BroadcastStoreData BroadcastStoreScan.

#[export] Instance SignedData_Proto : Proto SignedData := {|
  Marshal x :=
    if decide (Z.of_nat (length (Data x)) < 2 ^ 64)
    then Ret (PutUint64 (Z.of_nat (length (Data x))) ++ Data x ++ Signature x) else Fail "too large";
  Unmarshal b :=
    n ← Uint64 b;
    Ret (MkSignedData (take (Z.to_nat n) (drop 8 b)) (drop (8 + Z.to_nat n) b))
|}.

#[export] Instance SignedData_ProtoOk : ProtoOk SignedData.
Proof.
  intros [d sg] b. cbn [Marshal SignedData_Proto Data Signature]. case_decide; [|done]. intros Hm.
  assert (b = PutUint64 (Z.of_nat (length d)) ++ d ++ sg) as -> by congruence.
  cbn [Unmarshal SignedData_Proto]. rewrite Uint_PutUint by (simpl; lia). cbn [mbind go_bind].
  rewrite Nat2Z.id, drop_app_length' by (by rewrite length_PutUint). rewrite take_app_length.
  rewrite <-drop_drop, drop_app_length' by (by rewrite length_PutUint). by rewrite drop_app_length.
Qed.

Definition empty : store := MkStore false ∅ 4.
Definition blockA : SignedData := MkSignedData [1; 2; 3] [9].
Definition blockB : SignedData := MkSignedData [4] [8; 8].
Definition idA : BlockID := MkBlockID [7; 0; 7] 2 1.
Definition idB : BlockID := MkBlockID [5] 1 2.
Definition graphB : BlockGraph :=
  MkBlockGraph idB [MkDep idA [] zeroBlockID] (MkBlockID [6] 1 1).

Definition run (m : go store) : store := match m with Ret s => s | _ => empty end.
Definition withA : store := run (setBlock noFaults idA blockA empty).
Definition withB : store := run (setOwnBlock noFaults blockB blockA graphB withA).

Lemma id_width_small h n r : 0 <= n < 1000 -> 0 <= r < 1000 -> id_width (MkBlockID h n r).
Proof. intros. split; split; simpl; lia. Qed.

Lemma idA_width : id_width idA.
Proof. by apply id_width_small. Qed.
Lemma withA_ok : setBlock noFaults idA blockA empty = Ret withA.
Proof. by vm_compute. Qed.
Lemma withB_ok : setOwnBlock noFaults blockB blockA graphB withA = Ret withB.
Proof. by vm_compute. Qed.

Lemma setBlock_spec_witness :
  getBlock noFaults idA withA = Ret blockA /\ isIncluded noFaults idA withA = Ret false.
Proof.
  destruct (setBlock_spec noFaults idA blockA empty withA withA_ok) as [H _].
  destruct H as (H1 & H2 & _); [by vm_compute|]. by split.
Defined.

Lemma setOwnBlock_spec_witness :
  getLastRoundData noFaults withB = Ret (2, [5], blockA) /\ isIncluded noFaults idA withB = Ret true.
Proof.
  destruct (setOwnBlock_spec noFaults blockB blockA graphB withA withB withB_ok) as (H1 & _ & _ & _ & H2).
  { split; simpl; lia. }
  split; [exact H1|]. apply (H2 (MkDep idA [] zeroBlockID)). left.
Defined.

Lemma inclusion_marks_witness :
  mark_ok (db withB) idA /\ db withB !! includedKey idA = Some [1].
Proof.
  destruct (inclusion_marks 4 withB withB idA) as [H _].
  - eapply rtc_l; [exact (step_setBlock _ _ _ _ _ idA_width withA_ok)|].
    eapply rtc_l; [|done]. eapply step_setOwnBlock; [|apply withB_ok].
    constructor; [apply idA_width|constructor].
  - done.
  - apply idA_width.
  - split; [exact H|by vm_compute].
Defined.

Definition rmap : gmap uint64 receivedInfo := {[ 2 := MkReceivedInfo 7 5; 3 := MkReceivedInfo 4 4 ]}.
Definition smap : gmap uint64 uint64 := {[ 2 := 3; 4 := 1 ]}.
Definition withMaps : store := run (setSentMap noFaults smap (run (setReceivedMap noFaults rmap withB))).

Lemma peer_maps_roundtrip_witness :
  getReceivedMap noFaults withMaps = Ret rmap /\ getSentMap noFaults withMaps = Ret smap.
Proof.
  apply (peer_maps_roundtrip noFaults noFaults rmap smap withB (run (setReceivedMap noFaults rmap withB)));
    [by vm_compute|by vm_compute| | |by vm_compute|by vm_compute].
  - apply (bool_decide_unpack (Forall info_width (map_to_list rmap))). by vm_compute.
  - apply (bool_decide_unpack (Forall entry_width (map_to_list smap))). by vm_compute.
Defined.

Definition interp : Interpreted := MkInterpreted [idA; idB] 1 2.
Definition withInterp : store := run (setInterpreted noFaults interp withB).

Lemma interpreted_roundtrip_witness :
  getLastInterpreted noFaults withInterp = Ret (2, 1) /\
  getInterpreted noFaults 2 withInterp = Ret [blockA; blockB].
Proof.
  destruct (interpreted_roundtrip noFaults interp withB withInterp) as [H1 H2].
  - by vm_compute.
  - split; simpl; lia.
  - split; simpl; lia.
  - by vm_compute.
  - repeat constructor; by vm_compute.
  - split; [exact H1|]. etrans; [exact H2|]. by vm_compute.
Defined.

(** Node 2 has blocks in rounds 1 and 9: with a limit of 3, four of the seven
    missing rounds are returned. *)
Definition gapped : store :=
  run (setBlock noFaults (MkBlockID [5] 2 9) blockB withA).

Lemma gapped_wf : blocks_wf (db gapped).
Proof.
  assert (Forall (fun kv => [blockPrefix] `prefix_of` kv.1 ->
            exists id, id_width id /\ Round id < 2 ^ 64 - 1 /\ kv.1 = blockKey id)
            (map_to_list (db gapped))) as Hall.
  { assert (map_to_list (db gapped) = ltac:(let x := eval vm_compute in (map_to_list (db gapped)) in exact x))
      as -> by by vm_compute.
    repeat constructor; simpl; try (intros [? [=]]);
      first [ exists (MkBlockID [5] 2 9); split_and!; [apply id_width_small; lia|simpl; lia|by vm_compute]
            | exists idA; split_and!; [apply idA_width|simpl; lia|by vm_compute] ]. }
  intros k v Hk Hp. rewrite Forall_forall in Hall. apply (Hall (k, v)); [by apply elem_of_map_to_list|done].
Qed.

Lemma getMissing_spec_witness :
  getMissing 2 1 3 gapped = Ret ([2; 3; 4; 5], 5) /\
  exists rounds latest, getMissing 2 1 3 gapped = Ret (rounds, latest) /\
    Z.of_nat (length rounds) <= 3 + 1.
Proof.
  split; [by vm_compute|].
  destruct (getMissing_spec gapped 2 1 3) as (rounds & latest & H & _ & Hl & _);
    [split; lia|lia|lia|by vm_compute|apply gapped_wf|].
  exists rounds, latest. by split.
Defined.
