(* ===== verification/Depgraph.v ===== *)
(** * Depgraph: the order in which blocks are included

    Model of [src/broadcast/depgraph.go] and of the caches of
    [src/broadcast/cache.go].  The answer of the store to [isIncluded] is a
    function argument of the operations that ask it; an error of the store is a
    [log.Fatal].  One iteration of the loop of [process] is [process_step]. *)
From S2P Require Import Prelude Messages BroadcastStore.

(** ** [depgraph.go] *)

Record depgraph := MkDepgraph {
  await : gmap BlockID (list BlockID);
  dg_blocks : list blockData;
  icache : gmap BlockID bool;
  dg_in : list blockData;
  pending : gmap BlockID blockData;
  dg_self : uint64;
  tcache : gmap BlockID bool
}.

Definition set_await x d := MkDepgraph x (dg_blocks d) (icache d) (dg_in d) (pending d) (dg_self d) (tcache d).
Definition set_blocks x d := MkDepgraph (await d) x (icache d) (dg_in d) (pending d) (dg_self d) (tcache d).
Definition set_icache x d := MkDepgraph (await d) (dg_blocks d) x (dg_in d) (pending d) (dg_self d) (tcache d).
Definition set_in x d := MkDepgraph (await d) (dg_blocks d) (icache d) x (pending d) (dg_self d) (tcache d).
Definition set_pending x d := MkDepgraph (await d) (dg_blocks d) (icache d) (dg_in d) x (dg_self d) (tcache d).
Definition set_tcache x d := MkDepgraph (await d) (dg_blocks d) (icache d) (dg_in d) (pending d) (dg_self d) x.

Definition actuallyIncluded (id : BlockID) (d : depgraph) : depgraph :=
  set_tcache (delete id (tcache d)) d.

Definition add (info : blockData) (d : depgraph) : depgraph := set_in (dg_in d ++ [info]) d.

(** The loop over the missing dependencies. *)
Definition await_add (id : BlockID) (m : gmap BlockID (list BlockID)) (dep : BlockID)
    : gmap BlockID (list BlockID) :=
  match m !! dep with
  | Some ids => if decide (id ∈ ids) then m else <[dep := ids ++ [id]]> m
  | None => <[dep := [id]]> m
  end.

Definition addPending (block : blockData) (deps : list BlockID) (d : depgraph) : depgraph :=
  let d := set_pending (<[bd_id block := block]> (pending d)) d in
  set_await (foldl (await_add (bd_id block)) (await d) deps) d.

(** [SignedData.Size]. *)
Definition Size (s : SignedData) : goint :=
  Z.of_nat (length (Data s)) + Z.of_nat (length (Signature s)) + 100.

(** The number of leading blocks whose references fit the limit. *)
Fixpoint fitting (blocks : list blockData) (total limit : goint) : nat :=
  match blocks with
  | [] => O
  | block :: blocks =>
      let total := total + Size (bd_ref block) in
      if decide (total > limit) then O else S (fitting blocks total limit)
  end.

Definition dg_getBlocks (limit : goint) (d : depgraph) : list blockData * depgraph :=
  let idx := fitting (dg_blocks d) 0 limit in
  (take idx (dg_blocks d), set_blocks (drop idx (dg_blocks d)) d).

Definition markIncluded (id : BlockID) (d : depgraph) : depgraph :=
  set_tcache (<[id := true]> (tcache d)) (set_icache (<[id := true]> (icache d)) d).

Section store.
Context (stored : BlockID -> go bool).

Definition dg_isIncluded (id : BlockID) (d : depgraph) : go (bool * depgraph) :=
  match tcache d !! id with
  | Some inc => Ret (inc, d)
  | None =>
      match icache d !! id with
      | Some inc => Ret (inc, d)
      | None =>
          match stored id with
          | Ret inc => Ret (inc, set_icache (<[id := inc]> (icache d)) d)
          | _ => Crash
          end
      end
  end.

(** The dependencies of the list that have not been included. *)
Fixpoint missingDeps (ids : list BlockID) (d : depgraph) : go (list BlockID * depgraph) :=
  match ids with
  | [] => Ret ([], d)
  | id :: ids =>
      '(inc, d) ← dg_isIncluded id d;
      '(deps, d) ← missingDeps ids d;
      Ret (if inc : bool then deps else id :: deps, d)
  end.

(** The blocks that must be included before a block. *)
Definition needs (self : uint64) (block : blockData) : list BlockID :=
  (if Valid (bd_prev block) then [bd_prev block] else []) ++
  filter (fun dep => Node dep <> self) (bd_deps block).

Definition processBlock (block : blockData) (d : depgraph) : go (bool * depgraph) :=
  '(inc, d) ← dg_isIncluded (bd_id block) d;
  if inc : bool then Ret (true, d) else
  '(deps, d) ← missingDeps (needs (dg_self d) block) d;
  match deps with
  | _ :: _ => Ret (false, addPending block deps d)
  | [] =>
      let d := markIncluded (bd_id block) d in
      Ret (true, set_blocks (dg_blocks d ++ [block]) d)
  end.

(** The loop over [d.await[next]]; a revdep that is not pending would be a nil
    dereference. *)
Fixpoint revdeps_loop (revdeps : list BlockID) (d : depgraph) (processed : list BlockID)
    (seen : gset BlockID) : go (depgraph * list BlockID * gset BlockID) :=
  match revdeps with
  | [] => Ret (d, processed, seen)
  | revdep :: revdeps =>
      if decide (revdep ∈ seen) then revdeps_loop revdeps d processed seen else
      block ← or_crash (pending d !! revdep);
      '(ok, d) ← processBlock block d;
      if ok : bool then revdeps_loop revdeps d (processed ++ [revdep]) ∅
      else revdeps_loop revdeps d processed ({[revdep]} ∪ seen)
  end.

(** [for len(processed) > 0]. *)
Fixpoint cascade (fuel : nat) (first : bool) (processed : list BlockID) (seen : gset BlockID)
    (d : depgraph) : go depgraph :=
  match processed with
  | [] => Ret d
  | next :: processed =>
      match fuel with
      | O => Crash
      | S fuel =>
          '(d, processed, seen) ← revdeps_loop (default [] (await d !! next)) d processed seen;
          let d := set_await (delete next (await d)) d in
          let d := if first then d else set_pending (delete next (pending d)) d in
          cascade fuel false processed seen d
      end
  end.

(** Every iteration drops an await list, and queues at most its elements. *)
Definition await_size (m : gmap BlockID (list BlockID)) : nat :=
  sum_list_with (fun kv => length kv.2) (map_to_list m).

Definition handleBlock (info : blockData) (d : depgraph) : go depgraph :=
  '(ok, d) ← processBlock info d;
  if ok : bool
  then cascade (S (await_size (await d))) true [bd_id info] {[bd_id info]} d
  else Ret d.

(** One iteration of [process] on a waiting block. *)
Definition process_step (d : depgraph) : go depgraph :=
  match dg_in d with
  | [] => Ret d
  | info :: rest => handleBlock info (set_in rest d)
  end.
End store.

(** Every hundredth iteration, at most 1000 entries of a larger [icache] are
    kept, in the order of the map. *)
Definition prune_icache (d : depgraph) : depgraph :=
  if decide (Z.of_nat (size (icache d)) > 1000)
  then set_icache (list_to_map (take 1000 (map_to_list (icache d)))) d else d.

(** ** [cache.go] *)

Record ownBlocks := MkOwnBlocks { ob_data : gmap uint64 SignedData; ob_latest : uint64 }.

Definition ob_get (round : uint64) (o : ownBlocks) : option SignedData := ob_data o !! round.

Definition ob_prune (size : goint) (o : ownBlocks) : ownBlocks :=
  if decide (Z.of_nat (base.size (ob_data o)) <= size) then o else
  let limit := u64 (ob_latest o - u64 size) in
  MkOwnBlocks (filter (fun kv => kv.1 >= limit) (ob_data o)) (ob_latest o).

Definition ob_set (round : uint64) (block : SignedData) (o : ownBlocks) : ownBlocks :=
  MkOwnBlocks (<[round := block]> (ob_data o)) round.

Abbreviation receivedMap := (gmap uint64 receivedInfo).

Definition rm_get (nodeID : uint64) (r : receivedMap) : receivedInfo :=
  default (MkReceivedInfo 0 0) (r !! nodeID).

Definition rm_set (nodeID round : uint64) (r : receivedMap) : receivedMap :=
  let info := rm_get nodeID r in
  let info := if decide (latest info < round) then MkReceivedInfo round (sequence info) else info in
  let info := if decide (u64 (sequence info + 1) = round)
              then MkReceivedInfo (latest info) round else info in
  <[nodeID := info]> r.

Definition rm_setSequence (nodeID round : uint64) (r : receivedMap) : receivedMap :=
  <[nodeID := MkReceivedInfo (latest (rm_get nodeID r)) round]> r.
