(* ===== verification/DepgraphProps.v ===== *)
(** * DepgraphProps: blocks are included once and after their dependencies

    The loop of [process] never dereferences a missing entry, ends, queues a
    block only when everything it refers to has been included, queues it once,
    and leaves no block waiting whose dependencies are all there. *)
From S2P Require Import Prelude Messages BroadcastStore Depgraph.

(** The blocks waiting for [x]. *)
Definition aw (d : depgraph) (x : BlockID) : list BlockID := default [] (await d !! x).

Section depgraph.
(** The IDs marked as included in the store now, the ones that were when the
    process started, the blocks handed out since, and the block of each ID. *)
Context (st st0 : gset BlockID) (taken : list blockData) (content : BlockID -> blockData).

Definition answer (id : BlockID) : go bool := Ret (bool_decide (id ∈ st)).

(** The block has been included. *)
Definition inc (d : depgraph) (id : BlockID) : Prop := tcache d !! id = Some true \/ id ∈ st.
#[export] Instance inc_dec d id : Decision (inc d id).
Proof. unfold inc. apply _. Defined.

(** The caches tell the truth. *)
Definition coherent (d : depgraph) : Prop :=
  map_Forall (fun _ b => b = true) (tcache d) /\
  map_Forall (fun id b => b = true <-> inc d id) (icache d).

(** Everything queued since the start. *)
Definition history (d : depgraph) : list blockData := taken ++ dg_blocks d.

Record history_ok (d : depgraph) : Prop := {
  hi_inc : forall x, inc d x <-> x ∈ st0 \/ x ∈ bd_id <$> history d;
  hi_new : forall x, x ∈ bd_id <$> history d -> x ∉ st0;
  hi_NoDup : NoDup (bd_id <$> history d);
  hi_order : forall pre b post, history d = pre ++ b :: post ->
    forall x, x ∈ needs (dg_self d) b -> x ∈ st0 \/ x ∈ bd_id <$> pre
}.

(** ** Asking for inclusion *)

Lemma set_icache_twice x y d : set_icache x (set_icache y d) = set_icache x d.
Proof. done. Qed.

Lemma dg_isIncluded_spec id d : coherent d -> exists c,
  dg_isIncluded answer id d = Ret (bool_decide (inc d id), set_icache c d) /\ coherent (set_icache c d).
Proof.
  intros Hc. pose proof Hc as [Ht Hi]. unfold dg_isIncluded.
  destruct (tcache d !! id) as [b|] eqn:Et.
  { exists (icache d). specialize (Ht _ _ Et) as ->. rewrite bool_decide_true by (by left).
    by destruct d. }
  destruct (icache d !! id) as [b|] eqn:Ei.
  { exists (icache d). specialize (Hi _ _ Ei). simpl in Hi.
    assert (b = bool_decide (inc d id)) as <-; [|by destruct d].
    symmetry. destruct b; [apply bool_decide_true; tauto|]. apply bool_decide_false. naive_solver. }
  unfold answer. exists (<[id := bool_decide (id ∈ st)]> (icache d)).
  assert (bool_decide (id ∈ st) = true <-> inc d id) as Hst.
  { rewrite bool_decide_eq_true. unfold inc. rewrite Et. naive_solver. }
  assert (bool_decide (id ∈ st) = bool_decide (inc d id)) as ->.
  { apply bool_decide_ext. rewrite <-Hst. by rewrite bool_decide_eq_true. }
  split; [done|]. split; [done|]. apply map_Forall_insert_2; [|done]. simpl.
  by rewrite bool_decide_eq_true.
Qed.

Lemma missingDeps_spec ids d : coherent d -> exists c,
  missingDeps answer ids d = Ret (filter (fun id => ~ inc d id) ids, set_icache c d) /\
  coherent (set_icache c d).
Proof.
  revert d. induction ids as [|id ids IH]; intros d Hc; simpl.
  { exists (icache d). by destruct d. }
  destruct (dg_isIncluded_spec id d Hc) as (c & -> & Hc1). cbn [mbind go_bind].
  destruct (IH _ Hc1) as (c2 & -> & Hc2). cbn [mbind go_bind].
  exists c2. rewrite set_icache_twice in *. split; [|done].
  change (inc (set_icache c d)) with (inc d). rewrite filter_cons.
  case_bool_decide; [by rewrite decide_False by tauto|by rewrite decide_True].
Qed.

Definition lacking (d : depgraph) (b : blockData) : list BlockID :=
  filter (fun id => ~ inc d id) (needs (dg_self d) b).

(** The three outcomes of [processBlock]. *)
Lemma processBlock_spec b d : coherent d -> exists c, coherent (set_icache c d) /\
  processBlock answer b d =
    Ret (if decide (inc d (bd_id b)) then (true, set_icache c d)
         else if decide (lacking d b = [])
         then (true, set_blocks (dg_blocks d ++ [b]) (markIncluded (bd_id b) (set_icache c d)))
         else (false, addPending b (lacking d b) (set_icache c d))).
Proof.
  intros Hc. unfold processBlock. destruct (dg_isIncluded_spec (bd_id b) d Hc) as (c & -> & Hc1).
  cbn [mbind go_bind]. case_bool_decide as Hi; [exists c; by rewrite decide_True|].
  destruct (missingDeps_spec (needs (dg_self d) b) _ Hc1) as (c2 & Hm & Hc2).
  rewrite set_icache_twice in *. exists c2. split; [done|]. rewrite decide_False by done.
  change (dg_self (set_icache c d)) with (dg_self d). rewrite Hm. cbn [mbind go_bind].
  change (filter _ _) with (lacking d b).
  destruct (decide (lacking d b = [])) as [->|Hne]; [done|]. by destruct (lacking d b).
Qed.

(** ** The invariant of the loop, [Q] being the queue [processed] *)

Record dg_inv (d : depgraph) (Q : list BlockID) : Prop := {
  iv_coh : coherent d;
  iv_hist : history_ok d;
  iv_pid : forall id b, pending d !! id = Some b -> b = content id /\ bd_id b = id;
  iv_await : forall x id, id ∈ aw d x ->
    exists b, pending d !! id = Some b /\ x ∈ needs (dg_self d) b;
  iv_clear : forall x id, id ∈ aw d x -> inc d x -> x ∈ Q;
  iv_queue : forall y, y ∈ Q -> inc d y;
  iv_wait : forall id b x, pending d !! id = Some b -> ~ inc d id ->
    x ∈ needs (dg_self d) b -> ~ inc d x -> id ∈ aw d x;
  iv_done : forall id b, pending d !! id = Some b -> inc d id ->
    id ∈ Q /\ forall x, x ∈ needs (dg_self d) b -> inc d x;
  iv_order : forall pre y post x, Q = pre ++ y :: post -> y ∈ aw d x -> x ∈ pre
}.

(** The block lacks a dependency. *)
Definition blocked (d : depgraph) (b : blockData) : Prop :=
  exists x, x ∈ needs (dg_self d) b /\ ~ inc d x.

(** A block still waiting lacks a dependency, or will be looked at again: it
    waits for a queued block, or is in [rest]. *)
Definition progress (d : depgraph) (P : BlockID -> Prop) (rest : list BlockID) : Prop :=
  forall id b, pending d !! id = Some b -> ~ inc d id ->
    blocked d b \/ (exists x, P x /\ id ∈ aw d x) \/ id ∈ rest.

Definition seen_ok (d : depgraph) (seen : gset BlockID) : Prop :=
  forall id b, id ∈ seen -> pending d !! id = Some b -> ~ inc d id -> blocked d b.

Lemma lacking_blocked d b : lacking d b <> [] -> blocked d b.
Proof.
  unfold lacking. destruct (filter _ _) as [|x l] eqn:E; [done|]. intros _. exists x.
  assert (x ∈ x :: l) as Hx by left. rewrite <-E in Hx. apply list_elem_of_filter in Hx. tauto.
Qed.

Lemma lacking_nil d b : lacking d b = [] <-> ~ blocked d b.
Proof.
  unfold lacking, blocked. split.
  - intros Hl (x & Hx & Hn). assert (x ∈ lacking d b) as Hin by (by apply list_elem_of_filter).
    unfold lacking in Hin. rewrite Hl in Hin. by apply not_elem_of_nil in Hin.
  - intros Hb. destruct (decide (lacking d b = [])) as [|Hl]; [done|]. by destruct (Hb (lacking_blocked d b Hl)).
Qed.

Lemma dg_inv_icache c d Q : dg_inv d Q -> coherent (set_icache c d) -> dg_inv (set_icache c d) Q.
Proof. intros [] Hc. by constructor; [|destruct iv_hist0; constructor|..]. Qed.

(** ** Marking a block as included *)

Definition included_with (b : blockData) (d : depgraph) : depgraph :=
  set_blocks (dg_blocks d ++ [b]) (markIncluded (bd_id b) d).

Lemma inc_included_with b d x : inc (included_with b d) x <-> x = bd_id b \/ inc d x.
Proof.
  unfold inc, included_with. simpl. destruct (decide (x = bd_id b)) as [->|].
  - rewrite lookup_insert_eq. naive_solver.
  - rewrite lookup_insert_ne by done. naive_solver.
Qed.

Lemma coherent_included_with b d : coherent d -> coherent (included_with b d).
Proof.
  intros [Ht Hi]. split; simpl.
  - by apply map_Forall_insert_2.
  - intros id v. simpl. rewrite lookup_insert_Some. intros [[<- <-]|[Hne Hl]].
    + rewrite inc_included_with. tauto.
    + specialize (Hi _ _ Hl). simpl in Hi. rewrite inc_included_with, Hi. naive_solver.
Qed.

Lemma history_included_with b d : history_ok d -> ~ inc d (bd_id b) -> ~ blocked d b ->
  history_ok (included_with b d).
Proof.
  intros [Hinc Hnew Hnd Hord] Hn Hb.
  assert (history (included_with b d) = history d ++ [b]) as Hh
    by (unfold history, included_with; simpl; by rewrite app_assoc).
  constructor; rewrite ?Hh.
  - intros x. rewrite inc_included_with, fmap_app, elem_of_app, Hinc. simpl.
    rewrite list_elem_of_singleton. tauto.
  - intros x. rewrite fmap_app, elem_of_app. simpl. rewrite list_elem_of_singleton.
    intros [?| ->]; [auto|]. intros Hs. apply Hn, Hinc. by left.
  - rewrite fmap_app. apply NoDup_app. split_and!; [done| |apply NoDup_singleton].
    intros x Hx. simpl. rewrite list_elem_of_singleton. intros ->. apply Hn, Hinc. by right.
  - intros pre b' post Heq x Hx. change (dg_self (included_with b d)) with (dg_self d) in Hx.
    destruct post as [|p post] using rev_ind; [|clear IHpost].
    + apply app_inj_tail in Heq as [<- <-]. apply Hinc. destruct (decide (inc d x)); [done|].
      exfalso. apply Hb. by exists x.
    + rewrite app_comm_cons, app_assoc in Heq. apply app_inj_tail in Heq as [Heq _].
      by eapply Hord.
Qed.

Lemma blocked_mono b d b' : blocked (included_with b d) b' -> blocked d b'.
Proof. intros (x & Hx & Hn). exists x. split; [done|]. rewrite inc_included_with in Hn. tauto. Qed.

(** Including a block that waits for [next] keeps the invariant, with the block
    at the end of the queue. *)
Lemma included_with_inv b d next Q : dg_inv d (next :: Q) ->
  pending d !! bd_id b = Some b -> ~ inc d (bd_id b) -> ~ blocked d b ->
  dg_inv (included_with b d) (next :: Q ++ [bd_id b]).
Proof.
  intros [Hc Hh Hpid Haw Hcl Hqu Hw Hd Ho] Hp Hn Hb.
  constructor; try change (aw (included_with b d)) with (aw d);
    change (pending (included_with b d)) with (pending d);
    change (dg_self (included_with b d)) with (dg_self d).
  - by apply coherent_included_with.
  - by apply history_included_with.
  - done.
  - done.
  - intros x id Hid Hx. rewrite app_comm_cons, elem_of_app, list_elem_of_singleton.
    apply inc_included_with in Hx as [->|Hx]; [by right|]. left. by eapply Hcl.
  - intros y. rewrite app_comm_cons, elem_of_app, list_elem_of_singleton, inc_included_with.
    intros [?| ->]; [right; auto|by left].
  - intros id b' x Hid Hni Hx Hnx. rewrite inc_included_with in Hni, Hnx.
    apply (Hw id b'); tauto.
  - intros id b' Hid Hi. rewrite app_comm_cons, elem_of_app, list_elem_of_singleton.
    apply inc_included_with in Hi as [->|Hi].
    + rewrite Hp in Hid. injection Hid as <-. split; [by right|]. intros x Hx.
      rewrite inc_included_with. right. destruct (decide (inc d x)); [done|].
      exfalso. apply Hb. by exists x.
    + destruct (Hd _ _ Hid Hi) as [? Hall]. split; [by left|]. intros x Hx.
      rewrite inc_included_with. auto.
  - intros pre y post x Heq Hy. destruct post as [|p post] using rev_ind; [|clear IHpost].
    + rewrite app_comm_cons in Heq. apply app_inj_tail in Heq as [<- <-].
      destruct (Haw _ _ Hy) as (b' & Hp' & Hx). rewrite Hp in Hp'. injection Hp' as <-.
      eapply Hcl; [done|]. destruct (decide (inc d x)); [done|]. exfalso. apply Hb. by exists x.
    + change ((next :: Q) ++ [bd_id b] = pre ++ (y :: post) ++ [p]) in Heq. rewrite app_assoc in Heq.
      apply app_inj_tail in Heq as [Heq _]. by eapply Ho.
Qed.

(** A block that waits already stays where it is. *)
Lemma addPending_idle b deps d : pending d !! bd_id b = Some b ->
  (forall x, x ∈ deps -> bd_id b ∈ aw d x) -> addPending b deps d = d.
Proof.
  intros Hp Hd. unfold addPending. rewrite insert_id by done.
  assert (foldl (await_add (bd_id b)) (await d) deps = await d) as Hf.
  { induction deps as [|x deps IH]; [done|]. simpl.
    assert (await_add (bd_id b) (await d) x = await d) as ->.
    { unfold await_add. specialize (Hd x ltac:(left)). unfold aw in Hd.
      destruct (await d !! x); simpl in Hd; [by rewrite decide_True|by apply not_elem_of_nil in Hd]. }
    apply IH. intros y Hy. apply Hd. by right. }
  simpl. rewrite Hf. by destruct d.
Qed.

(** A queued block may be queued again. *)
Lemma requeue_inv d next Q id : dg_inv d (next :: Q) -> id ∈ next :: Q ->
  (forall b, pending d !! id = Some b -> inc d id) -> dg_inv d (next :: Q ++ [id]).
Proof.
  intros [Hc Hh Hpid Haw Hcl Hqu Hw Hd Ho] Hid Hp. constructor; try done.
  - intros x y Hy Hx. rewrite app_comm_cons, elem_of_app. left. by eapply Hcl.
  - intros y. rewrite app_comm_cons, elem_of_app, list_elem_of_singleton. intros [?| ->]; auto.
  - intros y b Hy Hi. destruct (Hd _ _ Hy Hi). split; [|done]. rewrite app_comm_cons, elem_of_app. by left.
  - intros pre y post x Heq Hy. destruct post as [|p post] using rev_ind; [|clear IHpost].
    + rewrite app_comm_cons in Heq. apply app_inj_tail in Heq as [<- <-].
      destruct (Haw _ _ Hy) as (b & Hb & Hx). eapply Hcl; [done|].
      eapply Hd; [done|by eapply Hp|done].
    + change ((next :: Q) ++ [id] = pre ++ (y :: post) ++ [p]) in Heq. rewrite app_assoc in Heq.
      apply app_inj_tail in Heq as [Heq _]. by eapply Ho.
Qed.

(** What the loop over the reverse dependencies of [next] keeps. *)
Record loop_ok (d : depgraph) (next : BlockID) (Q : list BlockID) (seen : gset BlockID)
    (rest : list BlockID) : Prop := {
  lo_inv : dg_inv d (next :: Q);
  lo_prog : progress d (fun x => x ∈ Q /\ x <> next) rest;
  lo_seen : seen_ok d seen;
  lo_rest : forall r, r ∈ rest -> r ∈ aw d next
}.

Lemma loop_skip d next Q seen r rest : loop_ok d next Q seen (r :: rest) ->
  (forall b, pending d !! r = Some b -> inc d r \/ blocked d b) -> loop_ok d next Q seen rest.
Proof.
  intros [Hinv Hprog Hseen Hrest] Hr. constructor; try done.
  - intros id b Hid Hn. destruct (Hprog id b Hid Hn) as [?|[?|[->|?]%elem_of_cons]]; eauto.
    destruct (Hr _ Hid); [done|by left].
  - intros x Hx. apply Hrest. by right.
Qed.

(** The three ways in which the loop deals with a block not yet seen: it was
    included before, it is included now, or it still waits. *)
Lemma loop_again d next Q seen r b rest c : loop_ok d next Q seen (r :: rest) ->
  pending d !! r = Some b -> inc d r -> coherent (set_icache c d) ->
  loop_ok (set_icache c d) next (Q ++ [r]) ∅ rest.
Proof.
  intros [Hinv Hprog Hseen Hrest] Hb Hi Hc1. destruct (iv_done _ _ Hinv _ _ Hb Hi) as [HrQ _].
  apply (loop_skip _ _ _ _ r); [|by left]. constructor; [| |by intros id b' []%not_elem_of_empty|done].
  - apply dg_inv_icache; [|done]. by apply requeue_inv.
  - intros id b' Hid Hn. destruct (Hprog id b' Hid Hn) as [?|[(x & [? ?] & ?)|?]]; [by left| |by right; right].
    right; left. exists x. split; [split; [apply elem_of_app; by left|done]|done].
Qed.

Lemma loop_include d next Q seen b rest c : loop_ok d next Q seen (bd_id b :: rest) ->
  pending d !! bd_id b = Some b -> ~ inc d (bd_id b) -> ~ blocked d b -> coherent (set_icache c d) ->
  loop_ok (included_with b (set_icache c d)) next (Q ++ [bd_id b]) ∅ rest.
Proof.
  intros [Hinv Hprog Hseen Hrest] Hb Hi Hlack Hc1.
  assert (next <> bd_id b) as Hne by (intros ->; apply Hi, (iv_queue _ _ Hinv); left).
  apply (loop_skip _ _ _ _ (bd_id b)); [|intros b' _; left; rewrite inc_included_with; by left].
  constructor; [apply included_with_inv; [by apply dg_inv_icache|done..]| |
    by intros id b' []%not_elem_of_empty|done].
  intros id b' Hid Hn. rewrite inc_included_with in Hn.
  destruct (Hprog id b' Hid ltac:(tauto)) as [(x & Hx & Hnx)|[(x & [? ?] & ?)|?]]; [| |by right; right].
  - destruct (decide (x = bd_id b)) as [->|Hxr].
    + right; left. exists (bd_id b). split; [split; [apply elem_of_app; right; left|done]|].
      apply (iv_wait _ _ Hinv id b'); [done|tauto|done|done].
    + left. exists x. split; [done|]. rewrite inc_included_with. tauto.
  - right; left. exists x. split; [split; [apply elem_of_app; by left|done]|done].
Qed.

Lemma loop_wait d next Q seen r b rest c : loop_ok d next Q seen (r :: rest) ->
  pending d !! r = Some b -> blocked d b -> coherent (set_icache c d) ->
  loop_ok (set_icache c d) next Q ({[r]} ∪ seen) rest.
Proof.
  intros [Hinv Hprog Hseen Hrest] Hb Hbl Hc1.
  assert (forall b', pending d !! r = Some b' -> blocked d b') as Hr by (intros b' Hb'; by simplify_map_eq).
  apply (loop_skip _ _ _ _ r); [|intros b' Hb'; right; by apply Hr].
  constructor; [by apply dg_inv_icache|done| |done].
  intros id b' [->%elem_of_singleton|Hs']%elem_of_union Hid Hn; [by apply Hr|by eapply Hseen].
Qed.

Lemma revdeps_loop_spec rest d next Q seen : loop_ok d next Q seen rest ->
  exists d' Q' seen', revdeps_loop answer rest d Q seen = Ret (d', Q', seen') /\
    loop_ok d' next Q' seen' [] /\ await d' = await d /\ pending d' = pending d /\
    dg_self d' = dg_self d /\ dg_in d' = dg_in d /\ (forall x, inc d x -> inc d' x) /\
    (length Q' <= length Q + length rest)%nat.
Proof.
  revert d Q seen. induction rest as [|r rest IH]; intros d Q seen Hok; simpl.
  { exists d, Q, seen. split_and!; [done|destruct Hok; by constructor|done..|lia]. }
  pose proof Hok as [Hinv Hprog Hseen Hrest]. pose proof Hinv as [Hc Hh Hpid Haw Hcl Hqu Hw Hd Ho].
  destruct (decide (r ∈ seen)) as [Hs|Hs].
  { destruct (IH d Q seen) as (d' & Q' & seen' & -> & ? & ? & ? & ? & ? & Hm & ?).
    { eapply loop_skip; [done|]. intros b Hb. destruct (decide (inc d r)); [by left|right]. eauto. }
    exists d', Q', seen'. split_and!; done || lia. }
  destruct (Haw next r (Hrest r ltac:(left))) as (b & Hb & Hneed). rewrite Hb. cbn [or_crash mbind go_bind].
  destruct (Hpid _ _ Hb) as [_ Hbid].
  destruct (processBlock_spec b d Hc) as (c & Hc1 & ->). cbn [mbind go_bind]. rewrite Hbid.
  destruct (decide (inc d r)) as [Hi|Hi].
  - (* included before *)
    destruct (IH (set_icache c d) (Q ++ [r]) ∅) as (d' & Q' & seen' & -> & ? & ? & ? & ? & ? & Hm & Hl);
      [by eapply loop_again|].
    rewrite length_app in Hl. exists d', Q', seen'. split_and!; done || (simpl in *; lia).
  - destruct (decide (lacking d b = [])) as [Hlack|Hlack].
    + (* included now *)
      rewrite lacking_nil in Hlack. subst r.
      change (set_blocks _ _) with (included_with b (set_icache c d)).
      destruct (IH (included_with b (set_icache c d)) (Q ++ [bd_id b]) ∅)
        as (d' & Q' & seen' & -> & ? & ? & ? & ? & ? & Hm & Hl); [by eapply loop_include|].
      rewrite length_app in Hl. exists d', Q', seen'. split_and!; try done; [|simpl in *; lia].
      intros x Hx. apply Hm, inc_included_with. by right.
    + (* still waiting *)
      rewrite addPending_idle; [|by rewrite Hbid|].
      2: { intros x Hx. rewrite Hbid. apply list_elem_of_filter in Hx as [Hnx Hx]. by apply (Hw r b). }
      destruct (IH (set_icache c d) Q ({[r]} ∪ seen)) as (d' & Q' & seen' & -> & ? & ? & ? & ? & ? & Hm & Hl).
      { eapply loop_wait; [done..|by apply lacking_blocked|done]. }
      exists d', Q', seen'. split_and!; done || (simpl in *; lia).
Qed.

(** ** The whole cascade *)

Lemma await_size_delete m x l : m !! x = Some l ->
  await_size m = (length l + await_size (delete x m))%nat.
Proof.
  intros Hl. unfold await_size. rewrite <-(map_to_list_delete m x l Hl). done.
Qed.

Lemma await_size_aw d x : await_size (await d) = (length (aw d x) + await_size (delete x (await d)))%nat.
Proof.
  unfold aw. destruct (await d !! x) as [l|] eqn:E; simpl; [by apply await_size_delete|].
  by rewrite delete_id.
Qed.

(** Dropping [next] from the queue, with its await list and its pending entry. *)
Definition dropped (first : bool) (next : BlockID) (d : depgraph) : depgraph :=
  let d := set_await (delete next (await d)) d in
  if first then d else set_pending (delete next (pending d)) d.

Lemma aw_dropped first next d x : aw (dropped first next d) x = if decide (x = next) then [] else aw d x.
Proof.
  unfold aw, dropped. destruct first; simpl; (destruct (decide (x = next)) as [->|];
    [by rewrite lookup_delete_eq|by rewrite lookup_delete_ne]).
Qed.

Lemma dropped_fields first next d :
  tcache (dropped first next d) = tcache d /\ icache (dropped first next d) = icache d /\
  dg_self (dropped first next d) = dg_self d /\ dg_blocks (dropped first next d) = dg_blocks d /\
  dg_in (dropped first next d) = dg_in d.
Proof. by destruct first. Qed.

Lemma pending_dropped first next d id b : (first = true -> pending d !! next = None) ->
  pending (dropped first next d) !! id = Some b <-> id <> next /\ pending d !! id = Some b.
Proof.
  intros Hf. unfold dropped. destruct first; simpl.
  - specialize (Hf eq_refl). split; [|tauto]. intros Hid. split; [|done]. intros ->. congruence.
  - rewrite lookup_delete_Some. naive_solver.
Qed.

Lemma inc_dropped first next d x : inc (dropped first next d) x <-> inc d x.
Proof. unfold inc. by destruct (dropped_fields first next d) as (-> & _). Qed.

Lemma dropped_inv first next d Q : dg_inv d (next :: Q) -> (first = true -> pending d !! next = None) ->
  dg_inv (dropped first next d) Q.
Proof.
  intros [Hc Hh Hpid Haw Hcl Hqu Hw Hd Ho] Hf.
  destruct (dropped_fields first next d) as (Ht & Hic & Hs & Hbl & _).
  assert (forall x, next ∉ aw d x) as Hnext.
  { intros x Hx. by apply (Ho [] next Q x eq_refl), not_elem_of_nil in Hx. }
  constructor.
  - unfold coherent, inc. rewrite Ht, Hic. apply Hc.
  - destruct Hh as [Hi Hn Hnd Hord]. unfold history in *.
    constructor; unfold history, inc; rewrite ?Ht, ?Hbl, ?Hs; done.
  - intros id b [_ Hid]%pending_dropped; [|done]. by apply Hpid.
  - intros x id. rewrite aw_dropped, Hs. case_decide as Hx; [by intros []%not_elem_of_nil|].
    intros Hid. destruct (Haw _ _ Hid) as (b & Hb & Hneed). exists b. split; [|done].
    apply pending_dropped; [done|]. split; [|done]. intros ->. by apply (Hnext x).
  - intros x id. rewrite aw_dropped, inc_dropped. case_decide as Hx; [by intros []%not_elem_of_nil|].
    intros Hid Hi. specialize (Hcl _ _ Hid Hi). by apply elem_of_cons in Hcl as [->|?].
  - intros y Hy. rewrite inc_dropped. apply Hqu. by right.
  - intros id b x [Hne Hid]%pending_dropped; [|done]. rewrite !inc_dropped, Hs, aw_dropped.
    intros Hn Hx Hnx. rewrite decide_False; [by eapply Hw|]. intros ->. apply Hnx, Hqu. left.
  - intros id b [Hne Hid]%pending_dropped; [|done]. rewrite inc_dropped, Hs. intros Hi.
    destruct (Hd _ _ Hid Hi) as [[->|Hq]%elem_of_cons Hall]; [done|]. split; [done|].
    intros x Hx. rewrite inc_dropped. auto.
  - intros pre y post x -> . rewrite aw_dropped. case_decide as Hx; [by intros []%not_elem_of_nil|].
    intros Hy. specialize (Ho (next :: pre) y post x eq_refl Hy). by apply elem_of_cons in Ho as [->|?].
Qed.

Lemma blocked_dropped first next d b : blocked (dropped first next d) b <-> blocked d b.
Proof.
  unfold blocked. destruct (dropped_fields first next d) as (_ & _ & -> & _).
  by setoid_rewrite inc_dropped.
Qed.

(** The state between two iterations of the outer loop. *)
Definition dg_ok (d : depgraph) : Prop := dg_inv d [] /\ progress d (fun _ => False) [].

Lemma cascade_spec fuel first Q seen d :
  (length Q + await_size (await d) <= fuel)%nat -> dg_inv d Q -> progress d (fun x => x ∈ Q) [] ->
  seen_ok d seen -> (first = true -> exists next, Q = [next] /\ pending d !! next = None) ->
  exists d', cascade answer fuel first Q seen d = Ret d' /\ dg_ok d' /\
    dg_self d' = dg_self d /\ dg_in d' = dg_in d /\ forall x, inc d x -> inc d' x.
Proof.
  revert first Q seen d. induction fuel as [|fuel IH]; intros first Q seen d Hfuel Hinv Hprog Hseen Hfirst.
  { destruct Q; [|simpl in Hfuel; lia]. exists d. split_and!; [done| |done..]. split; [done|].
    intros id b Hid Hn. destruct (Hprog id b Hid Hn) as [?|[(x & []%not_elem_of_nil & _)|?]]; auto. }
  destruct Q as [|next Q].
  { exists d. split_and!; [done| |done..]. split; [done|].
    intros id b Hid Hn. destruct (Hprog id b Hid Hn) as [?|[(x & []%not_elem_of_nil & _)|?]]; auto. }
  cbn [cascade]. fold (aw d next).
  destruct (revdeps_loop_spec (aw d next) d next Q seen)
    as (d1 & Q1 & seen1 & -> & [Hinv1 Hprog1 Hseen1 _] & Haw1 & Hp1 & Hs1 & Hin1 & Hm1 & Hl1).
  { constructor; [done| |done|done]. intros id b Hid Hn.
    destruct (Hprog id b Hid Hn) as [?|[(x & Hx & Hw)|[]%not_elem_of_nil]]; [by left|].
    destruct (decide (x = next)) as [->|]; [by right; right|].
    apply elem_of_cons in Hx as [->|Hx]; [by right; right|]. right; left. by exists x. }
  cbn [mbind go_bind]. change (if first then _ else _) with (dropped first next d1).
  assert (first = true -> pending d1 !! next = None) as Hf1.
  { intros ->. rewrite Hp1. by destruct (Hfirst eq_refl) as (? & [= -> ->] & ?). }
  assert (await (dropped first next d1) = delete next (await d)) as Hawd
    by (unfold dropped; destruct first; simpl; by rewrite Haw1).
  destruct (IH false Q1 seen1 (dropped first next d1)) as (d' & -> & Hok & Hs & Hin & Hinc).
  - rewrite Hawd. rewrite (await_size_aw d next) in Hfuel. simpl in Hfuel. lia.
  - by apply dropped_inv.
  - intros id b [Hne Hid]%pending_dropped Hn; [|done]. rewrite inc_dropped in Hn. rewrite blocked_dropped.
    destruct (Hprog1 id b Hid Hn) as [?|[(x & [Hx Hxn] & Hw)|?]]; [by left| |by right; right].
    right; left. exists x. split; [done|]. by rewrite aw_dropped, decide_False.
  - intros id b Hsn [Hne Hid]%pending_dropped Hn; [|done]. rewrite blocked_dropped.
    rewrite inc_dropped in Hn. by eapply Hseen1.
  - done.
  - exists d'. destruct (dropped_fields first next d1) as (_ & _ & Hsd & _ & Hind).
    split_and!; [done..|congruence|congruence|]. intros x Hx. apply Hinc, inc_dropped. auto.
Qed.

(** ** One block *)

Lemma elem_of_await_add id m deps x y :
  y ∈ default [] (foldl (await_add id) m deps !! x) <->
  y ∈ default [] (m !! x) \/ (y = id /\ x ∈ deps).
Proof.
  revert m. induction deps as [|dep deps IH]; intros m; simpl.
  { rewrite elem_of_nil. tauto. }
  rewrite IH. clear IH. rewrite elem_of_cons. unfold await_add.
  destruct (m !! dep) as [ids|] eqn:E.
  - case_decide as Hin.
    + split; [tauto|]. intros [?|[-> [->|?]]]; [tauto| |tauto]. left. by rewrite E.
    + destruct (decide (x = dep)) as [->|].
      * rewrite lookup_insert_eq, E. simpl. rewrite elem_of_app, list_elem_of_singleton. tauto.
      * rewrite lookup_insert_ne by done. tauto.
  - destruct (decide (x = dep)) as [->|].
    + rewrite lookup_insert_eq, E. simpl. rewrite list_elem_of_singleton, elem_of_nil. tauto.
    + rewrite lookup_insert_ne by done. tauto.
Qed.

Lemma aw_addPending b deps d x y :
  y ∈ aw (addPending b deps d) x <-> y ∈ aw d x \/ (y = bd_id b /\ x ∈ deps).
Proof. apply elem_of_await_add. Qed.

(** A block that lacks a dependency starts to wait. *)
Lemma addPending_ok b d : dg_ok d -> b = content (bd_id b) -> ~ inc d (bd_id b) -> blocked d b ->
  dg_ok (addPending b (lacking d b) d).
Proof.
  intros [[Hc Hh Hpid Haw Hcl Hqu Hw Hd Ho] Hprog] Hcon Hn Hb.
  assert (forall id b', pending (addPending b (lacking d b) d) !! id = Some b' ->
            id = bd_id b /\ b' = b \/ id <> bd_id b /\ pending d !! id = Some b') as Hpend.
  { intros id b'. simpl. rewrite lookup_insert_Some. naive_solver. }
  assert (forall x, x ∈ lacking d b <-> x ∈ needs (dg_self d) b /\ ~ inc d x) as Hlack.
  { intros x. unfold lacking. rewrite list_elem_of_filter. tauto. }
  split; [constructor|].
  - done.
  - by destruct Hh; constructor.
  - intros id b' [[-> ->]|[_ Hid]]%Hpend; [done|by apply Hpid].
  - intros x id [Hid|[-> Hx]]%aw_addPending.
    + destruct (Haw _ _ Hid) as (b' & Hb' & Hx). simpl.
      destruct (decide (id = bd_id b)) as [->|Hne].
      * destruct (Hpid _ _ Hb') as [-> _]. rewrite <-Hcon in *. exists b. by rewrite lookup_insert_eq.
      * exists b'. by rewrite lookup_insert_ne.
    + exists b. simpl. rewrite lookup_insert_eq. split; [done|]. by apply Hlack.
  - intros x id [Hid|[-> Hx]]%aw_addPending Hi; [by eapply Hcl|]. by apply Hlack in Hx as [_ []].
  - intros y []%not_elem_of_nil.
  - intros id b' x [[-> ->]|[_ Hid]]%Hpend Hni Hx Hnx; apply aw_addPending.
    + right. split; [done|]. by apply Hlack.
    + left. by eapply Hw.
  - intros id b' [[-> ->]|[_ Hid]]%Hpend Hi; [done|by eapply Hd].
  - intros [|? pre] y post x Heq; done.
  - intros id b' [[-> ->]|[_ Hid]]%Hpend Hni; [by left|]. 
    destruct (Hprog id b' Hid Hni) as [?|[(? & [] & _)|[]%not_elem_of_nil]]. by left.
Qed.

Lemma dg_ok_icache c d : dg_ok d -> coherent (set_icache c d) -> dg_ok (set_icache c d).
Proof. intros [Hi Hp] Hc. split; [by apply dg_inv_icache|done]. Qed.

(** An included block is not waiting. *)
Lemma dg_ok_pending d id b : dg_ok d -> pending d !! id = Some b -> ~ inc d id /\ blocked d b.
Proof.
  intros [[Hc Hh Hpid Haw Hcl Hqu Hw Hd Ho] Hprog] Hid.
  assert (~ inc d id) as Hn. { intros Hi. by destruct (Hd _ _ Hid Hi) as [[]%not_elem_of_nil _]. }
  split; [done|]. by destruct (Hprog id b Hid Hn) as [?|[(? & [] & _)|[]%not_elem_of_nil]].
Qed.

(** The queue with only the new block. *)
Lemma start_inv d id : dg_inv d [] -> inc d id -> pending d !! id = None -> dg_inv d [id].
Proof.
  intros [Hc Hh Hpid Haw Hcl Hqu Hw Hd Ho] Hi Hp. constructor; try done.
  - intros x y Hy Hx. by apply (Hcl x y), not_elem_of_nil in Hy.
  - intros y ->%list_elem_of_singleton. done.
  - intros y b Hy Hyi. by destruct (Hd _ _ Hy Hyi) as [[]%not_elem_of_nil _].
  - intros [|? [|? pre]] y post x [=]; subst. intros Hy.
    destruct (Haw _ _ Hy) as (b & Hb & _). congruence.
Qed.


Lemma include_first b d : dg_ok d -> pending d !! bd_id b = None -> ~ inc d (bd_id b) -> ~ blocked d b ->
  dg_inv (included_with b d) [bd_id b] /\ progress (included_with b d) (fun x => x ∈ [bd_id b]) [].
Proof.
  intros Hok Hp Hn Hb. pose proof Hok as [[Hc Hh Hpid Haw Hcl Hqu Hw Hd Ho] _].
  split; [constructor|].
  - by apply coherent_included_with.
  - by apply history_included_with.
  - done.
  - done.
  - intros x id Hid [->|Hx]%inc_included_with; [left|]. by apply (Hcl x id), not_elem_of_nil in Hid.
  - intros y ->%list_elem_of_singleton. apply inc_included_with. by left.
  - intros id b' x Hid Hni Hx Hnx. rewrite inc_included_with in Hni, Hnx. apply (Hw id b'); tauto.
  - intros id b' Hid [->|Hi]%inc_included_with.
    + change (pending d !! bd_id b = Some b') in Hid. congruence.
    + by destruct (Hd _ _ Hid Hi) as [[]%not_elem_of_nil _].
  - intros [|? [|? pre]] y post x [=]; subst. intros Hy.
    destruct (Haw _ _ Hy) as (b' & Hb' & _). congruence.
  - intros id b' Hid Hni. change (pending d !! id = Some b') in Hid. rewrite inc_included_with in Hni.
    destruct (dg_ok_pending d id b' Hok Hid) as [Hi (x & Hx & Hnx)].
    destruct (decide (x = bd_id b)) as [->|Hne].
    + right; left. exists (bd_id b). split; [left|]. by apply (Hw id b').
    + left. exists x. split; [done|]. rewrite inc_included_with. tauto.
Qed.

Lemma handleBlock_spec info d : dg_ok d -> info = content (bd_id info) ->
  exists d', handleBlock answer info d = Ret d' /\ dg_ok d' /\
    dg_self d' = dg_self d /\ dg_in d' = dg_in d /\
    (inc d' (bd_id info) \/ pending d' !! bd_id info = Some info) /\ forall x, inc d x -> inc d' x.
Proof.
  intros Hok Hcon. pose proof Hok as [Hinv _]. pose proof Hinv as [Hc _ Hpid _ _ _ _ _ _]. unfold handleBlock.
  destruct (processBlock_spec info d Hc) as (c & Hc1 & ->). cbn [mbind go_bind].
  pose proof (dg_ok_icache c d Hok Hc1) as Hok1.
  destruct (decide (inc d (bd_id info))) as [Hi|Hi].
  - assert (pending d !! bd_id info = None) as Hp.
    { destruct (pending d !! bd_id info) eqn:E; [|done]. by apply (dg_ok_pending d) in E as [??]. }
    destruct (cascade_spec (S (await_size (await (set_icache c d)))) true [bd_id info] {[bd_id info]} (set_icache c d))
      as (d' & -> & ? & ? & ? & Hm).
    + simpl. lia.
    + apply start_inv; [apply Hok1|done|done].
    + intros id b Hid Hni. left. by eapply dg_ok_pending.
    + intros id b ->%elem_of_singleton Hid. change (pending d !! bd_id info = Some b) in Hid. congruence.
    + intros _. by exists (bd_id info).
    + exists d'. split_and!; try done. left. by apply Hm.
  - destruct (decide (lacking d info = [])) as [Hl|Hl].
    + rewrite lacking_nil in Hl.
      assert (pending d !! bd_id info = None) as Hp.
      { destruct (pending d !! bd_id info) as [b|] eqn:E; [|done]. exfalso. apply Hl.
        destruct (Hpid _ _ E) as [-> _]. rewrite <-Hcon in E. by apply (dg_ok_pending d) in E as [_ ?]. }
      change (set_blocks _ _) with (included_with info (set_icache c d)).
      destruct (include_first info (set_icache c d)) as [Hinv' Hprog']; [done..|].
      destruct (cascade_spec (S (await_size (await (included_with info (set_icache c d))))) true
        [bd_id info] {[bd_id info]} (included_with info (set_icache c d))) as (d' & -> & ? & ? & ? & Hm).
      * simpl. lia.
      * done.
      * done.
      * intros id b ->%elem_of_singleton Hid. change (pending d !! bd_id info = Some b) in Hid. congruence.
      * intros _. by exists (bd_id info).
      * exists d'. split_and!; try done.
        -- left. apply Hm, inc_included_with. by left.
        -- intros x Hx. apply Hm, inc_included_with. by right.
    + assert (blocked d info) as Hb.
      { destruct (lacking d info) as [|x l] eqn:El; [done|]. exists x.
        assert (x ∈ lacking d info) as Hx by (rewrite El; left). unfold lacking in Hx.
        apply list_elem_of_filter in Hx. tauto. }
      exists (addPending info (lacking d info) (set_icache c d)). split_and!; try done.
      * by apply (addPending_ok info (set_icache c d)).
      * right. simpl. by rewrite lookup_insert_eq.
Qed.
End depgraph.

(** ** The dependency graph and the store over time *)

Section machine.
Context (content : BlockID -> blockData).

(** The graph, the IDs marked in the store, and the blocks handed out. *)
Record machine := MkMachine { m_graph : depgraph; m_store : gset BlockID; m_taken : list blockData }.

(** Blocks arrive with the contents that belong to their hash; the loop handles
    the first of them; the cache is pruned; waiting blocks are handed out for
    the next own block; they are marked in the store when that block is
    written, and [actuallyIncluded] follows. *)
Inductive dg_step : machine -> machine -> Prop :=
  | dg_add info d st tk : info = content (bd_id info) ->
      dg_step (MkMachine d st tk) (MkMachine (add info d) st tk)
  | dg_process d d' st tk : process_step (answer st) d = Ret d' ->
      dg_step (MkMachine d st tk) (MkMachine d' st tk)
  | dg_prune d st tk : dg_step (MkMachine d st tk) (MkMachine (prune_icache d) st tk)
  | dg_take limit d st tk : let '(blocks, d') := dg_getBlocks limit d in
      dg_step (MkMachine d st tk) (MkMachine d' st (tk ++ blocks))
  | dg_write b d st tk : b ∈ tk ->
      dg_step (MkMachine d st tk) (MkMachine d ({[bd_id b]} ∪ st) tk)
  | dg_actually id d st tk : id ∈ st ->
      dg_step (MkMachine d st tk) (MkMachine (actuallyIncluded id d) st tk).

Definition dg_new (self : uint64) : depgraph := MkDepgraph ∅ [] ∅ [] ∅ self ∅.

Definition machine_ok (st0 : gset BlockID) (self : uint64) (m : machine) : Prop :=
  dg_ok (m_store m) st0 (m_taken m) content (m_graph m) /\ dg_self (m_graph m) = self /\
  Forall (fun info => info = content (bd_id info)) (dg_in (m_graph m)).

(** The invariant depends on the graph, on what is included and on the
    blocks queued so far, not on where that is recorded. *)
Lemma dg_ok_ext st st' st0 tk tk' d d' :
  dg_ok st st0 tk content d -> coherent st' d' ->
  (forall x, inc st' d' x <-> inc st d x) -> history tk' d' = history tk d ->
  await d' = await d -> pending d' = pending d -> dg_self d' = dg_self d ->
  dg_ok st' st0 tk' content d'.
Proof.
  intros [[Hc Hh Hpid Haw Hcl Hqu Hw Hd Ho] Hprog] Hc' Hi Hhist Ha Hp Hs.
  assert (forall x, aw d' x = aw d x) as Hawx by (intros; unfold aw; by rewrite Ha).
  split; [constructor|]; rewrite ?Hp, ?Hs.
  - done.
  - destruct Hh as [H1 H2 H3 H4]. constructor; rewrite ?Hhist, ?Hs; try done.
    intros x. by rewrite Hi.
  - done.
  - intros x id. rewrite Hawx. apply Haw.
  - intros x id. rewrite Hawx, Hi. apply Hcl.
  - intros y []%not_elem_of_nil.
  - intros id b x. rewrite Hawx, !Hi. apply Hw.
  - intros id b Hid. rewrite Hi. intros Hid'. by destruct (Hd _ _ Hid Hid') as [[]%not_elem_of_nil _].
  - intros [|? pre] y post x Heq; done.
  - intros id b. rewrite Hp, Hi. intros Hid Hn.
    destruct (Hprog id b Hid Hn) as [(x & Hx & Hnx)|[(? & [] & _)|[]%not_elem_of_nil]].
    left. exists x. by rewrite Hs, Hi.
Qed.

Lemma dg_step_ok st0 self m m' : machine_ok st0 self m -> dg_step m m' -> machine_ok st0 self m'.
Proof.
  intros (Hok & Hself & Hin). destruct 1 as [info d st tk Hinfo|d d' st tk Hstep|d st tk|limit d st tk
    |b d st tk Hb|id d st tk Hid]; simpl in *.
  - split_and!; [|done|by apply Forall_app_2; [|constructor]].
    eapply dg_ok_ext; [exact Hok|apply Hok|done..].
  - unfold process_step in Hstep. destruct (dg_in d) as [|info rest] eqn:E.
    { injection Hstep as <-. split_and!; simpl; [done|done|]. by rewrite E. }
    apply Forall_cons in Hin as [Hinfo Hrest].
    destruct (handleBlock_spec st st0 tk content info (set_in rest d))
      as (d1 & Heq & Hok1 & Hs1 & Hin1 & _); [|done|].
    { eapply dg_ok_ext; [exact Hok|apply Hok|done..]. }
    rewrite Heq in Hstep. injection Hstep as <-. split_and!; simpl; [done|by rewrite Hs1|by rewrite Hin1].
  - unfold prune_icache. case_decide; [|by split_and!]. split_and!; [|done|done].
    eapply dg_ok_ext; [exact Hok| |done..]. destruct Hok as [[[Ht Hi] _ _ _ _ _ _ _ _] _].
    split; [done|]. simpl. intros id b Hl. apply elem_of_list_to_map_2 in Hl.
    apply elem_of_take in Hl as (i & Hl & _). apply list_elem_of_lookup_2, elem_of_map_to_list in Hl.
    by apply Hi.
  - split_and!; [|done|done]. eapply dg_ok_ext; [exact Hok|apply Hok|done| |done..].
    unfold history. simpl. by rewrite <-app_assoc, take_drop.
  - split_and!; [|done|done].
    assert (inc st d (bd_id b)) as Hi.
    { destruct Hok as [[_ [Hh _ _ _] _ _ _ _ _ _ _] _]. apply Hh. right.
      unfold history. rewrite fmap_app, elem_of_app. left. by apply list_elem_of_fmap_2. }
    assert (forall x, inc ({[bd_id b]} ∪ st) d x <-> inc st d x) as Hinc.
    { intros x. unfold inc at 1. rewrite elem_of_union, elem_of_singleton. split.
      - intros [?|[->|?]]; [by left|done|by right].
      - intros [?|?]; tauto. }
    eapply dg_ok_ext; [exact Hok| |exact Hinc|done..].
    destruct Hok as [[[Ht Hic] _ _ _ _ _ _ _ _] _]. split; [done|].
    intros id v Hl. rewrite Hinc. by apply Hic.
  - split_and!; [|done|done].
    assert (forall x, inc st (actuallyIncluded id d) x <-> inc st d x) as Hinc.
    { intros x. unfold inc. simpl. destruct (decide (x = id)) as [->|].
      - rewrite lookup_delete_eq. naive_solver.
      - by rewrite lookup_delete_ne. }
    eapply dg_ok_ext; [exact Hok| |exact Hinc|done..].
    destruct Hok as [[[Ht Hic] _ _ _ _ _ _ _ _] _]. split; simpl.
    + by apply map_Forall_delete.
    + intros x v Hl. rewrite Hinc. by apply Hic.
Qed.

Lemma machine_reachable_ok st0 self m :
  rtc dg_step (MkMachine (dg_new self) st0 []) m -> machine_ok st0 self m.
Proof.
  intros H. refine (rtc_ind_r (machine_ok st0 self) _ _ _ _ H).
  - split_and!; [|done|constructor]. split; [constructor|]; simpl.
    + split; apply map_Forall_empty.
    + constructor; unfold history; simpl.
      * intros x. unfold inc. simpl. rewrite lookup_empty, elem_of_nil. naive_solver.
      * intros x []%not_elem_of_nil.
      * constructor.
      * intros pre b post Heq. by destruct pre.
    + by intros id b.
    + intros x id. unfold aw. simpl. rewrite lookup_empty. simpl. by intros []%not_elem_of_nil.
    + intros x id. unfold aw. simpl. rewrite lookup_empty. simpl. by intros []%not_elem_of_nil.
    + by intros y []%not_elem_of_nil.
    + by intros id b x.
    + by intros id b.
    + intros pre y post x Heq. by destruct pre.
    + by intros id b.
  - intros m1 m2 _ Hs Hm. by eapply dg_step_ok.
Qed.
End machine.

Lemma elem_of_needs self b x :
  x ∈ needs self b <-> (x = bd_prev b /\ Valid x = true) \/ (x ∈ bd_deps b /\ Node x <> self).
Proof.
  unfold needs. rewrite elem_of_app, list_elem_of_filter. destruct (Valid (bd_prev b)) eqn:E.
  - rewrite list_elem_of_singleton. split; [intros [->|?]; tauto|]. intros [[-> _]|?]; tauto.
  - split; [intros [[]%not_elem_of_nil|?]; tauto|]. intros [[-> ?]|?]; [congruence|tauto].
Qed.

(** C7. Whatever the order in which blocks arrive, are handled and are handed
    out: a block is queued for inclusion at most once, never when the store had
    it already, and only after its previous block and every block of another
    node that it refers to. *)
Theorem inclusion_order content st0 self m :
  rtc (dg_step content) (MkMachine (dg_new self) st0 []) m ->
  let h := m_taken m ++ dg_blocks (m_graph m) in
  NoDup (bd_id <$> h) /\ (forall x, x ∈ bd_id <$> h -> x ∉ st0) /\
  forall pre b post x, h = pre ++ b :: post ->
    (x = bd_prev b /\ Valid x = true) \/ (x ∈ bd_deps b /\ Node x <> self) ->
    x ∈ st0 \/ x ∈ bd_id <$> pre.
Proof.
  intros ([[_ [_ Hnew Hnd Hord] _ _ _ _ _ _ _] _] & <- & _)%machine_reachable_ok. split_and!; [done..|].
  intros pre b post x Hh Hx. eapply Hord; [exact Hh|]. by apply elem_of_needs.
Qed.


(** A block [B] of node 2 that follows its block [A] and refers to a block [C]
    of node 3, arriving in the order [B], [C], [A]. *)
Module ExampleDepgraph.
Definition ida : BlockID := MkBlockID [1] 2 1.
Definition idb : BlockID := MkBlockID [2] 2 2.
Definition idc : BlockID := MkBlockID [3] 3 1.
Definition content (id : BlockID) : blockData :=
  let deps := if decide (id = idb) then [idc] else [] in
  let prev := if decide (id = idb) then ida else zeroBlockID in
  MkBlockData deps id prev (MkSignedData [] []).
Definition get (m : go depgraph) : depgraph := match m with Ret d => d | _ => dg_new 0 end.
Definition handle (id : BlockID) (d : depgraph) : depgraph :=
  get (process_step (answer ∅) (add (content id) d)).
Definition final : machine := MkMachine (handle ida (handle idc (handle idb (dg_new 1)))) ∅ [].

Lemma step2 id d tk : content id = content (bd_id (content id)) ->
  process_step (answer ∅) (add (content id) d) = Ret (handle id d) ->
  rtc (dg_step content) (MkMachine d ∅ tk) (MkMachine (handle id d) ∅ tk).
Proof.
  intros H1 H2. eapply rtc_l; [by apply dg_add|]. eapply rtc_once. by apply dg_process.
Qed.

Lemma final_reachable : rtc (dg_step content) (MkMachine (dg_new 1) ∅ []) final.
Proof.
  etrans; [apply (step2 idb); by vm_compute|]. etrans; [apply (step2 idc); by vm_compute|].
  apply (step2 ida); by vm_compute.
Qed.
End ExampleDepgraph.

Lemma inclusion_order_witness :
  bd_id <$> dg_blocks (m_graph ExampleDepgraph.final)
    = [ExampleDepgraph.idc; ExampleDepgraph.ida; ExampleDepgraph.idb] /\
  NoDup (bd_id <$> m_taken ExampleDepgraph.final ++ dg_blocks (m_graph ExampleDepgraph.final)).
Proof.
  split; [by vm_compute|].
  apply (inclusion_order _ _ _ _ ExampleDepgraph.final_reachable).
Defined.

