(* ===== verification/Config.v ===== *)
(** * Config: sizes and addresses of the configuration

    Model of [src/config/bytesize.go] and of the functions of
    [src/config/config.go] that are not calls of the YAML library.  A scalar of
    a YAML document is the byte string that the library hands to
    [UnmarshalYAML]. *)
From S2P Require Import Prelude.

(** ** [strconv.ParseUint(s, 10, 64)] *)

Definition is_digit (c : Z) : bool := (48 <=? c) && (c <=? 57).
Definition errSyntax : string := "invalid syntax".
Definition errRange : string := "value out of range".

Fixpoint parse_digits (n : Z) (s : bytes) : go uint64 :=
  match s with
  | [] => Ret n
  | c :: s =>
      if is_digit c then
        let n := n * 10 + (c - 48) in
        if n <? 2 ^ 64 then parse_digits n s else Fail errRange
      else Fail errSyntax
  end.

Definition ParseUint (s : bytes) : go uint64 :=
  match s with [] => Fail errSyntax | _ => parse_digits 0 s end.

(** [strings.ToLower]; the code compares its result to ASCII strings only, so
    that letters outside of ASCII need no case. *)
Definition ToLower (s : bytes) : bytes :=
  (fun c => if (65 <=? c) && (c <=? 90) then c + 32 else c) <$> s.

(** [string(char)] for a byte: the UTF-8 encoding of the code point. *)
Definition string_of_byte (c : Z) : bytes :=
  if c <? 128 then [c] else [192 + Z.shiftr c 6; 128 + Z.land c 63].

(** ** [bytesize.go] *)

Definition KB : uint64 := 1024.
Definition MB : uint64 := 1024 * KB.
Definition GB : uint64 := 1024 * MB.
Definition TB : uint64 := 1024 * GB.
Definition maxInt : uint64 := 2 ^ 63 - 1.

Definition Int (b : uint64) : go goint :=
  if b >? maxInt then Fail "config: ByteSize value %d overflows platform int" else Ret b.

Definition MarshalYAML (b : uint64) : bytes :=
  if b mod TB =? 0 then fmt_d (b / TB) ++ str "TB"
  else if b mod GB =? 0 then fmt_d (b / GB) ++ str "GB"
  else if b mod MB =? 0 then fmt_d (b / MB) ++ str "MB"
  else if b mod KB =? 0 then fmt_d (b / KB) ++ str "KB"
  else fmt_d b ++ str "B".

(** [for i := len(raw) - 1; i >= 0; i--]: the number up to the last digit, which
    is written to the receiver [b], and the suffix after it.  [rev] has the
    bytes of [raw[:i+1]] from the last on. *)
Fixpoint split_suffix (rev : bytes) (suffix : bytes) (b : uint64) : go (uint64 * bytes) :=
  match rev with
  | [] => Ret (b, suffix)
  | char :: rest =>
      if is_digit char then val ← ParseUint (reverse rev); Ret (val, suffix)
      else split_suffix rest (string_of_byte char ++ suffix) b
  end.

(** The multiplier of a suffix. *)
Definition multiplier (suffix : bytes) : option uint64 :=
  if decide (suffix = str "") then Some 1
  else if decide (suffix = str "b" \/ suffix = str "byte" \/ suffix = str "bytes") then Some 1
  else if decide (suffix = str "k" \/ suffix = str "kb") then Some KB
  else if decide (suffix = str "m" \/ suffix = str "mb") then Some MB
  else if decide (suffix = str "g" \/ suffix = str "gb") then Some GB
  else if decide (suffix = str "t" \/ suffix = str "tb") then Some TB
  else None.

(** [b] is the value of the receiver before the call. *)
Definition UnmarshalYAML (raw : bytes) (b : uint64) : go uint64 :=
  '(b, suffix) ← split_suffix (reverse raw) [] b;
  match multiplier (ToLower suffix) with
  | Some m => Ret (u64 (b * m))
  | None => Fail "config: unable to decode ByteSize value: %q"
  end.

(** ** [config.go] *)

Definition HasPrefix (s p : bytes) : bool := bool_decide (take (length p) s = p).

(** [Registry.URL]. *)
Definition URL (Host : bytes) : bytes :=
  if HasPrefix Host (str "localhost:") || bool_decide (Host = str "localhost")
  then str "http://" ++ Host ++ str "/" else str "https://" ++ Host ++ str "/".

(** The storage type of [LoadNode], [None] being an absent section. *)
Definition defaultStorage (storage : option bytes) : bytes :=
  match storage with
  | None => str "memstore"
  | Some t => if decide (length t <= 0)%nat then str "memstore" else t
  end.

(** ** Reading back a formatted number *)

Lemma digit_char d : (d < 10)%N ->
  let c := Z.of_N (Ascii.N_of_ascii (pretty_N_char d)) in is_digit c = true /\ c - 48 = Z.of_N d.
Proof.
  intros Hd. assert (d ∈ [0; 1; 2; 3; 4; 5; 6; 7; 8; 9]%N) as Hin.
  { rewrite !elem_of_cons. lia. }
  rewrite !elem_of_cons in Hin. destruct_or! Hin; subst; try done. by apply not_elem_of_nil in Hin.
Qed.

Lemma str_cons a s : str (String a s) = Z.of_N (Ascii.N_of_ascii a) :: str s.
Proof. done. Qed.

(** Parsing goes on behind the digits of [x] with the value [x]. *)
Lemma parse_pretty x s : Z.of_N x < 2 ^ 64 ->
  parse_digits 0 (str (pretty_N_go x s)) = parse_digits (Z.of_N x) (str s) /\
  (x <> 0%N -> exists c r, str (pretty_N_go x s) = c :: r).
Proof.
  revert s. induction (N.lt_wf_0 x) as [x _ IH]; intros s Hx.
  destruct (decide (0 < x)%N) as [H0|H0].
  2: { assert (x = 0%N) as -> by lia. split; [done|done]. }
  rewrite pretty_N_go_step by done.
  assert (x / 10 < x)%N as Hlt by (apply N.div_lt; lia).
  pose proof (N.mod_lt x 10 ltac:(lia)) as Hm.
  destruct (IH (x / 10)%N Hlt (String (pretty_N_char (x mod 10)) s) ltac:(lia)) as [-> Hne].
  destruct (digit_char (x mod 10)%N Hm) as [Hd Hc]. rewrite str_cons. split.
  - cbn [parse_digits]. rewrite Hd, Hc. pose proof (N.div_mod' x 10) as Hx10.
    replace (Z.of_N (x / 10) * 10 + Z.of_N (x mod 10)) with (Z.of_N x) by lia.
    by rewrite (proj2 (Z.ltb_lt _ _) Hx).
  - intros _. destruct (decide (x / 10 = 0)%N) as [E|E].
    + rewrite E. unfold pretty_N_go. simpl. rewrite str_cons. eauto.
    + by apply Hne.
Qed.

Lemma ParseUint_fmt_d x : is_u64 x -> ParseUint (fmt_d x) = Ret x.
Proof.
  intros [Hx0 Hx]. unfold fmt_d, ParseUint, pretty, pretty_N.
  destruct (decide (Z.to_N x = 0)%N) as [E|E].
  { assert (x = 0) as -> by lia. done. }
  destruct (parse_pretty (Z.to_N x) ""%string) as [Hp Hne]; [lia|].
  destruct (Hne E) as (c & r & Hc). rewrite Hc in *. rewrite Hp. simpl. f_equal. lia.
Qed.

Lemma fmt_d_digits x : Forall (fun c => is_digit c = true) (fmt_d x).
Proof.
  unfold fmt_d, pretty, pretty_N. case_decide; [by repeat constructor|].
  assert (forall s, Forall (fun c => is_digit c = true) (str s) ->
            Forall (fun c => is_digit c = true) (str (pretty_N_go (Z.to_N x) s))) as Hg; [|apply Hg; constructor].
  clear. induction (N.lt_wf_0 (Z.to_N x)) as [n _ IH]. intros s Hs.
  destruct (decide (0 < n)%N) as [H0|H0].
  2: { assert (n = 0%N) as -> by lia. done. }
  rewrite pretty_N_go_step by done. apply IH; [apply N.div_lt; lia|]. rewrite str_cons. constructor; [|done].
  apply (digit_char (n mod 10)%N), N.mod_lt. lia.
Qed.

(** The digits of a number followed by a suffix. *)
Lemma split_suffix_app x sfx acc b0 : is_u64 x ->
  Forall (fun c => is_digit c = false /\ c < 128) sfx ->
  split_suffix (reverse (fmt_d x ++ sfx)) acc b0 = Ret (x, sfx ++ acc).
Proof.
  intros Hx Hs. revert acc. induction sfx as [|c sfx IH] using rev_ind; intros acc.
  - rewrite app_nil_r. pose proof (ParseUint_fmt_d x Hx) as Hp. pose proof (fmt_d_digits x) as Hd.
    destruct (fmt_d x) as [|c r _] using rev_ind; [done|].
    rewrite reverse_snoc. cbn [split_suffix]. apply Forall_app in Hd as [_ Hc]. rewrite Forall_singleton in Hc.
    rewrite Hc, reverse_cons, reverse_involutive, Hp. done.
  - apply Forall_app in Hs as [Hs Hc]. rewrite Forall_singleton in Hc. destruct Hc as [Hc Hlt].
    rewrite app_assoc, reverse_snoc. cbn [split_suffix]. rewrite Hc, IH by done.
    unfold string_of_byte. rewrite (proj2 (Z.ltb_lt _ _) Hlt). by rewrite <-app_assoc.
Qed.

Lemma UnmarshalYAML_suffix x sfx m b0 : is_u64 x ->
  forallb (fun c => negb (is_digit c) && (c <? 128)) sfx = true ->
  multiplier (ToLower sfx) = Some m -> UnmarshalYAML (fmt_d x ++ sfx) b0 = Ret (u64 (x * m)).
Proof.
  intros Hx Hs Hm. unfold UnmarshalYAML. rewrite split_suffix_app; [|done|].
  - cbn [mbind go_bind]. by rewrite app_nil_r, Hm.
  - apply Forall_forall. intros c Hc. rewrite forallb_forall in Hs.
    apply list_elem_of_In, Hs in Hc. apply andb_prop in Hc as [Hd Hl].
    split; [by apply negb_true_iff|lia].
Qed.

(** A size written to the configuration is read back, whatever unit is
    chosen for it and whatever the receiver held before. *)
Theorem bytesize_roundtrip b b0 : is_u64 b -> UnmarshalYAML (MarshalYAML b) b0 = Ret b.
Proof.
  intros [H0 Hb]. unfold MarshalYAML.
  assert (forall u sfx, 0 < u -> b mod u = 0 -> forallb (fun c => negb (is_digit c) && (c <? 128)) sfx = true ->
            multiplier (ToLower sfx) = Some u -> UnmarshalYAML (fmt_d (b / u) ++ sfx) b0 = Ret b) as Hu.
  { intros u sfx Hu Hmod Hs Hm. pose proof (Z.div_pos b u H0 Hu). pose proof (Z_div_exact_full_2 b u ltac:(lia) Hmod).
    rewrite (UnmarshalYAML_suffix _ sfx u) by (done || (split; [lia|]; nia)).
    f_equal. rewrite wrap_small; [|split]; lia. }
  repeat match goal with |- context [b mod ?u =? 0] =>
    destruct (Z.eqb_spec (b mod u) 0); [by apply Hu; [by vm_compute|..]|]
  end.
  rewrite (UnmarshalYAML_suffix b (str "B") 1) by done. f_equal. rewrite wrap_small; [|split]; lia.
Qed.

Lemma bytesize_roundtrip_witness :
  MarshalYAML 3145728 = str "3MB" /\ UnmarshalYAML (MarshalYAML 3145728) 17 = Ret 3145728.
Proof. split; [by vm_compute|]. apply (bytesize_roundtrip 3145728 17). split; lia. Defined.

(** The multiplication by the unit is not checked for overflow. *)
Lemma bytesize_overflow b0 : UnmarshalYAML (str "16777217TB") b0 = Ret TB.
Proof. by vm_compute. Qed.

(** A size without digits keeps what the receiver held. *)
Lemma bytesize_no_digits b0 : UnmarshalYAML (str "kb") b0 = Ret (u64 (b0 * KB)).
Proof. done. Qed.
