(* ===== verification/Broadcast.v ===== *)
(** * Broadcast: the broadcast service

    Model of [src/broadcast/broadcast.go] and [src/broadcast/ext.go].  The
    goroutines are sequences of the operations below; connections, timers and
    logging are left out.  The hash, the signatures and the serialisers are
    parameters.  A wait for the next own block is the result [None]. *)
From S2P Require Import Prelude Messages Graph Lexinum Codec Database BroadcastStore Depgraph.

(** ** Transactions of a block: [ext.go] *)

Record TransactionData := MkTransactionData { td_Data : bytes; td_Fee : uint64 }.

(** [TransactionList.Sort]: descending fee, then descending hash. *)
Definition tx_le (sha : bytes -> bytes) (x y : TransactionData) : Prop :=
  td_Fee x > td_Fee y \/
  (td_Fee x = td_Fee y /\ bytes_le (sha (td_Data y)) (sha (td_Data x))).
#[export] Instance tx_le_dec sha x y : Decision (tx_le sha x y).
Proof. unfold tx_le. apply _. Defined.
Definition Sort (sha : bytes -> bytes) (t : list TransactionData) : list TransactionData :=
  merge_sort (tx_le sha) t.

Record TxIterator := MkTxIterator {
  ti_cur : uint64; ti_data : bytes; ti_idx : nat; ti_total : uint64; TxData : bytes; TxFee : uint64 }.

Definition Next (t : TxIterator) : go TxIterator :=
  a ← subslice (ti_data t) (ti_idx t) (ti_idx t + 8); fee ← Uint64 a;
  let idx := (ti_idx t + 8)%nat in
  b ← subslice (ti_data t) idx (idx + 4); size ← Uint32 b;
  let idx := (idx + 4)%nat in
  data ← subslice (ti_data t) idx (idx + Z.to_nat size);
  Ret (MkTxIterator (u64 (ti_cur t + 1)) (ti_data t) (idx + Z.to_nat size) (ti_total t) data fee).

Definition tx_Valid (t : TxIterator) : bool := ti_cur t <? ti_total t.

Definition Iter (txs : Transactions) : TxIterator :=
  MkTxIterator 0 (tx_Data txs) 0 (Count txs) [] 0.

(** [for it.Valid() { it.Next(); ... }]. *)
Fixpoint iterate (fuel : nat) (t : TxIterator) : go (list TransactionData) :=
  if tx_Valid t then
    match fuel with
    | O => Crash
    | S fuel =>
        t ← Next t;
        txs ← iterate fuel t;
        Ret (MkTransactionData (TxData t) (TxFee t) :: txs)
    end
  else Ret [].

(** ** Wire messages *)

Record Message := MkMessage { Opcode : Z; Payload : bytes }.
Definition OP_ACK_BROADCAST : Z := 1.
Definition OP_BROADCAST : Z := 2.
Definition OP_GET_BLOCKS : Z := 3.
Definition OP_GET_ROUNDS : Z := 4.
Definition OP_LIST_BLOCKS : Z := 5.

Record AckBroadcast := MkAckBroadcast { Last : uint64 }.
Record GetBlocks := MkGetBlocks { gb_Blocks : list BlockReference }.
Record GetRounds := MkGetRounds { Rounds : list uint64 }.
(** A block that is not known is a nil entry. *)
Record ListBlocks := MkListBlocks { lb_Blocks : list (option SignedData) }.

(** ** The service *)

(** [sv_cb] tells whether a callback is registered, [sv_delivered] is the trace
    of its calls; [sv_keys] has the nodes whose keys are known. *)
Record Service := MkService {
  sv_cb : bool;
  sv_delivered : list (uint64 * list SignedData);
  sv_depgraph : depgraph;
  sv_graph : Graph;
  sv_interpreted : uint64;
  sv_keys : gset uint64;
  sv_maxBlocks : goint;
  sv_maxPayload : goint;
  sv_nodeID : uint64;
  sv_ownBlocks : ownBlocks;
  sv_prevhash : bytes;
  sv_prevref : option SignedData;
  sv_refSizeLimit : goint;
  sv_received : receivedMap;
  sv_round : uint64;
  sv_sent : gmap uint64 uint64;
  sv_store : store;
  sv_txCount : goint;
  sv_txCountLimit : goint;
  sv_txData : bytes;
  sv_txIdx : nat;
  sv_txSizeLimit : goint
}.

Definition set_cb x s := MkService x (sv_delivered s) (sv_depgraph s) (sv_graph s) (sv_interpreted s)
  (sv_keys s) (sv_maxBlocks s) (sv_maxPayload s) (sv_nodeID s) (sv_ownBlocks s) (sv_prevhash s)
  (sv_prevref s) (sv_refSizeLimit s) (sv_received s) (sv_round s) (sv_sent s) (sv_store s)
  (sv_txCount s) (sv_txCountLimit s) (sv_txData s) (sv_txIdx s) (sv_txSizeLimit s).
Definition deliver_to x s := MkService (sv_cb s) x (sv_depgraph s) (sv_graph s) (sv_interpreted s)
  (sv_keys s) (sv_maxBlocks s) (sv_maxPayload s) (sv_nodeID s) (sv_ownBlocks s) (sv_prevhash s)
  (sv_prevref s) (sv_refSizeLimit s) (sv_received s) (sv_round s) (sv_sent s) (sv_store s)
  (sv_txCount s) (sv_txCountLimit s) (sv_txData s) (sv_txIdx s) (sv_txSizeLimit s).
Definition set_depgraph x s := MkService (sv_cb s) (sv_delivered s) x (sv_graph s) (sv_interpreted s)
  (sv_keys s) (sv_maxBlocks s) (sv_maxPayload s) (sv_nodeID s) (sv_ownBlocks s) (sv_prevhash s)
  (sv_prevref s) (sv_refSizeLimit s) (sv_received s) (sv_round s) (sv_sent s) (sv_store s)
  (sv_txCount s) (sv_txCountLimit s) (sv_txData s) (sv_txIdx s) (sv_txSizeLimit s).
Definition set_graph x s := MkService (sv_cb s) (sv_delivered s) (sv_depgraph s) x (sv_interpreted s)
  (sv_keys s) (sv_maxBlocks s) (sv_maxPayload s) (sv_nodeID s) (sv_ownBlocks s) (sv_prevhash s)
  (sv_prevref s) (sv_refSizeLimit s) (sv_received s) (sv_round s) (sv_sent s) (sv_store s)
  (sv_txCount s) (sv_txCountLimit s) (sv_txData s) (sv_txIdx s) (sv_txSizeLimit s).
Definition set_interpreted x s := MkService (sv_cb s) (sv_delivered s) (sv_depgraph s) (sv_graph s) x
  (sv_keys s) (sv_maxBlocks s) (sv_maxPayload s) (sv_nodeID s) (sv_ownBlocks s) (sv_prevhash s)
  (sv_prevref s) (sv_refSizeLimit s) (sv_received s) (sv_round s) (sv_sent s) (sv_store s)
  (sv_txCount s) (sv_txCountLimit s) (sv_txData s) (sv_txIdx s) (sv_txSizeLimit s).
Definition set_ownBlocks x s := MkService (sv_cb s) (sv_delivered s) (sv_depgraph s) (sv_graph s)
  (sv_interpreted s) (sv_keys s) (sv_maxBlocks s) (sv_maxPayload s) (sv_nodeID s) x (sv_prevhash s)
  (sv_prevref s) (sv_refSizeLimit s) (sv_received s) (sv_round s) (sv_sent s) (sv_store s)
  (sv_txCount s) (sv_txCountLimit s) (sv_txData s) (sv_txIdx s) (sv_txSizeLimit s).
(** The fields that [genBlocks] assigns after writing a block. *)
Definition set_last (h : bytes) (r : option SignedData) (n : uint64) s := MkService (sv_cb s)
  (sv_delivered s) (sv_depgraph s) (sv_graph s) (sv_interpreted s) (sv_keys s) (sv_maxBlocks s)
  (sv_maxPayload s) (sv_nodeID s) (sv_ownBlocks s) h r (sv_refSizeLimit s) (sv_received s) n
  (sv_sent s) (sv_store s) (sv_txCount s) (sv_txCountLimit s) (sv_txData s) (sv_txIdx s) (sv_txSizeLimit s).
Definition set_received x s := MkService (sv_cb s) (sv_delivered s) (sv_depgraph s) (sv_graph s)
  (sv_interpreted s) (sv_keys s) (sv_maxBlocks s) (sv_maxPayload s) (sv_nodeID s) (sv_ownBlocks s)
  (sv_prevhash s) (sv_prevref s) (sv_refSizeLimit s) x (sv_round s) (sv_sent s) (sv_store s)
  (sv_txCount s) (sv_txCountLimit s) (sv_txData s) (sv_txIdx s) (sv_txSizeLimit s).
Definition set_sent x s := MkService (sv_cb s) (sv_delivered s) (sv_depgraph s) (sv_graph s)
  (sv_interpreted s) (sv_keys s) (sv_maxBlocks s) (sv_maxPayload s) (sv_nodeID s) (sv_ownBlocks s)
  (sv_prevhash s) (sv_prevref s) (sv_refSizeLimit s) (sv_received s) (sv_round s) x (sv_store s)
  (sv_txCount s) (sv_txCountLimit s) (sv_txData s) (sv_txIdx s) (sv_txSizeLimit s).
Definition set_store x s := MkService (sv_cb s) (sv_delivered s) (sv_depgraph s) (sv_graph s)
  (sv_interpreted s) (sv_keys s) (sv_maxBlocks s) (sv_maxPayload s) (sv_nodeID s) (sv_ownBlocks s)
  (sv_prevhash s) (sv_prevref s) (sv_refSizeLimit s) (sv_received s) (sv_round s) (sv_sent s) x
  (sv_txCount s) (sv_txCountLimit s) (sv_txData s) (sv_txIdx s) (sv_txSizeLimit s).
Definition set_tx (count : goint) (data : bytes) (idx : nat) s := MkService (sv_cb s) (sv_delivered s)
  (sv_depgraph s) (sv_graph s) (sv_interpreted s) (sv_keys s) (sv_maxBlocks s) (sv_maxPayload s)
  (sv_nodeID s) (sv_ownBlocks s) (sv_prevhash s) (sv_prevref s) (sv_refSizeLimit s) (sv_received s)
  (sv_round s) (sv_sent s) (sv_store s) count (sv_txCountLimit s) data idx (sv_txSizeLimit s).
Definition set_txCountLimit x s := MkService (sv_cb s) (sv_delivered s) (sv_depgraph s) (sv_graph s)
  (sv_interpreted s) (sv_keys s) (sv_maxBlocks s) (sv_maxPayload s) (sv_nodeID s) (sv_ownBlocks s)
  (sv_prevhash s) (sv_prevref s) (sv_refSizeLimit s) (sv_received s) (sv_round s) (sv_sent s)
  (sv_store s) (sv_txCount s) x (sv_txData s) (sv_txIdx s) (sv_txSizeLimit s).

(** ** Transactions *)

Definition errTransactionTooLarge : string := "broadcast: transaction is too large".

(** [copy(buf[lo:hi], bs)] and the like, for as many bytes as there are. *)
Definition overwrite (buf : bytes) (lo : nat) (bs : bytes) : go bytes :=
  if decide (lo + length bs <= length buf)%nat
  then Ret (take lo buf ++ bs ++ drop (lo + length bs) buf) else Crash.

(** One round of the loop of [AddTransaction]. *)
Definition AddTransaction (txdata : bytes) (fee : uint64) (s : Service) : go (option Service) :=
  let size := Z.of_nat (length txdata) in
  if decide (size >= 2 ^ 32 \/ size > sv_txSizeLimit s) then Fail errTransactionTooLarge else
  if decide (sv_txCount s = sv_txCountLimit s) then Ret None else
  if decide (Z.of_nat (sv_txIdx s) + size + 100 > sv_txSizeLimit s) then Ret None else
  buf ← overwrite (sv_txData s) (sv_txIdx s) (PutUint64 fee);
  buf ← overwrite buf (sv_txIdx s + 8) (PutUint32 (u32 size));
  buf ← overwrite buf (sv_txIdx s + 12) txdata;
  Ret (Some (set_tx (sv_txCount s + 1) buf (sv_txIdx s + (12 + length txdata)) s)).

(** The transactions of the next own block. *)
Definition blockTransactions (s : Service) : Transactions :=
  MkTransactions (u64 (sv_txCount s)) (take (sv_txIdx s) (sv_txData s)).

Section service.
Context `{PS : Proto SignedData, PB : Proto Block, PR : Proto BlockReference}.
Context `{PA : Proto AckBroadcast, PGB : Proto GetBlocks, PGR : Proto GetRounds, PL : Proto ListBlocks}.
Context (sha512_256 : bytes -> bytes).
(** [Verify node data signature] with the key of [node]; [Sign] with our own. *)
Context (Verify : uint64 -> bytes -> bytes -> bool) (Sign : bytes -> bytes).
Context (F : Faults).

(** ** Own blocks *)

Definition sv_getOwnBlock (round : uint64) (s : Service) : go (SignedData * Service) :=
  match ob_get round (sv_ownBlocks s) with
  | Some block => Ret (block, s)
  | None =>
      block ← getOwnBlock F round (sv_store s);
      Ret (block, set_ownBlocks (ob_set round block (sv_ownBlocks s)) s)
  end.

Definition sv_setOwnBlock (block blockRef : SignedData) (graph : BlockGraph) (s : Service) : go Service :=
  let s := set_ownBlocks (ob_set (Round (bg_Block graph)) block (sv_ownBlocks s)) s in
  st ← setOwnBlock F block blockRef graph (sv_store s);
  Ret (set_store st s).

(** One iteration of [genBlocks], [limit] being the new rate limit. *)
Definition genBlock (limit : goint) (s : Service) : go Service :=
  let s := set_txCountLimit limit s in
  let round := u64 (sv_round s + 1) in
  let '(refs, dg) := dg_getBlocks (sv_refSizeLimit s) (sv_depgraph s) in
  let s := set_depgraph dg s in
  let block := MkBlock (sv_nodeID s) (sv_prevref s) (bd_ref <$> refs) round
    (Some (blockTransactions s)) in
  data ← fatal (Marshal block);
  let s := set_tx 0 (sv_txData s) 0 s in
  let hash := sha512_256 data in
  refData ← fatal (Marshal (MkBlockReference hash (sv_nodeID s) round));
  let signed := MkSignedData data (Sign refData) in
  let blockRef := MkSignedData refData (Signature signed) in
  let graph := MkBlockGraph (MkBlockID hash (sv_nodeID s) round)
    ((fun r => MkDep (bd_id r) (bd_deps r) (bd_prev r)) <$> refs)
    (if decide (round <> 1) then MkBlockID (sv_prevhash s) (sv_nodeID s) (u64 (round - 1))
     else zeroBlockID) in
  s ← fatal (sv_setOwnBlock signed blockRef graph s);
  let s := set_depgraph (foldl (fun d r => actuallyIncluded (bd_id r) d) (sv_depgraph s) refs) s in
  let s := set_graph (Graph.Add graph (sv_graph s)) s in
  let s := set_last hash (Some (MkSignedData refData (Signature signed))) round s in
  Ret (if decide (round `mod` 50 = 0)
       then set_ownBlocks (ob_prune 50 (sv_ownBlocks s)) s else s).

(** The blocks that [peerID] lacks, as many as fit a payload; [None] when it is
    up to date. *)
Fixpoint unsent_loop (fuel : nat) (first i cur : uint64) (total : goint) (blocks : list SignedData)
    (s : Service) : go (list SignedData * Service) :=
  match fuel with
  | O => Ret (blocks, s)
  | S fuel =>
      if decide (i <= cur) then
        '(block, s) ← fatal (sv_getOwnBlock i s);
        let total := total + Z.of_nat (length (Data block)) + Z.of_nat (length (Signature block)) + 100 in
        if decide (total > sv_maxPayload s) then
          if decide (i = first) then Crash else Ret (blocks, s)
        else unsent_loop fuel first (u64 (i + 1)) cur total (blocks ++ [block]) s
      else Ret (blocks, s)
  end.

Definition getUnsent (peerID : uint64) (s : Service) : go (option (list SignedData) * Service) :=
  let cur := sv_round s in
  let last := u64 (default 0 (sv_sent s !! peerID) + 1) in
  if decide (cur >= last) then
    '(blocks, s) ← unsent_loop (Z.to_nat (cur - last + 1)) last last cur 0 [] s;
    Ret (Some blocks, s)
  else Ret (None, s).

Definition markSent (peerID round : uint64) (s : Service) : Service :=
  set_sent (<[peerID := round]> (sv_sent s)) s.

(** ** Received blocks *)

(** The loop over the references of a received block. *)
Fixpoint checkReferences (node : uint64) (refs : list SignedData) (s : Service) : go (list BlockID) :=
  match refs with
  | [] => Ret []
  | sref :: refs =>
      ref ← match Unmarshal (Data sref) : go BlockReference with
            | Ret ref => Ret ref
            | _ => Fail "broadcast: unable to decode block reference at position %d for block %d from node %d"
            end;
      _ ← guard_fail (bool_decide (r_Node ref ∈ sv_keys s))
            "broadcast: unable to find signing.key for node %d in block reference %d for block %d from node %d";
      _ ← guard_fail (Verify (r_Node ref) (Data sref) (Signature sref))
            "broadcast: unable to verify signature for block reference %d for block %d from node %d";
      _ ← guard_fail (bool_decide (r_Node ref <> node))
            "broadcast: block references includes a block from same node in block reference %d for block %d from node %d";
      ids ← checkReferences node refs s;
      Ret (ref_id ref :: ids)
  end.

(** The previous block of a received block. *)
Definition checkPrevious (block : Block) : go BlockID :=
  if decide (b_Round block = 1) then Ret zeroBlockID else
  previous ← match Previous block with
             | Some p => Ret p
             | None => Fail "broadcast: nil previous block on block %d from node %d"
             end;
  _ ← guard_fail (Verify (b_Node block) (Data previous) (Signature previous))
        "broadcast: unable to verify signature for previous block on block %d from node %d";
  prev ← (Unmarshal (Data previous) : go BlockReference);
  _ ← guard_fail (bool_decide (r_Node prev = b_Node block))
        "broadcast: previous block node does not match on block %d from node %d";
  _ ← guard_fail (bool_decide (u64 (r_Round prev + 1) = b_Round block))
        "broadcast: previous block round is invalid on block %d from node %d";
  Ret (ref_id prev).

Definition sv_processBlock (signed : SignedData) (s : Service) : go (uint64 * Service) :=
  block ← (Unmarshal (Data signed) : go Block);
  _ ← guard_fail (bool_decide (b_Node block ∈ sv_keys s))
        "broadcast: unable to find signing.key for node %d";
  let hash := sha512_256 (Data signed) in
  enc ← match Marshal (MkBlockReference hash (b_Node block) (b_Round block)) with
        | Ret enc => Ret enc
        | _ => Fail "broadcast: unable to encode block reference: %s"
        end;
  _ ← guard_fail (Verify (b_Node block) enc (Signature signed))
        "broadcast: unable to verify signature for block %d from node %d";
  prevID ← checkPrevious block;
  deps ← checkReferences (b_Node block) (References block) s;
  let id := MkBlockID hash (b_Node block) (b_Round block) in
  st ← fatal (setBlock F id signed (sv_store s));
  let s := set_store st s in
  let s := set_depgraph (add (MkBlockData deps id prevID (MkSignedData enc (Signature signed)))
                             (sv_depgraph s)) s in
  let s := set_received (rm_set (b_Node block) (b_Round block) (sv_received s)) s in
  Ret (b_Round block, s).

(** ** Requests of peers

    An error of a handler leaves what was processed before it. *)
Fixpoint processList (blocks : list (option SignedData)) (last : uint64) (s : Service)
    : go uint64 * Service :=
  match blocks with
  | [] => (Ret last, s)
  | None :: _ => (Crash, s)
  | Some block :: blocks =>
      match sv_processBlock block s with
      | Ret (round, s) => processList blocks round s
      | Fail e => (Fail e, s)
      | Crash => (Crash, s)
      end
  end.

Definition handleBroadcastList (peerID : uint64) (msg : Message) (s : Service) : go Message * Service :=
  match Unmarshal (Payload msg) : go ListBlocks with
  | Ret l =>
      let '(r, s) := processList (lb_Blocks l) 0 s in
      (last ← r; data ← Marshal (MkAckBroadcast last); Ret (MkMessage OP_ACK_BROADCAST data), s)
  | Fail e => (Fail e, s)
  | Crash => (Crash, s)
  end.

(** [Service.getBlock]: nil when the block cannot be read. *)
Definition sv_getBlock (ref : BlockReference) (s : Service) : option SignedData :=
  match getBlock F (ref_id ref) (sv_store s) with Ret b => Some b | _ => None end.

Definition sv_getBlocks (ids : list BlockID) (s : Service) : go (list SignedData) :=
  fatal (getBlocks F ids (sv_store s)).

Definition handleGetBlocks (peerID : uint64) (msg : Message) (s : Service) : go Message :=
  req ← (Unmarshal (Payload msg) : go GetBlocks);
  if decide (Z.of_nat (length (gb_Blocks req)) > sv_maxBlocks s)
  then Fail "broadcast: requested %d blocks exceeds max block limit of %d" else
  data ← Marshal (MkListBlocks ((fun ref => sv_getBlock ref s) <$> gb_Blocks req));
  Ret (MkMessage OP_LIST_BLOCKS data).

(** The rounds that cannot be read are left out. *)
Fixpoint ownBlocksOf (rounds : list uint64) (s : Service) : list SignedData * Service :=
  match rounds with
  | [] => ([], s)
  | round :: rounds =>
      match sv_getOwnBlock round s with
      | Ret (block, s) => let '(blocks, s) := ownBlocksOf rounds s in (block :: blocks, s)
      | _ => ownBlocksOf rounds s
      end
  end.

Definition handleGetRounds (peerID : uint64) (msg : Message) (s : Service) : go Message * Service :=
  match Unmarshal (Payload msg) : go GetRounds with
  | Ret req =>
      if decide (Z.of_nat (length (Rounds req)) > sv_maxBlocks s)
      then (Fail "broadcast: requested %d rounds exceeds max block limit of %d", s) else
      let '(blocks, s) := ownBlocksOf (Rounds req) s in
      (data ← Marshal (MkListBlocks (Some <$> blocks)); Ret (MkMessage OP_LIST_BLOCKS data), s)
  | Fail e => (Fail e, s)
  | Crash => (Crash, s)
  end.

Definition Handle (peerID : uint64) (msg : Message) (s : Service) : go Message * Service :=
  if decide (Opcode msg = OP_BROADCAST) then handleBroadcastList peerID msg s
  else if decide (Opcode msg = OP_GET_BLOCKS) then (handleGetBlocks peerID msg s, s)
  else if decide (Opcode msg = OP_GET_ROUNDS) then handleGetRounds peerID msg s
  else (Fail "broadcast: unknown message opcode: %d", s).

(** ** Delivery *)

(** The callback of the consensus: an error of [setInterpreted] is ignored. *)
Definition blockmaniaCallback (data : Interpreted) (s : Service) : go Service :=
  let s := match setInterpreted F data (sv_store s) with Ret st => set_store st s | _ => s end in
  if sv_cb s then
    blocks ← sv_getBlocks (in_Blocks data) s;
    Ret (deliver_to (sv_delivered s ++ [(in_Round data, blocks)]) s)
  else Ret (set_interpreted (in_Round data) s).

(** The loop of [Register] from round [i] on. *)
Fixpoint redeliver (fuel : nat) (i last : uint64) (s : Service) : go Service :=
  match fuel with
  | O => Ret s
  | S fuel =>
      if decide (i <= last) then
        blocks ← fatal (getInterpreted F i (sv_store s));
        redeliver fuel (u64 (i + 1)) last (deliver_to (sv_delivered s ++ [(i, blocks)]) s)
      else Ret s
  end.

Definition Register (s : Service) : go Service :=
  if sv_cb s then Crash else
  let s := set_cb true s in
  ack ← match getDeliverAcknowledged F (sv_store s) with
        | Ret ack => Ret ack
        | Fail e => if decide (e = ErrKeyNotFound) then Ret 0 else Crash
        | Crash => Crash
        end;
  let last := sv_interpreted s in
  redeliver (Z.to_nat (last - ack)) (u64 (ack + 1)) last s.

Definition Acknowledge (round : uint64) (s : Service) : Service :=
  match setDeliverAcknowledged F round (sv_store s) with Ret st => set_store st s | _ => s end.

(** ** Start *)

(** The loop of [replayGraphChanges] over batches of block graphs; it has not
    returned when the fuel is used up. *)
Fixpoint replay_batches (fuel : nat) (from : uint64) (s : Service) : go Service :=
  match fuel with
  | O => Crash
  | S fuel =>
      blocks ← fatal (getBlockGraphs F (sv_nodeID s) from 100 (sv_store s));
      let s := set_graph (foldl (fun g b => Graph.Add b g) (sv_graph s) blocks) s in
      if decide (Z.of_nat (length blocks) < 100) then Ret s
      else replay_batches fuel (u64 (from + 100)) s
  end.

Definition replayGraphChanges (fuel : nat) (from : uint64) (s : Service) : go Service :=
  blocks ← fatal (getNotIncluded sha512_256 F (sv_store s));
  let s := set_depgraph (foldl (fun d b => add b d) (sv_depgraph s) blocks) s in
  replay_batches fuel from s.
End service.
