(* ===== verification/BroadcastProps.v ===== *)
(** * BroadcastProps: what the broadcast service promises

    Transactions put into a block come out of it, received blocks are checked
    and queued the way a restart would queue them, and interpreted rounds are
    delivered in order, none twice and none left out. *)
From S2P Require Import Prelude Messages Graph Lexinum Codec Database BroadcastStore.
From S2P Require Import BroadcastStoreProps BroadcastStoreData Depgraph Broadcast.

(** ** Transactions *)

Definition encodeTx (t : TransactionData) : bytes :=
  PutUint64 (td_Fee t) ++ PutUint32 (u32 (Z.of_nat (length (td_Data t)))) ++ td_Data t.

(** The buffer holds the transactions [txs]. *)
Record buffer_ok (s : Service) (txs : list TransactionData) : Prop := {
  bo_size : Z.of_nat (length (sv_txData s)) = sv_txSizeLimit s;
  bo_idx : (sv_txIdx s <= length (sv_txData s))%nat;
  bo_count : sv_txCount s = Z.of_nat (length txs);
  bo_data : take (sv_txIdx s) (sv_txData s) = txs ≫= encodeTx
}.

Lemma overwrite_spec buf lo bs : (lo + length bs <= length buf)%nat ->
  exists buf', overwrite buf lo bs = Ret buf' /\ length buf' = length buf /\
    take (lo + length bs) buf' = take lo buf ++ bs.
Proof.
  intros Hl. unfold overwrite. rewrite decide_True by done. eexists. split; [done|]. split.
  - rewrite !length_app, length_take, length_drop. lia.
  - rewrite app_assoc. apply take_app_length'. rewrite length_app, length_take. lia.
Qed.

Lemma AddTransaction_ok txdata fee s txs : buffer_ok s txs ->
  (exists s', AddTransaction txdata fee s = Ret (Some s') /\
     buffer_ok s' (txs ++ [MkTransactionData txdata fee]) /\ sv_txSizeLimit s' = sv_txSizeLimit s /\
     Z.of_nat (length txdata) < 2 ^ 32) \/
  AddTransaction txdata fee s = Ret None \/ AddTransaction txdata fee s = Fail errTransactionTooLarge.
Proof.
  intros [Hsize Hidx Hcount Hdata]. unfold AddTransaction.
  destruct (decide (_ \/ _)) as [|Hbig]; [by right; right|].
  destruct (decide (sv_txCount s = _)); [by right; left|].
  destruct (decide (_ > _)) as [|Hroom]; [by right; left|]. left.
  assert (sv_txIdx s + length txdata + 100 <= length (sv_txData s))%nat as Hr by lia.
  destruct (overwrite_spec (sv_txData s) (sv_txIdx s) (PutUint64 fee)) as (b1 & -> & L1 & T1).
  { rewrite length_PutUint. lia. }
  rewrite length_PutUint in T1. cbn [mbind go_bind].
  destruct (overwrite_spec b1 (sv_txIdx s + 8) (PutUint32 (u32 (Z.of_nat (length txdata)))))
    as (b2 & -> & L2 & T2).
  { rewrite length_PutUint. lia. }
  rewrite length_PutUint in T2. cbn [mbind go_bind].
  destruct (overwrite_spec b2 (sv_txIdx s + 12) txdata) as (b3 & -> & L3 & T3); [lia|].
  cbn [mbind go_bind]. eexists. split; [done|]. split; [|split; [done|lia]].
  constructor; unfold set_tx; cbn [sv_txIdx sv_txData sv_txCount sv_txSizeLimit].
  - lia.
  - lia.
  - rewrite Hcount, length_app. simpl. lia.
  - replace (sv_txIdx s + (12 + length txdata))%nat with (sv_txIdx s + 12 + length txdata)%nat by lia.
    rewrite T3. replace (sv_txIdx s + 12)%nat with (sv_txIdx s + 8 + 4)%nat by lia.
    rewrite T2, T1, Hdata, bind_app. csimpl. unfold encodeTx. by rewrite app_nil_r, <-!app_assoc.
Qed.

(** Transactions added one after the other, none of them waiting. *)
Fixpoint add_all (txs : list TransactionData) (s : Service) : go (option Service) :=
  match txs with
  | [] => Ret (Some s)
  | t :: txs =>
      o ← AddTransaction (td_Data t) (td_Fee t) s;
      match o with Some s => add_all txs s | None => Ret None end
  end.

Lemma add_all_ok txs s s' txs0 : buffer_ok s txs0 -> add_all txs s = Ret (Some s') ->
  buffer_ok s' (txs0 ++ txs) /\ Forall (fun t => Z.of_nat (length (td_Data t)) < 2 ^ 32) txs.
Proof.
  revert s txs0. induction txs as [|t txs IH]; intros s txs0 Hok H; simpl in H.
  { injection H as <-. by rewrite app_nil_r. }
  destruct (AddTransaction_ok (td_Data t) (td_Fee t) s txs0 Hok) as [(s1 & E & Hok1 & _ & Hl)|[E|E]];
    rewrite E in H; cbn [mbind go_bind] in H; [|done..].
  destruct (IH _ _ Hok1 H) as [Hok' Hf]. split; [|by constructor].
  replace (txs0 ++ t :: txs) with ((txs0 ++ [MkTransactionData (td_Data t) (td_Fee t)]) ++ txs);
    [done|]. rewrite <-app_assoc. by destruct t.
Qed.

Lemma Next_spec t pre post it : is_u64 (td_Fee t) -> Z.of_nat (length (td_Data t)) < 2 ^ 32 ->
  ti_data it = pre ++ encodeTx t ++ post -> ti_idx it = length pre ->
  Next it = Ret (MkTxIterator (u64 (ti_cur it + 1)) (ti_data it) (length (pre ++ encodeTx t))
                   (ti_total it) (td_Data t) (td_Fee t)).
Proof.
  intros Hfee Hlen Hd Hi. unfold Next. rewrite Hd, Hi. unfold encodeTx.
  rewrite (wrap_small 32) by (split; lia). rewrite <-!app_assoc.
  rewrite read_field_bind by (done || lia).
  rewrite (app_assoc pre). rewrite read_field_bind; [|simpl; lia|rewrite length_app, length_PutUint; lia|lia].
  rewrite Nat2Z.id. rewrite (app_assoc (pre ++ _)).
  replace (length pre + 8 + 4)%nat with
    (length ((pre ++ PutUint64 (td_Fee t)) ++ PutUint32 (Z.of_nat (length (td_Data t)))))
    by (rewrite !length_app, !length_PutUint; lia).
  rewrite subslice_app. cbn [mbind go_bind]. do 2 f_equal. rewrite !length_app. lia.
Qed.

Lemma iterate_spec txs pre it : Forall (fun t => is_u64 (td_Fee t)) txs ->
  Forall (fun t => Z.of_nat (length (td_Data t)) < 2 ^ 32) txs ->
  ti_data it = pre ++ (txs ≫= encodeTx) -> ti_idx it = length pre ->
  0 <= ti_cur it -> ti_total it = ti_cur it + Z.of_nat (length txs) -> ti_total it < 2 ^ 64 ->
  iterate (length txs) it = Ret txs.
Proof.
  intros Hf. revert pre it. induction Hf as [|t txs Ht Hf IH]; intros pre it Hl Hd Hi Hc Htot Hmax.
  { simpl in *. unfold tx_Valid. rewrite Htot. by rewrite Z.add_0_r, Z.ltb_irrefl. }
  apply Forall_cons in Hl as [Hlt Hl]. cbn [length iterate].
  assert (tx_Valid it = true) as -> by (apply Z.ltb_lt; simpl in Htot; lia).
  rewrite (Next_spec t pre (txs ≫= encodeTx)) by done. cbn [mbind go_bind].
  rewrite (IH (pre ++ encodeTx t)); [|done|simpl; by rewrite Hd, <-app_assoc|done| | |done].
  - cbn [mbind go_bind]. by destruct t.
  - simpl. rewrite wrap_small by (split; simpl in *; lia). lia.
  - simpl. rewrite wrap_small by (split; simpl in *; lia). simpl in Htot. lia.
Qed.

(** C19. The transactions that [AddTransaction] accepted into an empty buffer
    are exactly what iterating over the transactions of the next block yields,
    in order, with their data and fees; the buffer is never overrun. *)
Theorem transactions_roundtrip txs s s' :
  buffer_ok s [] -> add_all txs s = Ret (Some s') ->
  Forall (fun t => is_u64 (td_Fee t)) txs -> Z.of_nat (length txs) < 2 ^ 64 ->
  iterate (length txs) (Iter (blockTransactions s')) = Ret txs /\
  Z.of_nat (sv_txIdx s') <= sv_txSizeLimit s'.
Proof.
  intros Hok H Hf Hn. apply (add_all_ok txs s s' []) in H as [[Hs Hi Hc Hd] Hl]; [|done].
  split; [|lia]. apply (iterate_spec txs []); simpl in *; try done; rewrite ?Hc, ?wrap_small; try lia.
  all: split; lia.
Qed.

(** A transaction that fits the size limit, but not with the 100 bytes that
    [AddTransaction] wants to spare, waits in every state. *)
Lemma oversized_waits txdata fee s :
  Z.of_nat (length txdata) < 2 ^ 32 -> Z.of_nat (length txdata) <= sv_txSizeLimit s ->
  sv_txSizeLimit s < Z.of_nat (length txdata) + 100 ->
  AddTransaction txdata fee s = Ret None.
Proof.
  intros H1 H2 H3. unfold AddTransaction. rewrite decide_False by lia.
  destruct (decide (sv_txCount s = _)); [done|]. by rewrite decide_True by lia.
Qed.

(** ** Received blocks *)

Lemma guard_fail_bind {A} b e (k : go A) x : (guard_fail b e ≫= fun _ => k) = Ret x ->
  b = true /\ k = Ret x.
Proof. by destruct b. Qed.

Lemma fatal_Ret {A} (m : go A) x : fatal m = Ret x -> m = Ret x.
Proof. by destruct m. Qed.

Section service.
Context `{PS : Proto SignedData, PB : Proto Block, PR : Proto BlockReference}.
Context (sha512_256 : bytes -> bytes) (Verify : uint64 -> bytes -> bytes -> bool).
Context (F : Faults).

(** A reference that [processBlock] accepts in a block of [node]. *)
Definition reference_ok (s : Service) (node : uint64) (sref : SignedData) (id : BlockID) : Prop :=
  exists ref, Unmarshal (Data sref) = Ret ref /\ id = ref_id ref /\ r_Node ref ∈ sv_keys s /\
    r_Node ref <> node /\ Verify (r_Node ref) (Data sref) (Signature sref) = true.

Lemma checkReferences_ok node refs s ids : checkReferences Verify node refs s = Ret ids ->
  Forall2 (reference_ok s node) refs ids /\ getBlockData_refs refs = Ret ids.
Proof using Type.
  revert ids. induction refs as [|sref refs IH]; intros ids H; simpl in H.
  { injection H as <-. split; [constructor|done]. }
  destruct (Unmarshal (Data sref) : go BlockReference) as [ref| |] eqn:E; cbn [mbind go_bind] in H; [|done..].
  apply guard_fail_bind in H as [Hk%bool_decide_eq_true H].
  apply guard_fail_bind in H as [Hv H].
  apply guard_fail_bind in H as [Hn%bool_decide_eq_true H].
  apply go_bind_Ret in H as (ids' & H & [= <-]). destruct (IH _ H) as [Hf Hg].
  split; [constructor; [|done]; by exists ref|]. simpl. rewrite E. cbn [fatal mbind go_bind]. by rewrite Hg.
Qed.

(** The previous block that [processBlock] accepts. *)
Definition previous_ok (block : Block) (prev : BlockID) : Prop :=
  if decide (b_Round block = 1) then prev = zeroBlockID else
  exists p ref, Previous block = Some p /\ Unmarshal (Data p) = Ret ref /\ prev = ref_id ref /\
    Verify (b_Node block) (Data p) (Signature p) = true /\
    r_Node ref = b_Node block /\ u64 (r_Round ref + 1) = b_Round block.

Lemma checkPrevious_ok block prev : checkPrevious Verify block = Ret prev -> previous_ok block prev.
Proof using Type.
  unfold checkPrevious, previous_ok. case_decide; [by intros [= <-]|]. intros Hp.
  destruct (Previous block) as [p|]; cbn [mbind go_bind] in Hp; [|done].
  apply guard_fail_bind in Hp as [Hv Hp]. apply go_bind_Ret in Hp as (ref & Hu & Hp).
  apply guard_fail_bind in Hp as [Hn%bool_decide_eq_true Hp].
  apply guard_fail_bind in Hp as [Hr%bool_decide_eq_true Hp]. injection Hp as <-. by exists p, ref.
Qed.

(** C14. A block is accepted only when it is signed by a known node, its
    previous block is signed by the same node and is of the round before, and
    each block it refers to is signed by another known node.  It is then queued
    with exactly the data that [getBlockData] rebuilds from the stored block,
    so a restart queues it the same way. *)
Theorem received_block_checked signed s round s' :
  sv_processBlock sha512_256 Verify F signed s = Ret (round, s') ->
  exists block enc bd,
    Unmarshal (Data signed) = Ret block /\ round = b_Round block /\ b_Node block ∈ sv_keys s /\
    Marshal (MkBlockReference (sha512_256 (Data signed)) (b_Node block) (b_Round block)) = Ret enc /\
    Verify (b_Node block) enc (Signature signed) = true /\
    previous_ok block (bd_prev bd) /\
    Forall2 (reference_ok s (b_Node block)) (References block) (bd_deps bd) /\
    bd_id bd = MkBlockID (sha512_256 (Data signed)) (b_Node block) (b_Round block) /\
    getBlockData sha512_256 signed = Ret bd /\
    dg_in (sv_depgraph s') = dg_in (sv_depgraph s) ++ [bd] /\
    setBlock F (bd_id bd) signed (sv_store s) = Ret (sv_store s').
Proof using Type.
  unfold sv_processBlock. intros H. apply go_bind_Ret in H as (block & Hb & H).
  apply guard_fail_bind in H as [Hk%bool_decide_eq_true H].
  destruct (Marshal (MkBlockReference _ _ _)) as [enc| |] eqn:Henc; cbn [mbind go_bind] in H; [|done..].
  apply guard_fail_bind in H as [Hv H].
  apply go_bind_Ret in H as (prev & Hprev & H). apply go_bind_Ret in H as (deps & Hdeps & H).
  apply go_bind_Ret in H as (st & Hst & H). apply fatal_Ret in Hst. injection H as <- <-.
  apply checkReferences_ok in Hdeps as [Hf Hg]. pose proof (checkPrevious_ok _ _ Hprev) as Hpo.
  set (id := MkBlockID (sha512_256 (Data signed)) (b_Node block) (b_Round block)) in *.
  exists block, enc, (MkBlockData deps id prev (MkSignedData enc (Signature signed))).
  cbn [bd_prev bd_deps bd_id]. split_and!; try done.
  unfold getBlockData. rewrite Hb. cbn [fatal mbind go_bind].
  rewrite Henc. cbn [fatal mbind go_bind].
  assert ((if decide (b_Round block <> 1) then
            previous ← or_crash (Previous block);
            ref ← fatal (Unmarshal (Data previous)); Ret (ref_id ref)
           else Ret zeroBlockID) = Ret prev) as ->.
  { unfold previous_ok in Hpo. destruct (decide (b_Round block = 1)) as [E|E].
    - rewrite decide_False by tauto. by rewrite Hpo.
    - rewrite decide_True by done. destruct Hpo as (p & ref & -> & Hu & -> & _).
      cbn [or_crash mbind go_bind]. by rewrite Hu. }
  cbn [mbind go_bind]. rewrite Hg. done.
Qed.

(** ** Delivery of interpreted rounds *)

(** The last acknowledged round, 0 when there is none. *)
Definition acked (s : Service) (ack : uint64) : Prop :=
  getDeliverAcknowledged F (sv_store s) = Ret ack \/
  (getDeliverAcknowledged F (sv_store s) = Fail ErrKeyNotFound /\ ack = 0).

(** The consensus calls back with consecutive rounds, [last] being the last one;
    at some point a callback is registered, which then acknowledges rounds. *)
Inductive deliver_step : Service * uint64 -> Service * uint64 -> Prop :=
  | ds_interpreted data s s' last :
      in_Round data = last + 1 -> blockmaniaCallback F data s = Ret s' ->
      deliver_step (s, last) (s', last + 1)
  | ds_register s s' last : Register F s = Ret s' -> deliver_step (s, last) (s', last)
  | ds_acknowledge r s last : sv_cb s = true -> deliver_step (s, last) (Acknowledge F r s, last).

Definition deliver_inv (ack : uint64) (sl : Service * uint64) : Prop :=
  let '(s, last) := sl in
  ack <= last /\
  if sv_cb s then (sv_delivered s).*1 = seqZ (ack + 1) (last - ack)
  else sv_delivered s = [] /\ sv_interpreted s = last /\ acked s ack.

Lemma seqZ_snoc a n : 0 <= n -> seqZ a n ++ [a + n] = seqZ a (n + 1).
Proof using Type.
  intros Hn. rewrite seqZ_app by lia. by replace (seqZ (a + n) 1) with [a + n].
Qed.

Lemma redeliver_spec fuel i last s s' : 0 <= i -> last < 2 ^ 64 - 1 -> fuel = Z.to_nat (last + 1 - i) ->
  redeliver F fuel i last s = Ret s' ->
  sv_cb s' = sv_cb s /\ (sv_delivered s').*1 = (sv_delivered s).*1 ++ seqZ i (last + 1 - i).
Proof using Type.
  revert i s. induction fuel as [|fuel IH]; intros i s Hi Hl Hf H; cbn [redeliver] in H.
  { injection H as <-. rewrite seqZ_nil by lia. by rewrite app_nil_r. }
  rewrite decide_True in H by lia. apply go_bind_Ret in H as (blocks & _ & H).
  rewrite (wrap_small 64) in H by (split; lia). apply IH in H as [-> ->]; [|lia..].
  split; [done|]. simpl. rewrite fmap_app, <-app_assoc. f_equal.
  rewrite (seqZ_cons i) by lia. simpl. do 2 f_equal; lia.
Qed.

Lemma acked_ext s s' ack : closed (sv_store s) = closed (sv_store s') ->
  db (sv_store s) !! [roundAcknowledgedPrefix] = db (sv_store s') !! [roundAcknowledgedPrefix] ->
  acked s ack -> acked s' ack.
Proof using Type.
  intros Hc Hk. unfold acked.
  assert (getDeliverAcknowledged F (sv_store s) = getDeliverAcknowledged F (sv_store s')) as ->; [|done].
  unfold getDeliverAcknowledged, opened, view, View. rewrite Hc. destruct (closed (sv_store s')); [done|].
  rewrite !txn_bind_eq. unfold txn_Value, txn_Get, fails. rewrite Hk.
  destruct (key_err (get_err F) _); [done|]. cbn [mbind go_bind].
  destruct (db (sv_store s') !! _); [|done]. destruct (value_err F _); [done|].
  cbn [mbind go_bind]. unfold lift. by destruct (Uint64 _).
Qed.

Lemma setInterpreted_ack data st st' : setInterpreted F data st = Ret st' ->
  closed st = closed st' /\ db st !! [roundAcknowledgedPrefix] = db st' !! [roundAcknowledgedPrefix].
Proof using Type.
  intros [_ (u & db' & Hb & ->)%update_inv]%opened_inv. split; [done|].
  apply txn_bind_inv in Hb as (? & db1 & ->%txn_Set_inv & ->%txn_Set_inv). simpl. by lookups.
Qed.

Lemma callback_inv ack data s s' last : 0 <= ack -> last < 2 ^ 64 - 1 -> deliver_inv ack (s, last) ->
  in_Round data = last + 1 -> blockmaniaCallback F data s = Ret s' -> deliver_inv ack (s', last + 1).
Proof using Type.
  intros Hack Hmax [Hle Hinv] Hr Hcb. unfold blockmaniaCallback in Hcb.
  set (s1 := match setInterpreted F data (sv_store s) with Ret st => set_store st s | _ => s end) in *.
  assert (sv_cb s1 = sv_cb s /\ sv_delivered s1 = sv_delivered s /\
          (acked s ack -> acked s1 ack)) as (E1 & E2 & E3).
  { unfold s1. destruct (setInterpreted F data (sv_store s)) as [st| |] eqn:E; [|done..].
    split_and!; [done..|]. apply setInterpreted_ack in E as [??]. by apply acked_ext. }
  split; [lia|]. rewrite E1 in Hcb. destruct (sv_cb s) eqn:Ecb.
  - apply go_bind_Ret in Hcb as (blocks & _ & [= <-]). simpl. rewrite E1, E2, fmap_app, Hinv, Hr. simpl.
    replace (last + 1) with (ack + 1 + (last - ack)) at 1 by lia. rewrite seqZ_snoc by lia. f_equal. lia.
  - injection Hcb as <-. simpl. rewrite E1, E2. destruct Hinv as (? & ? & ?). split_and!; [done|done|].
    by apply E3.
Qed.

Lemma register_inv ack s s' last : 0 <= ack -> last < 2 ^ 64 - 1 -> deliver_inv ack (s, last) ->
  Register F s = Ret s' -> deliver_inv ack (s', last).
Proof using Type.
  intros Hack Hmax [Hle Hinv] Hr. split; [done|]. unfold Register in Hr.
  destruct (sv_cb s) eqn:Ecb; [done|]. destruct Hinv as (Hd & Hi & Ha).
  apply go_bind_Ret in Hr as (ack' & Hk & Hr).
  assert (ack' = ack) as ->.
  { change (sv_store (set_cb true s)) with (sv_store s) in Hk.
    destruct Ha as [Ha|[Ha ->]]; rewrite Ha in Hk; [congruence|].
    by rewrite decide_True in Hk by done; injection Hk as <-. }
  change (sv_interpreted (set_cb true s)) with (sv_interpreted s) in Hr. rewrite Hi in Hr.
  rewrite (wrap_small 64) in Hr by (split; lia).
  apply redeliver_spec in Hr as [-> ->]; [|lia..]. simpl. rewrite Hd. simpl. f_equal. lia.
Qed.

(** C8. Interpreted rounds are delivered in order, each once and none left
    out: whenever the callback is registered, the rounds it got are all rounds
    after the last acknowledged one up to the last interpreted one. *)
Theorem delivery_in_order s0 s last0 last ack :
  sv_cb s0 = false -> sv_delivered s0 = [] -> sv_interpreted s0 = last0 -> acked s0 ack ->
  0 <= ack <= last0 -> rtc deliver_step (s0, last0) (s, last) -> last < 2 ^ 64 - 1 ->
  sv_cb s = true -> (sv_delivered s).*1 = seqZ (ack + 1) (last - ack).
Proof using Type.
  intros Hcb Hd Hi Ha Hack Hsteps Hmax Hreg.
  assert (deliver_inv ack (s, last)) as [_ Hinv]; [|by rewrite Hreg in Hinv].
  assert (forall sl sl', rtc deliver_step sl sl' -> deliver_inv ack sl -> sl'.2 < 2 ^ 64 - 1 ->
            sl.2 <= sl'.2 /\ deliver_inv ack sl') as Hind.
  { induction 1 as [|sl1 sl2 sl3 Hstep Hsteps' IH]; intros Hinv Hm; [done|].
    assert (sl1.2 <= sl2.2 /\ (sl2.2 < 2 ^ 64 - 1 -> deliver_inv ack sl2)) as [Hle Hnext].
    { destruct Hstep as [data s1 s2 l Hr Hc|s1 s2 l Hr|r s1 l Hc]; simpl; split; try lia; intros Hl.
      - eapply callback_inv; [lia| |exact Hinv|done|done]. lia.
      - by eapply register_inv; [lia| |exact Hinv|].
      - destruct Hinv as [? Hinv]. split; [done|]. unfold Acknowledge.
        destruct (setDeliverAcknowledged F r (sv_store s1)); simpl; rewrite Hc in *; done. }
    assert (sl2.2 <= sl3.2) as Hmono.
    { clear -Hsteps'. induction Hsteps' as [|a b c Hab _ IH]; [done|]. destruct Hab; simpl in *; lia. }
    destruct IH as [??]; [apply Hnext; lia|done|]. split; [lia|done]. }
  apply (Hind (s0, last0)); [done| |done]. split; [lia|]. rewrite Hcb. by split_and!.
Qed.
End service.
