(* ===== verification/BroadcastRun.v ===== *)
(** * BroadcastRun: runs of the broadcast service on concrete inputs *)
From S2P Require Import Prelude Messages Graph Lexinum Codec Database BroadcastStore.
From S2P Require Import BroadcastExample Depgraph Broadcast BroadcastProps.

(** Serialisers of blocks without references and of block references. *)
#[export] Instance BlockReference_Proto : Proto BlockReference := {|
  Marshal r := Ret (r_Node r :: r_Round r :: r_Hash r);
  Unmarshal b :=
    match b with
    | node :: round :: hash => Ret (MkBlockReference hash node round)
    | _ => Fail "unexpected EOF"
    end
|}.
#[export] Instance Block_Proto : Proto Block := {|
  Marshal b :=
    Ret (b_Node b :: b_Round b :: match Previous b with Some p => Data p ++ [0] ++ Signature p | None => [] end);
  Unmarshal b :=
    match b with
    | [node; round] => Ret (MkBlock node None [] round None)
    | node :: round :: p => Ret (MkBlock node (Some (MkSignedData (take 3 p) (drop 4 p))) [] round None)
    | _ => Fail "unexpected EOF"
    end
|}.

(** A signature is the signed data followed by the signer. *)
Definition Verify (node : uint64) (data sig : bytes) : bool := bool_decide (sig = data ++ [node]).
Definition sha (d : bytes) : bytes := [foldr Z.add 7 d].

Definition service : Service :=
  MkService false [] (MkDepgraph ∅ [] ∅ [] ∅ 1 ∅) (New (MkConfig 0 [1; 2; 3; 4] 1 4)) 0 {[1; 2; 3; 4]} 10 10000 1
    (MkOwnBlocks ∅ 0) [] None 1000 ∅ 0 ∅ empty 0 10 (replicate 300 0) 0 300.

Definition txs : list TransactionData :=
  [MkTransactionData [1; 2; 3] 5; MkTransactionData [] 0; MkTransactionData [4] 70000].
Definition after_txs : Service :=
  match add_all txs service with Ret (Some s) => s | _ => service end.

Lemma transactions_roundtrip_witness :
  iterate 3 (Iter (blockTransactions after_txs)) = Ret txs /\
  Z.of_nat (sv_txIdx after_txs) <= sv_txSizeLimit after_txs.
Proof.
  apply (transactions_roundtrip txs service after_txs).
  - constructor; [by vm_compute|apply Nat.le_0_l|done|done].
  - by vm_compute.
  - repeat constructor; by vm_compute.
  - by vm_compute.
Defined.

(** The second block of node 2, which follows a block with hash 10. *)
Definition second : SignedData :=
  MkSignedData [2; 2; 2; 1; 10; 0; 2; 1; 10; 2] [2; 2; 39; 2].

Lemma received_block_checked_witness :
  exists round s', sv_processBlock sha Verify noFaults second service = Ret (round, s') /\
  exists bd, bd_prev bd = MkBlockID [10] 2 1 /\ getBlockData sha second = Ret bd /\
    dg_in (sv_depgraph s') = dg_in (sv_depgraph service) ++ [bd].
Proof.
  destruct (sv_processBlock sha Verify noFaults second service) as [[round s']| |] eqn:E;
    [|by vm_compute in E..].
  exists round, s'. split; [done|].
  destruct (received_block_checked sha Verify noFaults second service round s' E)
    as (block & enc & bd & Hb & Hr & _ & _ & _ & Hp & _ & _ & Hg & Hin & _).
  exists bd. split_and!; [|exact Hg|exact Hin].
  assert (block = MkBlock 2 (Some (MkSignedData [2; 1; 10] [2; 1; 10; 2])) [] 2 None) as ->.
  { vm_compute in Hb. by injection Hb. }
  unfold previous_ok in Hp. cbn in Hp. destruct Hp as (p & ref & [= <-] & Hu & -> & _).
  cbn in Hu. injection Hu as <-. done.
Defined.

(** Round 1 is interpreted, then a callback is registered, then round 2. *)
Definition got (m : go Service) : Service := match m with Ret s => s | _ => service end.
Definition s1 : Service := got (blockmaniaCallback noFaults (MkInterpreted [] 0 1) service).
Definition s2 : Service := got (Register noFaults s1).
Definition s3 : Service := got (blockmaniaCallback noFaults (MkInterpreted [] 1 2) s2).

Lemma delivery_in_order_witness : (sv_delivered s3).*1 = [1; 2].
Proof.
  change [1; 2] with (seqZ (0 + 1) (2 - 0)).
  apply (delivery_in_order noFaults service s3 0 2 0).
  - done.
  - done.
  - done.
  - right. by vm_compute.
  - lia.
  - eapply rtc_l; [apply (ds_interpreted noFaults (MkInterpreted [] 0 1) service s1 0); by vm_compute|].
    eapply rtc_l; [apply (ds_register noFaults s1 s2); by vm_compute|].
    eapply rtc_l; [apply (ds_interpreted noFaults (MkInterpreted [] 1 2) s2 s3 1); by vm_compute|].
    apply rtc_refl.
  - lia.
  - by vm_compute.
Defined.
