(* ===== verification/BroadcastSync.v ===== *)
(** * BroadcastSync: the goroutines of the broadcast service

    Model of the parts of [src/broadcast/broadcast.go] that talk to peers and
    that start the service, and of [src/broadcast/replay.go].  A connection is
    what it makes of a request: a response, or [None] for an error of the write
    or of the read.  An iteration of a loop is a function; between two of its
    calls other goroutines may change the service. *)
From S2P Require Import Prelude Messages Graph Lexinum Codec Database BroadcastStore.
From S2P Require Import Depgraph Config Broadcast.

(** ** Pauses between attempts to reach a peer

    The outer loops of [fillMissingBlocks] and [maintainBroadcast] share this
    code.  Durations are signed 64-bit integers. *)

Definition i64 (x : Z) : Z := to_int (u64 x).

(** How an iteration of the outer loop ends before the inner loop. *)
Inductive dialing := DialFailed | HelloFailed | HelloUnsent | Connected.

Record attempt := MkAttempt { at_backoff : Z; at_retry : bool }.

(** The pause at the start of an iteration, and the state after the dialing. *)
Definition pause (maxBackoff : Z) (a : attempt) : attempt :=
  if at_retry a then
    let backoff := i64 (at_backoff a * 2) in
    MkAttempt (if decide (backoff > maxBackoff) then maxBackoff else backoff) false
  else a.

Definition connect (initialBackoff maxBackoff : Z) (d : dialing) (a : attempt) : attempt :=
  let a := pause maxBackoff a in
  match d with
  | DialFailed => MkAttempt (at_backoff a) true
  | HelloFailed | HelloUnsent => MkAttempt initialBackoff true
  | Connected => MkAttempt initialBackoff false
  end.

(** The rate limit of [genBlocks]; [decrease] multiplies by [rateDecr]. *)
Definition nextRate (decrease : goint -> goint) (initialRate rateIncr : goint) (late : bool)
    (rate : goint) : goint :=
  if late then
    let rate := decrease rate in if decide (rate < initialRate) then initialRate else rate
  else i64 (rate + rateIncr).

(** What an iteration of an inner loop does next: wait for new work, go on at
    once, leave the loop to connect again, or end the goroutine. *)
Inductive next := Wait | Again | Reconnect | Stop.

(** The variables [rounds] and [latest] of [fillMissingBlocks]; a nil slice is
    the empty list. *)
Record filler := MkFiller { fl_rounds : list uint64; fl_latest : uint64 }.

Record sv_Config := MkSvConfig {
  cf_Keys : gset uint64; cf_MaxPayload : goint; cf_RefLimit : uint64; cf_TxLimit : uint64;
  cf_NodeID : uint64; cf_Peers : list uint64; cf_InitialRate : goint }.

Section sync.
Context `{PS : Proto SignedData, PB : Proto Block, PR : Proto BlockReference}.
Context `{PA : Proto AckBroadcast, PGB : Proto GetBlocks, PGR : Proto GetRounds, PL : Proto ListBlocks}.
Context (sha512_256 : bytes -> bytes).
Context (Verify : uint64 -> bytes -> bytes -> bool).
Context (F : Faults).

(** ** [fillMissingBlocks] *)

(** The rounds to ask for; with [Some] the iteration ends without a request. *)
Definition fill_choose (peerID : uint64) (f : filler) (s : Service) : go (option next * filler * Service) :=
  match fl_rounds f with
  | _ :: _ => Ret (None, f, s)
  | [] =>
      let info := rm_get peerID (sv_received s) in
      if decide (latest info = sequence info) then Ret (Some Wait, f, s) else
      '(rounds, lat) ← fatal (getMissing peerID (sequence info) (sv_maxBlocks s) (sv_store s));
      match rounds with
      | [] =>
          Ret (Some Again, MkFiller [] lat,
               if decide (lat <> sequence info /\ lat <> 0)
               then set_received (rm_setSequence peerID lat (sv_received s)) s else s)
      | _ :: _ => Ret (None, MkFiller rounds lat, s)
      end
  end.

Definition fill_request (f : filler) : go Message :=
  data ← fatal (Marshal (MkGetRounds (fl_rounds f)));
  Ret (MkMessage OP_GET_ROUNDS data).

(** The loop over the received blocks: the rounds of those that are accepted. *)
Fixpoint fill_process (blocks : list (option SignedData)) (seen : gset uint64) (s : Service)
    : go (gset uint64 * Service) :=
  match blocks with
  | [] => Ret (seen, s)
  | None :: _ => Crash
  | Some block :: blocks =>
      match sv_processBlock sha512_256 Verify F block s with
      | Ret (round, s) => fill_process blocks ({[round]} ∪ seen) s
      | Fail _ => fill_process blocks seen s
      | Crash => Crash
      end
  end.

(** The loop over the requested rounds: [latestSeen] and [missing]. *)
Definition fill_scan (seen : gset uint64) (rounds : list uint64) : uint64 * list uint64 :=
  foldl (fun '(latestSeen, missing) round =>
           if decide (round ∈ seen) then (round, missing) else (latestSeen, missing ++ [round]))
        (0, []) rounds.

Definition fill_response (peerID : uint64) (resp : option Message) (f : filler) (s : Service)
    : go (next * filler * Service) :=
  match resp with
  | None => Ret (Reconnect, f, s)
  | Some msg =>
      match Unmarshal (Payload msg) : go ListBlocks with
      | Ret (MkListBlocks []) => Ret (Reconnect, f, s)
      | Ret (MkListBlocks blocks) =>
          '(seen, s) ← fill_process blocks ∅ s;
          let '(latestSeen, missing) := fill_scan seen (fl_rounds f) in
          let s := if decide (latestSeen <> 0) then
                     if decide (missing <> [])
                     then set_received (rm_setSequence peerID (fl_latest f) (sv_received s)) s
                     else set_received (rm_setSequence peerID latestSeen (sv_received s)) s
                   else s in
          Ret (Again, MkFiller missing (fl_latest f), s)
      | Fail _ => Ret (Reconnect, f, s)
      | Crash => Crash
      end
  end.

(** An iteration of the inner loop on a connection to [peer]. *)
Definition fill_step (peerID : uint64) (peer : Message -> option Message) (f : filler) (s : Service)
    : go (next * filler * Service) :=
  '(n, f, s) ← fill_choose peerID f s;
  match n with
  | Some n => Ret (n, f, s)
  | None => msg ← fill_request f; fill_response peerID (peer msg) f s
  end.

(** ** [maintainBroadcast] *)

Definition broadcast_request (blocks : list SignedData) : go Message :=
  data ← fatal (Marshal (MkListBlocks (Some <$> blocks)));
  Ret (MkMessage OP_BROADCAST data).

Definition broadcast_ack (peerID : uint64) (resp : option Message) (s : Service) : go (next * Service) :=
  match resp with
  | None => Ret (Reconnect, s)
  | Some msg =>
      match Unmarshal (Payload msg) : go AckBroadcast with
      | Ret ack => Ret (Again, markSent peerID (Last ack) s)
      | Fail _ => Ret (Reconnect, s)
      | Crash => Crash
      end
  end.

Definition broadcast_step (peerID : uint64) (peer : Message -> option Message) (s : Service)
    : go (next * Service) :=
  '(blocks, s) ← getUnsent F peerID s;
  match blocks with
  | None => Ret (Stop, s)
  | Some [] => Ret (Wait, s)
  | Some blocks =>
      msg ← broadcast_request blocks;
      broadcast_ack peerID (peer msg) s
  end.

(** ** Writing the maps to the store; errors are ignored *)

Definition writeReceivedMap (s : Service) : Service :=
  match setReceivedMap F (sv_received s) (sv_store s) with Ret st => set_store st s | _ => s end.

Definition writeSentMap (s : Service) : Service :=
  match setSentMap F (sv_sent s) (sv_store s) with Ret st => set_store st s | _ => s end.

(** ** Start *)

(** A value of the database, [d] when there is none; other errors are fatal. *)
Definition or_absent {A} (m : go A) (d : A) : go A :=
  match m with
  | Ret x => Ret x
  | Fail e => if decide (e = ErrKeyNotFound) then Ret d else Crash
  | Crash => Crash
  end.

Definition loadState (fuel : nat) (peers : list uint64) (totalNodes : uint64) (s : Service) : go Service :=
  let st := sv_store s in
  '(round, prevhash, prevref) ← or_absent
     ('(round, hash, ref) ← getLastRoundData F st; Ret (round, hash, Some ref)) (0, [], None);
  '(interpreted, consumed) ← or_absent (getLastInterpreted F st) (0, 0);
  rmap ← or_absent (getReceivedMap F st) (list_to_map ((fun p => (p, MkReceivedInfo 0 0)) <$> peers));
  sent ← or_absent (getSentMap F st) (list_to_map ((fun p => (p, 0)) <$> peers));
  let nodes := merge_sort Z.le (sv_nodeID s :: peers) in
  let s := set_depgraph (MkDepgraph ∅ [] ∅ [] ∅ (sv_nodeID s) ∅) s in
  let s := set_graph (Graph.New (MkConfig interpreted nodes (sv_nodeID s) totalNodes)) s in
  let s := set_interpreted interpreted s in
  let s := set_last prevhash prevref round s in
  let s := set_received rmap s in
  let s := set_sent sent s in
  replayGraphChanges sha512_256 F fuel consumed s.

(** [New] on the contents of the database, up to the start of the goroutines;
    [loadState] replaces the graphs, which are nil before it. *)
Definition sv_New (fuel : nat) (totalNodes : uint64) (cfg : sv_Config) (db : contents) : go Service :=
  refSizeLimit ← Int (cf_RefLimit cfg);
  txSizeLimit ← Int (cf_TxLimit cfg);
  let perBlock := i64 (i64 (refSizeLimit + txSizeLimit) + 100) in
  if decide (perBlock = 0) then Crash else
  let st := MkStore false db (Z.of_nat (length (cf_Peers cfg)) + 1) in
  loadState fuel (cf_Peers cfg) totalNodes
    (MkService false [] (MkDepgraph ∅ [] ∅ [] ∅ 0 ∅) (Graph.New (MkConfig 0 [] 0 0)) 0 (cf_Keys cfg)
       (Z.quot (cf_MaxPayload cfg) perBlock) (cf_MaxPayload cfg) (cf_NodeID cfg) (MkOwnBlocks ∅ 0) []
       None refSizeLimit ∅ 0 ∅ st 0 (cf_InitialRate cfg) (replicate (Z.to_nat txSizeLimit) 0) 0 txSizeLimit).

(** ** [replay.go] *)

(** The loop over batches of block graphs; the parameter [start] of [Replay] is
    not used.  The loop has not returned when the fuel is used up. *)
Fixpoint Replay_loop (fuel : nat) (nodeID from : uint64) (batch : goint) (st : store) (g : Graph)
    : go Graph :=
  match fuel with
  | O => Crash
  | S fuel =>
      blocks ← getBlockGraphs F nodeID from batch st;
      let g := foldl (fun g b => Graph.Add b g) g blocks in
      if decide (Z.of_nat (length blocks) < batch) then Ret g
      else Replay_loop fuel nodeID (u64 (from + u64 batch)) batch st g
  end.

Definition Replay (fuel : nat) (nodeID : uint64) (g : Graph) (start : uint64) (batch : goint)
    (db : contents) : go Graph :=
  Replay_loop fuel nodeID 0 batch (MkStore false db 0) g.
End sync.
