(* ===== verification/BroadcastSyncProps.v ===== *)
(** * BroadcastSyncProps: what the goroutines of the broadcast service achieve

    The sequence number kept for a peer says up to which round all its blocks
    are stored or are still being asked for by the goroutine.  After a partial
    answer only the goroutine knows of the others, which a restart forgets.  A
    request for more rounds than fit a payload is refused.  Broadcasting to a peer
    makes progress. *)
From S2P Require Import Prelude Messages Graph Lexinum Codec Database BroadcastStore BroadcastStoreProps.
From S2P Require Import BroadcastStoreData BroadcastStoreScan Depgraph Config Broadcast BroadcastProps BroadcastSync.

(** Every block that has a mark is stored. *)
Definition marked (db : contents) : Prop := forall id,
  id_width id -> is_Some (db !! includedKey id) -> is_Some (db !! blockKey id).

(** ** Pauses *)

Lemma i64_small x : - 2 ^ 63 <= x < 2 ^ 63 -> i64 x = x.
Proof.
  intros Hx. unfold i64, to_int, wrap. destruct (decide (0 <= x)).
  - rewrite Z.mod_small by lia. by rewrite decide_True by lia.
  - replace (x mod 2 ^ 64) with (x + 2 ^ 64).
    + rewrite decide_False by lia. lia.
    + apply (Z.mod_unique _ _ (-1)); lia.
Qed.

(** C28. While a peer cannot be dialed the pauses double from the initial one up
    to the maximal one: after [n + 1] failures the pause is the smaller of
    [initial * 2^n] and the maximum, without overflow. *)
Theorem backoff_doubles initial max n : 0 <= initial <= max -> max < 2 ^ 62 ->
  Nat.iter (S n) (connect initial max DialFailed) (MkAttempt initial false) =
  MkAttempt (Z.min max (initial * 2 ^ Z.of_nat n)) true.
Proof.
  intros Hi Hm. induction n as [|n IH].
  { cbn. by rewrite Z.mul_1_r, Z.min_r by lia. }
  rewrite Nat.iter_succ, IH. unfold connect, pause. cbn [at_retry at_backoff].
  pose proof (Z.pow_pos_nonneg 2 (Z.of_nat n) ltac:(lia) ltac:(lia)) as Hp.
  rewrite Nat2Z.inj_succ, Z.pow_succ_r by lia. rewrite i64_small by nia.
  f_equal. case_decide; nia.
Qed.

Lemma backoff_doubles_witness :
  Nat.iter 5 (connect 1000 10000 DialFailed) (MkAttempt 1000 false) = MkAttempt 10000 true.
Proof. apply (backoff_doubles 1000 10000 4); lia. Defined.

(** ** Stored blocks *)

Section store.
Context `{PS : Proto SignedData}.

Lemma setBlock_stored F id block s s' : id_width id -> setBlock F id block s = Ret s' -> marked (db s) ->
  marked (db s') /\ stored (db s') (Node id) (Round id) /\
  (forall n r, stored (db s') n r <-> stored (db s) n r \/ n = Node id /\ r = Round id).
Proof using Type.
  intros Hid (_ & val & _ & ->)%setBlock_inv Hm. cbn [set_db db].
  destruct (db s !! includedKey id) as [v|] eqn:E.
  - assert (is_Some (db s !! blockKey id)) as Hs by (apply Hm; [done|by rewrite E]).
    split_and!; [done|by exists id|]. intros n r. split; [tauto|]. intros [?|[-> ->]]; [done|by exists id].
  - assert (forall p x, idKey p x = idKey p id -> id_width x -> x = id) as Hinj by (intros; by eapply idKey_inj).
    assert (forall x, is_Some ((<[blockKey id := val]> (<[notIncludedKey id := []]>
              (<[includedKey id := [0]]> (db s)))) !! blockKey x) <->
              blockKey x = blockKey id \/ is_Some (db s !! blockKey x)) as Hb.
    { intros x. destruct (decide (blockKey x = blockKey id)) as [->|Hne].
      - rewrite lookup_insert_eq. naive_solver.
      - rewrite lookup_insert_ne by congruence. lookups. naive_solver. }
    split_and!.
    + intros x Hx Hi. rewrite Hb. destruct (decide (x = id)) as [->|Hne]; [by left|]. right.
      apply Hm; [done|]. rewrite !lookup_insert_ne in Hi; [done|..|key_ne|key_ne].
      intros He. symmetry in He. by apply Hinj in He.
    + exists id. split_and!; [done..|]. rewrite Hb. by left.
    + intros n r. split.
      * intros (x & Hx & <- & <- & [He|Hs]%Hb); [apply Hinj in He as ->; [by right|done]|left; by exists x].
      * intros [(x & Hx & <- & <- & Hs)|[-> ->]]; [exists x|exists id]; split_and!; try done; rewrite Hb; tauto.
Qed.
End store.

(** ** Missing rounds *)

Lemma rm_get_insert n x i r : rm_get n (<[x := i]> r) = if decide (n = x) then i else rm_get n r.
Proof.
  unfold rm_get. case_decide as E; [subst; by rewrite lookup_insert_eq|by rewrite lookup_insert_ne].
Qed.

Lemma fill_scan_spec seen rounds :
  fill_scan seen rounds =
  (default 0 (last (filter (fun r => r ∈ seen) rounds)), filter (fun r => r ∉ seen) rounds).
Proof.
  unfold fill_scan. induction rounds as [|r rounds IH] using rev_ind; [done|].
  rewrite foldl_app, IH. cbn [foldl]. rewrite !filter_app, !filter_cons, !filter_nil.
  destruct (decide (r ∈ seen)) as [Hs|Hs].
  - by rewrite (decide_False (P := r ∉ seen)) by tauto; rewrite app_nil_r, last_snoc.
  - by rewrite (decide_True (P := r ∉ seen)) by done; rewrite app_nil_r.
Qed.

Lemma filter_id {A} (P : A -> Prop) `{!forall x, Decision (P x)} (l : list A) :
  (forall x, x ∈ l -> P x) -> filter P l = l.
Proof.
  induction l as [|x l IH]; intros Hp; [done|]. rewrite filter_cons, decide_True by (apply Hp; left).
  f_equal. apply IH. intros y Hy. apply Hp. by right.
Qed.

Section fill.
Context `{PS : Proto SignedData, PB : Proto Block, PR : Proto BlockReference}.
Context `{PA : Proto AckBroadcast, PGB : Proto GetBlocks, PGR : Proto GetRounds, PL : Proto ListBlocks}.
Context (sha512_256 : bytes -> bytes) (Verify : uint64 -> bytes -> bytes -> bool) (F : Faults).
(** The fields of a decoded block have their widths. *)
Context (Hwidth : forall data (block : Block), Unmarshal data = Ret block ->
           is_u64 (b_Node block) /\ is_u64 (b_Round block)).

Lemma processBlock_effect signed s round s' :
  sv_processBlock sha512_256 Verify F signed s = Ret (round, s') ->
  exists block, Unmarshal (Data signed) = Ret block /\ round = b_Round block /\
    setBlock F (MkBlockID (sha512_256 (Data signed)) (b_Node block) round) signed (sv_store s) =
      Ret (sv_store s') /\
    sv_received s' = rm_set (b_Node block) round (sv_received s) /\ sv_maxBlocks s' = sv_maxBlocks s.
Proof using Type.
  unfold sv_processBlock. intros H. apply go_bind_Ret in H as (block & Hb & H).
  apply guard_fail_bind in H as [_ H].
  destruct (Marshal (MkBlockReference _ _ _)); cbn [mbind go_bind] in H; [|done..].
  apply guard_fail_bind in H as [_ H]. apply go_bind_Ret in H as (prev & _ & H).
  apply go_bind_Ret in H as (deps & _ & H). apply go_bind_Ret in H as (st & Hst & H).
  apply fatal_Ret in Hst. injection H as <- <-. by exists block.
Qed.

(** All rounds of the peer up to the sequence number are stored, or are among [ms]. *)
Definition covers (peerID : uint64) (ms : list uint64) (s : Service) (bound : uint64) : Prop :=
  0 <= bound < 2 ^ 64 - 1 /\ forall r, 0 < r <= bound -> stored (db (sv_store s)) peerID r \/ r ∈ ms.
Definition seq_ok (peerID : uint64) (ms : list uint64) (s : Service) : Prop :=
  covers peerID ms s (sequence (rm_get peerID (sv_received s))).

Lemma covers_mono peerID ms ms' s s' bound :
  (forall r, stored (db (sv_store s)) peerID r -> stored (db (sv_store s')) peerID r) ->
  (forall r, r ∈ ms -> r ∈ ms' \/ stored (db (sv_store s')) peerID r) ->
  covers peerID ms s bound -> covers peerID ms' s' bound.
Proof using Type. intros Hs Hm [Hb Hc]. split; [done|]. intros r [?|?]%Hc; [auto|]. destruct (Hm r); auto. Qed.

(** A received block, if it can be decoded, is one of the peer; its round is not
    the last one. *)
Definition of_peer (peerID : uint64) (b : option SignedData) : Prop :=
  forall signed block, b = Some signed -> Unmarshal (Data signed) = Ret block -> b_Node block = peerID.
Definition below_max (b : option SignedData) : Prop :=
  forall signed block, b = Some signed -> Unmarshal (Data signed) = Ret block -> b_Round block < 2 ^ 64 - 1.

Lemma processBlock_stored peerID signed s round s' :
  sv_processBlock sha512_256 Verify F signed s = Ret (round, s') -> marked (db (sv_store s)) ->
  marked (db (sv_store s')) /\ (forall ms, below_max (Some signed) -> seq_ok peerID ms s -> seq_ok peerID ms s') /\
  (of_peer peerID (Some signed) -> stored (db (sv_store s')) peerID round) /\
  (forall n r, stored (db (sv_store s)) n r -> stored (db (sv_store s')) n r) /\
  (forall n r, stored (db (sv_store s')) n r -> stored (db (sv_store s)) n r \/ r = round).
Proof using Hwidth.
  intros (block & Hb & -> & Hs & Hr & _)%processBlock_effect Hm. destruct (Hwidth _ _ Hb) as [Hn Hro].
  apply setBlock_stored in Hs as (Hm' & Hst & Hiff); [|done..]. cbn [Node Round] in *. split_and!; [done| | | |].
  - intros ms Hmax [Hq Hall]. specialize (Hmax _ _ eq_refl Hb). unfold seq_ok. rewrite Hr. unfold rm_set. rewrite rm_get_insert.
    assert (covers peerID ms s' (sequence (rm_get peerID (sv_received s)))) as Hc.
    { apply (covers_mono peerID ms ms s s'); [intros; apply Hiff; auto|auto|done]. }
    case_decide as Ep; [|done]. subst peerID. set (info := rm_get (b_Node block) _) in *.
    set (info1 := if decide (latest info < _) then _ else info).
    assert (sequence info1 = sequence info) as E1 by (unfold info1; by case_decide). rewrite E1.
    case_decide as Es; cbn [sequence]; [|by rewrite E1].
    destruct Hro. split; [lia|]. intros r Hr0. destruct (decide (r = b_Round block)) as [->|]; [by left|].
    apply Hc. unfold wrap in Es. rewrite Z.mod_small in Es by lia. lia.
  - intros Hp. by rewrite <-(Hp _ _ eq_refl Hb).
  - intros n r ?. apply Hiff. by left.
  - intros n r [?|[_ ?]]%Hiff; auto.
Qed.

Lemma fill_process_spec peerID blocks seen s seen' s' :
  fill_process sha512_256 Verify F blocks seen s = Ret (seen', s') -> marked (db (sv_store s)) ->
  seen ⊆ seen' /\ (forall ms, Forall below_max blocks -> seq_ok peerID ms s -> seq_ok peerID ms s') /\
  (Forall (of_peer peerID) blocks -> forall r, r ∈ seen' -> r ∈ seen \/ stored (db (sv_store s')) peerID r) /\
  (forall n r, stored (db (sv_store s)) n r -> stored (db (sv_store s')) n r) /\
  (forall n r, stored (db (sv_store s')) n r -> stored (db (sv_store s)) n r \/ r ∈ seen').
Proof using Hwidth.
  revert seen s. induction blocks as [|[b|] blocks IH]; intros seen s H Hm; cbn [fill_process] in H; [| |done].
  { injection H as <- <-. split_and!; auto. }
  destruct (sv_processBlock _ _ _ _ s) as [[round s1]| |] eqn:E; [| |done].
  - destruct (processBlock_stored peerID _ _ _ _ E Hm) as (Hm1 & Hq1 & Hp1 & Hs1 & Hn1).
    destruct (IH _ _ H Hm1) as (Hsub & Hq & Hp & Hs & Hn). split_and!; auto.
    + set_solver.
    + intros ms [Hb Hbs]%Forall_cons Hms. auto.
    + intros [Hb Hbs]%Forall_cons r Hr. destruct (Hp Hbs r Hr) as [Hr'|?]; [|by right].
      apply elem_of_union in Hr' as [->%elem_of_singleton|?]; [|by left]. right. by apply Hs, Hp1.
    + intros n r [Hr|?]%Hn; [|by right]. apply Hn1 in Hr as [?| ->]; [by left|right]. set_solver.
  - destruct (IH _ _ H Hm) as (Hsub & Hq & Hp & Hs & Hn). split_and!; auto.
    + intros ms [_ Hbs]%Forall_cons. by apply Hq.
    + intros [_ Hbs]%Forall_cons. by apply Hp.
Qed.

(** What is assumed of the service when it asks [peerID] for missing rounds. *)
Record fill_ready (peerID : uint64) (s : Service) : Prop := {
  fr_peer : is_u64 peerID;
  fr_limit : 0 <= sv_maxBlocks s;
  fr_open : closed (sv_store s) = false;
  fr_wf : blocks_wf (db (sv_store s));
  fr_marked : marked (db (sv_store s));
  fr_seq : 0 <= sequence (rm_get peerID (sv_received s)) < 2 ^ 64 - 1
}.

(** The rounds that a new request asks for. *)
Lemma fill_choose_spec peerID lat s f s1 : fill_ready peerID s ->
  fill_choose peerID (MkFiller [] lat) s = Ret (None, f, s1) ->
  let since := sequence (rm_get peerID (sv_received s)) in
  s1 = s /\ fl_rounds f <> [] /\
  (forall r, r ∈ fl_rounds f -> missing (db (sv_store s)) peerID since r /\ r <= fl_latest f) /\
  (forall r, since < r <= fl_latest f -> stored (db (sv_store s)) peerID r \/ r ∈ fl_rounds f) /\
  (forall r, missing (db (sv_store s)) peerID since r -> r ∈ fl_rounds f \/
     Z.of_nat (length (fl_rounds f)) = sv_maxBlocks s + 1) /\ StronglySorted Z.lt (fl_rounds f) /\
  since <= fl_latest f < 2 ^ 64 - 1.
Proof using Type.
  intros [Hp Hl Hc Hwf _ Hseq]. unfold fill_choose. cbn [fl_rounds]. case_decide; [done|].
  destruct (getMissing_found (sv_store s) peerID _ Hp Hseq Hwf (sv_maxBlocks s) Hc Hl)
    as (rounds & latest & -> & Hsort & _ & Hm & Hall & Hbd & Hle & Hreach).
  cbn [fatal mbind go_bind]. destruct rounds as [|r0 rounds]; [done|]. intros [= <- <-]. cbn [fl_rounds fl_latest].
  split_and!; try done; try lia; [intros r Hr; split; auto|]. intros r Hr. destruct (Hall r Hr) as [?|[? _]]; auto.
Qed.

(** The same when nothing is asked for. *)
Lemma fill_choose_none peerID lat s n f s1 : fill_ready peerID s ->
  fill_choose peerID (MkFiller [] lat) s = Ret (Some n, f, s1) -> seq_ok peerID [] s ->
  fl_rounds f = [] /\ sv_store s1 = sv_store s /\ sv_maxBlocks s1 = sv_maxBlocks s /\ seq_ok peerID [] s1.
Proof using Type.
  intros [Hp Hl Hc Hwf _ Hseq]. unfold fill_choose. cbn [fl_rounds]. case_decide; [by intros [= _ <- <-]|].
  destruct (getMissing_found (sv_store s) peerID _ Hp Hseq Hwf (sv_maxBlocks s) Hc Hl)
    as (rounds & latest & -> & _ & _ & _ & _ & Hb & _ & Hreach).
  cbn [fatal mbind go_bind]. destruct rounds as [|r0 rounds]; [|done]. intros [= _ <- <-] [Hq Hall].
  case_decide; [|done]. split_and!; [done..|]. unfold seq_ok. cbn [sv_received set_received sv_store]. unfold rm_setSequence.
  rewrite rm_get_insert, decide_True by done. cbn [sequence]. split; [lia|]. intros r Hr.
  destruct (decide (r <= sequence (rm_get peerID (sv_received s)))); [apply Hall; lia|].
  destruct (Hreach r) as [?|?%not_elem_of_nil]; [lia|by left|done].
Qed.

(** What an answer with blocks does. *)
Lemma fill_response_inv peerID resp f s n f' s' :
  fill_response sha512_256 Verify F peerID resp f s = Ret (n, f', s') ->
  (n = Reconnect /\ f' = f /\ s' = s) \/
  exists msg l seen s1 ls, resp = Some msg /\ Unmarshal (Payload msg) = Ret l /\
    fill_process sha512_256 Verify F (lb_Blocks l) ∅ s = Ret (seen, s1) /\ n = Again /\
    ls = default 0 (last (filter (fun r => r ∈ seen) (fl_rounds f))) /\
    f' = MkFiller (filter (fun r => r ∉ seen) (fl_rounds f)) (fl_latest f) /\
    s' = if decide (ls <> 0)
         then set_received (rm_setSequence peerID (if decide (fl_rounds f' <> []) then fl_latest f else ls)
                (sv_received s1)) s1 else s1.
Proof using Type.
  unfold fill_response. intros H. destruct resp as [msg|]; [|injection H as <- <- <-; by left].
  destruct (Unmarshal (Payload msg)) as [[bs]| |] eqn:E; [|injection H as <- <- <-; by left|done].
  destruct bs as [|b bs]; [injection H as <- <- <-; by left|].
  apply go_bind_Ret in H as ([seen s1] & Hf & H). rewrite fill_scan_spec in H.
  injection H as <- <- <-. right. exists msg, (MkListBlocks (b :: bs)), seen, s1. eexists.
  cbn [lb_Blocks fl_rounds]. split_and!; try done. by repeat case_decide.
Qed.

(** ** No round of a peer is lost *)

(** The database as the service keeps it. *)
Record store_ready (s : Service) : Prop := {
  sr_limit : 0 <= sv_maxBlocks s;
  sr_open : closed (sv_store s) = false;
  sr_wf : blocks_wf (db (sv_store s));
  sr_marked : marked (db (sv_store s))
}.

Lemma setBlock_wf id block s s' : id_width id -> Round id < 2 ^ 64 - 1 -> setBlock F id block s = Ret s' ->
  closed s' = closed s /\ (blocks_wf (db s) -> blocks_wf (db s')).
Proof using Type.
  intros Hid Hr (_ & val & _ & ->)%setBlock_inv. split; [done|]. intros Hwf. cbn [set_db db].
  destruct (db s !! includedKey id); [done|]. intros k v Hk Hp.
  apply lookup_insert_Some in Hk as [[<- _]|[_ Hk]]; [by exists id|].
  apply lookup_insert_Some in Hk as [[<- _]|[_ Hk]]; [by destruct Hp as [? [=]]|].
  apply lookup_insert_Some in Hk as [[<- _]|[_ Hk]]; [by destruct Hp as [? [=]]|]. by eapply Hwf.
Qed.

Lemma processBlock_ready signed s round s' :
  sv_processBlock sha512_256 Verify F signed s = Ret (round, s') -> below_max (Some signed) ->
  store_ready s -> store_ready s'.
Proof using Hwidth.
  intros H Hmax [Hl Ho Hwf Hm]. destruct (processBlock_stored 0 _ _ _ _ H Hm) as (Hm' & _).
  apply processBlock_effect in H as (block & Hb & -> & Hs & _ & Hmb). destruct (Hwidth _ _ Hb) as [Hn Hro].
  apply setBlock_wf in Hs as [Ho' Hwf']; [|done|by apply (Hmax _ _ eq_refl Hb)].
  constructor; [by rewrite Hmb|by rewrite Ho'|auto|done].
Qed.

Lemma fill_process_ready blocks seen s seen' s' :
  fill_process sha512_256 Verify F blocks seen s = Ret (seen', s') -> Forall below_max blocks -> store_ready s -> store_ready s'.
Proof using Hwidth.
  revert seen s. induction blocks as [|[b|] blocks IH]; intros seen s H Hb Hs; cbn [fill_process] in H; [by injection H as _ <-| |done].
  apply Forall_cons in Hb as [Hb Hbs]. destruct (sv_processBlock _ _ _ _ s) as [[round s1]| |] eqn:E; [|by eapply IH|done].
  eapply IH; [exact H|done|]. by eapply processBlock_ready.
Qed.

(** What holds between the iterations: every round up to the sequence number, and
    up to the latest one that was looked at, is stored or still asked for. *)
Record filling (peerID : uint64) (f : filler) (s : Service) : Prop := {
  fi_ready : store_ready s;
  fi_seq : seq_ok peerID (fl_rounds f) s;
  fi_latest : fl_rounds f <> [] -> covers peerID (fl_rounds f) s (fl_latest f) /\
                forall r, r ∈ fl_rounds f -> 0 < r <= fl_latest f
}.

Lemma filling_ready peerID f s : is_u64 peerID -> filling peerID f s -> fill_ready peerID s.
Proof using Type. intros Hp [[] [? _] _]. by constructor. Qed.

Lemma fill_choose_filling peerID f s n f1 s1 : is_u64 peerID -> filling peerID f s ->
  fill_choose peerID f s = Ret (n, f1, s1) -> filling peerID f1 s1 /\ (n = None -> fl_rounds f1 <> []).
Proof using Type.
  intros Hp Hfi Hch. pose proof (filling_ready _ _ _ Hp Hfi) as Hready. pose proof Hfi as [Hs Hq Hl].
  destruct f as [[|r0 rounds] lat]; [|injection Hch as <- <- <-; by split]. destruct n as [n|].
  - apply fill_choose_none in Hch as (Hf & Hst & Hmb & Hq1); [|done..]. split; [|done]. rewrite <-Hf in Hq1.
    constructor; [|done|by rewrite Hf]. destruct Hs. constructor; by rewrite ?Hst, ?Hmb.
  - apply fill_choose_spec in Hch as (-> & Hne & Hm & Hreach & _ & _ & Hb); [|done]. split; [|done]. destruct Hq as [Hq0 Hq].
    constructor; [done|apply (covers_mono peerID [] _ s s); [done|by intros ? ?%not_elem_of_nil|done]|]. intros _. split.
    + split; [lia|]. intros r Hr. destruct (decide (r <= sequence (rm_get peerID (sv_received s)))); [|apply Hreach; lia].
      destruct (Hq r) as [?|?%not_elem_of_nil]; [lia|by left|done].
    + intros r [[? _] ?]%Hm. lia.
Qed.

Lemma fill_step_filling peerID peer f s n f' s' : is_u64 peerID -> filling peerID f s ->
  (forall msg resp l, peer msg = Some resp -> Unmarshal (Payload resp) = Ret l ->
     Forall (of_peer peerID) (lb_Blocks l) /\ Forall below_max (lb_Blocks l)) ->
  fill_step sha512_256 Verify F peerID peer f s = Ret (n, f', s') -> filling peerID f' s'.
Proof using Hwidth.
  intros Hp Hfi Hpeer H. unfold fill_step in H. apply go_bind_Ret in H as ([[n0 f1] s1] & Hch & H).
  apply fill_choose_filling in Hch as [Hfi1 Hne]; [|done..]. destruct n0 as [n0|]; [by injection H as _ <- <-|].
  specialize (Hne eq_refl). apply go_bind_Ret in H as (msg & _ & H).
  apply fill_response_inv in H as [(_ & -> & ->)|(resp & l & seen & s2 & ls & Hr & Hu & Hpr & _ & -> & -> & ->)]; [done|].
  destruct (Hpeer _ _ _ Hr Hu) as [Hof Hmax]. destruct Hfi1 as [Hrd Hq Hl]. destruct (Hl Hne) as [Hlat Hrs].
  destruct (fill_process_spec peerID _ _ _ _ _ Hpr (sr_marked _ Hrd)) as (_ & Hseq & Hst & Hmono & _).
  pose proof (fill_process_ready _ _ _ _ _ Hpr Hmax Hrd) as Hrd2. cbn [fl_rounds fl_latest].
  set (ms := filter (fun r => r ∉ seen) (fl_rounds f1)).
  assert (forall s0 bound, (forall r, stored (db (sv_store s0)) peerID r -> stored (db (sv_store s2)) peerID r) ->
            covers peerID (fl_rounds f1) s0 bound -> covers peerID ms s2 bound) as Hcov.
  { intros s0 bound Hs0. apply covers_mono; [done|]. intros r Hin. destruct (decide (r ∈ seen)) as [Hin'|Hin'].
    - right. by destruct (Hst Hof r Hin') as [?%not_elem_of_empty|].
    - left. by apply list_elem_of_filter. }
  assert (forall r, r ∈ ms -> 0 < r <= fl_latest f1) as Hms by (intros r [_ ?]%list_elem_of_filter; auto).
  assert (covers peerID ms s2 (fl_latest f1)) as Hc2 by (by apply (Hcov s1); [apply Hmono|]).
  assert (filling peerID (MkFiller ms (fl_latest f1)) s2) as Hbase.
  { constructor; [done|by apply (Hcov s2), Hseq|]. by intros _. }
  case_decide as Hls; [|done]. set (bound := if decide (ms <> []) then fl_latest f1 else _).
  assert (covers peerID ms s2 bound) as Hb.
  { unfold bound. case_decide; [done|]. destruct (last _) as [x|] eqn:E; [|done].
    apply last_Some_elem_of, list_elem_of_filter in E as [_ E]. destruct (Hrs x E), Hc2 as [? Hc2].
    cbn. split; [lia|]. intros r Hr0. apply Hc2. lia. }
  destruct Hrd2. constructor; [by constructor| |by intros _]. unfold seq_ok. cbn [sv_received set_received].
  unfold rm_setSequence. rewrite rm_get_insert, decide_True by done. exact Hb.
Qed.

(** The goroutine that fills the gaps of a peer, which keeps its own variables,
    interleaved with blocks that arrive otherwise.  The connection answers as
    it likes, partly or not at all, but with blocks of the peer. *)
Inductive fill_event (peerID : uint64) : filler * Service -> filler * Service -> Prop :=
  | fe_fill peer f s n f' s' :
      (forall msg resp l, peer msg = Some resp -> Unmarshal (Payload resp) = Ret l ->
         Forall (of_peer peerID) (lb_Blocks l) /\ Forall below_max (lb_Blocks l)) ->
      fill_step sha512_256 Verify F peerID peer f s = Ret (n, f', s') -> fill_event peerID (f, s) (f', s')
  | fe_block signed f s round s' : below_max (Some signed) ->
      sv_processBlock sha512_256 Verify F signed s = Ret (round, s') -> fill_event peerID (f, s) (f, s').

(** C24. No round of a peer is lost: from a service with a well-formed store that
    has not counted any round of the peer yet, whatever blocks arrive, and however
    the peer answers the requests for missing rounds, completely, in part or not
    at all, as long as it answers with blocks of its own and no block is of the
    last round that fits 64 bits, every round of the peer up to the sequence number
    is stored or is still among the rounds that the goroutine asks for. *)
Theorem fill_sound peerID s0 f s : is_u64 peerID -> store_ready s0 ->
  sequence (rm_get peerID (sv_received s0)) = 0 ->
  rtc (fill_event peerID) (MkFiller [] 0, s0) (f, s) ->
  forall r, 0 < r <= sequence (rm_get peerID (sv_received s)) ->
    stored (db (sv_store s)) peerID r \/ r ∈ fl_rounds f.
Proof using Hwidth.
  intros Hp Hs0 Hq0 Hrun. enough (filling peerID f s) as [_ [_ ?] _] by done.
  change (filling peerID (f, s).1 (f, s).2). refine (rtc_ind_r (fun fs => filling peerID fs.1 fs.2) _ _ _ _ Hrun).
  - constructor; [done| |done]. unfold seq_ok. cbn [snd fst]. rewrite Hq0. split; [lia|]. lia.
  - intros [f1 s1] [f2 s2] _ He Hfi. cbn [fst snd] in *. inversion He as [peer ? ? n ? ? Hpeer Hst|signed ? ? round ? Hmax Hst]; subst.
    + by eapply fill_step_filling.
    + destruct Hfi as [Hrd Hq Hl]. destruct (processBlock_stored peerID _ _ _ _ Hst (sr_marked _ Hrd)) as (_ & Hseq & _ & Hmono & _).
      constructor; [by eapply processBlock_ready|by apply Hseq|]. intros Hne. destruct (Hl Hne) as [Hc Hr]. split; [|done].
      by apply (covers_mono peerID (fl_rounds f2) _ s1); [apply Hmono|auto|].
Qed.

(** A partial answer: some of the requested rounds have been received, [r]
    has not.  The sequence number is set past [r] although no block of the peer
    is stored for it, so that [r] is not found missing again; it is remembered
    only in the variable [rounds] of the goroutine, which a restart forgets. *)
Theorem fill_partial_skips peerID resp lat s f f' s' n r : fill_ready peerID s ->
  fill_choose peerID (MkFiller [] lat) s = Ret (None, f, s) ->
  fill_response sha512_256 Verify F peerID resp f s = Ret (n, f', s') ->
  (length (fl_rounds f') < length (fl_rounds f))%nat -> r ∈ fl_rounds f' ->
  let seq := sequence (rm_get peerID (sv_received s')) in
  r <= seq /\ ~ stored (db (sv_store s')) peerID r /\ ~ missing (db (sv_store s')) peerID seq r.
Proof using Hwidth.
  intros Hready Hch H Hlen Hr. apply fill_choose_spec in Hch as (_ & _ & Hm & _); [|done].
  apply fill_response_inv in H as [(_ & -> & ->)|(msg & l & seen & s1 & ls & _ & _ & Hp & _ & -> & -> & ->)]; [lia|].
  cbn [fl_rounds] in *. set (ls := default 0 _).
  destruct (fill_process_spec peerID _ _ _ _ _ Hp (fr_marked _ _ Hready)) as (_ & _ & _ & _ & Hnew).
  apply list_elem_of_filter in Hr as [Hseen Hr]. destruct (Hm r Hr) as [(_ & Hns & _) Hle].
  assert (ls <> 0) as Hls.
  { unfold ls. destruct (last (filter (fun r => r ∈ seen) (fl_rounds f))) as [x|] eqn:E.
    - apply last_Some_elem_of, list_elem_of_filter in E as [_ E]. destruct (Hm x E) as [[? _] _].
      destruct Hready as [_ _ _ _ _ ?]. simpl. lia.
    - apply last_None in E. rewrite filter_id in Hlen; [lia|].
      intros x Hx Hxs. apply (not_elem_of_nil x). rewrite <-E. by apply list_elem_of_filter. }
  rewrite decide_True by done. cbn [sv_received set_received sv_store]. unfold rm_setSequence.
  rewrite rm_get_insert, decide_True by done. rewrite decide_True.
  2: { intros E. apply (not_elem_of_nil r). rewrite <-E. by apply list_elem_of_filter. }
  cbn [sequence]. split_and!; [done| |intros [? _]; lia].
  intros [?|?]%Hnew; done.
Qed.

(** When more rounds are missing than fit a payload, the service asks for one
    round too many: a peer with the same limit refuses the request, and the same
    rounds are asked for again and again. *)
Theorem fill_request_refused `{!ProtoOk GetRounds} peerID lat s f msg t l : fill_ready peerID s ->
  fill_choose peerID (MkFiller [] lat) s = Ret (None, f, s) ->
  NoDup l -> sv_maxBlocks s < Z.of_nat (length l) ->
  (forall r, r ∈ l -> missing (db (sv_store s)) peerID (sequence (rm_get peerID (sv_received s))) r) ->
  fill_request f = Ret msg -> sv_maxBlocks t = sv_maxBlocks s ->
  Handle sha512_256 Verify F (sv_nodeID s) msg t =
    (Fail "broadcast: requested %d rounds exceeds max block limit of %d", t) /\
  (forall s2, fill_response sha512_256 Verify F peerID None f s2 = Ret (Reconnect, f, s2) /\
     fill_choose peerID f s2 = Ret (None, f, s2)).
Proof using Type.
  intros Hready Hch Hnd Hl Hmiss Hreq Ht. apply fill_choose_spec in Hch as (_ & Hne & Hm & _ & Hall & Hsort & _); [|done].
  assert (sv_maxBlocks s < Z.of_nat (length (fl_rounds f))) as Hlen.
  { destruct (decide (Z.of_nat (length (fl_rounds f)) = sv_maxBlocks s + 1)); [lia|].
    enough (l ⊆+ fl_rounds f) as ?%submseteq_length by lia. apply NoDup_submseteq; [done|].
    intros r Hr. by destruct (Hall r (Hmiss r Hr)). }
  split.
  - unfold fill_request in Hreq. apply go_bind_Ret in Hreq as (data & Hd%fatal_Ret & [= <-]).
    unfold Handle. cbn [Opcode]. do 2 rewrite decide_False by done. rewrite decide_True by done.
    unfold handleGetRounds. cbn [Payload]. rewrite (unmarshal_marshal _ _ Hd). cbn [Rounds].
    by rewrite decide_True by lia.
  - intros s2. split; [done|]. unfold fill_choose. by destruct (fl_rounds f).
Qed.
End fill.
