(* ===== verification/BroadcastExchange.v ===== *)
(** * BroadcastExchange: two nodes, restarts and replays

    A node sends its own blocks to a peer that handles them: composition of
    [maintainBroadcast] with [handleBroadcastList].  A restart finds the state
    that was written.  Replaying the own blocks in batches leaves none out. *)
From S2P Require Import Prelude Messages Graph Lexinum Codec Database BroadcastStore BroadcastStoreProps.
From S2P Require Import BroadcastStoreData BroadcastStoreScan Depgraph Config Broadcast BroadcastProps.
From S2P Require Import BroadcastSync BroadcastSyncProps.

Section exchange.
Context `{PS : Proto SignedData, PB : Proto Block, PR : Proto BlockReference}.
Context `{PA : Proto AckBroadcast, PGB : Proto GetBlocks, PGR : Proto GetRounds, PL : Proto ListBlocks}.
Context (sha512_256 : bytes -> bytes) (Verify : uint64 -> bytes -> bytes -> bool) (Sign : bytes -> bytes).
Context (F : Faults).
(** The fields of a decoded block have their widths. *)
Context (Hwidth : forall data (block : Block), Unmarshal data = Ret block ->
           is_u64 (b_Node block) /\ is_u64 (b_Round block)).

(** A block made by [node] in [round]. *)
Definition own_block (node round : uint64) (b : SignedData) : Prop :=
  exists block, Unmarshal (Data b) = Ret block /\ b_Node block = node /\ b_Round block = round.

(** The own blocks in the cache and in the store are what they should be. *)
Definition own_ok (s : Service) : Prop :=
  (forall r b, ob_data (sv_ownBlocks s) !! r = Some b -> own_block (sv_nodeID s) r b) /\
  (forall r v b, is_u64 r -> db (sv_store s) !! ownBlockKey r = Some v -> Unmarshal v = Ret b ->
     own_block (sv_nodeID s) r b).

Lemma getOwnBlock_inv r st b : getOwnBlock F r st = Ret b ->
  exists v, db st !! ownBlockKey r = Some v /\ Unmarshal v = Ret b.
Proof using Type.
  intros [_ H]%opened_inv. apply go_bind_Ret in H as ([b' d] & H & [= <-]).
  apply txn_bind_inv in H as (v & d1 & Hv & H). apply txn_Value_inv in Hv as [Hk ->].
  exists v. split; [done|]. unfold lift in H. apply go_bind_Ret in H as (x & Hx & [= <- _]). done.
Qed.

(** What reading own blocks does not change. *)
Definition same_but_cache (s s' : Service) : Prop :=
  sv_nodeID s' = sv_nodeID s /\ sv_store s' = sv_store s /\ sv_sent s' = sv_sent s /\
  sv_round s' = sv_round s.

Lemma getOwn_ok r s b s' : own_ok s -> is_u64 r -> sv_getOwnBlock F r s = Ret (b, s') ->
  own_block (sv_nodeID s) r b /\ own_ok s' /\ same_but_cache s s'.
Proof using Type.
  intros [Hc Hs] Hr. unfold sv_getOwnBlock, ob_get. destruct (ob_data _ !! r) as [b'|] eqn:E.
  { intros [= <- <-]. split_and!; [by apply Hc|split; [done|done]|by repeat split]. }
  intros H. apply go_bind_Ret in H as (b' & H & [= <- <-]). apply getOwnBlock_inv in H as (v & Hk & Hu).
  pose proof (Hs _ _ _ Hr Hk Hu) as Hb. split_and!; [done| |by repeat split].
  split; [|done]. cbn [sv_ownBlocks set_ownBlocks ob_set ob_data sv_nodeID]. intros r' x.
  destruct (decide (r' = r)) as [->|Hne]; [rewrite lookup_insert_eq; by intros [= <-]|].
  rewrite lookup_insert_ne by done. apply Hc.
Qed.

Lemma unsent_loop_spec fuel first i cur total acc s blocks s' : own_ok s -> 0 <= i -> cur < 2 ^ 64 - 1 ->
  unsent_loop F fuel first i cur total acc s = Ret (blocks, s') ->
  own_ok s' /\ same_but_cache s s' /\ exists bs, blocks = acc ++ bs /\
    Forall2 (own_block (sv_nodeID s)) (seqZ i (Z.of_nat (length bs))) bs /\
    Z.of_nat (length bs) <= Z.max 0 (cur + 1 - i) /\ (i = first -> i <= cur -> fuel <> O -> bs <> []).
Proof using Type.
  revert i total acc s. induction fuel as [|fuel IH]; intros i total acc s Hok Hi Hcur H; cbn [unsent_loop] in H.
  { injection H as <- <-. split_and!; [done|by repeat split|]. exists []. rewrite app_nil_r.
    split_and!; [done|constructor|simpl; lia|done]. }
  case_decide as Hic.
  2: { injection H as <- <-. split_and!; [done|by repeat split|]. exists [].
       rewrite app_nil_r. split_and!; [done|constructor|simpl; lia|lia]. }
  apply go_bind_Ret in H as ([b s1] & Hb%fatal_Ret & H).
  apply getOwn_ok in Hb as (Hb & Hok1 & Hn & Hst & Hse & Hro); [|done|split; lia].
  case_decide.
  { case_decide; [done|]. injection H as <- <-. split_and!; [done|by repeat split|].
    exists []. rewrite app_nil_r. split_and!; [done|constructor|simpl; lia|done]. }
  rewrite wrap_small in H by (split; lia).
  apply IH in H as (Hok' & (Hn' & Hst' & Hse' & Hro') & bs & -> & Hbs & Hlen & _); [|done|lia|done].
  split_and!; [done|repeat split; congruence|]. exists (b :: bs). rewrite <-app_assoc.
  split_and!; [done| |simpl; lia|done]. rewrite Hn in Hbs. cbn [length]. rewrite Nat2Z.inj_succ, seqZ_cons by lia.
  rewrite Z.pred_succ. by constructor.
Qed.

(** The handler stores every block of the list. *)
Lemma processList_spec node rounds blocks last s last' s' :
  Forall2 (own_block node) rounds blocks -> marked (db (sv_store s)) ->
  processList sha512_256 Verify F (Some <$> blocks) last s = (Ret last', s') ->
  last' = default last (list.last rounds) /\
  (forall r, r ∈ rounds -> stored (db (sv_store s')) node r) /\
  (forall n r, stored (db (sv_store s)) n r -> stored (db (sv_store s')) n r).
Proof using Hwidth.
  intros Hf. revert last s. induction Hf as [|r b rounds blocks Hb Hf IH]; intros last s Hm H; csimpl in H.
  { injection H as <- <-. split_and!; [done|by intros r ?%not_elem_of_nil|done]. }
  destruct (sv_processBlock _ _ _ b s) as [[round s1]| |] eqn:E; [|done..].
  destruct Hb as (block & Hu & Hn & Hr).
  assert (round = r) as -> by (apply processBlock_effect in E as (x & Hx & -> & _); congruence).
  destruct (processBlock_stored sha512_256 Verify F Hwidth node _ _ _ _ E Hm) as (Hm1 & _ & Hp & Hmono & _).
  destruct (IH _ _ Hm1 H) as (-> & Hst & Hmono'). split_and!.
  - destruct rounds; [done|]. rewrite last_cons_cons. destruct (last_is_Some (z :: rounds)) as [_ Hs].
    by destruct (Hs ltac:(done)) as [x ->].
  - intros r' [->|?]%elem_of_cons; [|auto]. apply Hmono', Hp. intros signed block' [= <-]. congruence.
  - auto.
Qed.

Definition sent_of (peerID : uint64) (s : Service) : uint64 := default 0 (sv_sent s !! peerID).

(** C23. One exchange between a node [a] and its peer [b], which has every block of
    [a] up to the round marked as sent: when [b] accepts the blocks that [a]
    sends, the mark advances and again [b] has every block up to it. *)
Theorem exchange_progress `{!ProtoOk ListBlocks, !ProtoOk AckBroadcast} peerID a a1 b blocks msg resp b' :
  own_ok a -> marked (db (sv_store b)) -> 0 <= sent_of peerID a < 2 ^ 64 - 1 -> sv_round a < 2 ^ 64 - 1 ->
  (forall r, 0 < r <= sent_of peerID a -> stored (db (sv_store b)) (sv_nodeID a) r) ->
  getUnsent F peerID a = Ret (Some blocks, a1) -> broadcast_request blocks = Ret msg ->
  Handle sha512_256 Verify F (sv_nodeID a) msg b = (Ret resp, b') ->
  exists a', broadcast_ack peerID (Some resp) a1 = Ret (Again, a') /\
    sent_of peerID a < sent_of peerID a' <= sv_round a /\
    (forall r, 0 < r <= sent_of peerID a' -> stored (db (sv_store b')) (sv_nodeID a) r).
Proof using Hwidth.
  intros Hown Hm H0 Hmax Hsent Hun Hreq Hh. unfold getUnsent in Hun. fold (sent_of peerID a) in Hun.
  case_decide as Hcur; [|done]. apply go_bind_Ret in Hun as ([bs s1] & Hun & [= -> ->]).
  rewrite wrap_small in * by (split; lia).
  apply unsent_loop_spec in Hun as (_ & (Hnode & _ & Hse & _) & bs & -> & Hf & Hlen & Hne); [|done|lia|done].
  specialize (Hne eq_refl ltac:(lia) ltac:(lia)). cbn [app] in *.
  apply go_bind_Ret in Hreq as (data & Hd%fatal_Ret & [= <-]).
  unfold Handle in Hh. cbn [Opcode] in Hh. rewrite decide_True in Hh by done.
  unfold handleBroadcastList in Hh. cbn [Payload] in Hh. rewrite (unmarshal_marshal _ _ Hd) in Hh.
  cbn [lb_Blocks] in Hh. destruct (processList _ _ _ _ 0 b) as [res s2] eqn:E. injection Hh as Hr ->.
  apply go_bind_Ret in Hr as (last & -> & Hr). apply go_bind_Ret in Hr as (ack & Ha & [= <-]).
  apply (processList_spec (sv_nodeID a) _ _ _ _ _ _ Hf Hm) in E as (Hlast & Hst & Hmono).
  assert (last = sent_of peerID a + Z.of_nat (length bs)) as ->.
  { rewrite Hlast. destruct bs as [|x bs _] using rev_ind; [done|].
    rewrite length_app, Nat2Z.inj_add, seqZ_app by lia. change (seqZ _ (Z.of_nat (length [x]))) with
      [sent_of peerID a + 1 + Z.of_nat (length bs)]. rewrite last_snoc. simpl. lia. }
  exists (markSent peerID (sent_of peerID a + Z.of_nat (length bs)) a1). unfold broadcast_ack. cbn [Payload].
  rewrite (unmarshal_marshal _ _ Ha). cbn [Last]. split; [done|].
  assert (sent_of peerID (markSent peerID (sent_of peerID a + Z.of_nat (length bs)) a1) =
          sent_of peerID a + Z.of_nat (length bs)) as ->
    by (unfold sent_of at 1, markSent; cbn; by rewrite lookup_insert_eq).
  assert (length bs <> 0)%nat by (by destruct bs). split; [lia|]. intros r Hr.
  destruct (decide (r <= sent_of peerID a)); [apply Hmono, Hsent; lia|].
  apply Hst, elem_of_seqZ. lia.
Qed.

(** ** Own blocks *)

Lemma ownBlockKey_inj r r' : is_u64 r -> is_u64 r' -> ownBlockKey r = ownBlockKey r' -> r = r'.
Proof using Type.
  intros Hr Hr' [= He]. apply bytes_cmp_eq in He. rewrite Encode_cmp in He by done.
  by apply Z.compare_eq in He.
Qed.

(** Writing an own block changes no other own block. *)
Lemma setOwnBlock_own block blockRef graph st st' r : is_u64 r -> is_u64 (Round (bg_Block graph)) ->
  setOwnBlock F block blockRef graph st = Ret st' -> exists val, Marshal block = Ret val /\
  db st' !! ownBlockKey r = if decide (r = Round (bg_Block graph)) then Some val else db st !! ownBlockKey r.
Proof using Type.
  intros Hr Hg (_ & val & rval & db6 & db7 & Hm & _ & H6 & H7 & ->)%setOwnBlock_inv.
  exists val. split; [done|]. cbn [set_db db]. case_decide as E; [subst; by rewrite lookup_insert_eq|].
  rewrite lookup_insert_ne by (intros He; symmetry in He; by apply ownBlockKey_inj in He).
  assert (forall p (l : list BlockID), p <> ownBlockPrefix -> ownBlockKey r ∉ idKey p <$> l) as Hnot.
  { intros p l Hp (x & He & _)%list_elem_of_fmap. symmetry in He. by apply idKey_own in He. }
  rewrite H7, decide_False by (by apply Hnot). rewrite H6, decide_False by (by apply Hnot). by lookups.
Qed.

Lemma ob_prune_lookup n o r b : ob_data (ob_prune n o) !! r = Some b -> ob_data o !! r = Some b.
Proof using Type.
  unfold ob_prune. case_decide; [done|]. cbn zeta. cbn [ob_data]. rewrite map_lookup_filter_Some. by intros [? _].
Qed.

(** What an iteration of [genBlocks] writes and keeps. *)
Lemma genBlock_inv limit s s' : genBlock sha512_256 Sign F limit s = Ret s' ->
  exists block data refData graph, let round := u64 (sv_round s + 1) in
    let signed := MkSignedData data (Sign refData) in
    let ref := MkSignedData refData (Sign refData) in
    Marshal block = Ret data /\ b_Node block = sv_nodeID s /\ b_Round block = round /\
    bg_Block graph = MkBlockID (sha512_256 data) (sv_nodeID s) round /\
    setOwnBlock F signed ref graph (sv_store s) = Ret (sv_store s') /\
    sv_round s' = round /\ sv_prevhash s' = sha512_256 data /\ sv_prevref s' = Some ref /\
    sv_nodeID s' = sv_nodeID s /\ sv_sent s' = sv_sent s /\ sv_received s' = sv_received s /\
    sv_interpreted s' = sv_interpreted s /\
    (forall r b, ob_data (sv_ownBlocks s') !! r = Some b ->
       r = round /\ b = signed \/ ob_data (sv_ownBlocks s) !! r = Some b).
Proof using Type.
  unfold genBlock. destruct (dg_getBlocks _ _) as [refs dg] eqn:Edg. intros H.
  apply go_bind_Ret in H as (data & Hd%fatal_Ret & H).
  apply go_bind_Ret in H as (refData & _ & H). apply go_bind_Ret in H as (s1 & Hs%fatal_Ret & H).
  unfold sv_setOwnBlock in Hs. apply go_bind_Ret in Hs as (st & Hst & Hs). injection Hs as <-.
  cbn [sv_store set_txCountLimit set_depgraph set_tx set_ownBlocks] in Hst.
  eexists _, data, refData, _. cbn zeta. split; [exact Hd|]. do 2 (split; [done|]). split; [|split].
  2: { destruct (decide _) in H; injection H as <-; exact Hst. }
  { done. }
  assert (forall r b o, ob_data (ob_set (u64 (sv_round s + 1)) (MkSignedData data (Sign refData)) o) !! r = Some b ->
    r = u64 (sv_round s + 1) /\ b = MkSignedData data (Sign refData) \/ ob_data o !! r = Some b) as Hset.
  { intros r b o. unfold ob_set. cbn [ob_data]. destruct (decide (r = u64 (sv_round s + 1))) as [->|].
    - rewrite lookup_insert_eq. intros [= <-]. by left.
    - rewrite lookup_insert_ne by done. by right. }
  destruct (decide _) in H; injection H as <-; split_and!; try done; intros r b Hb; apply Hset; [|done].
  by apply ob_prune_lookup in Hb.
Qed.

Lemma genBlock_own_ok `{!ProtoOk SignedData, !ProtoOk Block} limit s s' :
  own_ok s -> genBlock sha512_256 Sign F limit s = Ret s' -> own_ok s'.
Proof using Type.
  intros [Hc Hs] H. apply genBlock_inv in H
    as (block & data & refData & graph & Hd & Hn & Hr & Hg & Hst & _ & _ & _ & Hn' & _ & _ & _ & Hob).
  assert (own_block (sv_nodeID s) (u64 (sv_round s + 1)) (MkSignedData data (Sign refData))) as Hnew
    by (exists block; cbn [Data]; split_and!; [by apply unmarshal_marshal|done..]).
  split; rewrite Hn'.
  - intros r b [[-> ->]|?]%Hob; auto.
  - intros r v b Hr64 Hk Hu.
    assert (is_u64 (Round (bg_Block graph))) as Hg64 by (rewrite Hg; apply wrap_in_width; lia).
    destruct (setOwnBlock_own _ _ _ _ _ r Hr64 Hg64 Hst) as (val & Hm & Hdb).
    rewrite Hdb, Hg in Hk. clear Hdb. cbn [Round] in Hk. case_decide; [|by apply (Hs r v b)].
    injection Hk as <-. apply unmarshal_marshal in Hm. assert (b = MkSignedData data (Sign refData)) as -> by congruence.
    by subst r.
Qed.

(** ** Restarts *)

Lemma replay_fields fuel from s s' : replayGraphChanges sha512_256 F fuel from s = Ret s' ->
  sv_round s' = sv_round s /\ sv_prevhash s' = sv_prevhash s /\ sv_prevref s' = sv_prevref s /\
  sv_received s' = sv_received s /\ sv_sent s' = sv_sent s.
Proof using Type.
  unfold replayGraphChanges. intros H. apply go_bind_Ret in H as (blocks & _ & H).
  set (s1 := set_depgraph _ s) in H. change (sv_round s) with (sv_round s1).
  change (sv_prevhash s) with (sv_prevhash s1). change (sv_prevref s) with (sv_prevref s1).
  change (sv_received s) with (sv_received s1). change (sv_sent s) with (sv_sent s1).
  clearbody s1. revert from s1 H. induction fuel as [|fuel IH]; intros from s1 H; [done|]. cbn [replay_batches] in H.
  apply go_bind_Ret in H as (graphs & _ & H). case_decide; [by injection H as <-|]. by apply IH in H.
Qed.

(** [loadState] takes what the getters of the store return. *)
Lemma loadState_fields fuel peers total s s' round hash ref rmap sent :
  getLastRoundData F (sv_store s) = Ret (round, hash, ref) ->
  getReceivedMap F (sv_store s) = Ret rmap -> getSentMap F (sv_store s) = Ret sent ->
  loadState sha512_256 F fuel peers total s = Ret s' ->
  sv_round s' = round /\ sv_prevhash s' = hash /\ sv_prevref s' = Some ref /\
  sv_received s' = rmap /\ sv_sent s' = sent.
Proof using Type.
  unfold loadState. intros -> -> ->. cbn [mbind go_bind or_absent].
  destruct (or_absent (getLastInterpreted F (sv_store s)) (0, 0)) as [[i c]| |]; [|done..].
  cbn [mbind go_bind]. by intros (-> & -> & -> & -> & ->)%replay_fields.
Qed.
End exchange.

(** C25. A restart after an own block and the two maps have been written: the
    service continues with the same round, the hash and the reference of its
    last block, and what it knew about its peers. *)
Theorem restart_restores `{PS : Proto SignedData, !ProtoOk SignedData, PB : Proto Block, PR : Proto BlockReference}
    sha512_256 Sign F F1 F2 limit s s1 st2 st3 fuel peers total s0 s' :
  genBlock sha512_256 Sign F limit s = Ret s1 ->
  setReceivedMap F1 (sv_received s1) (sv_store s1) = Ret st2 -> setSentMap F2 (sv_sent s1) st2 = Ret st3 ->
  Forall info_width (map_to_list (sv_received s1)) -> Forall entry_width (map_to_list (sv_sent s1)) ->
  Z.of_nat (size (sv_received s1)) < 2 ^ 63 -> Z.of_nat (size (sv_sent s1)) < 2 ^ 63 ->
  sv_store s0 = st3 -> loadState sha512_256 noFaults fuel peers total s0 = Ret s' ->
  sv_round s' = sv_round s1 /\ sv_prevhash s' = sv_prevhash s1 /\ sv_prevref s' = sv_prevref s1 /\
  sv_received s' = sv_received s1 /\ sv_sent s' = sv_sent s1.
Proof.
  intros Hgen Hrm Hsm Hri Hse Hnr Hns Hst Hload.
  destruct (peer_maps_roundtrip F1 F2 _ _ _ _ _ Hrm Hsm Hri Hse Hnr Hns) as [Hgr Hgs].
  apply genBlock_inv in Hgen as (block & data & refData & graph & _ & _ & _ & Hg & Hown & Hro & Hh & Hre & _).
  apply setOwnBlock_keys in Hown as (Hc & val & rval & _ & Hr & L1 & L2 & L3 & _). rewrite Hg in L1, L2.
  apply single_write in Hrm as [_ ->]. apply single_write in Hsm as [_ Hst3].
  assert (getLastRoundData noFaults st3 = Ret (u64 (sv_round s + 1), sha512_256 data,
            MkSignedData refData (Sign refData))) as Hlast.
  { rewrite Hst3. eapply getLastRoundData_ok; [done|apply wrap_in_width; lia|exact Hr|..];
      cbn [set_db db]; by lookups. }
  rewrite <-Hst in Hlast, Hgr, Hgs.
  destruct (loadState_fields _ _ _ _ _ _ _ _ _ _ _ _ Hlast Hgr Hgs Hload) as (-> & -> & -> & -> & ->).
  by rewrite Hro, Hh, Hre.
Qed.
