(* ===== verification/BroadcastReplay.v ===== *)
(** * BroadcastReplay: replaying the own blocks in batches

    [replayGraphChanges] and [Replay] read the block graphs of the own node in
    batches, each batch starting at the round [batch] after the start of the
    one before.  As there is one own block per round from round 1 on, no graph is
    left out; when the first batch starts at round 0 its last block is read again
    with the second one. *)
From S2P Require Import Prelude Messages Graph Lexinum Codec Database BroadcastStore BroadcastStoreProps.
From S2P Require Import BroadcastStoreScan Depgraph Config Broadcast BroadcastSync.

(** The graphs that the loop over the batches adds, in order. *)
Fixpoint batches (F : Faults) (fuel : nat) (nodeID from : uint64) (batch : goint) (st : store) : go (list BlockGraph) :=
  match fuel with
  | O => Crash
  | S fuel =>
      blocks ← getBlockGraphs F nodeID from batch st;
      if decide (Z.of_nat (length blocks) < batch) then Ret blocks
      else rest ← batches F fuel nodeID (u64 (from + u64 batch)) batch st; Ret (blocks ++ rest)
  end.

Lemma batches_S F fuel node from batch st :
  batches F (S fuel) node from batch st =
  (blocks ← getBlockGraphs F node from batch st;
   if decide (Z.of_nat (length blocks) < batch) then Ret blocks
   else rest ← batches F fuel node (u64 (from + u64 batch)) batch st; Ret (blocks ++ rest)).
Proof. done. Qed.

Lemma Replay_loop_batches F fuel node from batch st g :
  Replay_loop F fuel node from batch st g =
  (l ← batches F fuel node from batch st; Ret (foldl (fun g b => Graph.Add b g) g l)).
Proof.
  revert from g. induction fuel as [|fuel IH]; intros from g; [done|]. cbn [Replay_loop batches].
  destruct (getBlockGraphs _ _ _ _ _) as [blocks| |]; [|done..]. cbn [mbind go_bind]. case_decide; [done|].
  rewrite IH. destruct (batches _ _ _ _ _ _); cbn [mbind go_bind]; [|done..]. by rewrite foldl_app.
Qed.

Lemma replay_batches_batches F fuel from s :
  replay_batches F fuel from s =
  (l ← fatal (batches F fuel (sv_nodeID s) from 100 (sv_store s));
   Ret (set_graph (foldl (fun g b => Graph.Add b g) (sv_graph s) l) s)).
Proof.
  revert from s. induction fuel as [|fuel IH]; intros from s; [done|]. cbn [replay_batches batches].
  destruct (getBlockGraphs _ _ _ _ _) as [blocks| |]; [|done..]. cbn [mbind go_bind fatal]. case_decide; [done|].
  rewrite IH. cbn [sv_nodeID sv_store set_graph sv_graph]. rewrite (wrap_small 64 100) by (split; lia).
  destruct (batches _ _ _ _ _ _); cbn [mbind go_bind fatal]; [|done..]. by rewrite foldl_app.
Qed.

(** ** The stored graphs *)

Definition ground (g : BlockGraph) : uint64 := Round (bg_Block g).
Definition graph_item (g : BlockGraph) : bytes * bytes := (blockGraphKey (bg_Block g), encodeBlockGraph g).

(** [gs] has the graphs of the node in the store, one for each round from 1 on. *)
Record graphs_stored (node : uint64) (st : store) (gs : list BlockGraph) : Prop := {
  gs_open : closed st = false;
  gs_rounds : forall i g, gs !! i = Some g -> ground g = 1 + Z.of_nat i;
  gs_fit : forall g, g ∈ gs -> graph_fits g /\ id_width (bg_Block g) /\ Node (bg_Block g) = node /\
             ground g < 2 ^ 64 - 1;
  gs_keys : forall k v, nodePrefix blockGraphPrefix node `prefix_of` k ->
             db st !! k = Some v <-> exists g, g ∈ gs /\ (k, v) = graph_item g
}.

Lemma sorted_same_elements {A} (R : relation A) (l k : list A) : (forall x y, R x y -> R y x -> False) ->
  StronglySorted R l -> StronglySorted R k -> (forall x, x ∈ l <-> x ∈ k) -> l = k.
Proof.
  intros Has Hl. revert k. induction Hl as [|x l Hl IH Hx]; intros k Hk Heq.
  { destruct k as [|y k]; [done|]. exfalso. apply (not_elem_of_nil y), Heq. left. }
  destruct Hk as [|y k Hk Hy]; [exfalso; apply (not_elem_of_nil x), Heq; left|].
  rewrite Forall_forall in Hx, Hy.
  assert (x = y) as <-.
  { assert (x ∈ y :: k) as [?|Hxk]%elem_of_cons by (apply Heq; left); [done|].
    assert (y ∈ x :: l) as [?|Hyl]%elem_of_cons by (apply Heq; left); [done|].
    exfalso. eauto. }
  f_equal. apply IH; [done|]. intros z. specialize (Heq z). rewrite !elem_of_cons in Heq.
  split; intros Hz.
  - destruct (proj1 Heq (or_intror Hz)) as [->|]; [|done]. exfalso. apply (Has x x); auto.
  - destruct (proj2 Heq (or_intror Hz)) as [->|]; [|done]. exfalso. apply (Has x x); auto.
Qed.

Lemma StronglySorted_filter {A} (R : relation A) (P : A -> Prop) `{!forall x, Decision (P x)} (l : list A) :
  StronglySorted R l -> StronglySorted R (filter P l).
Proof.
  induction 1 as [|x l Hl IH Hx]; [constructor|]. rewrite filter_cons. case_decide; [|done].
  constructor; [done|]. apply Forall_forall. intros y [_ Hy]%list_elem_of_filter. by eapply Forall_forall in Hx.
Qed.

(** Items in strict key order. *)
Definition key_lt (x y : bytes * bytes) : Prop := bytes_lt x.1 y.1.

Lemma key_lt_asym x y : key_lt x y -> key_lt y x -> False.
Proof. unfold key_lt, bytes_lt. rewrite (bytes_cmp_antisym x.1 y.1). by destruct (bytes_cmp x.1 y.1). Qed.

Lemma sorted_strict (l : list (bytes * bytes)) : StronglySorted key_le l -> NoDup l.*1 -> StronglySorted key_lt l.
Proof.
  induction 1 as [|x l Hl IH Hx]; intros Hnd; [constructor|]. csimpl in Hnd.
  inversion_clear Hnd as [|? ? Hn Hnd']. constructor; [by apply IH|].
  apply Forall_forall. intros y Hy. rewrite Forall_forall in Hx. specialize (Hx y Hy).
  unfold key_le, bytes_le in Hx. unfold key_lt, bytes_lt. destruct (bytes_cmp x.1 y.1) eqn:E; [|done..].
  exfalso. apply Hn. apply bytes_cmp_eq in E. rewrite E. by apply list_elem_of_fmap_2.
Qed.

Section stored.
Context (node : uint64) (st : store) (gs : list BlockGraph).
Context (Hnode : is_u64 node) (Hgs : graphs_stored node st gs).

Definition from_round (from : uint64) : list BlockGraph := filter (fun g => from <= ground g) gs.

Lemma consecutive_sorted base (l : list BlockGraph) : (forall i g, l !! i = Some g -> ground g = base + Z.of_nat i) ->
  StronglySorted (fun x y => ground x < ground y) l.
Proof using Type.
  revert base. induction l as [|x l IH]; intros base Hl; constructor.
  - apply (IH (base + 1)). intros i g Hi. rewrite (Hl (S i) g Hi). lia.
  - apply Forall_forall. intros g [i Hi]%list_elem_of_lookup. rewrite (Hl 0%nat x eq_refl), (Hl (S i) g Hi). lia.
Qed.

Lemma from_round_sorted from : StronglySorted (fun x y => ground x < ground y) (from_round from).
Proof using Hgs.
  eapply StronglySorted_filter, consecutive_sorted, (gs_rounds _ _ _ Hgs).
Qed.

(** The graphs from a round on. *)
Lemma from_round_drop from : 0 <= from -> from_round from = drop (Z.to_nat (from - 1)) gs.
Proof using Hgs.
  intros Hf. unfold from_round. pose proof (gs_rounds _ _ _ Hgs) as Hr.
  assert (forall base n (l : list BlockGraph), (forall i g, l !! i = Some g -> ground g = base + Z.of_nat i) ->
            n = Z.to_nat (from - base) -> filter (fun g => from <= ground g) l = drop n l) as Hgen; [|by apply (Hgen 1)].
  clear Hr. intros base n l. revert base n. induction l as [|x l IH]; intros base n Hl ->; [by rewrite drop_nil|].
  assert (forall i g, l !! i = Some g -> ground g = base + 1 + Z.of_nat i) as Hl' by (intros i g Hi; rewrite (Hl (S i) g Hi); lia).
  pose proof (Hl 0%nat x eq_refl) as Hx. rewrite filter_cons. case_decide as Hle.
  - replace (Z.to_nat (from - base)) with 0%nat by lia. cbn. f_equal. rewrite (IH (base + 1) 0%nat); [done|done|lia].
  - replace (Z.to_nat (from - base)) with (S (Z.to_nat (from - (base + 1)))) by lia. cbn. by apply (IH (base + 1)).
Qed.

Lemma scan_graphs from : is_u64 from ->
  scan (nodePrefix blockGraphPrefix node ++ Encode from) (nodePrefix blockGraphPrefix node) (db st) =
  graph_item <$> from_round from.
Proof using Hnode Hgs.
  intros Hf. apply (sorted_same_elements key_lt); [apply key_lt_asym| | |].
  - apply sorted_strict; [apply scan_sorted|apply scan_NoDup].
  - assert (forall g, g ∈ from_round from -> g ∈ gs) as Hin by (by intros g [_ ?]%list_elem_of_filter).
    induction (from_round_sorted from) as [|x l Hl IH Hx]; csimpl; [constructor|].
    constructor; [apply IH; intros; apply Hin; by right|]. apply Forall_fmap, Forall_forall. intros y Hy.
    rewrite Forall_forall in Hx. specialize (Hx y Hy). unfold compose, key_lt, bytes_lt, graph_item. cbn [fst].
    destruct (gs_fit _ _ _ Hgs x (Hin x ltac:(left))) as (_ & Hwx & Hnx & _).
    destruct (gs_fit _ _ _ Hgs y (Hin y ltac:(by right))) as (_ & Hwy & Hny & _).
    unfold blockGraphKey. rewrite idKey_cmp by done. rewrite Hnx, Hny, Z.compare_refl.
    unfold ground in Hx. by rewrite (proj2 (Z.compare_lt_iff _ _) Hx).
  - intros [k v]. rewrite elem_of_scan by (by eexists). unfold from_round. split.
    + intros (Hk & Hle & Hp). apply (gs_keys _ _ _ Hgs k v Hp) in Hk as (g & Hg & Hi).
      destruct (gs_fit _ _ _ Hgs g Hg) as (_ & Hw & Hn & _). injection Hi as -> ->.
      apply scan_start_le in Hle; [|done..]. rewrite list_elem_of_fmap. exists g. split; [done|].
      by apply list_elem_of_filter.
    + intros (g & Hi & [Hle Hg]%list_elem_of_filter)%list_elem_of_fmap.
      destruct (gs_fit _ _ _ Hgs g Hg) as (_ & Hw & Hn & _). injection Hi as -> ->.
      assert (nodePrefix blockGraphPrefix node `prefix_of` blockGraphKey (bg_Block g)) as Hp.
      { unfold blockGraphKey. rewrite idKey_split, Hn. by eexists. }
      split_and!; [|by apply scan_start_le|done]. apply (gs_keys _ _ _ Hgs _ _ Hp). by exists g.
Qed.

(** Some value cannot be read. *)
Definition unreadable (F : Faults) (e : string) : Prop := exists k, value_err F k = Some e.

Lemma getBlockGraphs_loop_spec F l acc limit : 0 < limit -> Z.of_nat (length acc) < limit ->
  (forall g, g ∈ l -> graph_fits g /\ id_width (bg_Block g)) ->
  getBlockGraphs_loop F limit (graph_item <$> l) acc = Ret (take (Z.to_nat limit) (acc ++ l)) \/
  exists e, unreadable F e /\ getBlockGraphs_loop F limit (graph_item <$> l) acc = Fail e.
Proof using Type.
  intros Hl. revert acc. induction l as [|g l IH]; intros acc Hacc Hfit.
  { left. cbn. rewrite app_nil_r, take_ge by lia. done. }
  destruct (Hfit g ltac:(left)) as [Hg Hw].
  assert (slice_from (blockGraphKey (bg_Block g)) 1 = Ret (encodeBlockID (bg_Block g))) as Hk
    by apply (slice_from_app [blockGraphPrefix]).
  change (graph_item <$> g :: l) with ((blockGraphKey (bg_Block g), encodeBlockGraph g) :: (graph_item <$> l)).
  cbn [getBlockGraphs_loop]. rewrite Hk. cbn [mbind go_bind].
  rewrite decode_encode_id by done. cbn [mbind go_bind].
  destruct (value_err F (blockGraphKey (bg_Block g))) as [e|] eqn:Ev; cbn [fails mbind go_bind]; [right; exists e; split; [by eexists|done]|].
  rewrite block_graph_roundtrip by done. cbn [mbind go_bind].
  case_decide as E; rewrite length_app in E; simpl in E.
  - left. change (acc ++ g :: l) with (acc ++ [g] ++ l). rewrite app_assoc, take_app_le by (rewrite length_app; simpl; lia).
    by rewrite take_ge by (rewrite length_app; simpl; lia).
  - destruct (IH (acc ++ [g])) as [->|?]; [rewrite length_app; simpl; lia| | |by right].
    + intros g' Hg'. apply Hfit. by right.
    + left. by rewrite <-app_assoc.
Qed.

Lemma getBlockGraphs_spec F from limit : is_u64 from -> 0 < limit ->
  getBlockGraphs F node from limit st = Ret (take (Z.to_nat limit) (drop (Z.to_nat (from - 1)) gs)) \/
  exists e, unreadable F e /\ getBlockGraphs F node from limit st = Fail e.
Proof using Hnode Hgs.
  intros Hf Hl. unfold getBlockGraphs, opened. rewrite (gs_open _ _ _ Hgs), scan_graphs by done.
  rewrite <-from_round_drop by (by destruct Hf). apply (getBlockGraphs_loop_spec F (from_round from) []); [done|done|].
  intros g [_ Hg]%list_elem_of_filter. destruct (gs_fit _ _ _ Hgs g Hg) as (? & ? & _). done.
Qed.

(** The batches from a round of the node on. *)
Lemma batches_from F fuel from batch : 1 <= from < 2 ^ 64 -> 0 < batch < 2 ^ 64 ->
  Z.of_nat (length gs) < from + Z.of_nat fuel * batch ->
  batches F (S fuel) node from batch st = Ret (drop (Z.to_nat (from - 1)) gs) \/
  exists e, unreadable F e /\ batches F (S fuel) node from batch st = Fail e.
Proof using Hnode Hgs.
  revert from. induction fuel as [|fuel IH]; intros from Hf Hb Hmax; rewrite batches_S;
    (destruct (getBlockGraphs_spec F from batch) as [->|(e & He & ->)]; [split; lia|lia| |right; by exists e]);
    cbn [mbind go_bind]; rewrite length_take, length_drop; case_decide as Hlen; try (left; by rewrite take_ge by (rewrite length_drop; lia)); [lia|].
  destruct (gs !! (Z.to_nat (from - 1) + (Z.to_nat batch - 1))%nat) as [gl|] eqn:Egl; [|apply lookup_ge_None in Egl; lia].
  pose proof (gs_rounds _ _ _ Hgs _ _ Egl) as Hgl. apply list_elem_of_lookup_2 in Egl.
  destruct (gs_fit _ _ _ Hgs gl Egl) as (_ & _ & _ & Hlt).
  rewrite (wrap_small 64 batch) by (split; lia). rewrite wrap_small by (split; lia).
  destruct (IH (from + batch)) as [->|(e & He & ->)]; [lia|lia|lia| |right; by exists e].
  left. cbn [mbind go_bind]. replace (Z.to_nat (from + batch - 1)) with (Z.to_nat (from - 1) + Z.to_nat batch)%nat by lia.
  rewrite <-drop_drop. by rewrite take_drop.
Qed.

(** What a replay from a round on adds: the block graphs from that round on, each
    once and in order; from round 0 on, where there is none, the last block of
    a full first batch is added twice. *)
Definition replayed (from : uint64) (batch : goint) : list BlockGraph :=
  if decide (from = 0 /\ batch <= Z.of_nat (length gs))
  then take (Z.to_nat batch) gs ++ drop (Z.to_nat (batch - 1)) gs
  else drop (Z.to_nat (from - 1)) gs.

Lemma batches_spec F fuel from batch : is_u64 from -> 0 < batch < 2 ^ 64 ->
  Z.of_nat (length gs) < from + Z.of_nat fuel * batch ->
  batches F (S fuel) node from batch st = Ret (replayed from batch) \/
  exists e, unreadable F e /\ batches F (S fuel) node from batch st = Fail e.
Proof using Hnode Hgs.
  intros [Hf0 Hf1] Hb Hmax. unfold replayed. destruct (decide (from = 0)) as [->|Hne].
  2: { rewrite decide_False by naive_solver. apply batches_from; lia. }
  destruct (getBlockGraphs_spec F 0 batch) as [Hg|(e & He & Hg)]; [split; lia|lia| |];
    rewrite batches_S, Hg; cbn [mbind go_bind]; [|right; by exists e].
  change (drop (Z.to_nat (0 - 1)) gs) with gs. rewrite length_take. case_decide as Hlen.
  { rewrite decide_False by lia. left. by rewrite take_ge by lia. }
  rewrite decide_True by lia. rewrite (wrap_small 64 batch) by (split; lia). rewrite wrap_small by (split; lia).
  destruct fuel as [|fuel]; [lia|]. destruct (batches_from F fuel (0 + batch) batch) as [->|(e & He & ->)]; [lia|lia|lia| |right; by exists e].
  left. cbn [mbind go_bind]. by rewrite Z.add_0_l.
Qed.

Context {PS : Proto SignedData} {PB : Proto Block} {PR : Proto BlockReference} (sha512_256 : bytes -> bytes).

(** C26. Replaying in batches terminates, and adds the stored block graphs of the
    node and nothing else: [Replay], which ignores its start, those of all rounds,
    and [replayGraphChanges] those from the given round on, after it has put the
    blocks that are not included yet, which can be read, into the dependency graph.
    The own blocks have the rounds from 1 on without gaps.  They are added
    in order and once, except that a replay from round 0 on adds the last block
    of a full first batch twice.  Without errors of the database both succeed;
    when a value cannot be read [Replay] reports it and [replayGraphChanges] ends
    the process. *)
Theorem replay_complete : forall F fuel batch g start from s blocks,
  0 < batch < 2 ^ 64 -> is_u64 from -> sv_store s = st -> sv_nodeID s = node ->
  Z.of_nat (length gs) < Z.of_nat fuel * batch -> Z.of_nat (length gs) < from + Z.of_nat fuel * 100 ->
  getNotIncluded sha512_256 F st = Ret blocks ->
  (Replay F (S fuel) node g start batch (db st) = Ret (foldl (fun g b => Graph.Add b g) g (replayed 0 batch)) \/
   exists e, unreadable F e /\ Replay F (S fuel) node g start batch (db st) = Fail e) /\
  (replayGraphChanges sha512_256 F (S fuel) from s =
     Ret (set_graph (foldl (fun g b => Graph.Add b g) (sv_graph s) (replayed from 100))
            (set_depgraph (foldl (fun d b => add b d) (sv_depgraph s) blocks) s)) \/
   exists e, unreadable F e /\ replayGraphChanges sha512_256 F (S fuel) from s = Crash).
Proof using Hnode Hgs.
  intros F fuel batch g start from s blocks Hb Hfrom Hst Hn Hmax1 Hmax2 Hni. split.
  - unfold Replay. rewrite Replay_loop_batches.
    assert (forall n f, batches F n node f batch (MkStore false (db st) 0) = batches F n node f batch st) as ->.
    { intros n. induction n as [|n IH]; intros f; [done|]. rewrite !batches_S.
      unfold getBlockGraphs, opened. cbn [closed db]. rewrite (gs_open _ _ _ Hgs).
      destruct (getBlockGraphs_loop _ _ _ _); [|done..]. cbn [mbind go_bind]. by rewrite IH. }
    destruct (batches_spec F fuel 0 batch) as [->|(e & He & ->)]; [split; lia|lia|lia|by left|right; by exists e].
  - unfold replayGraphChanges. rewrite Hst, Hni. cbn [fatal mbind go_bind]. rewrite replay_batches_batches.
    cbn [sv_nodeID sv_store set_depgraph sv_graph]. rewrite Hst, Hn.
    destruct (batches_spec F fuel from 100) as [->|(e & He & ->)]; [done|lia|lia|by left|right; by exists e].
Qed.
End stored.
