(* ===== verification/BroadcastSyncRun.v ===== *)
(** * BroadcastSyncRun: runs of the goroutines of the broadcast service

    Concrete serialisers, and exchanges between two nodes with them. *)
From S2P Require Import Prelude Messages Graph Lexinum Codec Database BroadcastStore BroadcastStoreProps.
From S2P Require Import BroadcastStoreData BroadcastStoreScan BroadcastExample Depgraph Config Broadcast.
From S2P Require Import BroadcastProps BroadcastSync BroadcastSyncProps BroadcastExchange BroadcastReplay.

(** ** Serialisers *)

#[export] Instance Ref_Proto : Proto BlockReference := {|
  Marshal r := Ret (r_Node r :: r_Round r :: r_Hash r);
  Unmarshal b :=
    match b with
    | node :: round :: hash => Ret (MkBlockReference hash node round)
    | _ => Fail "unexpected EOF"
    end
|}.

(** Blocks without references; fields outside of their widths are refused. *)
Definition u64b (x : Z) : bool := (0 <=? x) && (x <? 2 ^ 64).
#[export] Instance Checked_Proto : Proto Block := {|
  Marshal b :=
    Ret (b_Node b :: b_Round b :: match Previous b with Some p => Data p ++ [0] ++ Signature p | None => [] end);
  Unmarshal b :=
    match b with
    | node :: round :: p =>
        if u64b node && u64b round then
          Ret (MkBlock node (match p with [] => None | _ => Some (MkSignedData (take 3 p) (drop 4 p)) end)
                 [] round None)
        else Fail "out of range"
    | _ => Fail "unexpected EOF"
    end
|}.

Lemma checked_width data (block : Block) : Unmarshal data = Ret block ->
  is_u64 (b_Node block) /\ is_u64 (b_Round block).
Proof.
  destruct data as [|node [|round p]]; [done..|]. cbn [Unmarshal Checked_Proto].
  destruct (u64b node && u64b round) eqn:E; [|done]. intros [= <-].
  apply andb_prop in E as [[H1 H2]%andb_prop [H3 H4]%andb_prop]. split; split; cbn; lia.
Qed.

#[export] Instance Ack_Proto : Proto AckBroadcast := {|
  Marshal a := Ret [Last a];
  Unmarshal b := match b with [x] => Ret (MkAckBroadcast x) | _ => Fail "unexpected EOF" end
|}.
#[export] Instance Ack_ProtoOk : ProtoOk AckBroadcast.
Proof. by intros [x] b [= <-]. Qed.

#[export] Instance GetRounds_Proto : Proto GetRounds := {|
  Marshal r := Ret (Rounds r); Unmarshal b := Ret (MkGetRounds b) |}.
#[export] Instance GetRounds_ProtoOk : ProtoOk GetRounds.
Proof. by intros [x] b [= <-]. Qed.

#[export] Instance GetBlocks_Proto : Proto GetBlocks := {|
  Marshal r := Fail "not used"; Unmarshal b := Fail "not used" |}.

(** A list of blocks, each preceded by the lengths of its two fields. *)
Fixpoint marshal_blocks (l : list (option SignedData)) : go bytes :=
  match l with
  | [] => Ret []
  | None :: _ => Fail "nil element"
  | Some b :: l =>
      r ← marshal_blocks l;
      Ret (Z.of_nat (length (Data b)) :: Z.of_nat (length (Signature b)) :: Data b ++ Signature b ++ r)
  end.
Fixpoint unmarshal_blocks (fuel : nat) (b : bytes) : go (list (option SignedData)) :=
  match fuel, b with
  | _, [] => Ret []
  | S fuel, n :: m :: r =>
      l ← unmarshal_blocks fuel (drop (Z.to_nat n + Z.to_nat m) r);
      Ret (Some (MkSignedData (take (Z.to_nat n) r) (take (Z.to_nat m) (drop (Z.to_nat n) r))) :: l)
  | _, _ => Fail "unexpected EOF"
  end.
#[export] Instance ListBlocks_Proto : Proto ListBlocks := {|
  Marshal l := marshal_blocks (lb_Blocks l);
  Unmarshal b := l ← unmarshal_blocks (length b) b; Ret (MkListBlocks l) |}.

Lemma unmarshal_marshal_blocks l b fuel : marshal_blocks l = Ret b -> (length b <= fuel)%nat ->
  unmarshal_blocks fuel b = Ret l.
Proof.
  revert b fuel. induction l as [|[x|] l IH]; intros b fuel H Hf; cbn [marshal_blocks] in H; [| |done].
  { injection H as <-. by destruct fuel. }
  apply go_bind_Ret in H as (r & Hr & [= <-]). destruct fuel as [|fuel]; [simpl in Hf; lia|].
  cbn [unmarshal_blocks]. rewrite !Nat2Z.id, <-drop_drop, !drop_app_length, !take_app_length.
  rewrite (IH r) by (done || (simpl in Hf; rewrite !length_app in Hf; lia)). by destruct x.
Qed.
#[export] Instance ListBlocks_ProtoOk : ProtoOk ListBlocks.
Proof.
  intros [l] b Hm. cbn [Unmarshal ListBlocks_Proto]. by rewrite (unmarshal_marshal_blocks l b).
Qed.

(** A signature is the signed data followed by the signer. *)
Definition Verify (node : uint64) (data sig : bytes) : bool := bool_decide (sig = data ++ [node]).
Definition Sign (node : uint64) (data : bytes) : bytes := data ++ [node].
Definition sha (d : bytes) : bytes := [foldr Z.add 7 d].

(** ** Missing rounds *)

(** Node 1 has the third block of node 2 only. *)
Definition third : store := run (setBlock noFaults (MkBlockID [5] 2 3) blockB empty).
Definition service (limit : goint) (st : store) (rm : receivedMap) : Service :=
  MkService false [] (MkDepgraph ∅ [] ∅ [] ∅ 1 ∅) (New (MkConfig 0 [1; 2; 3; 4] 1 4)) 0 {[1; 2; 3; 4]} limit 10000 1
    (MkOwnBlocks ∅ 0) [] None 1000 rm 0 ∅ st 0 10 (replicate 300 0) 0 300.
Definition behind (limit : goint) : Service := service limit third {[ 2 := MkReceivedInfo 3 0 ]}.

Definition first : SignedData := MkSignedData [2; 1] [2; 1; 10; 2].
Definition second : SignedData := MkSignedData [2; 2; 2; 1; 10; 0; 2; 1; 10; 2] [2; 2; 39; 2].
Definition answer (blocks : list SignedData) (msg : Message) : option Message :=
  match broadcast_request blocks with Ret m => Some m | _ => None end.

Lemma third_stored n r : stored (db third) n r <-> n = 2 /\ r = 3.
Proof.
  assert (marked ∅) as H0 by (intros id _ [? H]; by rewrite lookup_empty in H).
  destruct (setBlock_stored noFaults (MkBlockID [5] 2 3) blockB empty third) as (_ & _ & Hiff);
    [by apply id_width_small|by vm_compute|done|].
  rewrite Hiff. change (db empty) with (∅ : contents). split; [intros [(id & _ & _ & _ & [? H])|?]; [by rewrite lookup_empty in H|done]|by right].
Qed.

Lemma third_wf : blocks_wf (db third).
Proof.
  assert (Forall (fun kv => [blockPrefix] `prefix_of` kv.1 ->
            exists id, id_width id /\ Round id < 2 ^ 64 - 1 /\ kv.1 = blockKey id)
            (map_to_list (db third))) as Hall.
  { assert (map_to_list (db third) = ltac:(let x := eval vm_compute in (map_to_list (db third)) in exact x))
      as -> by by vm_compute.
    repeat constructor; simpl; try (intros [? [=]]);
      exists (MkBlockID [5] 2 3); split_and!; [apply id_width_small; lia|simpl; lia|by vm_compute]. }
  intros k v Hk Hp. rewrite Forall_forall in Hall. apply (Hall (k, v)); [by apply elem_of_map_to_list|done].
Qed.

Lemma behind_ready limit : 0 <= limit -> fill_ready 2 (behind limit).
Proof.
  intros Hl. constructor; [split; lia|done|done|apply third_wf| |by vm_compute].
  apply (setBlock_stored noFaults (MkBlockID [5] 2 3) blockB empty third); [by apply id_width_small|by vm_compute|].
  change (db empty) with (∅ : contents). intros id _ [? H]. by rewrite lookup_empty in H.
Qed.

Lemma behind_store limit : 0 <= limit -> store_ready (behind limit).
Proof. intros Hl. destruct (behind_ready limit Hl). by constructor. Qed.

(** An iteration that is answered with some blocks. *)
Definition filled (blocks : list SignedData) (fs : filler * Service) : filler * Service :=
  match fill_step sha Verify noFaults 2 (answer blocks) fs.1 fs.2 with Ret (_, f, s) => (f, s) | _ => fs end.

Lemma filled_event blocks fs fs' : Forall (fun b => of_peer 2 (Some b) /\ below_max (Some b)) blocks ->
  broadcast_request blocks = Ret (MkMessage OP_BROADCAST (match broadcast_request blocks with Ret m => Payload m | _ => [] end)) ->
  (forall l, Unmarshal (match broadcast_request blocks with Ret m => Payload m | _ => [] end) = Ret l -> lb_Blocks l = Some <$> blocks) ->
  fill_step sha Verify noFaults 2 (answer blocks) fs.1 fs.2 = Ret (Again, fs'.1, fs'.2) ->
  fill_event sha Verify noFaults 2 fs fs'.
Proof.
  intros Hb Hreq Hun Hs. destruct fs as [f s], fs' as [f' s']. apply (fe_fill _ _ _ _ (answer blocks) _ _ Again); [|exact Hs].
  intros msg resp l Hr Hu. unfold answer in Hr. rewrite Hreq in Hr, Hun. injection Hr as <-. cbn [Payload] in *.
  rewrite (Hun l Hu). split; apply Forall_fmap; (eapply Forall_impl; [exact Hb|]); by intros b [].
Qed.

Definition first_answer : filler * Service := filled [first] (MkFiller [] 0, behind 10).
Definition second_answer : filler * Service := filled [second] first_answer.

Lemma fill_sound_witness :
  fl_rounds first_answer.1 = [2] /\ sequence (rm_get 2 (sv_received first_answer.2)) = 3 /\
  fl_rounds second_answer.1 = [] /\ stored (db (sv_store second_answer.2)) 2 2.
Proof.
  split; [by vm_compute|]. split; [by vm_compute|]. split; [by vm_compute|].
  assert (Forall (fun b => of_peer 2 (Some b) /\ below_max (Some b)) [first; second]) as [H1 [H2 _]%Forall_cons]%Forall_cons.
  { repeat constructor; intros signed block [= <-] Hb; vm_compute in Hb; injection Hb as <-; by vm_compute. }
  destruct (fill_sound sha Verify noFaults checked_width 2 (behind 10) second_answer.1 second_answer.2) with (r := 2) as [H|H].
  - split; lia.
  - by apply behind_store.
  - by vm_compute.
  - rewrite <-surjective_pairing. apply (rtc_l _ _ first_answer); [|apply rtc_once].
    + apply (filled_event [first]); [by constructor|by vm_compute| |by vm_compute].
      intros l Hl. vm_compute in Hl. injection Hl as <-. by vm_compute.
    + apply (filled_event [second]); [by constructor|by vm_compute| |by vm_compute].
      intros l Hl. vm_compute in Hl. injection Hl as <-. by vm_compute.
  - assert (sequence (rm_get 2 (sv_received second_answer.2)) = 2) as -> by by vm_compute. lia.
  - exact H.
  - exfalso. vm_compute in H. by apply not_elem_of_nil in H.
Defined.

Definition asked (limit : goint) : filler :=
  match fill_choose 2 (MkFiller [] 0) (behind limit) with Ret (_, f, _) => f | _ => MkFiller [] 0 end.
Definition partly : filler * Service :=
  match fill_response sha Verify noFaults 2 (answer [first] (MkMessage 0 [])) (asked 10) (behind 10) with
  | Ret (_, f, s) => (f, s) | _ => (MkFiller [] 0, behind 10) end.

Lemma fill_partial_skips_witness :
  fl_rounds (asked 10) = [1; 2] /\ fl_rounds partly.1 = [2] /\
  ~ stored (db (sv_store partly.2)) 2 2 /\ 2 <= sequence (rm_get 2 (sv_received partly.2)).
Proof.
  split; [by vm_compute|]. split; [by vm_compute|].
  destruct (fill_partial_skips sha Verify noFaults checked_width 2 (answer [first] (MkMessage 0 [])) 0 (behind 10)
              (asked 10) partly.1 partly.2 Again 2) as (H1 & H2 & _).
  - by apply behind_ready.
  - by vm_compute.
  - by vm_compute.
  - vm_compute. lia.
  - vm_compute. left.
  - by split.
Defined.

Lemma fill_request_refused_witness :
  Handle sha Verify noFaults 1 (MkMessage OP_GET_ROUNDS [1; 2]) (behind 1) =
    (Fail "broadcast: requested %d rounds exceeds max block limit of %d", behind 1).
Proof.
  apply (fill_request_refused sha Verify noFaults 2 0 (behind 1) (asked 1) (MkMessage OP_GET_ROUNDS [1; 2])
           (behind 1) [1; 2]).
  - by apply behind_ready.
  - by vm_compute.
  - apply (bool_decide_unpack (NoDup [1; 2])). by vm_compute.
  - by vm_compute.
  - intros r Hr. assert (r = 1 \/ r = 2) as Hr' by (rewrite !elem_of_cons, elem_of_nil in Hr; tauto).
    assert (sequence (rm_get 2 (sv_received (behind 1))) = 0) as -> by by vm_compute.
    split_and!; [lia| |exists 3; split; [lia|]]; cbn [sv_store behind service]; rewrite third_stored; lia.
  - by vm_compute.
  - done.
Defined.

(** ** Broadcasting *)

(** Node 2 has made its first block, node 1 has nothing. *)
Definition sender : Service :=
  MkService false [] (MkDepgraph ∅ [] ∅ [] ∅ 2 ∅) (New (MkConfig 0 [1; 2; 3; 4] 2 4)) 0 {[1; 2; 3; 4]} 10 10000 2
    (MkOwnBlocks {[1 := first]} 1) [] None 1000 ∅ 1 ∅ empty 0 10 (replicate 300 0) 0 300.
Definition sent_msg : Message := match broadcast_request [first] with Ret m => m | _ => MkMessage 0 [] end.
Definition handled : go Message * Service :=
  Handle sha Verify noFaults 2 sent_msg (service 10 empty ∅).
Definition ack_msg : Message := match handled.1 with Ret m => m | _ => MkMessage 0 [] end.

Lemma exchange_progress_witness : exists a', broadcast_ack 1 (Some ack_msg) sender = Ret (Again, a') /\
  0 < sent_of 1 a' <= 1 /\ stored (db (sv_store handled.2)) 2 1.
Proof.
  destruct (exchange_progress sha Verify noFaults checked_width 1 sender sender (service 10 empty ∅) [first] sent_msg
              ack_msg handled.2) as (a' & Hack & Hs & Hst).
  - split.
    + intros r b. cbn [sv_ownBlocks sender ob_data]. intros [<- <-]%lookup_singleton_Some. by eexists.
    + intros r v b _ H. cbn in H. by rewrite lookup_empty in H.
  - intros id _ [? H]. cbn in H. by rewrite lookup_empty in H.
  - vm_compute. by split.
  - by vm_compute.
  - intros r Hr. exfalso. change (sent_of 1 sender) with 0 in Hr. lia.
  - by vm_compute.
  - by vm_compute.
  - by vm_compute.
  - exists a'. split; [exact Hack|]. split; [exact Hs|]. apply Hst. destruct Hs as [Hs _].
    change (sent_of 1 sender) with 0 in Hs. lia.
Defined.

(** ** Restart and replay *)

Definition got {A} (d : A) (m : go A) : A := match m with Ret x => x | _ => d end.
Definition made : Service := got sender (genBlock sha (Sign 2) noFaults 10 sender).
Definition written : store :=
  run (setSentMap noFaults (sv_sent made) (run (setReceivedMap noFaults (sv_received made) (sv_store made)))).
Definition restarted : go Service :=
  loadState sha noFaults 3 [1; 3; 4] 4 (set_store written (service 10 empty ∅)).

Lemma restart_restores_witness : exists s', restarted = Ret s' /\
  sv_round s' = 2 /\ sv_prevhash s' = sv_prevhash made /\ sv_sent s' = ∅.
Proof.
  destruct restarted as [s'| |] eqn:E; [|by vm_compute in E..]. exists s'. split; [done|].
  destruct (restart_restores sha (Sign 2) noFaults noFaults noFaults 10 sender made
              (run (setReceivedMap noFaults (sv_received made) (sv_store made))) written 3 [1; 3; 4] 4
              (set_store written (service 10 empty ∅)) s') as (H1 & H2 & _ & _ & H5).
  1-3: by vm_compute.
  1: apply (bool_decide_unpack (Forall info_width (map_to_list (sv_received made)))); by vm_compute.
  1: apply (bool_decide_unpack (Forall entry_width (map_to_list (sv_sent made)))); by vm_compute.
  1-3: by vm_compute.
  1: exact E.
  split_and!; [by etrans; [exact H1|vm_compute]|exact H2|by etrans; [exact H5|vm_compute]].
Defined.

(** A store with the block graphs of three rounds of node 1. *)
Definition own_graph (r : Z) : BlockGraph :=
  MkBlockGraph (MkBlockID [r] 1 r) [] (if decide (r = 1) then zeroBlockID else MkBlockID [r - 1] 1 (r - 1)).
Definition own_graphs : list BlockGraph := own_graph <$> [1; 2; 3].
Definition replay_store : store := MkStore false (list_to_map (graph_item <$> own_graphs)) 0.

Lemma replay_store_graphs : graphs_stored 1 replay_store own_graphs.
Proof.
  constructor.
  - done.
  - intros [|[|[|i]]] g; intros [= <-]; done.
  - assert (forall r, 1 <= r <= 3 -> prev_fits (bg_Prev (own_graph r))) as Hprev.
    { intros r Hr. assert (r = 1 \/ r = 2 \/ r = 3) as [->|[->| ->]] by lia; [by left|right..];
        (split; [split; [by apply id_width_small|by vm_compute]|by vm_compute]). }
    intros g (r & -> & Hr)%list_elem_of_fmap. assert (1 <= r <= 3) as Hr' by (apply elem_of_cons in Hr; set_solver by lia).
    split_and!; [|apply id_width_small; cbn; lia|done|unfold ground; cbn; lia]. split_and!; [by apply Hprev|constructor|done].
  - intros k v _. cbn [db replay_store]. rewrite <-elem_of_list_to_map, list_elem_of_fmap; [naive_solver|].
    apply (bool_decide_unpack _). by vm_compute.
Qed.

Lemma replay_complete_witness :
  let g := New (MkConfig 0 [1; 2; 3; 4] 1 4) in
  Replay noFaults 4 1 g 5 2 (db replay_store) =
    Ret (foldl (fun g b => Graph.Add b g) g [own_graph 1; own_graph 2; own_graph 2; own_graph 3]).
Proof.
  intros g.
  destruct (replay_complete 1 replay_store own_graphs ltac:(split; lia) replay_store_graphs sha noFaults 3 2 g 5 1
              (service 10 replay_store ∅) []) as [[H|(e & [k Hk] & _)] _].
  - lia.
  - split; lia.
  - reflexivity.
  - reflexivity.
  - cbn. lia.
  - cbn. lia.
  - vm_compute. reflexivity.
  - exact H.
  - discriminate Hk.
Defined.
