(* ===== verification/Topology.v ===== *)
(** * Topology: nodes, shards and objects

    Model of [src/network/network.go].  The hash of object keys, the parsing of
    certificates and keys and the random source are parameters; the discovery
    of addresses by multicast DNS and by registries is left out. *)
From S2P Require Import Prelude Bitset.

(** ** The network topology as an interface *)

(** [NetTopology]: what the other components ask of the topology. *)
Class NetTopology (T : Type) := {
  NodesInShard : uint64 -> T -> go (list uint64);
  ShardForNode : uint64 -> T -> go uint64;
  ShardForVersionID : bytes -> T -> go uint64;
  ShardSize : T -> uint64;
  TotalNodes : T -> uint64;
  PublicKeys : T -> gmap uint64 bytes  (* [SeedPublicKeys] *)
}.

(** What they rely on: the shards partition the nodes, all of the same size,
    and every object key has a shard. *)
Class NetTopologyOk (T : Type) `{NetTopology T} (valid : T -> Prop) (shards : T -> Z) : Prop := {
  shard_nodes t s : valid t -> 1 <= s <= shards t ->
    exists ns, NodesInShard s t = Ret ns /\ NoDup ns /\ Z.of_nat (length ns) = ShardSize t /\
      forall n, n ∈ ns <-> 1 <= n <= TotalNodes t /\ ShardForNode n t = Ret s;
  node_shard t n : valid t -> 1 <= n <= TotalNodes t ->
    exists s, ShardForNode n t = Ret s /\ 1 <= s <= shards t;
  key_shard t k : valid t -> exists s, ShardForVersionID k t = Ret s /\ 1 <= s <= shards t
}.

(** ** The implementation *)

Record Topology := MkTopology {
  contacts : gmap uint64 bytes;
  t_id : bytes;
  t_name : bytes;
  nodes : gmap uint64 bytes;  (* the signing keys *)
  rawID : bytes;
  shardCount : uint64;
  shardSize : uint64
}.

Definition set_contacts x t :=
  MkTopology x (t_id t) (t_name t) (nodes t) (rawID t) (shardCount t) (shardSize t).

(** [contacts.get], which gives the empty string for an unknown node. *)
Definition Lookup (nodeID : uint64) (t : Topology) : bytes := default [] (contacts t !! nodeID).
Definition contacts_set (nodeID : uint64) (address : bytes) (t : Topology) : Topology :=
  set_contacts (<[nodeID := address]> (contacts t)) t.

Definition BootstrapStatic (addresses : gmap uint64 bytes) (t : Topology) : Topology :=
  set_contacts (addresses ∪ contacts t) t.

(** What [Dial] checks before it opens a connection to the address. *)
Definition Dial_address (nodeID : uint64) (t : Topology) : go bytes :=
  _ ← guard_fail (bool_decide (is_Some (nodes t !! nodeID)))
        "network: could not find config for node %d in the %s network";
  let addr := Lookup nodeID t in
  _ ← guard_fail (bool_decide (addr <> [])) "network: could not find address for node %d";
  Ret addr.

(** [for i := shardID; i <= total; i += t.shardCount].  A run that needs more
    fuel than there are nodes in a shard does not end ([i] wraps around). *)
Fixpoint nodes_loop (fuel : nat) (i total count : uint64) (ns : list uint64) : go (list uint64) :=
  if decide (i <= total) then
    match fuel with
    | O => Crash
    | S fuel => nodes_loop fuel (u64 (i + count)) total count (ns ++ [i])
    end
  else Ret ns.

Definition total_nodes (t : Topology) : uint64 := u64 (shardCount t * shardSize t).

Definition nodesInShard (shardID : uint64) (t : Topology) : go (list uint64) :=
  if decide (shardID = 0 \/ shardID > shardCount t) then Crash
  else nodes_loop (Z.to_nat (shardSize t)) shardID (total_nodes t) (shardCount t) [].

(** A remainder by zero panics. *)
Definition shardForNode (nodeID : uint64) (t : Topology) : go uint64 :=
  if decide (shardCount t = 0) then Crash
  else Ret (u64 (u64 (nodeID - 1) `mod` shardCount t + 1)).

(** [rand.Int] gives an index below the number of nodes. *)
Definition RandNodeInShard (rand : nat -> nat) (shardID : uint64) (t : Topology) : go uint64 :=
  ns ← nodesInShard shardID t;
  or_crash (ns !! rand (length ns)).

Definition SeedPublicKeys (t : Topology) : gmap uint64 bytes := nodes t.

Section hash.
Context (Sum64 : bytes -> bytes -> uint64).

Definition shardForVersionID (key : bytes) (t : Topology) : go uint64 :=
  if decide (shardCount t = 0) then Crash
  else Ret (u64 (Sum64 key (rawID t) `mod` shardCount t + 1)).

#[export] Instance Topology_NetTopology : NetTopology Topology := {|
  NodesInShard := nodesInShard;
  ShardForNode := shardForNode;
  ShardForVersionID := shardForVersionID;
  ShardSize := shardSize;
  TotalNodes := total_nodes;
  PublicKeys := SeedPublicKeys
|}.
End hash.

(** *** [New] *)

Record Peer := MkPeer { sk_Type : bytes; sk_Value : bytes; tc_Type : bytes; tc_Value : bytes }.
Record NetworkCfg := MkNetworkCfg {
  n_ID : bytes; SeedNodes : gmap uint64 Peer; Shard_Count : uint64; Shard_Size : uint64 }.

Definition ErrNodeWithZeroID : string := "network: received invalid Node ID: 0".

Section new.
Context (AppendCertsFromPEM : bytes -> bool) (b32_Decode : bytes -> go bytes)
        (LoadPublicKey : bytes -> go bytes) (Hash : NetworkCfg -> go bytes).

Definition newNode (id : uint64) (node : Peer) : go bytes :=
  _ ← guard_fail (bool_decide (id <> 0)) ErrNodeWithZeroID;
  _ ← guard_fail (bool_decide (tc_Type node = str "ecdsa"))
        "network: unknown transport.cert type for seed node %d: %q";
  _ ← guard_fail (AppendCertsFromPEM (tc_Value node))
        "network: unable to parse the transport certificate for seed node %d";
  _ ← guard_fail (bool_decide (sk_Type node = str "ed25519"))
        "network: unknown signing.key type for seed node %d: %q";
  pubkey ← match b32_Decode (sk_Value node) with
           | Ret k => Ret k
           | _ => Fail "network: unable to decode the signing.key for seed node %d: %s"
           end;
  match LoadPublicKey pubkey with
  | Ret k => Ret k
  | _ => Fail "network: unable to load the signing.key for seed node %d: %s"
  end.

Fixpoint newNodes (seeds : list (uint64 * Peer)) (ns : gmap uint64 bytes) : go (gmap uint64 bytes) :=
  match seeds with
  | [] => Ret ns
  | (id, node) :: seeds => key ← newNode id node; newNodes seeds (<[id := key]> ns)
  end.

Definition New (name : bytes) (cfg : NetworkCfg) : go Topology :=
  ns ← newNodes (map_to_list (SeedNodes cfg)) ∅;
  rawid ← b32_Decode (n_ID cfg);
  expectedID ← Hash cfg;
  _ ← guard_fail (bool_decide (expectedID = rawid))
        "network: the given network ID %q does not match the expected value of %q";
  Ret (MkTopology ∅ (n_ID cfg) name ns rawid (Shard_Count cfg) (Shard_Size cfg)).
End new.

(** ** The shards partition the nodes *)

(** A network with shards, whose node IDs do not reach the end of the width. *)
Definition topology_ok (t : Topology) : Prop :=
  0 < shardCount t /\ 0 < shardSize t /\ shardCount t * (shardSize t + 1) < 2 ^ 64.

Lemma total_nodes_eq t : topology_ok t -> total_nodes t = shardCount t * shardSize t.
Proof. intros (? & ? & ?). apply wrap_small. split; nia. Qed.

Lemma nodes_loop_spec fuel i total count ns :
  0 < count -> 0 <= i -> total + count < 2 ^ 64 ->
  (forall k, 0 <= k < Z.of_nat fuel -> i + k * count <= total) -> total < i + Z.of_nat fuel * count ->
  nodes_loop fuel i total count ns = Ret (ns ++ ((fun k => i + k * count) <$> seqZ 0 (Z.of_nat fuel))).
Proof.
  revert i ns. induction fuel as [|fuel IH]; intros i ns Hc Hi Ht Hk Hl; cbn [nodes_loop].
  { rewrite decide_False by lia. by rewrite app_nil_r. }
  pose proof (Hk 0 ltac:(lia)). rewrite decide_True by lia.
  rewrite wrap_small by (split; lia).
  rewrite IH; [|lia|lia|lia|intros k ?; specialize (Hk (k + 1) ltac:(lia)); lia|lia].
  rewrite <-app_assoc. f_equal. f_equal.
  rewrite Nat2Z.inj_succ, (seqZ_cons 0 (Z.succ (Z.of_nat fuel))) by lia. rewrite Z.pred_succ.
  rewrite <-(fmap_add_seqZ 1 0). cbn [fmap list_fmap app]. rewrite <-list_fmap_compose. f_equal; [lia|].
  apply list_fmap_ext. intros j k _. simpl. lia.
Qed.

Lemma nodesInShard_eq t s : topology_ok t -> 1 <= s <= shardCount t ->
  nodesInShard s t = Ret ((fun k => s + k * shardCount t) <$> seqZ 0 (shardSize t)).
Proof.
  intros Hok Hs. pose proof Hok as (Hc & Hz & Hw). unfold nodesInShard. rewrite decide_False by lia.
  rewrite total_nodes_eq by done.
  rewrite nodes_loop_spec; [by rewrite Z2Nat.id by lia|lia|lia|nia| |rewrite Z2Nat.id by lia; nia].
  intros k Hk. rewrite Z2Nat.id in Hk by lia. nia.
Qed.

Lemma shardForNode_eq t n : topology_ok t -> 1 <= n <= total_nodes t ->
  shardForNode n t = Ret ((n - 1) `mod` shardCount t + 1).
Proof.
  intros Hok Hn. pose proof Hok as (Hc & Hz & Hw). rewrite total_nodes_eq in Hn by done.
  unfold shardForNode. rewrite decide_False by lia. rewrite (wrap_small 64 (n - 1)) by (split; nia).
  pose proof (Z.mod_pos_bound (n - 1) (shardCount t) Hc). rewrite wrap_small by (split; nia). done.
Qed.

Section instance.
Context (Sum64 : bytes -> bytes -> uint64).

#[export] Instance Topology_ok :
  @NetTopologyOk Topology (Topology_NetTopology Sum64) topology_ok shardCount.
Proof using Type.
  split.
  - intros t s Hok Hs. pose proof Hok as (Hc & Hz & Hw). simpl.
    eexists. split; [by apply nodesInShard_eq|]. split_and!.
    + apply NoDup_fmap_2_strong; [|apply NoDup_seqZ]. intros x y _ _ He. nia.
    + rewrite length_fmap, length_seqZ. lia.
    + intros n. rewrite list_elem_of_fmap. setoid_rewrite elem_of_seqZ. split.
      * intros (k & -> & Hk).
        assert (1 <= s + k * shardCount t <= total_nodes t) as Hn by (rewrite total_nodes_eq by done; nia).
        split; [done|]. rewrite shardForNode_eq by done. f_equal.
        replace (s + k * shardCount t - 1) with (s - 1 + k * shardCount t) by lia.
        rewrite Z_mod_plus_full, Z.mod_small by lia. lia.
      * intros [Hn Hsh]. rewrite shardForNode_eq in Hsh by done. injection Hsh as Hsh.
        rewrite total_nodes_eq in Hn by done.
        exists ((n - 1) `div` shardCount t). pose proof (Z.div_mod (n - 1) (shardCount t) ltac:(lia)).
        split; [lia|]. split; [apply Z.div_pos; lia|]. rewrite Z.add_0_l. apply Z.div_lt_upper_bound; lia.
  - intros t n Hok Hn. eexists. split; [by apply shardForNode_eq|]. simpl.
    destruct Hok as (Hc & _ & _). pose proof (Z.mod_pos_bound (n - 1) (shardCount t) Hc). lia.
  - intros t k (Hc & Hz & Hw). simpl. unfold shardForVersionID. rewrite decide_False by lia.
    eexists. split; [done|]. pose proof (Z.mod_pos_bound (Sum64 k (rawID t)) (shardCount t) Hc).
    rewrite wrap_small by (split; nia). lia.
Qed.
End instance.

(** C21. The shards partition the nodes: every shard of a valid topology has
    exactly [shardSize] nodes, a node belongs to the nodes of a shard exactly
    when [ShardForNode] says so, and every node and every object key has a
    shard of the network. *)
Theorem shards_partition Sum64 t : topology_ok t ->
  (forall s, 1 <= s <= shardCount t ->
     exists ns, nodesInShard s t = Ret ns /\ NoDup ns /\ Z.of_nat (length ns) = shardSize t /\
       forall n, n ∈ ns <-> 1 <= n <= total_nodes t /\ shardForNode n t = Ret s) /\
  (forall n, 1 <= n <= total_nodes t -> exists s, shardForNode n t = Ret s /\ 1 <= s <= shardCount t) /\
  (forall k, exists s, shardForVersionID Sum64 k t = Ret s /\ 1 <= s <= shardCount t).
Proof.
  intros Hok. destruct (Topology_ok Sum64) as [H1 H2 H3].
  split_and!; intros; [by apply (H1 t)|by apply (H2 t)|by apply (H3 t)].
Qed.

Lemma shards_partition_witness :
  exists ns, nodesInShard 2 (MkTopology ∅ [] [] ∅ [] 3 4) = Ret ns /\ Z.of_nat (length ns) = 4.
Proof.
  destruct (shards_partition (fun k _ => Z.of_nat (length k)) (MkTopology ∅ [] [] ∅ [] 3 4)) as [H _].
  { split_and!; simpl; lia. }
  destruct (H 2 ltac:(simpl; lia)) as (ns & H1 & _ & H2 & _). by exists ns.
Defined.

(** Node IDs are global, while a consensus instance sizes its bitsets by the
    number of nodes of the shard: with twenty shards of four nodes, node 80 of
    shard 20 has no slot in the bitset of its own shard. *)
Lemma shard_node_without_slot :
  let t := MkTopology ∅ [] [] ∅ [] 20 4 in
  nodesInShard 20 t = Ret [20; 40; 60; 80] /\ setPrepare (newBitset 4) 80 = None.
Proof. split; by vm_compute. Qed.
