(* ===== verification/Conn.v ===== *)
(** * Conn: framing of messages on a connection

    Model of [src/network/conn.go].  The network is the environment: a read
    returns some of the bytes that have arrived, a write accepts some of the
    bytes that it is given.  Deadlines are left out; every error closes the
    connection.  A call runs as a whole; [ConnShared] has the interleaving of a
    reader and a writer, which share the buffer of the connection. *)
From S2P Require Import Prelude Codec Database.

(** [cn_in] has the bytes that the next reads find, [cn_accept] how many bytes
    the next writes take, [cn_out] what has been written. *)
Record Conn := MkConn {
  cn_buf : bytes;
  cn_in : list bytes;
  cn_out : bytes;
  cn_accept : list nat;
  cn_closed : bool;
  lastID : uint64
}.

Definition set_conn_in buf chunks c := MkConn buf chunks (cn_out c) (cn_accept c) (cn_closed c) (lastID c).
Definition set_conn_out buf out acc c := MkConn buf (cn_in c) out acc (cn_closed c) (lastID c).
Definition close_conn c := MkConn (cn_buf c) (cn_in c) (cn_out c) (cn_accept c) true (lastID c).
Definition set_lastID x c := MkConn (cn_buf c) (cn_in c) (cn_out c) (cn_accept c) (cn_closed c) x.

(** [NewConn]. *)
Definition NewConn (chunks : list bytes) (accept : list nat) : Conn :=
  MkConn (replicate 1024 0) chunks [] accept false 0.

(** [for need > 0 { n, err := c.conn.Read(...); need -= n }]: the bytes read,
    [None] at the end of the input. *)
Fixpoint read_loop (need : nat) (chunks : list bytes) (got : bytes) : option (bytes * list bytes) :=
  if decide (need = 0%nat) then Some (got, chunks) else
  match chunks with
  | [] => None
  | c :: chunks =>
      if decide (need < length c)%nat then Some (got ++ take need c, drop need c :: chunks)
      else read_loop (need - length c) chunks (got ++ c)
  end.

(** [copy] of what was read into the buffer. *)
Definition fill (buf data : bytes) : bytes := data ++ drop (length data) buf.

(** [int(int32(x))]. *)
Definition to_int32 (x : uint32) : goint := if decide (x < 2 ^ 31) then x else x - 2 ^ 32.

Definition errClosedRead : string := "EOF".
Definition errSizeOverflow : string := "network: payload size overflows an int32".
Definition errSizeLimit : string := "network: payload size %d exceeds max payload size".

(** The result and the connection afterwards. *)
Definition readPayload (limit : goint) (c : Conn) : go bytes * Conn :=
  match read_loop 4 (cn_in c) [] with
  | None => (Fail errClosedRead, close_conn c)
  | Some (header, chunks) =>
      let buf := fill (cn_buf c) header in
      let c := set_conn_in buf chunks c in
      match Uint 4 buf with
      | Ret x =>
          let size := to_int32 x in
          if decide (size < 0) then (Fail errSizeOverflow, close_conn c) else
          if decide (size > limit) then (Fail errSizeLimit, close_conn c) else
          let buf := if decide (Z.of_nat (length buf) < size) then replicate (Z.to_nat size) 0 else buf in
          let c := set_conn_in buf chunks c in
          match read_loop (Z.to_nat size) chunks [] with
          | None => (Fail errClosedRead, close_conn c)
          | Some (payload, chunks) =>
              let buf := fill buf payload in
              (Ret (take (Z.to_nat size) buf), set_conn_in buf chunks c)
          end
      | Fail e => (Fail e, c)
      | Crash => (Crash, c)
      end
  end.

Definition ReadMessage {A} `{Proto A} (limit : goint) (c : Conn) : go A * Conn :=
  let '(r, c) := readPayload limit c in (payload ← r; Unmarshal payload, c).

(** [ReadHello] and [ReadMessage] read the same way. *)
Definition ReadHello {A} `{Proto A} (limit : goint) (c : Conn) : go A * Conn :=
  let '(r, c) := readPayload limit c in (payload ← r; Unmarshal payload, c).

(** [for need > 0 { n, err := c.conn.Write(buf); buf = buf[n:] }]: what was
    written, and whether all of it was. *)
Fixpoint write_loop (data : bytes) (accept : list nat) (out : bytes) : bool * bytes * list nat :=
  if decide (length data = 0%nat) then (true, out, accept) else
  match accept with
  | [] => (false, out, [])
  | n :: accept => write_loop (drop n data) accept (out ++ take n data)
  end.

Definition WritePayload {A} `{Proto A} (pb : A) (limit : goint) (c : Conn) : go () * Conn :=
  match Marshal pb with
  | Ret payload =>
      let size := Z.of_nat (length payload) in
      if decide (size > limit) then (Fail errSizeLimit, close_conn c) else
      let header := PutUint32 (u32 size) in
      let buf := fill (cn_buf c) header in
      let '(ok, out, acc) := write_loop header (cn_accept c) (cn_out c) in
      let c := set_conn_out buf out acc c in
      if ok : bool then
        let '(ok, out, acc) := write_loop payload (cn_accept c) (cn_out c) in
        let c := set_conn_out buf out acc c in
        if ok : bool then (Ret tt, c) else (Fail "write error", close_conn c)
      else (Fail "write error", close_conn c)
  | Fail e => (Fail e, close_conn c)
  | Crash => (Crash, c)
  end.

(** [WriteRequest]: the identifier comes from a counter shared by all
    connections. *)
Definition WriteRequest {A} `{Proto A} (setID : uint64 -> A -> A) (msg : A) (limit : goint)
    (atomicid : uint64) (c : Conn) : go uint64 * Conn * uint64 :=
  let id := u64 (atomicid + 1) in
  let '(r, c) := WritePayload (setID id msg) limit (set_lastID (u64 (lastID c + 1)) c) in
  (_ ← r; Ret id, c, id).

(** ** What is written is read *)

Lemma read_loop_spec need chunks got rest data : concat chunks = data ++ rest -> length data = need ->
  exists chunks', read_loop need chunks got = Some (got ++ data, chunks') /\ concat chunks' = rest.
Proof.
  revert need got data. induction chunks as [|c chunks IH]; intros need got data Hc Hl; cbn [read_loop].
  - symmetry in Hc. apply app_eq_nil in Hc as [-> ->]. subst need. simpl.
    exists []. by rewrite app_nil_r.
  - case_decide as Hn.
    + subst. destruct data; [|done]. exists (c :: chunks). by rewrite app_nil_r.
    + simpl in Hc. subst need.
      pose proof (f_equal (take (length data)) Hc) as Ht. rewrite take_app_length in Ht.
      pose proof (f_equal (drop (length data)) Hc) as Hd. rewrite drop_app_length in Hd.
      pose proof (f_equal (take (length c)) Hc) as Ht'. rewrite take_app_length in Ht'.
      pose proof (f_equal (drop (length c)) Hc) as Hd'. rewrite drop_app_length in Hd'.
      case_decide as Hlt.
      * rewrite take_app_le in Ht by lia. rewrite drop_app_le in Hd by lia. rewrite Ht. by eexists.
      * rewrite take_app_le in Ht' by lia. rewrite drop_app_le in Hd' by lia.
        destruct (IH (length data - length c)%nat (got ++ c) (drop (length c) data)) as (ch' & Hr & Hc').
        { done. }
        { by rewrite length_drop. }
        exists ch'. split; [|done]. rewrite Hr, <-app_assoc. do 3 f_equal. rewrite Ht' at 1. apply take_drop.
Qed.

Lemma write_loop_spec data accept out out' acc' :
  write_loop data accept out = (true, out', acc') -> out' = out ++ data.
Proof.
  revert data out. induction accept as [|n accept IH]; intros data out; simpl; case_decide as Hl.
  1, 3: destruct data; [|done]; intros Heq; injection Heq as <- _; by rewrite app_nil_r.
  - done.
  - intros ->%IH. by rewrite <-app_assoc, take_drop.
Qed.

(** The bytes of one message on the wire. *)
Definition frame (payload : bytes) : bytes := PutUint32 (u32 (Z.of_nat (length payload))) ++ payload.

Lemma WritePayload_frame {A} `{Proto A} (pb : A) limit c c' : WritePayload pb limit c = (Ret tt, c') ->
  exists payload, Marshal pb = Ret payload /\ Z.of_nat (length payload) <= limit /\
    cn_out c' = cn_out c ++ frame payload.
Proof.
  unfold WritePayload, frame. destruct (Marshal pb) as [payload|e|]; [|done..]. cbv zeta.
  case_decide; [done|]. destruct (write_loop _ (cn_accept c) (cn_out c)) as [[ok out] acc] eqn:E1.
  destruct ok; [|done]. apply write_loop_spec in E1 as ->. cbn [cn_accept cn_out set_conn_out].
  destruct (write_loop payload _ _) as [[ok out] acc'] eqn:E2. destruct ok; [|done].
  apply write_loop_spec in E2 as ->. intros [= <-]. exists payload. split_and!; [done|lia|].
  cbn [cn_out set_conn_out]. by rewrite app_assoc.
Qed.

Lemma readPayload_frame limit c payload rest :
  limit < 2 ^ 31 -> Z.of_nat (length payload) <= limit ->
  (4 <= length (cn_buf c))%nat -> concat (cn_in c) = frame payload ++ rest ->
  exists c', readPayload limit c = (Ret payload, c') /\ concat (cn_in c') = rest /\
    (4 <= length (cn_buf c'))%nat.
Proof.
  intros Hlim Hle Hbuf Hin. unfold frame in Hin. rewrite <-app_assoc in Hin. unfold readPayload.
  destruct (read_loop_spec 4 _ [] _ _ Hin) as (chunks & -> & Hch); [apply length_PutUint|].
  rewrite app_nil_l. cbv zeta.
  set (h := PutUint32 (u32 (Z.of_nat (length payload)))) in *.
  assert (length h = 4%nat) as Hh by apply length_PutUint.
  assert (Uint 4 (fill (cn_buf c) h) = Ret (Z.of_nat (length payload))) as ->.
  { unfold fill, h. rewrite wrap_small by (split; lia). apply Uint_PutUint. simpl. lia. }
  assert (to_int32 (Z.of_nat (length payload)) = Z.of_nat (length payload)) as Hi.
  { unfold to_int32. rewrite decide_True by lia. done. }
  rewrite !Hi. rewrite decide_False by lia. rewrite decide_False by lia.
  rewrite Nat2Z.id. destruct (read_loop_spec (length payload) chunks [] _ _ Hch eq_refl) as (chunks' & -> & Hch').
  rewrite app_nil_l. set (buf := if decide _ then _ else _).
  assert (4 <= length buf /\ length payload <= length buf)%nat as [Hb1 Hb2].
  { subst buf. case_decide as Hd; rewrite ?length_replicate; unfold fill in *;
      rewrite ?length_app, ?length_drop in *; lia. }
  eexists. split; [|split].
  - unfold fill. by rewrite take_app_length.
  - done.
  - simpl. unfold fill. rewrite length_app, length_drop. lia.
Qed.

(** Writes one message after the other. *)
Fixpoint writeAll {A} `{Proto A} (msgs : list A) (limit : goint) (c : Conn) : go () * Conn :=
  match msgs with
  | [] => (Ret tt, c)
  | m :: msgs =>
      match WritePayload m limit c with
      | (Ret _, c) => writeAll msgs limit c
      | (r, c) => (r, c)
      end
  end.

Fixpoint readAll {A} `{Proto A} (n : nat) (limit : goint) (c : Conn) : go (list A) * Conn :=
  match n with
  | O => (Ret [], c)
  | S n =>
      match ReadMessage limit c with
      | (Ret m, c) => let '(r, c) := readAll n limit c in (ms ← r; Ret (m :: ms), c)
      | (Fail e, c) => (Fail e, c)
      | (Crash, c) => (Crash, c)
      end
  end.

(** C22. Messages arrive as they were sent: when a sequence of messages has
    been written on a connection, in pieces of any size, and the bytes reach
    the other end in fragments of any size, then the same messages are read
    there in the same order, and exactly their bytes are consumed. *)
Theorem messages_roundtrip {A} `{Proto A, !ProtoOk A} (msgs : list A) limit accept chunks rest c c' :
  limit < 2 ^ 31 ->
  writeAll msgs limit (NewConn [] accept) = (Ret tt, c) ->
  concat chunks = cn_out c ++ rest -> c' = NewConn chunks [] ->
  exists c'', readAll (length msgs) limit c' = (Ret msgs, c'') /\ concat (cn_in c'') = rest.
Proof.
  intros Hlim Hw Hc ->.
  assert (forall c0 c1, writeAll msgs limit c0 = (Ret tt, c1) ->
    exists out, cn_out c1 = cn_out c0 ++ out /\
    forall cr rest, (4 <= length (cn_buf cr))%nat -> concat (cn_in cr) = out ++ rest ->
      exists cr', readAll (length msgs) limit cr = (Ret msgs, cr') /\ concat (cn_in cr') = rest) as Hall.
  { clear -Hlim ProtoOk0. induction msgs as [|m msgs IH]; intros c0 c1 Hw; simpl in Hw.
    - injection Hw as <-. exists []. rewrite app_nil_r. split; [done|]. intros cr rest _ Hr. by exists cr.
    - destruct (WritePayload m limit c0) as [[[]|e|] c2] eqn:E; [|done..].
      apply WritePayload_frame in E as (payload & Hm & Hle & Hout).
      destruct (IH _ _ Hw) as (out & Hout' & Hread). exists (frame payload ++ out).
      split; [by rewrite Hout', Hout, app_assoc|]. intros cr rest Hbuf Hin. rewrite <-app_assoc in Hin.
      destruct (readPayload_frame limit cr payload (out ++ rest)) as (cr1 & Hr1 & Hin1 & Hbuf1); eauto.
      destruct (Hread cr1 rest Hbuf1 Hin1) as (cr2 & Hr2 & Hin2). exists cr2. split; [|done].
      cbn [length readAll]. unfold ReadMessage. rewrite Hr1. cbn [mbind go_bind].
      rewrite (unmarshal_marshal _ _ Hm), Hr2. done. }
  destruct (Hall _ _ Hw) as (out & Hout & Hread). simpl in Hout. subst out.
  apply Hread; [|done]. cbn [cn_buf NewConn]. rewrite length_replicate. lia.
Qed.

(** Byte strings as messages. *)
#[local] Instance raw_proto : Proto bytes := {| Marshal := fun x => Ret x; Unmarshal := fun x => Ret x |}.
#[local] Instance raw_proto_ok : ProtoOk bytes.
Proof. intros x b [= ->]. done. Qed.

Lemma messages_roundtrip_witness :
  exists c'', readAll 2 100 (NewConn [[2; 0]; []; [0; 0; 7; 8; 1]; [0; 0; 0]; [9; 5]] []) =
    (Ret [[7; 8]; [9]], c'') /\ concat (cn_in c'') = [5].
Proof.
  eapply (messages_roundtrip [[7; 8]; [9]] 100 [1; 2; 1; 5; 3; 1; 1]%nat
    [[2; 0]; []; [0; 0; 7; 8; 1]; [0; 0; 0]; [9; 5]] [5]); [lia|reflexivity|reflexivity|reflexivity].
Defined.
