(* ===== verification/ConnShared.v ===== *)
(** * ConnShared: a reader and a writer of one connection

    The pool of [src/internal/conns] reads acknowledgements from a connection in
    one goroutine while others, one at a time, write requests to it, and both use
    the buffer of the connection.  Here the calls of [src/network/conn.go] are
    split at their reads and writes of the network, with the buffers as addresses
    in a heap: a step of the reader or of the writer is one access. *)
From S2P Require Import Prelude Codec Database Conn.

(** Where [readPayload] and [ReadMessage] are; [b] is the address of the local
    variable [buf].  [RGot]: everything is read and the payload is to be decoded. *)
Inductive rphase :=
  | RIdle
  | RHead (b need : nat)
  | RBody (b size need : nat)
  | RGot (b size : nat)
  | RRet (payload : bytes)
  | RErr (e : string).

(** Where [WritePayload] is: the rest of the header is the buffer from [off] on. *)
Inductive wphase :=
  | WIdle (payload : bytes)
  | WHead (b off : nat) (payload : bytes)
  | WBody (payload : bytes)
  | WRet
  | WErr (e : string).

Record shared := MkShared {
  sh_heap : list bytes; sh_buf : nat; sh_in : list bytes; sh_out : bytes; sh_accept : list nat;
  sh_r : rphase; sh_w : wphase }.

Definition set_r x s := MkShared (sh_heap s) (sh_buf s) (sh_in s) (sh_out s) (sh_accept s) x (sh_w s).
Definition set_w x s := MkShared (sh_heap s) (sh_buf s) (sh_in s) (sh_out s) (sh_accept s) (sh_r s) x.
Definition set_heap x s := MkShared x (sh_buf s) (sh_in s) (sh_out s) (sh_accept s) (sh_r s) (sh_w s).
Definition set_buf x s := MkShared (sh_heap s) x (sh_in s) (sh_out s) (sh_accept s) (sh_r s) (sh_w s).
Definition set_in x s := MkShared (sh_heap s) (sh_buf s) x (sh_out s) (sh_accept s) (sh_r s) (sh_w s).
Definition set_written out acc s := MkShared (sh_heap s) (sh_buf s) (sh_in s) out acc (sh_r s) (sh_w s).

(** Every error of one goroutine closes the connection for the other one too. *)
Definition sh_closed (s : shared) : bool :=
  match sh_r s, sh_w s with RErr _, _ | _, WErr _ => true | _, _ => false end.

(** Overwrites part of a buffer. *)
Definition put_at (off : nat) (data buf : bytes) : bytes := take off buf ++ data ++ drop (off + length data) buf.

(** [c.conn.Read(buf[off : off+need])]: how many bytes were read, and the state. *)
Definition net_read (b off need : nat) (s : shared) : option (nat * shared) :=
  match sh_closed s, sh_in s with
  | true, _ | _, [] => None
  | _, c :: chunks =>
      Some (length (take need c),
        set_in (if decide (need < length c)%nat then drop need c :: chunks else chunks)
          (set_heap (alter (put_at off (take need c)) b (sh_heap s)) s))
  end.

(** A deadline passes while a goroutine waits for the network: [conn.Read] and
    [conn.Write] fail like after any other error. *)
Definition errTimeout : string := "i/o timeout".
Definition timeout_read (s : shared) : option shared :=
  match sh_r s with RHead _ (S _) | RBody _ _ (S _) => Some (set_r (RErr errTimeout) s) | _ => None end.
Definition timeout_write (s : shared) : option shared :=
  match sh_w s with WHead _ _ _ | WBody _ => Some (set_w (WErr errTimeout) s) | _ => None end.

Section step.
Context (limit : goint).

(** After the header: the size, and a new buffer when the one at hand is too
    small. *)
Definition decode_header (b : nat) (s : shared) : option shared :=
  buf ← sh_heap s !! b;
  match Uint 4 buf with
  | Ret x =>
      let size := to_int32 x in
      if decide (size < 0) then Some (set_r (RErr errSizeOverflow) s) else
      if decide (size > limit) then Some (set_r (RErr errSizeLimit) s) else
      let n := Z.to_nat size in
      if decide (Z.of_nat (length buf) < size) then
        let b := length (sh_heap s) in
        Some (set_r (RBody b n n) (set_buf b (set_heap (sh_heap s ++ [replicate n 0]) s)))
      else Some (set_r (RBody b n n) s)
  | _ => None
  end.

Definition rstep (s : shared) : option shared :=
  match sh_r s with
  | RIdle => Some (set_r (RHead (sh_buf s) 4) s)
  | RHead b O => decode_header b s
  | RHead b need =>
      match net_read b (4 - need) need s with
      | Some (n, s) => Some (set_r (RHead b (need - n)) s)
      | None => Some (set_r (RErr errClosedRead) s)
      end
  | RBody b size O => Some (set_r (RGot b size) s)
  | RBody b size need =>
      match net_read b (size - need) need s with
      | Some (n, s) => Some (set_r (RBody b size (need - n)) s)
      | None => Some (set_r (RErr errClosedRead) s)
      end
  | RGot b size => buf ← sh_heap s !! b; Some (set_r (RRet (take size buf)) s)
  | RRet _ | RErr _ => None
  end.

Definition wstep (s : shared) : option shared :=
  match sh_w s with
  | WIdle payload =>
      let size := Z.of_nat (length payload) in
      if decide (size > limit) then Some (set_w (WErr errSizeLimit) s)
      else Some (set_w (WHead (sh_buf s) 0 payload)
                   (set_heap (alter (put_at 0 (PutUint32 (u32 size))) (sh_buf s) (sh_heap s)) s))
  | WHead b off payload =>
      if decide (4 <= off)%nat then Some (set_w (WBody payload) s)
      else
        match sh_closed s, sh_accept s, sh_heap s !! b with
        | false, n :: acc, Some buf =>
            let data := take n (drop off (take 4 buf)) in
            Some (set_w (WHead b (off + length data) payload) (set_written (sh_out s ++ data) acc s))
        | _, _, _ => Some (set_w (WErr "write error") s)
        end
  | WBody payload =>
      if decide (length payload = 0%nat) then Some (set_w WRet s)
      else
        match sh_closed s, sh_accept s with
        | false, n :: acc =>
            Some (set_w (WBody (drop n payload)) (set_written (sh_out s ++ take n payload) acc s))
        | _, _ => Some (set_w (WErr "write error") s)
        end
  | WRet | WErr _ => None
  end.

(** A schedule: [true] is a step of the reader.  [None] when the goroutine has no
    step to make. *)
Fixpoint run_schedule (sched : list bool) (s : shared) : option shared :=
  match sched with
  | [] => Some s
  | true :: sched => s ← rstep s; run_schedule sched s
  | false :: sched => s ← wstep s; run_schedule sched s
  end.
End step.

(** The connection [c] with both goroutines at their start. *)
Definition share (c : Conn) (payload : bytes) : shared :=
  MkShared [cn_buf c] 0 (cn_in c) (cn_out c) (cn_accept c) RIdle (WIdle payload).

(** ** Interference *)

(** An acknowledgement of three bytes arrives after the writer has put the size of
    its request into the buffer and before the buffer is written: the request goes
    out with the size of the acknowledgement. *)
Example header_is_overwritten :
  (sh_out <$> run_schedule 100 [true; false; true; false; false; false; false]
     (share (NewConn [[3; 0; 0; 0]; [7; 8; 9]] [10; 10]%nat) [1; 2; 3; 4; 5])) = Some [3; 0; 0; 0; 1; 2; 3; 4; 5] /\
  frame [1; 2; 3; 4; 5] = [5; 0; 0; 0; 1; 2; 3; 4; 5].
Proof. split; by vm_compute. Qed.

(** A request is started after an acknowledgement has been read and before it is
    decoded: its first bytes are those of the size of the request. *)
Example payload_is_overwritten :
  (sh_r <$> run_schedule 100 [true; true; true; true; true; false; true]
     (share (NewConn [[6; 0; 0; 0]; [7; 8; 9; 10; 11; 12]] [10; 10]%nat) [1; 2; 3; 4; 5])) =
  Some (RRet [5; 0; 0; 0; 11; 12]).
Proof. by vm_compute. Qed.

(** The readers of acknowledgements wait for a second: a connection on which
    nothing has arrived for so long is closed, and the next request on it fails. *)
Lemma idle_connection_closes payload accept : Z.of_nat (length payload) <= 100 ->
  exists s1 s2 s3, rstep 100 (share (NewConn [] accept) payload) = Some s1 /\ timeout_read s1 = Some s2 /\
    sh_closed s2 = true /\ wstep 100 s2 = Some s3 /\ wstep 100 s3 = Some (set_w (WErr "write error") s3).
Proof.
  intros Hp. do 3 eexists. split_and!; [done..| |].
  - unfold wstep. cbn [sh_w share set_r set_w]. rewrite decide_False by lia. done.
  - unfold wstep. cbn [sh_w sh_accept set_r set_w set_heap share]. rewrite decide_False by lia. done.
Qed.

(** ** Calls that do not interfere

    A call uses the buffer of the connection between two moments: the writer from
    its first step until the header is written, the reader from the first bytes
    that it receives until the payload is decoded.  When neither makes a step in
    the other's time, everything else may be interleaved in any way. *)

Definition may_read (s : shared) : bool :=
  match sh_w s, sh_r s with WHead _ _ _, RIdle => true | WHead _ _ _, _ => false | _, _ => true end.
Definition may_write (s : shared) : bool :=
  match sh_w s, sh_r s with
  | WIdle _, (RIdle | RHead _ 4 | RRet _ | RErr _) => true
  | WIdle _, _ => false
  | _, _ => true
  end.

Inductive exclusive (limit : goint) : shared -> shared -> Prop :=
  | exclusive_read s s' : may_read s = true -> rstep limit s = Some s' -> exclusive limit s s'
  | exclusive_write s s' : may_write s = true -> wstep limit s = Some s' -> exclusive limit s s'
  | exclusive_timeout_read s s' : timeout_read s = Some s' -> exclusive limit s s'
  | exclusive_timeout_write s s' : timeout_write s = Some s' -> exclusive limit s s'.

Fixpoint run_exclusive (limit : goint) (sched : list bool) (s : shared) : option shared :=
  match sched with
  | [] => Some s
  | true :: sched => if may_read s then s ← rstep limit s; run_exclusive limit sched s else None
  | false :: sched => if may_write s then s ← wstep limit s; run_exclusive limit sched s else None
  end.

Lemma run_exclusive_sound limit sched s s' : run_exclusive limit sched s = Some s' -> rtc (exclusive limit) s s'.
Proof.
  revert s. induction sched as [|[] sched IH]; intros s; cbn [run_exclusive]; [by intros [= ->]|..].
  - destruct (may_read s) eqn:Hm; [|done]. intros (s1 & Hs & Hrun)%bind_Some. eapply rtc_l; [by apply exclusive_read|by apply IH].
  - destruct (may_write s) eqn:Hm; [|done]. intros (s1 & Hs & Hrun)%bind_Some. eapply rtc_l; [by apply exclusive_write|by apply IH].
Qed.

Lemma length_put_at off data buf : (length buf <= length (put_at off data buf))%nat.
Proof. unfold put_at. rewrite !length_app, length_take, length_drop. lia. Qed.

Lemma put_at_next got data buf : take (length got) buf = got ->
  take (length (got ++ data)) (put_at (length got) data buf) = got ++ data.
Proof. intros Hg. unfold put_at. rewrite Hg, app_assoc. apply take_app_length. Qed.

(** A buffer of the heap, large enough for a header, whose contents satisfy [P]. *)
Definition buffer (heap : list bytes) (b : nat) (P : bytes -> Prop) : Prop :=
  exists buf, heap !! b = Some buf /\ (4 <= length buf)%nat /\ P buf.

Lemma buffer_alter heap b b' f (P Q : bytes -> Prop) : buffer heap b P ->
  (forall buf, (length buf <= length (f buf))%nat) -> (forall buf, P buf -> Q buf) -> (b = b' -> forall buf, P buf -> Q (f buf)) ->
  buffer (alter f b' heap) b Q.
Proof.
  intros (buf & Hb & Hl & HP) Hf HPQ HQ. destruct (decide (b = b')) as [<-|Hne].
  - exists (f buf). rewrite list_lookup_alter_eq, Hb. split_and!; [done| |auto]. specialize (Hf buf). lia.
  - exists buf. rewrite list_lookup_alter_ne by done. auto.
Qed.
(** A read moves a piece [d] of what is to come into the buffer. *)
Lemma net_read_Some b off need s n s' tail x : net_read b off need s = Some (n, s') ->
  concat (sh_in s) = tail ++ x -> length tail = need ->
  exists d tail' chunks, tail = d ++ tail' /\ n = length d /\ concat chunks = tail' ++ x /\
    s' = set_in chunks (set_heap (alter (put_at off d) b (sh_heap s)) s).
Proof.
  unfold net_read. intros Hr Hin Hl. destruct (sh_closed s); [done|]. destruct (sh_in s) as [|c chunks]; [done|].
  injection Hr as <- <-. cbn [concat] in Hin.
  assert (take need c = take (length (take need c)) tail) as Ht.
  { rewrite <-(take_app_le tail x), <-Hin, take_app_le by (rewrite length_take; lia).
    by rewrite length_take, <-take_take, (take_ge c (length c)). }
  exists (take need c), (drop (length (take need c)) tail), (if decide (need < length c)%nat then drop need c :: chunks else chunks).
  split_and!; [|done| |done].
  - by rewrite Ht, take_drop at 1.
  - apply (f_equal (drop (length (take need c)))) in Hin. rewrite length_take in *.
    rewrite (drop_app_le tail) in Hin by lia. rewrite <-Hin, drop_app_le by lia. case_decide.
    + by rewrite Nat.min_l by lia.
    + rewrite Nat.min_r, drop_all by lia. done.
Qed.

Lemma net_read_None b off need s tail x : net_read b off need s = None ->
  concat (sh_in s) = tail ++ x -> (0 < length tail)%nat -> sh_closed s = true.
Proof. unfold net_read. destruct (sh_closed s); [done|]. destruct (sh_in s); [|done]. destruct tail; [cbn; lia|done]. Qed.

Lemma take_more {A} off n (l : list A) : take off l ++ take n (drop off l) = take (off + length (take n (drop off l))) l.
Proof.
  rewrite take_take_drop, length_take, length_drop. destruct (decide (n <= length l - off)%nat).
  - by rewrite Nat.min_l by lia.
  - rewrite Nat.min_r by lia. by rewrite !take_ge by lia.
Qed.

Section exclusive.
Context (limit : goint) (p rest out0 w : bytes) (Hlim : limit < 2 ^ 31) (Hp : Z.of_nat (length p) <= limit).

Abbreviation header x := (PutUint32 (u32 (Z.of_nat (length x)))).

Definition reader_ok (s : shared) : Prop :=
  match sh_r s with
  | RIdle => concat (sh_in s) = frame p ++ rest
  | RHead b need => exists got tail, header p = got ++ tail /\ length tail = need /\
      buffer (sh_heap s) b (fun buf => take (length got) buf = got) /\ concat (sh_in s) = tail ++ p ++ rest
  | RBody b size need => size = length p /\ exists got tail, p = got ++ tail /\ length tail = need /\
      buffer (sh_heap s) b (fun buf => (size <= length buf)%nat /\ take (length got) buf = got) /\
      concat (sh_in s) = tail ++ rest
  | RGot b size => size = length p /\ buffer (sh_heap s) b (fun buf => take size buf = p) /\ concat (sh_in s) = rest
  | RRet q => q = p /\ concat (sh_in s) = rest
  | RErr e => e = errTimeout \/ exists e', sh_w s = WErr e'
  end.

Definition writer_ok (s : shared) : Prop :=
  match sh_w s with
  | WIdle x => x = w /\ sh_out s = out0
  | WHead b off x => x = w /\ sh_out s = out0 ++ take off (header w) /\
      buffer (sh_heap s) b (fun buf => take 4 buf = header w)
  | WBody x => exists sent, w = sent ++ x /\ sh_out s = out0 ++ header w ++ sent
  | WRet => sh_out s = out0 ++ frame w
  | WErr _ => True
  end.

Definition shared_ok (s : shared) : Prop :=
  buffer (sh_heap s) (sh_buf s) (fun _ => True) /\ reader_ok s /\ writer_ok s.


(** What the reader does to the heap concerns the writer only while it has its
    header in the buffer. *)
Lemma writer_ok_heap heap cb chunks r s : may_read s = true -> sh_r s <> RIdle -> writer_ok s ->
  writer_ok (MkShared heap cb chunks (sh_out s) (sh_accept s) r (sh_w s)).
Proof using Type. unfold may_read, writer_ok. by destruct (sh_w s), (sh_r s). Qed.

Lemma closed_by_writer s : (forall e, sh_r s <> RErr e) -> sh_closed s = true -> exists e, sh_w s = WErr e.
Proof using Type. unfold sh_closed. destruct (sh_r s) eqn:Hr, (sh_w s); intros Hn; try done; try (by eexists); by destruct (Hn e). Qed.

Lemma header_decoded buf : take 4 buf = header p -> Uint 4 buf = Ret (Z.of_nat (length p)).
Proof using Hlim Hp.
  intros Hh. rewrite <-(take_drop 4 buf), Hh, wrap_small by (split; lia). apply Uint_PutUint. simpl. lia.
Qed.

Lemma decode_header_ok b s s' : shared_ok s -> sh_r s = RHead b 0 -> may_read s = true ->
  decode_header limit b s = Some s' -> shared_ok s'.
Proof using Hlim Hp.
  intros (Hb & Hr & Hw) Hph Hm. unfold reader_ok in Hr. rewrite Hph in Hr.
  destruct Hr as (got & tail & Hhd & Htl & (buf & Hbuf & Hlen & Hgot) & Hin).
  destruct tail; [|done]. rewrite app_nil_r in Hhd. subst got. rewrite length_PutUint in Hgot.
  unfold decode_header. rewrite Hbuf. cbn [mbind option_bind]. rewrite (header_decoded buf) by done.
  assert (to_int32 (Z.of_nat (length p)) = Z.of_nat (length p)) as -> by (unfold to_int32; by rewrite decide_True by lia).
  rewrite decide_False by lia. rewrite decide_False by lia. rewrite Nat2Z.id.
  assert (sh_r s <> RIdle) as Hne by by rewrite Hph. case_decide as Hs; intros [= <-].
  - set (new := replicate _ _). assert ((sh_heap s ++ [new]) !! length (sh_heap s) = Some new) as Hnew
      by (by rewrite lookup_app_r, Nat.sub_diag by done).
    assert (4 <= length new)%nat by (unfold new; rewrite length_replicate; lia).
    split; [by exists new|]. split; [|by apply (writer_ok_heap _ _ _ _ s)]. split; [done|]. exists [], p.
    split_and!; [done|done| |done]. exists new. split_and!; [done|done|by unfold new; rewrite length_replicate|done].
  - split; [done|]. split; [|by apply (writer_ok_heap _ _ _ _ s)]. split; [done|]. exists [], p.
    split_and!; [done|done| |done]. exists buf. split_and!; [done|done|lia|done].
Qed.

(** One read of the two loops. *)
Lemma shared_ok_read b off need P s n s' tail x (r : nat -> rphase) :
  shared_ok s -> sh_r s <> RIdle -> may_read s = true ->
  net_read b off need s = Some (n, s') -> concat (sh_in s) = tail ++ x -> length tail = need ->
  buffer (sh_heap s) b P ->
  (forall d tail' heap chunks, tail = d ++ tail' -> buffer heap b (fun buf => exists buf0, P buf0 /\ buf = put_at off d buf0) ->
     concat chunks = tail' ++ x -> reader_ok (MkShared heap (sh_buf s) chunks (sh_out s) (sh_accept s) (r (length tail')) (sh_w s))) ->
  shared_ok (set_r (r (need - n)%nat) s').
Proof using Type.
  intros (Hb & Hr & Hw) Hne Hm Hread Hin Hl HP Hok.
  destruct (net_read_Some _ _ _ _ _ _ _ _ Hread Hin Hl) as (d & tail' & chunks & -> & -> & Hch & ->).
  split; [|split; [|by apply (writer_ok_heap _ _ _ _ s)]].
  - eapply buffer_alter; [exact Hb|intros; apply length_put_at|done|done].
  - rewrite length_app in Hl. replace (need - length d)%nat with (length tail') by lia. eapply Hok; [done| |done].
    destruct HP as (buf & Hbuf & Hlb & HP). exists (put_at off d buf). cbn. rewrite list_lookup_alter_eq, Hbuf.
    split_and!; [done| |by eexists]. pose proof (length_put_at off d buf). lia.
Qed.

Lemma read_failed s e : shared_ok s -> (forall e', sh_r s <> RErr e') -> sh_closed s = true -> shared_ok (set_r (RErr e) s).
Proof using Type. intros (Hb & Hr & Hw) Hn Hc. split; [done|]. split; [|done]. right. exact (closed_by_writer _ Hn Hc). Qed.

Lemma rstep_ok s s' : shared_ok s -> may_read s = true -> rstep limit s = Some s' -> shared_ok s'.
Proof using Hlim Hp.
  intros Hok Hm. pose proof Hok as (Hb & Hr & Hw). unfold rstep, reader_ok in *.
  destruct (sh_r s) as [|b [|need]|b size [|need]|b size| |] eqn:Hph; [..|done|done].
  - intros [= <-]. split; [done|]. split; [|done]. exists [], (header p).
    split_and!; [done|apply length_PutUint| |by rewrite app_assoc]. destruct Hb as (buf & ? & ? & _). by exists buf.
  - by apply decode_header_ok.
  - destruct Hr as (got & tail & Hhd & Hl & HP & Hin).
    destruct (net_read _ _ _ s) as [[n s1]|] eqn:Hread; intros [= <-].
    2: { apply read_failed; [done|by rewrite Hph|]. eapply net_read_None; [done..|lia]. }
    assert (4 - S need = length got)%nat as Hoff
      by (apply (f_equal length) in Hhd; rewrite length_PutUint, length_app in Hhd; lia).
    rewrite Hoff in Hread. eapply shared_ok_read; [done|by rewrite Hph|done..|].
    intros d tail' heap chunks -> (buf & Hbuf & Hlb & buf0 & Hgot & ->) Hch. exists (got ++ d), tail'.
    split_and!; [by rewrite <-app_assoc|done| |done]. exists (put_at (length got) d buf0). split_and!; [done..|].
    by apply put_at_next.
  - destruct Hr as (-> & got & tail & Hpt & Hl & (buf & Hbuf & Hlb & _ & Hgot) & Hin). intros [= <-].
    destruct tail; [|done]. rewrite app_nil_r in Hpt. subst got. split; [done|]. split; [|done].
    split; [done|]. split; [|done]. by exists buf.
  - destruct Hr as (-> & got & tail & Hpt & Hl & HP & Hin).
    destruct (net_read _ _ _ s) as [[n s1]|] eqn:Hread; intros [= <-].
    2: { apply read_failed; [done|by rewrite Hph|]. eapply net_read_None; [done..|lia]. }
    assert (length p - S need = length got)%nat as Hoff
      by (rewrite Hpt, length_app; lia).
    rewrite Hoff in Hread. eapply (shared_ok_read _ _ _ _ _ _ _ _ _ (RBody b (length p))); [done|by rewrite Hph|done..|].
    intros d tail' heap chunks -> (buf & Hbuf & Hlb & buf0 & [Hlen Hgot] & ->) Hch. split; [done|]. exists (got ++ d), tail'.
    split_and!; [by rewrite <-app_assoc|done| |done]. exists (put_at (length got) d buf0). split_and!; [done..| |].
    + pose proof (length_put_at (length got) d buf0). lia.
    + by apply put_at_next.
  - destruct Hr as (-> & (buf & Hbuf & Hlb & Hgot) & Hin). rewrite Hbuf. intros [= <-].
    split; [done|]. split; [|done]. by split.
Qed.

(** The writer's first step is the one that changes the heap. *)
Lemma reader_ok_start b data s x : may_write s = true -> sh_w s = WIdle x -> reader_ok s ->
  reader_ok (set_w (WHead b 0 x) (set_heap (alter (put_at 0 data) b (sh_heap s)) s)).
Proof using Type.
  unfold may_write, reader_ok. intros Hm Hph. rewrite Hph in Hm. cbn [sh_r sh_heap sh_in set_w set_heap].
  destruct (sh_r s) as [|b' need| | | |e]; [done|..|done|].
  - do 5 (destruct need as [|need]; try done). intros (got & tail & Hhd & Hl & HP & Hin).
    destruct got; [|apply (f_equal length) in Hhd; rewrite length_PutUint in Hhd; cbn in Hhd; rewrite length_app in Hhd; lia].
    exists [], tail. split_and!; [done..| |done]. eapply buffer_alter; [exact HP|intros; apply length_put_at|done|done].
  - done.
  - done.
  - intros [->|[e' He]]; [by left|]. by rewrite Hph in He.
Qed.

Lemma reader_ok_write s out acc x : (forall e, sh_w s <> WErr e) -> reader_ok s -> reader_ok (set_w x (set_written out acc s)).
Proof using Type.
  unfold reader_ok. intros Hw. cbn [sh_r sh_heap sh_in sh_w set_w set_written]. destruct (sh_r s); try done.
  intros [->|[e' He]]; [by left|]. by apply Hw in He.
Qed.

Lemma reader_ok_phase s x : (forall e, sh_w s <> WErr e) -> reader_ok s -> reader_ok (set_w x s).
Proof using Type. exact (reader_ok_write s (sh_out s) (sh_accept s) x). Qed.

Lemma wstep_ok s s' : shared_ok s -> may_write s = true -> wstep limit s = Some s' -> shared_ok s'.
Proof using Hlim Hp.
  intros Hok Hm. pose proof Hok as (Hb & Hr & Hw). unfold wstep, writer_ok in *.
  assert (forall e, (forall e', sh_w s <> WErr e') -> shared_ok (set_w (WErr e) s)) as Herr.
  { intros e He. split; [done|]. split; [|done]. by apply reader_ok_phase. }
  destruct (sh_w s) as [x|b off x|x| |] eqn:Hph; [..|done|done].
  - destruct Hw as [-> Ho]. case_decide; intros [= <-]; [by apply Herr|].
    assert (shared_ok (set_w (WHead (sh_buf s) 0 w)
      (set_heap (alter (put_at 0 (header w)) (sh_buf s) (sh_heap s)) s))) as Hgoal; [|exact Hgoal].
    split; [|split].
    + eapply buffer_alter; [exact Hb|intros; apply length_put_at|done|done].
    + by apply reader_ok_start.
    + split; [done|]. split; [by rewrite take_0, app_nil_r|].
      destruct Hb as (buf & Hbuf & Hl & _). exists (put_at 0 (header w) buf). cbn. rewrite list_lookup_alter_eq, Hbuf.
      split_and!; [done|by etrans; [|apply length_put_at]|].
      unfold put_at. rewrite take_0, app_nil_l. by apply take_app_length'.
  - destruct Hw as (-> & Ho & HB). case_decide; [intros [= <-]|].
    { split; [done|]. split; [by apply reader_ok_phase; [rewrite Hph|]|].
      exists []. split; [done|]. rewrite app_nil_r. etrans; [exact Ho|]. f_equal. by apply take_ge. }
    destruct HB as (buf & Hbuf & Hl & Hh). destruct (sh_closed s), (sh_accept s) as [|n acc], (sh_heap s !! b) eqn:Hb';
      intros [= <-]; try (by apply Herr). injection Hbuf as ->.
    split; [done|]. split; [by apply reader_ok_write; [rewrite Hph|]|]. split; [done|]. split; [|by exists buf].
    cbn. rewrite Ho, <-app_assoc, Hh. f_equal. apply take_more.
  - destruct Hw as (sent & Hsent & Ho). case_decide as Hl; [intros [= <-]|].
    { destruct x; [|done]. rewrite app_nil_r in Hsent. subst sent.
      split; [done|]. split; [by apply reader_ok_phase; [rewrite Hph|]|done]. }
    destruct (sh_closed s), (sh_accept s) as [|n acc]; intros [= <-]; try (by apply Herr).
    split; [done|]. split; [by apply reader_ok_write; [rewrite Hph|]|].
    exists (sent ++ take n x). split; [by rewrite <-app_assoc, take_drop|]. cbn [sh_out set_w set_written]. by rewrite Ho, <-!app_assoc.
Qed.

Lemma timeout_read_ok s s' : shared_ok s -> timeout_read s = Some s' -> shared_ok s'.
Proof using Type.
  intros (Hb & Hr & Hw). unfold timeout_read. destruct (sh_r s) as [|? []|? ? []| | |]; intros [= <-];
    (split; [done|]; split; [by left|done]).
Qed.

Lemma timeout_write_ok s s' : shared_ok s -> timeout_write s = Some s' -> shared_ok s'.
Proof using Type.
  intros (Hb & Hr & Hw). unfold timeout_write. destruct (sh_w s) eqn:Hph; intros [= <-];
    (split; [done|]; split; [by apply reader_ok_phase; [rewrite Hph|]|done]).
Qed.

Lemma exclusive_ok s s' : rtc (exclusive limit) s s' -> shared_ok s -> shared_ok s'.
Proof using Hlim Hp.
  induction 1 as [|s s1 s' [] _ IH]; [done|..]; intros Hok; apply IH; by eauto using rstep_ok, wstep_ok, timeout_read_ok, timeout_write_ok.
Qed.
End exclusive.

(** Calls that do not interfere are whole: however else their steps are interleaved,
    and however the network splits the bytes, a reader that returns has the payload
    that was sent and leaves the rest of the stream, a writer that returns has
    written one frame of its payload, and the reader fails only at its deadline or when
    the writer has failed and closed the connection. *)
Theorem exclusive_calls_are_whole limit c p rest w s :
  limit < 2 ^ 31 -> Z.of_nat (length p) <= limit -> (4 <= length (cn_buf c))%nat ->
  concat (cn_in c) = frame p ++ rest -> rtc (exclusive limit) (share c w) s ->
  (forall q, sh_r s = RRet q -> q = p /\ concat (sh_in s) = rest) /\
  (sh_w s = WRet -> sh_out s = cn_out c ++ frame w) /\
  (forall e, sh_r s = RErr e -> e = errTimeout \/ exists e', sh_w s = WErr e').
Proof.
  intros Hlim Hp Hl Hin Hrun.
  assert (shared_ok p rest (cn_out c) w s) as (_ & Hr & Hw).
  { eapply exclusive_ok; [done..|]. split; [by exists (cn_buf c)|]. by split. }
  unfold reader_ok, writer_ok in *. split_and!.
  - intros q Hq. by rewrite Hq in Hr.
  - intros Hq. by rewrite Hq in Hw.
  - intros e Hq. by rewrite Hq in Hr.
Qed.

(** An acknowledgement that arrives in three pieces, read while a request is
    written: the reader waits when the request is started, and is half way in its
    payload when the request is finished. *)
Lemma exclusive_calls_are_whole_witness :
  let c := NewConn [[3; 0]; [0; 0; 7]; [8; 9; 1]] [3; 1; 2; 3]%nat in
  exists s, rtc (exclusive 100) (share c [1; 2; 3; 4; 5]) s /\ sh_r s = RRet [7; 8; 9] /\ sh_w s = WRet /\
    concat (sh_in s) = [1] /\ sh_out s = frame [1; 2; 3; 4; 5].
Proof.
  intros c.
  assert (exists s, run_exclusive 100 [true; false; false; false; false; true; true; true; true; false; true; false; true; true; false]
    (share c [1; 2; 3; 4; 5]) = Some s /\ sh_r s = RRet [7; 8; 9] /\ sh_w s = WRet) as (s & Hrun & Hr & Hw).
  { eexists. by vm_compute. }
  exists s. apply run_exclusive_sound in Hrun.
  destruct (exclusive_calls_are_whole 100 c [7; 8; 9] [1] [1; 2; 3; 4; 5] s) as (Hread & Hwrite & _); [lia|cbn; lia|vm_compute; lia|done..|].
  split_and!; [done..| |by apply Hwrite]. by apply (Hread [7; 8; 9]).
Defined.
