(* ===== verification/Conns.v ===== *)
(** * Conns: requests to other nodes

    Model of [src/internal/conns]: a cache keeps one connection per node and
    the requests that wait for an acknowledgement; a goroutine sends them again
    when none arrives.  Every call of [WriteRequest] is a thread whose steps
    interleave with those of the other threads, of the goroutine that retries
    and of the readers of acknowledgements.  Messages are addresses, because a
    request writes the identifier into a message that others may share. *)
From S2P Require Import Prelude.

(** ** The cache *)

Record AckID := MkAckID { ai_NodeID : uint64; ai_RequestID : uint64 }.
#[export] Instance AckID_eq_dec : EqDecision AckID.
Proof. solve_decision. Defined.
#[export] Instance AckID_countable : Countable AckID.
Proof.
  apply (inj_countable' (fun a => (ai_NodeID a, ai_RequestID a)) (fun p => MkAckID p.1 p.2)). by intros [].
Defined.

(** [pa_req] identifies the call of [WriteRequest] that the entry stems from;
    the code does not have it.  Callbacks are numbers. *)
Record PendingAck := MkPendingAck {
  pa_nodeID : uint64; pa_msg : nat; pa_sentAt : Z; pa_timeout : Z; pa_cb : option nat; pa_req : nat }.

(** [cc_nodes] is the length of [cmu], which has a mutex per node. *)
Record cache := MkCache {
  cc_conns : gmap uint64 nat; cc_nodes : Z; cc_pendingAcks : gmap AckID PendingAck }.

Definition set_conns x c := MkCache x (cc_nodes c) (cc_pendingAcks c).
Definition set_acks x c := MkCache (cc_conns c) (cc_nodes c) x.

Definition NewCache (totalNodes : uint64) : cache := MkCache ∅ totalNodes ∅.

Definition addPendingAck (nodeID : uint64) (msg : nat) (timeout : Z) (id : uint64) (cb : option nat) (req : nat)
    (now : Z) (c : cache) : cache :=
  set_acks (<[MkAckID nodeID id := MkPendingAck nodeID msg now timeout cb req]> (cc_pendingAcks c)) c.

(** [dialed] is the connection that the network makes, if it does, and [hello]
    tells whether the first message can be sent on it. *)
Definition dial (dialed : option nat) (hello : bool) (nodeID : uint64) (c : cache) : option nat * cache :=
  match cc_conns c !! nodeID with
  | Some cc => (Some cc, c)
  | None =>
      match dialed with
      | None => (None, c)
      | Some conn => if hello then (Some conn, set_conns (<[nodeID := conn]> (cc_conns c)) c) else (None, c)
      end
  end.

Definition release (nodeID : uint64) (c : cache) : cache :=
  match cc_conns c !! nodeID with
  | Some _ => set_conns (delete nodeID (cc_conns c)) c
  | None => c
  end.

(** The entry whose callback is called, if there is one. *)
Definition processAckMessage (nodeID msgID : uint64) (c : cache) : option PendingAck * cache :=
  match cc_pendingAcks c !! MkAckID nodeID msgID with
  | Some m => (Some m, set_acks (delete (MkAckID nodeID msgID) (cc_pendingAcks c)) c)
  | None => (None, c)
  end.

Definition second : Z := 1000000000.

Definition overdue (now : Z) (kv : AckID * PendingAck) : Prop := now - pa_sentAt kv.2 >= 3 * second.
#[export] Instance overdue_dec now kv : Decision (overdue now kv).
Proof. unfold overdue. apply _. Defined.

(** The critical section of [retryRequests]: the entries to send again, which
    are deleted. *)
Definition retry_collect (now : Z) (c : cache) : list PendingAck * cache :=
  (snd <$> filter (overdue now) (map_to_list (cc_pendingAcks c)),
   set_acks (filter (fun kv => ~ overdue now kv) (cc_pendingAcks c)) c).

(** ** Threads *)

(** Where a call of [WriteRequest] is: before the lock of the node, with the
    lock and a connection, after [msg.ID = id], after the write. *)
Inductive phase := Start | Dialed | Numbered (id : uint64) | Written (id : uint64).

(** [ca_retry]: the call is made by [retryRequests]. *)
Record call := MkCall {
  ca_node : uint64; ca_msg : nat; ca_timeout : Z; ca_ack : bool; ca_cb : option nat; ca_req : nat;
  ca_retry : bool; ca_phase : phase }.

Definition at_phase (p : phase) (k : call) : call :=
  MkCall (ca_node k) (ca_msg k) (ca_timeout k) (ca_ack k) (ca_cb k) (ca_req k) (ca_retry k) p.

(** A request that is finished: with the acknowledgement with which its callback
    was called, or without one when none was asked for. *)
Record finished := MkFinished {
  fi_req : nat; fi_cb : option nat; fi_ack : option AckID; fi_node : uint64; fi_msg : nat }.

(** [sy_ids] counts the identifiers taken from [atomicid], by this cache and by
    others; [sy_ID] is the field [ID] of every message; [sy_wire] has the frames
    written: the node, the identifier that the frame carries and the message. *)
Record sys := MkSys {
  sy_cache : cache; sy_ID : gmap nat uint64; sy_calls : list call; sy_redo : list PendingAck; sy_now : Z;
  sy_ids : Z; sy_issued : nat; sy_wire : list (uint64 * uint64 * nat); sy_finished : list finished }.

Definition sy_New (totalNodes : uint64) : sys := MkSys (NewCache totalNodes) ∅ [] [] 0 0 0 [] [].

Inductive action :=
  | Issue (node : uint64) (msg : nat) (timeout : Z) (ack : bool) (cb : option nat)
  | Dial (i : nat) (dialed : option nat) (hello : bool)
  | Number (i : nat)
  | WriteOut (i : nat) (ok : bool)
  | Finish (i : nat)
  | Ack (node id : uint64)
  | Collect
  | Redo
  | Tick (d : N)
  | Foreign.

Definition holds_lock (node : uint64) (k : call) : bool :=
  match ca_phase k with Dialed | Numbered _ => bool_decide (ca_node k = node) | _ => false end.

(** A step that cannot be taken now. *)
Definition disabled {A} : go A := Fail "not enabled".
Definition call_at (i : nat) (s : sys) : go call :=
  match sy_calls s !! i with Some k => Ret k | None => disabled end.
Definition retrying (s : sys) : bool := existsb ca_retry (sy_calls s).

Definition set_call i k s := MkSys (sy_cache s) (sy_ID s) (<[i := k]> (sy_calls s)) (sy_redo s) (sy_now s)
  (sy_ids s) (sy_issued s) (sy_wire s) (sy_finished s).
Definition add_call k s := MkSys (sy_cache s) (sy_ID s) (sy_calls s ++ [k]) (sy_redo s) (sy_now s)
  (sy_ids s) (sy_issued s) (sy_wire s) (sy_finished s).
Definition del_call i s := MkSys (sy_cache s) (sy_ID s) (delete i (sy_calls s)) (sy_redo s) (sy_now s)
  (sy_ids s) (sy_issued s) (sy_wire s) (sy_finished s).
Definition set_cache c s := MkSys c (sy_ID s) (sy_calls s) (sy_redo s) (sy_now s) (sy_ids s) (sy_issued s)
  (sy_wire s) (sy_finished s).
Definition set_redo l s := MkSys (sy_cache s) (sy_ID s) (sy_calls s) l (sy_now s) (sy_ids s) (sy_issued s)
  (sy_wire s) (sy_finished s).
Definition add_finished f s := MkSys (sy_cache s) (sy_ID s) (sy_calls s) (sy_redo s) (sy_now s) (sy_ids s)
  (sy_issued s) (sy_wire s) (sy_finished s ++ [f]).
Definition add_frame f s := MkSys (sy_cache s) (sy_ID s) (sy_calls s) (sy_redo s) (sy_now s) (sy_ids s)
  (sy_issued s) (sy_wire s ++ [f]) (sy_finished s).
Definition set_ID msg id s := MkSys (sy_cache s) (<[msg := id]> (sy_ID s)) (sy_calls s) (sy_redo s) (sy_now s)
  (sy_ids s) (sy_issued s) (sy_wire s) (sy_finished s).
Definition set_now t s := MkSys (sy_cache s) (sy_ID s) (sy_calls s) (sy_redo s) t (sy_ids s) (sy_issued s)
  (sy_wire s) (sy_finished s).
Definition set_ids n s := MkSys (sy_cache s) (sy_ID s) (sy_calls s) (sy_redo s) (sy_now s) n (sy_issued s)
  (sy_wire s) (sy_finished s).
Definition set_issued n s := MkSys (sy_cache s) (sy_ID s) (sy_calls s) (sy_redo s) (sy_now s) (sy_ids s) n
  (sy_wire s) (sy_finished s).

(** A caller calls [WriteRequest]. *)
Definition issue (node : uint64) (msg : nat) (timeout : Z) (ack : bool) (cb : option nat) (s : sys) : sys :=
  let s := add_call (MkCall node msg timeout ack cb (sy_issued s) false Start) s in
  set_issued (S (sy_issued s))
    (if decide (is_Some (sy_ID s !! msg)) then s else set_ID msg 0 s).

(** [c.cmu[nodeID-1].Lock()] and [c.dial]; after an error the call starts again. *)
Definition wr_dial (i : nat) (dialed : option nat) (hello : bool) (s : sys) : go sys :=
  k ← call_at i s;
  match ca_phase k with
  | Start =>
      if decide (u64 (ca_node k - 1) < cc_nodes (sy_cache s)) then
        if existsb (holds_lock (ca_node k)) (sy_calls s) then disabled else
        let '(mc, c) := dial dialed hello (ca_node k) (sy_cache s) in
        match mc with
        | None => Ret (set_cache (release (ca_node k) c) s)
        | Some _ => Ret (set_call i (at_phase Dialed k) (set_cache c s))
        end
      else Crash
  | _ => disabled
  end.

(** The first half of [WriteRequest] of [conn.go]. *)
Definition wr_number (i : nat) (s : sys) : go sys :=
  k ← call_at i s;
  match ca_phase k with
  | Dialed =>
      let id := u64 (sy_ids s + 1) in
      Ret (set_call i (at_phase (Numbered id) k) (set_ID (ca_msg k) id (set_ids (sy_ids s + 1) s)))
  | _ => disabled
  end.

(** The second half, and the release of the lock. *)
Definition wr_write (i : nat) (ok : bool) (s : sys) : go sys :=
  k ← call_at i s;
  match ca_phase k with
  | Numbered id =>
      if ok then
        Ret (set_call i (at_phase (Written id) k)
               (add_frame (ca_node k, default 0 (sy_ID s !! ca_msg k), ca_msg k) s))
      else Ret (set_call i (at_phase Start k) (set_cache (release (ca_node k) (sy_cache s)) s))
  | _ => disabled
  end.

(** The end of [WriteRequest]. *)
Definition wr_finish (i : nat) (s : sys) : go sys :=
  k ← call_at i s;
  match ca_phase k with
  | Written id =>
      let s := del_call i s in
      Ret (if ca_ack k
           then set_cache (addPendingAck (ca_node k) (ca_msg k) (ca_timeout k) id (ca_cb k) (ca_req k) (sy_now s)
                             (sy_cache s)) s
           else add_finished (MkFinished (ca_req k) (ca_cb k) None (ca_node k) (ca_msg k)) s)
  | _ => disabled
  end.

(** A reader of acknowledgements gets a message; the callback is called with it. *)
Definition readAck (node id : uint64) (s : sys) : sys :=
  let '(m, c) := processAckMessage node id (sy_cache s) in
  let s := set_cache c s in
  match m with
  | Some m => add_finished (MkFinished (pa_req m) (pa_cb m) (Some (MkAckID node id)) (pa_nodeID m) (pa_msg m)) s
  | None => s
  end.

(** [retryRequests]: collect, then one call after the other. *)
Definition retry_begin (s : sys) : go sys :=
  match sy_redo s with
  | [] =>
      if retrying s then disabled else
      let '(redolist, c) := retry_collect (sy_now s) (sy_cache s) in
      Ret (set_redo redolist (set_cache c s))
  | _ => disabled
  end.

Definition retry_next (s : sys) : go sys :=
  match sy_redo s with
  | v :: redolist =>
      if retrying s then disabled else
      Ret (add_call (MkCall (pa_nodeID v) (pa_msg v) (pa_timeout v) true (pa_cb v) (pa_req v) true Start)
             (set_redo redolist s))
  | [] => disabled
  end.

Definition act (a : action) (s : sys) : go sys :=
  match a with
  | Issue node msg timeout ack cb => Ret (issue node msg timeout ack cb s)
  | Dial i dialed hello => wr_dial i dialed hello s
  | Number i => wr_number i s
  | WriteOut i ok => wr_write i ok s
  | Finish i => wr_finish i s
  | Ack node id => Ret (readAck node id s)
  | Collect => retry_begin s
  | Redo => retry_next s
  | Tick d => Ret (set_now (sy_now s + Z.of_N d) s)
  | Foreign => Ret (set_ids (sy_ids s + 1) s)
  end.

Fixpoint run_actions (l : list action) (s : sys) : go sys :=
  match l with
  | [] => Ret s
  | a :: l => s ← act a s; run_actions l s
  end.

(** ** The pool: [pool.go] *)

Record pool := MkPool { po_i : goint; po_size : goint; po_conns : list cache }.

Definition NewPool (size : goint) (totalNodes : uint64) : pool :=
  MkPool 0 size (replicate (Z.to_nat size) (NewCache totalNodes)).

(** The index of the cache that is lent, and the pool afterwards. *)
Definition Borrow (p : pool) : go (nat * pool) :=
  if decide (0 <= po_i p < Z.of_nat (length (po_conns p))) then
    let i := po_i p + 1 in
    Ret (Z.to_nat (po_i p), MkPool (if decide (i >= po_size p) then 0 else i) (po_size p) (po_conns p))
  else Crash.

Definition MessageAckPending (p : pool) : Z :=
  foldl (fun cnt v => cnt + Z.of_nat (size (cc_pendingAcks v))) 0 (po_conns p).
