(* ===== verification/ConnsProps.v ===== *)
(** * ConnsProps: no request is lost and no callback is called twice

    The requests of a cache are followed through the calls in progress, the
    list of the goroutine that retries, the pending acknowledgements and the
    finished ones.  Every action changes one of these [slot]s. *)
From S2P Require Import Prelude Conns.

(** Where a request is, with the identifier of its last attempt. *)
Inductive slot_state := Idle | Num (id : uint64) | Sent (id : uint64) | Done (ack : option AckID).
Record slot := MkSlot {
  sl_req : nat; sl_msg : nat; sl_node : uint64; sl_cb : option nat; sl_st : slot_state }.
Definition move (st : slot_state) (x : slot) : slot := MkSlot (sl_req x) (sl_msg x) (sl_node x) (sl_cb x) st.

Definition call_st (p : phase) : slot_state :=
  match p with Start | Dialed => Idle | Numbered id => Num id | Written id => Sent id end.
Definition call_slot (k : call) : slot := MkSlot (ca_req k) (ca_msg k) (ca_node k) (ca_cb k) (call_st (ca_phase k)).
Definition redo_slot (v : PendingAck) : slot := MkSlot (pa_req v) (pa_msg v) (pa_nodeID v) (pa_cb v) Idle.
Definition ack_slot (kv : AckID * PendingAck) : slot :=
  MkSlot (pa_req kv.2) (pa_msg kv.2) (pa_nodeID kv.2) (pa_cb kv.2) (Sent (ai_RequestID kv.1)).
Definition fin_slot (f : finished) : slot := MkSlot (fi_req f) (fi_msg f) (fi_node f) (fi_cb f) (Done (fi_ack f)).

Definition slots (s : sys) : list slot :=
  (call_slot <$> sy_calls s) ++ (redo_slot <$> sy_redo s) ++
  (ack_slot <$> map_to_list (cc_pendingAcks (sy_cache s))) ++ (fin_slot <$> sy_finished s).

(** Entries are filed under their node. *)
Definition filed (s : sys) : Prop :=
  map_Forall (fun k v => pa_nodeID v = ai_NodeID k) (cc_pendingAcks (sy_cache s)).

(** The identifiers in use are distinct and have been taken from the counter. *)
Definition slot_id (x : slot) : option uint64 :=
  match sl_st x with Num id | Sent id => Some id | _ => None end.
Definition ids_ok (s : sys) : Prop :=
  NoDup (omap slot_id (slots s)) /\ Forall (fun id => 0 < id <= sy_ids s) (omap slot_id (slots s)).

(** ** What an action does to the requests *)

(** A new request: the node, the message and the callback. *)
Definition request : Type := uint64 * nat * option nat.

Inductive change (s s' : sys) : option request -> Prop :=
  | ch_none : slots s' ≡ₚ slots s -> sy_ID s' = sy_ID s -> sy_wire s' = sy_wire s ->
      sy_ids s <= sy_ids s' -> sy_issued s' = sy_issued s -> change s s' None
  | ch_new node msg cb : slots s' ≡ₚ MkSlot (sy_issued s) msg node cb Idle :: slots s ->
      sy_ID s' = (if decide (is_Some (sy_ID s !! msg)) then sy_ID s else <[msg := 0]> (sy_ID s)) ->
      sy_wire s' = sy_wire s -> sy_ids s' = sy_ids s -> sy_issued s' = S (sy_issued s) -> change s s' (Some (node, msg, cb))
  | ch_idle xs l : slots s ≡ₚ xs ++ l -> slots s' ≡ₚ (move Idle <$> xs) ++ l -> sy_ID s' = sy_ID s ->
      sy_wire s' = sy_wire s -> sy_ids s' = sy_ids s -> sy_issued s' = sy_issued s -> change s s' None
  | ch_number x l : slots s ≡ₚ x :: l -> sl_st x = Idle ->
      slots s' ≡ₚ move (Num (u64 (sy_ids s + 1))) x :: l ->
      sy_ID s' = <[sl_msg x := u64 (sy_ids s + 1)]> (sy_ID s) -> sy_wire s' = sy_wire s ->
      sy_ids s' = sy_ids s + 1 -> sy_issued s' = sy_issued s -> change s s' None
  | ch_write x l id : slots s ≡ₚ x :: l -> sl_st x = Num id -> slots s' ≡ₚ move (Sent id) x :: l ->
      sy_ID s' = sy_ID s -> sy_wire s' = sy_wire s ++ [(sl_node x, default 0 (sy_ID s !! sl_msg x), sl_msg x)] ->
      sy_ids s' = sy_ids s -> sy_issued s' = sy_issued s -> change s s' None
  | ch_done x l id ack : slots s ≡ₚ x :: l -> sl_st x = Sent id -> slots s' ≡ₚ move (Done ack) x :: l ->
      match ack with Some a => a = MkAckID (sl_node x) id | None => True end ->
      sy_ID s' = sy_ID s -> sy_wire s' = sy_wire s -> sy_ids s' = sy_ids s -> sy_issued s' = sy_issued s ->
      change s s' None.

Lemma insert_perm {A} (l : list A) i x y : l !! i = Some x -> <[i := y]> l ≡ₚ y :: delete i l.
Proof.
  intros (l1 & l2 & -> & ->)%list_elem_of_split_length.
  rewrite insert_app_r_alt, Nat.sub_diag, delete_middle by done. simpl. by rewrite Permutation_middle.
Qed.

Lemma call_at_inv i s k : call_at i s = Ret k -> sy_calls s !! i = Some k.
Proof. unfold call_at. by destruct (sy_calls s !! i); [intros [= <-]|]. Qed.

(** The slots of a state whose call [k] at [i] is taken out. *)
Definition other_slots (i : nat) (s : sys) : list slot :=
  (call_slot <$> delete i (sy_calls s)) ++ (redo_slot <$> sy_redo s) ++
  (ack_slot <$> map_to_list (cc_pendingAcks (sy_cache s))) ++ (fin_slot <$> sy_finished s).

Lemma slots_call i s k : sy_calls s !! i = Some k -> slots s ≡ₚ call_slot k :: other_slots i s.
Proof.
  intros Hk. unfold slots, other_slots. rewrite app_comm_cons, <-fmap_cons.
  by apply Permutation_app_tail, fmap_Permutation, delete_Permutation.
Qed.

Lemma slots_set_call i s s' k k' : sy_calls s !! i = Some k -> sy_calls s' = <[i := k']> (sy_calls s) ->
  sy_redo s' = sy_redo s -> cc_pendingAcks (sy_cache s') = cc_pendingAcks (sy_cache s) ->
  sy_finished s' = sy_finished s -> slots s' ≡ₚ call_slot k' :: other_slots i s.
Proof.
  intros Hk Hc Hr Ha Hf. unfold slots, other_slots. rewrite Hc, Hr, Ha, Hf, app_comm_cons, <-fmap_cons.
  by apply Permutation_app_tail, fmap_Permutation, (insert_perm _ _ k).
Qed.

Lemma dial_acks d h n c : cc_pendingAcks (dial d h n c).2 = cc_pendingAcks c.
Proof. unfold dial. by repeat case_match. Qed.
Lemma release_acks n c : cc_pendingAcks (release n c) = cc_pendingAcks c.
Proof. unfold release. by case_match. Qed.

(** A call that keeps its state. *)
Lemma change_call i s s' k p : sy_calls s !! i = Some k -> sy_calls s' = <[i := at_phase p k]> (sy_calls s) ->
  call_st p = call_st (ca_phase k) -> sy_redo s' = sy_redo s ->
  cc_pendingAcks (sy_cache s') = cc_pendingAcks (sy_cache s) -> sy_finished s' = sy_finished s ->
  slots s' ≡ₚ slots s.
Proof.
  intros Hk Hc Hp Hr Ha Hf. rewrite (slots_set_call i s s' k _ Hk Hc Hr Ha Hf), (slots_call i s k Hk).
  by unfold call_slot; simpl; rewrite Hp.
Qed.

(** The pending acknowledgements. *)
Definition acks_of (s : sys) : list slot := ack_slot <$> map_to_list (cc_pendingAcks (sy_cache s)).

Lemma slots_parts s : slots s = (call_slot <$> sy_calls s) ++ (redo_slot <$> sy_redo s) ++ acks_of s ++
  (fin_slot <$> sy_finished s).
Proof. done. Qed.

(** A fresh identifier does not replace a pending acknowledgement. *)
Lemma id_unused s k i id : ids_ok s -> sy_calls s !! i = Some k -> ca_phase k = Written id ->
  cc_pendingAcks (sy_cache s) !! MkAckID (ca_node k) id = None.
Proof.
  intros [Hn _] Hk Hp. apply eq_None_not_Some. intros [v Hv].
  rewrite (slots_call i s k Hk) in Hn. unfold other_slots in Hn.
  cbn [omap list_omap] in Hn. unfold slot_id at 1, call_slot at 1 in Hn. cbn [sl_st] in Hn. rewrite Hp in Hn.
  cbn [call_st] in Hn. apply NoDup_cons in Hn as [Hn _]. apply Hn. rewrite !omap_app, !elem_of_app. right. right. left.
  apply list_elem_of_omap. exists (ack_slot (MkAckID (ca_node k) id, v)). split; [|done].
  apply list_elem_of_fmap_2, elem_of_map_to_list. done.
Qed.

Lemma wr_dial_change i d h s s' : wr_dial i d h s = Ret s' -> change s s' None.
Proof.
  unfold wr_dial. intros (k & Hk%call_at_inv & H)%go_bind_Ret. destruct (ca_phase k) eqn:Ep; try done.
  case_decide; [|done]. destruct (existsb _ _); [done|].
  pose proof (dial_acks d h (ca_node k) (sy_cache s)) as Hd. destruct (dial _ _ _ _) as [[mc|] c]; injection H as <-.
  - apply ch_none; try done. eapply change_call; [done|done|by rewrite Ep|done|done|done].
  - apply ch_none; try done. unfold slots, set_cache. cbn [sy_cache sy_calls sy_redo sy_finished].
    rewrite release_acks. simpl in Hd. by rewrite Hd.
Qed.

Lemma wr_number_change i s s' : wr_number i s = Ret s' -> change s s' None.
Proof.
  unfold wr_number. intros (k & Hk%call_at_inv & H)%go_bind_Ret. destruct (ca_phase k) eqn:Ep; try done.
  injection H as <-. eapply (ch_number _ _ (call_slot k)); try done; [by apply slots_call|by simpl; rewrite Ep|].
  by apply (slots_set_call i _ _ k (at_phase (Numbered (u64 (sy_ids s + 1))) k)).
Qed.

Lemma wr_write_change i ok s s' : wr_write i ok s = Ret s' -> change s s' None.
Proof.
  unfold wr_write. intros (k & Hk%call_at_inv & H)%go_bind_Ret. destruct (ca_phase k) eqn:Ep; try done.
  destruct ok; injection H as <-.
  - eapply (ch_write _ _ (call_slot k)); try done; [by apply slots_call|by simpl; rewrite Ep|].
    by apply (slots_set_call i _ _ k (at_phase (Written id) k)).
  - eapply (ch_idle _ _ [call_slot k]); try done; [by apply slots_call|].
    apply (slots_set_call i _ _ k (at_phase Start k)); [done|done|done|apply release_acks|done].
Qed.

Lemma wr_finish_change i s s' : ids_ok s -> wr_finish i s = Ret s' -> change s s' None.
Proof.
  unfold wr_finish. intros Hok (k & Hk%call_at_inv & H)%go_bind_Ret. destruct (ca_phase k) eqn:Ep; try done.
  pose proof (slots_call i s k Hk) as Hs. destruct (ca_ack k); injection H as <-.
  - apply ch_none; try done. rewrite Hs. unfold slots, other_slots.
    cbn [sy_calls sy_redo sy_cache sy_finished set_cache del_call addPendingAck set_acks cc_pendingAcks].
    rewrite map_to_list_insert by (by eapply id_unused). rewrite fmap_cons. unfold call_slot at 2. rewrite Ep.
    unfold ack_slot at 1. cbn [fst snd pa_req pa_msg pa_nodeID pa_cb ai_RequestID call_st app].
    by rewrite <-!Permutation_middle.
  - eapply (ch_done _ _ (call_slot k) _ id None); [done|by simpl; rewrite Ep| |done..].
    unfold slots, other_slots. cbn [sy_calls sy_redo sy_cache sy_finished del_call add_finished].
    rewrite fmap_app. cbn [fmap list_fmap]. rewrite !app_assoc. by rewrite <-Permutation_cons_append.
Qed.

Lemma readAck_change node id s : filed s -> change s (readAck node id s) None.
Proof.
  intros Hf. unfold readAck, processAckMessage. destruct (cc_pendingAcks _ !! _) as [v|] eqn:Ev.
  2: { by apply ch_none. }
  pose proof (Hf _ _ Ev) as Hn. simpl in Hn.
  eapply (ch_done _ _ (ack_slot (MkAckID node id, v)) _ id (Some (MkAckID node id))); try done.
  - unfold slots. rewrite <-(map_to_list_delete _ _ _ Ev). cbn [fmap list_fmap].
    rewrite app_assoc, <-app_comm_cons, <-Permutation_middle. reflexivity.
  - unfold slots. cbn [sy_calls sy_redo sy_cache sy_finished add_finished set_cache set_acks cc_pendingAcks].
    rewrite fmap_app. cbn [fmap list_fmap]. rewrite !app_assoc. by rewrite <-Permutation_cons_append.
  - simpl. by rewrite Hn.
Qed.

Lemma map_to_list_filter {A} (P : AckID * A -> Prop) `{!∀ x, Decision (P x)} (m : gmap AckID A) :
  map_to_list (filter P m) ≡ₚ filter P (map_to_list m).
Proof.
  rewrite map_filter_alt. apply map_to_list_to_map.
  eapply sublist_NoDup; [apply (NoDup_fst_map_to_list m)|]. apply fmap_sublist, sublist_filter.
Qed.

Lemma retry_begin_change s s' : retry_begin s = Ret s' -> change s s' None.
Proof.
  unfold retry_begin. destruct (sy_redo s) eqn:Er; [|done]. destruct (retrying s); [done|].
  unfold retry_collect. intros [= <-]. set (m := cc_pendingAcks (sy_cache s)).
  set (late := filter (overdue (sy_now s)) (map_to_list m)).
  eapply (ch_idle _ _ (ack_slot <$> late)
            ((call_slot <$> sy_calls s) ++
             (ack_slot <$> filter (fun kv => ~ overdue (sy_now s) kv) (map_to_list m)) ++
             (fin_slot <$> sy_finished s))); try done.
  - unfold slots. rewrite Er. fold m. cbn [fmap list_fmap app].
    rewrite <-(filter_app_complement (overdue (sy_now s)) (map_to_list m)) at 1. fold late.
    rewrite fmap_app. solve_Permutation.
  - unfold slots. cbn [sy_calls sy_redo sy_cache sy_finished set_redo set_cache set_acks cc_pendingAcks].
    fold m. rewrite map_to_list_filter, <-!list_fmap_compose.
    change (move Idle ∘ ack_slot) with (redo_slot ∘ (snd : AckID * PendingAck -> PendingAck)). fold late. solve_Permutation.
Qed.

Lemma retry_next_change s s' : retry_next s = Ret s' -> change s s' None.
Proof.
  unfold retry_next. destruct (sy_redo s) as [|v l] eqn:Er; [done|]. destruct (retrying s); [done|].
  intros [= <-]. apply ch_none; try done. unfold slots.
  cbn [sy_calls sy_redo sy_cache sy_finished add_call set_redo]. rewrite Er, fmap_app. cbn [fmap list_fmap].
  change (call_slot _) with (redo_slot v). solve_Permutation.
Qed.

Lemma issue_change node msg timeout ack cb s : change s (issue node msg timeout ack cb s) (Some (node, msg, cb)).
Proof.
  eapply (ch_new _ _ node msg cb); unfold issue; cbn [sy_ID add_call sy_issued]; case_decide; try done;
    unfold slots; cbn [sy_calls sy_redo sy_cache sy_finished add_call set_issued set_ID];
    rewrite fmap_app; cbn [fmap list_fmap]; unfold call_slot at 2; cbn; solve_Permutation.
Qed.

Definition issue_of (a : action) : option request :=
  match a with Issue node msg _ _ cb => Some (node, msg, cb) | _ => None end.

Lemma act_change a s s' : ids_ok s -> filed s -> act a s = Ret s' -> change s s' (issue_of a).
Proof.
  intros Hok Hf. destruct a; simpl.
  - intros [= <-]. apply issue_change.
  - apply wr_dial_change.
  - apply wr_number_change.
  - apply wr_write_change.
  - by apply wr_finish_change.
  - intros [= <-]. by apply readAck_change.
  - apply retry_begin_change.
  - apply retry_next_change.
  - intros [= <-]. by apply ch_none.
  - intros [= <-]. apply ch_none; try done. simpl. lia.
Qed.

Lemma act_filed a s s' : filed s -> act a s = Ret s' -> filed s'.
Proof.
  unfold filed. intros Hf. destruct a; simpl.
  - intros [= <-]. unfold issue. by case_decide.
  - unfold wr_dial. intros (k & _ & H)%go_bind_Ret. destruct (ca_phase k); try done. case_decide; [|done].
    destruct (existsb _ _); [done|]. pose proof (dial_acks dialed hello (ca_node k) (sy_cache s)) as Hd.
    destruct (dial _ _ _ _) as [[mc|] c]; injection H as <-; cbn [sy_cache set_call set_cache];
      rewrite ?release_acks; simpl in Hd; by rewrite Hd.
  - unfold wr_number. intros (k & _ & H)%go_bind_Ret. destruct (ca_phase k); try done. by injection H as <-.
  - unfold wr_write. intros (k & _ & H)%go_bind_Ret. destruct (ca_phase k); try done.
    destruct ok; injection H as <-; cbn [sy_cache set_call set_cache add_frame]; by rewrite ?release_acks.
  - unfold wr_finish. intros (k & _ & H)%go_bind_Ret. destruct (ca_phase k); try done.
    destruct (ca_ack k); injection H as <-; [|done]. by apply map_Forall_insert_2.
  - intros [= <-]. unfold readAck, processAckMessage. destruct (cc_pendingAcks _ !! _); [|done]. by apply map_Forall_delete.
  - unfold retry_begin. destruct (sy_redo s); [|done]. destruct (retrying s); [done|]. intros [= <-].
    intros k v Hv%map_lookup_filter_Some_1_1. by apply Hf.
  - unfold retry_next. destruct (sy_redo s); [done|]. destruct (retrying s); [done|]. by intros [= <-].
  - by intros [= <-].
  - by intros [= <-].
Qed.

Lemma slot_ids_idle xs : omap slot_id (move Idle <$> xs) = [].
Proof. by induction xs. Qed.

Lemma slot_id_st x : slot_id x = match sl_st x with Num id | Sent id => Some id | _ => None end.
Proof. done. Qed.

Lemma change_ids_ok s s' r : change s s' r -> ids_ok s -> 0 <= sy_ids s -> sy_ids s' < 2 ^ 64 -> ids_ok s' /\ 0 <= sy_ids s'.
Proof.
  intros Hc [Hn Hr] Hz Hb. unfold ids_ok.
  assert (forall n l, 0 <= n -> n <= sy_ids s' -> Forall (fun id => 0 < id <= n) l ->
            Forall (fun id : Z => 0 < id <= sy_ids s') l) as Hmono
    by (intros n l ? ? Hl; eapply Forall_impl; [done|]; simpl; lia).
  destruct Hc as [Hs _ _ Hi _|node msg cb Hs _ _ Hi _|xs l Hs Hs' _ _ Hi _|x l Hs Hx Hs' _ _ Hi _
                 |x l id Hs Hx Hs' _ _ Hi _|x l id ack Hs Hx Hs' _ _ _ Hi _]; (split; [|lia]).
  - rewrite Hs. split; [done|]. eapply Hmono; [| |done]; lia.
  - rewrite Hs. cbn [omap list_omap slot_id sl_st]. rewrite Hi. done.
  - rewrite Hs, omap_app in Hn, Hr. rewrite Hs', omap_app, slot_ids_idle, Hi. apply NoDup_app in Hn as (_ & _ & Hn).
    apply Forall_app in Hr as [_ Hr]. done.
  - rewrite Hs in Hn, Hr. rewrite Hs'. cbn [omap list_omap] in *. pose proof (slot_id_st x) as Hid.
    rewrite Hx in Hid. rewrite Hid in Hn, Hr.
    cbn [slot_id move sl_st]. unwrap. rewrite Hi. split.
    + constructor; [|done]. rewrite Forall_forall in Hr. intros Hin%Hr. lia.
    + constructor; [lia|]. eapply Forall_impl; [done|]. simpl. lia.
  - rewrite Hs in Hn, Hr. rewrite Hs'. cbn [omap list_omap] in *. pose proof (slot_id_st x) as Hid.
    rewrite Hx in Hid. rewrite Hid in Hn, Hr.
    cbn [slot_id move sl_st]. by rewrite Hi.
  - rewrite Hs in Hn, Hr. rewrite Hs'. cbn [omap list_omap] in *. pose proof (slot_id_st x) as Hid.
    rewrite Hx in Hid. rewrite Hid in Hn, Hr.
    cbn [slot_id move sl_st]. rewrite Hi. apply NoDup_cons in Hn as [_ Hn]. by apply Forall_cons in Hr as [_ Hr].
Qed.

(** ** Runs *)

Definition issues (l : list action) : list request := omap issue_of l.
Definition msgs (l : list action) : list nat := (fun r : request => r.1.2) <$> issues l.

(** A slot belongs to the request that it is numbered after. *)
Definition origin (rs : list request) (x : slot) : Prop :=
  rs !! sl_req x = Some (sl_node x, sl_msg x, sl_cb x).

Record inv (rs : list request) (s : sys) : Prop := MkInv {
  inv_ids : ids_ok s; inv_pos : 0 <= sy_ids s; inv_filed : filed s;
  inv_reqs : sl_req <$> slots s ≡ₚ seq 0 (sy_issued s); inv_count : length rs = sy_issued s;
  inv_origin : Forall (origin rs) (slots s) }.

Lemma change_mono s s' r : change s s' r -> sy_ids s <= sy_ids s'.
Proof. destruct 1; lia. Qed.

Lemma move_reqs st (xs : list slot) : sl_req <$> (move st <$> xs) = sl_req <$> xs.
Proof. by rewrite <-list_fmap_compose. Qed.

(** The requests that the slots stand for. *)
Definition who (x : slot) : nat * request := (sl_req x, (sl_node x, sl_msg x, sl_cb x)).

Lemma change_who s s' r : change s s' r ->
  who <$> slots s' ≡ₚ (pair (sy_issued s) <$> option_list r) ++ (who <$> slots s) /\
  sy_issued s' = (length (option_list r) + sy_issued s)%nat.
Proof.
  destruct 1 as [Hs|node msg cb Hs|xs l Hs Hs'|x l Hs _ Hs'|x l id Hs _ Hs'|x l id ack Hs _ Hs']; (split; [|done]);
    rewrite ?Hs'; rewrite Hs; try reflexivity.
  rewrite !fmap_app, <-list_fmap_compose. reflexivity.
Qed.

Lemma origin_who rs s : Forall (origin rs) (slots s) <-> Forall (fun w => rs !! w.1 = Some w.2) (who <$> slots s).
Proof. by rewrite Forall_fmap. Qed.

Lemma reqs_who s : sl_req <$> slots s = fst <$> (who <$> slots s).
Proof. by rewrite <-list_fmap_compose. Qed.

Lemma change_inv rs s s' r : change s s' r -> filed s' -> sy_ids s' < 2 ^ 64 -> inv rs s ->
  inv (rs ++ option_list r) s'.
Proof.
  intros Hc Hf Hb [Hids Hpos _ Hreqs Hcount Horig]. destruct (change_ids_ok _ _ _ Hc Hids Hpos Hb) as [Hids' Hpos'].
  apply change_who in Hc as [Hw Hi]. rewrite origin_who in Horig. rewrite reqs_who in Hreqs.
  constructor; [done..| | |].
  - rewrite reqs_who, Hw, fmap_app, Hreqs, Hi. destruct r; [|done]. cbn [option_list length fmap list_fmap fst app].
    rewrite Nat.add_1_l, seq_S. simpl. solve_Permutation.
  - rewrite length_app, Hi. lia.
  - rewrite origin_who, Hw. apply Forall_app. split.
    + destruct r; cbn; constructor; [|constructor]. cbn [fst snd]. by rewrite <-Hcount, lookup_app_r, Nat.sub_diag.
    + eapply Forall_impl; [done|]. intros w Hw'. simpl. by apply lookup_app_l_Some.
Qed.

Lemma run_snoc l a s : run_actions (l ++ [a]) s = (s ← run_actions l s; act a s).
Proof.
  revert s. induction l as [|b l IH]; intros s; cbn [app run_actions].
  - cbn. by destruct (act a s).
  - destruct (act b s); cbn; [apply IH|done..].
Qed.

Lemma act_mono a s s' : act a s = Ret s' -> sy_ids s <= sy_ids s'.
Proof.
  destruct a; simpl.
  - intros [= <-]. unfold issue. by case_decide.
  - intros H%wr_dial_change. by eapply change_mono.
  - intros H%wr_number_change. by eapply change_mono.
  - intros H%wr_write_change. by eapply change_mono.
  - unfold wr_finish. intros (k & _ & H)%go_bind_Ret. destruct (ca_phase k); try done.
    destruct (ca_ack k); by injection H as <-.
  - intros [= <-]. unfold readAck, processAckMessage. by destruct (cc_pendingAcks _ !! _).
  - intros H%retry_begin_change. by eapply change_mono.
  - intros H%retry_next_change. by eapply change_mono.
  - by intros [= <-].
  - intros [= <-]. simpl. lia.
Qed.

Lemma New_inv n : inv [] (sy_New n).
Proof.
  assert (slots (sy_New n) = []) as Hs by done.
  constructor; rewrite ?Hs; try done. split; rewrite Hs; constructor.
Qed.

Lemma run_ind (P : list action -> sys -> Prop) n :
  P [] (sy_New n) ->
  (forall l a s s', inv (issues l) s -> P l s -> act a s = Ret s' -> change s s' (issue_of a) ->
     inv (issues (l ++ [a])) s' -> P (l ++ [a]) s') ->
  forall l s, run_actions l (sy_New n) = Ret s -> sy_ids s < 2 ^ 64 -> inv (issues l) s /\ P l s.
Proof.
  intros H0 Hstep l. induction l as [|a l IH] using rev_ind; intros s Hrun Hb.
  { injection Hrun as <-. split; [apply New_inv|done]. }
  rewrite run_snoc in Hrun. apply go_bind_Ret in Hrun as (s1 & Hrun & Ha).
  pose proof (act_mono _ _ _ Ha) as Hm. destruct (IH s1 Hrun ltac:(lia)) as [Hi HP].
  pose proof (act_change _ _ _ (inv_ids _ _ Hi) (inv_filed _ _ Hi) Ha) as Hc.
  assert (inv (issues (l ++ [a])) s) as Hi'.
  { replace (issues (l ++ [a])) with (issues l ++ option_list (issue_of a)).
    - eapply change_inv; [done| |done..]. eapply act_filed; [apply (inv_filed _ _ Hi)|done].
    - unfold issues. rewrite omap_app. cbn. by destruct (issue_of a). }
  split; [done|]. by eapply Hstep.
Qed.

(** C29. Requests are neither lost nor answered twice, in every interleaving of
    callers, readers and the goroutine that retries, and whatever fails: every
    request that was issued is at any time in exactly one of these places: a
    call in progress, the list of requests to send again, the pending
    acknowledgements, or finished.  In particular no callback is called twice. *)
Theorem requests_conserved l n s : run_actions l (sy_New n) = Ret s -> sy_ids s < 2 ^ 64 ->
  (ca_req <$> sy_calls s) ++ (pa_req <$> sy_redo s) ++
  ((fun kv => pa_req kv.2) <$> map_to_list (cc_pendingAcks (sy_cache s))) ++ (fi_req <$> sy_finished s) ≡ₚ
  seq 0 (length (issues l)) /\
  NoDup (fi_req <$> sy_finished s) /\
  (forall f, f ∈ sy_finished s -> issues l !! fi_req f = Some (fi_node f, fi_msg f, fi_cb f)).
Proof.
  intros Hrun Hb. destruct (run_ind (fun _ _ => True) n ltac:(done) ltac:(done) l s Hrun Hb) as [Hi _].
  pose proof (inv_reqs _ _ Hi) as Hr. rewrite <-(inv_count _ _ Hi) in Hr. unfold slots in Hr.
  rewrite !fmap_app, <-!list_fmap_compose in Hr. split; [exact Hr|split].
  - eapply sublist_NoDup; [|apply sublist_inserts_l; apply sublist_inserts_l; apply sublist_inserts_l; reflexivity].
    change (fi_req <$> sy_finished s) with (sl_req ∘ fin_slot <$> sy_finished s). rewrite Hr. apply NoDup_seq.
  - intros f Hf. pose proof (inv_origin _ _ Hi) as Ho. rewrite Forall_forall in Ho. apply (Ho (fin_slot f)).
    unfold slots. rewrite !elem_of_app. right. right. right. by apply list_elem_of_fmap_2.
Qed.

(** ** Acknowledgements answer their requests *)

(** A slot whose message is not shared: the frame of its attempt carries the
    identifier of the attempt. *)
Definition numbered (s : sys) (x : slot) : Prop :=
  is_Some (sy_ID s !! sl_msg x) /\
  match sl_st x with
  | Idle | Done None => True
  | Num id => sy_ID s !! sl_msg x = Some id
  | Sent id => (sl_node x, id, sl_msg x) ∈ sy_wire s
  | Done (Some a) => ai_NodeID a = sl_node x /\ (sl_node x, ai_RequestID a, sl_msg x) ∈ sy_wire s
  end.

Lemma numbered_grow s s' x : numbered s x -> sy_ID s' !! sl_msg x = sy_ID s !! sl_msg x ->
  (forall f, f ∈ sy_wire s -> f ∈ sy_wire s') -> numbered s' x.
Proof. unfold numbered. intros [H1 H2] -> Hw. split; [done|]. destruct (sl_st x) as [| | |[]]; naive_solver. Qed.

Lemma other_msg rs s x l y : NoDup ((fun r : request => r.1.2) <$> rs) -> inv rs s -> slots s ≡ₚ x :: l -> y ∈ l ->
  sl_msg y <> sl_msg x.
Proof.
  intros Hn Hi Hs Hy Heq. pose proof (inv_origin _ _ Hi) as Ho. pose proof (inv_reqs _ _ Hi) as Hr.
  rewrite Hs in Ho, Hr. apply Forall_cons in Ho as [Hx Ho]. rewrite Forall_forall in Ho. specialize (Ho y Hy).
  assert (NoDup (sl_req <$> x :: l)) as Hd by (rewrite Hr; apply NoDup_seq).
  apply NoDup_cons in Hd as [Hd _]. apply Hd. apply list_elem_of_fmap. exists y. split; [|done].
  apply (NoDup_lookup _ (sl_req x) (sl_req y) (sl_msg x) Hn); rewrite list_lookup_fmap; unfold origin in *;
    apply fmap_Some; [by exists (sl_node x, sl_msg x, sl_cb x)|].
  exists (sl_node y, sl_msg y, sl_cb y). by rewrite <-Heq.
Qed.

Lemma numbered_others rs s s' x l : NoDup ((fun r : request => r.1.2) <$> rs) -> inv rs s -> slots s ≡ₚ x :: l ->
  Forall (numbered s) (slots s) -> (forall m, m <> sl_msg x -> sy_ID s' !! m = sy_ID s !! m) ->
  (forall f, f ∈ sy_wire s -> f ∈ sy_wire s') -> Forall (numbered s') l.
Proof.
  intros Hn Hi Hs Hf HID Hw. apply Forall_forall. intros y Hy. rewrite Hs in Hf. apply Forall_cons in Hf as [_ Hf].
  rewrite Forall_forall in Hf. eapply numbered_grow; [by apply Hf| |done]. apply HID. by eapply other_msg.
Qed.

Lemma change_numbered rs s s' r : NoDup ((fun r : request => r.1.2) <$> rs) -> inv rs s -> change s s' r ->
  Forall (numbered s) (slots s) -> Forall (numbered s') (slots s').
Proof.
  intros Hn Hi Hc Hf. destruct Hc as [Hs HI Hw _ _|node msg cb Hs HI Hw _ _|xs l Hs Hs' HI Hw _ _|x l Hs Hx Hs' HI Hw _ _
    |x l id Hs Hx Hs' HI Hw _ _|x l id ack Hs Hx Hs' Ha HI Hw _ _]; rewrite ?Hs'.
  - rewrite Hs. eapply Forall_impl; [done|]. intros x Hx. eapply numbered_grow; [done|by rewrite HI|by rewrite Hw].
  - rewrite Hs. constructor.
    + split; [|done]. cbn [sl_msg]. rewrite HI. case_decide; [done|]. by rewrite lookup_insert_eq.
    + eapply Forall_impl; [done|]. intros x Hx. eapply numbered_grow; [done| |by rewrite Hw]. rewrite HI.
      case_decide as Hd; [done|]. rewrite lookup_insert_ne; [done|]. intros ->. by destruct Hx.
  - rewrite Hs in Hf. apply Forall_app in Hf as [Hx Hl]. apply Forall_app. split.
    + apply Forall_fmap. eapply Forall_impl; [done|]. intros x [Hx' _]. split; [|done]. simpl. by rewrite HI.
    + eapply Forall_impl; [done|]. intros x Hx'. eapply numbered_grow; [done|by rewrite HI|by rewrite Hw].
  - constructor.
    + split; cbn; rewrite HI, lookup_insert_eq; done.
    + eapply numbered_others; [done|done|done|done| |by rewrite Hw]. intros m Hm. rewrite HI. by rewrite lookup_insert_ne.
  - pose proof Hf as Hf'. rewrite Hs in Hf'. apply Forall_cons in Hf' as [[Hx1 Hx2] _]. rewrite Hx in Hx2. constructor.
    + split; cbn; [by rewrite HI|]. rewrite Hw, Hx2. set_solver.
    + eapply numbered_others; [done|done|done|done|by rewrite HI|]. rewrite Hw. set_solver.
  - pose proof Hf as Hf'. rewrite Hs in Hf'. apply Forall_cons in Hf' as [[Hx1 Hx2] _]. rewrite Hx in Hx2. constructor.
    + split; cbn; [by rewrite HI|]. destruct ack; [|done]. subst. by rewrite Hw.
    + eapply numbered_others; [done|done|done|done|by rewrite HI|by rewrite Hw].
Qed.

(** C30. When no two requests share a message, a callback is called only with an
    acknowledgement that comes from the node the request was sent to and that
    carries the identifier of a frame with the message of the request; and every
    pending acknowledgement waits for such a frame. *)
Theorem acks_answer_requests l n s : run_actions l (sy_New n) = Ret s -> sy_ids s < 2 ^ 64 -> NoDup (msgs l) ->
  (forall f a, f ∈ sy_finished s -> fi_ack f = Some a ->
     ai_NodeID a = fi_node f /\ (fi_node f, ai_RequestID a, fi_msg f) ∈ sy_wire s) /\
  (forall k v, cc_pendingAcks (sy_cache s) !! k = Some v ->
     (ai_NodeID k, ai_RequestID k, pa_msg v) ∈ sy_wire s).
Proof.
  intros Hrun Hb. enough (inv (issues l) s /\ (NoDup (msgs l) -> Forall (numbered s) (slots s))) as [Hi Hnum].
  { intros Hn. specialize (Hnum Hn). rewrite Forall_forall in Hnum. split.
    - intros f a Hf Ha. destruct (Hnum (fin_slot f)) as [_ Hx].
      { unfold slots. rewrite !elem_of_app. right. right. right. by apply list_elem_of_fmap_2. }
      simpl in Hx. by rewrite Ha in Hx.
    - intros k v Hv. destruct (Hnum (ack_slot (k, v))) as [_ Hx].
      { unfold slots. rewrite !elem_of_app. right. right. left. by apply list_elem_of_fmap_2, elem_of_map_to_list. }
      simpl in Hx. by rewrite (inv_filed _ _ Hi _ _ Hv) in Hx. }
  apply (run_ind (fun l s => NoDup (msgs l) -> Forall (numbered s) (slots s)) n); [constructor| |done|done].
  clear l s Hrun Hb. intros l a s s' Hi HP Ha Hc Hi' Hn. unfold msgs, issues in Hn, HP.
  rewrite omap_app, fmap_app in Hn. apply NoDup_app in Hn as (Hn & _ & _).
  eapply (change_numbered (issues l)); [exact Hn|exact Hi|exact Hc|by apply HP].
Qed.

(** ** Examples *)

(** A request to node 2 and its retry: the first frame is lost, the second one is
    acknowledged. *)
Definition retry_run : list action :=
  [Issue 2 0 5 true (Some 7); Dial 0 None true; Dial 0 (Some 1) true; Number 0; WriteOut 0 false;
   Dial 0 (Some 2) true; Number 0; WriteOut 0 true; Finish 0; Tick 3000000000%N; Collect; Redo;
   Dial 0 None false; Number 0; WriteOut 0 true; Finish 0; Ack 2 2; Ack 2 3; Ack 2 3]%nat.

Definition answered : sys :=
  MkSys (MkCache {[2 := 2%nat]} 4 ∅) {[0%nat := 3]} [] [] 3000000000 3 1 [(2, 2, 0%nat); (2, 3, 0%nat)]
    [MkFinished 0 (Some 7%nat) (Some (MkAckID 2 3)) 2 0].

Lemma retry_run_answered : run_actions retry_run (sy_New 4) = Ret answered.
Proof. vm_compute. reflexivity. Qed.

Lemma requests_conserved_witness :
  [0%nat] ≡ₚ seq 0 1 /\ NoDup [0%nat] /\
  (forall f, f ∈ sy_finished answered -> issues retry_run !! fi_req f = Some (fi_node f, fi_msg f, fi_cb f)).
Proof. exact (requests_conserved retry_run 4 answered retry_run_answered ltac:(reflexivity)). Defined.

Lemma acks_answer_requests_witness :
  ai_NodeID (MkAckID 2 3) = 2 /\ (2, 3, 0%nat) ∈ sy_wire answered.
Proof.
  destruct (acks_answer_requests retry_run 4 answered retry_run_answered) as [H _];
    [reflexivity|repeat constructor; set_solver|].
  apply (H (MkFinished 0 (Some 7%nat) (Some (MkAckID 2 3)) 2 0) (MkAckID 2 3)); [left|reflexivity].
Defined.

(** Two requests that share a message: both are numbered before the first is
    written, so both frames carry the identifier 2, while the request to node 1
    waits for an acknowledgement of the identifier 1, which no frame has. *)
Lemma shared_message_misnumbered : exists s,
  run_actions [Issue 1 0 5 true None; Issue 2 0 5 true None; Dial 0 (Some 1) true; Dial 1 (Some 2) true;
    Number 0; Number 1; WriteOut 0 true; WriteOut 1 true; Finish 0; Finish 0]%nat (sy_New 4) = Ret s /\
  is_Some (cc_pendingAcks (sy_cache s) !! MkAckID 1 1) /\ sy_wire s = [(1, 2, 0%nat); (2, 2, 0%nat)].
Proof. eexists. split; [vm_compute; reflexivity|]. split; [|done]. by eexists. Qed.

(** An acknowledgement that is read before the request is entered in the table
    is ignored, and the request is sent again. *)
Lemma early_ack_resends : exists s,
  run_actions [Issue 1 0 5 true None; Dial 0 (Some 1) true; Number 0; WriteOut 0 true; Ack 1 1; Finish 0;
    Tick 3000000000; Collect; Redo; Dial 0 None true; Number 0; WriteOut 0 true]%nat (sy_New 4) = Ret s /\
  sy_wire s = [(1, 1, 0%nat); (1, 2, 0%nat)].
Proof. eexists. by split; [vm_compute; reflexivity|]. Qed.

(** A node that is not in the network ends the process. *)
Lemma unknown_node_panics node msg timeout ack cb n : is_u64 node -> is_u64 n -> ~ 1 <= node <= n ->
  run_actions [Issue node msg timeout ack cb; Dial 0 None true] (sy_New n) = Crash.
Proof.
  intros Hu Hu' Hn. cbn [run_actions act mbind go_bind]. unfold wr_dial, call_at. cbn [mbind go_bind].
  assert (sy_calls (issue node msg timeout ack cb (sy_New n)) !! 0%nat =
            Some (MkCall node msg timeout ack cb 0 false Start)) as -> by (unfold issue; by case_decide).
  cbn [mbind go_bind ca_phase ca_node].
  assert (cc_nodes (sy_cache (issue node msg timeout ack cb (sy_New n))) = n) as ->
    by (unfold issue; by case_decide).
  rewrite decide_False; [done|]. unfold wrap. intros Hlt. destruct (decide (node = 0)) as [->|].
  - change ((0 - 1) mod 2 ^ 64) with (2 ^ 64 - 1) in Hlt. unfold in_width in Hu'. lia.
  - rewrite Z.mod_small in Hlt by (unfold in_width in Hu; lia). unfold in_width in Hu. lia.
Qed.

(** ** The pool lends its caches in turn *)

Fixpoint borrows (n : nat) (p : pool) : go (list nat * pool) :=
  match n with
  | O => Ret ([], p)
  | S n => '(l, p) ← borrows n p; '(i, p) ← Borrow p; Ret (l ++ [i], p)
  end.

Lemma borrow_round_robin size total n : 0 < size ->
  borrows n (NewPool size total) =
  Ret ((fun i => (i `mod` Z.to_nat size)%nat) <$> seq 0 n,
       MkPool (Z.of_nat n `mod` size) size (replicate (Z.to_nat size) (NewCache total))).
Proof.
  intros Hs. induction n as [|n IH]; [done|]. cbn [borrows]. rewrite IH. cbn [mbind go_bind].
  unfold Borrow. cbn [po_i po_size po_conns]. rewrite length_replicate, Z2Nat.id by lia.
  pose proof (Z.mod_pos_bound (Z.of_nat n) size Hs) as Hm. rewrite decide_True by lia. cbn [mbind go_bind].
  rewrite seq_S, fmap_app. cbn [fmap list_fmap Nat.add]. f_equal. f_equal.
  - do 2 f_equal. rewrite Z2Nat.inj_mod by lia. by rewrite Nat2Z.id.
  - f_equal. rewrite Nat2Z.inj_succ, <-Z.add_1_r. rewrite <-(Zplus_mod_idemp_l (Z.of_nat n) 1 size).
    case_decide.
    + assert (Z.of_nat n `mod` size + 1 = size) as -> by lia. by rewrite Z.mod_same by lia.
    + symmetry. apply Z.mod_small. lia.
Qed.
