(* ===== verification/Node.v ===== *)
(** * Node: accepting connections

    Model of the connection handling of [src/node/node.go] and of the hello
    messages of [src/service/service.go].  A time is a number of nanoseconds;
    the database of keys and the signature scheme are parameters. *)
From S2P Require Import Prelude Codec Database Conn.

(** ** Hello messages *)

Record HelloInfo := MkHelloInfo { hi_Client : uint64; hi_Nonce : bytes; hi_Server : uint64; hi_Timestamp : Z }.
Record Hello := MkHello { he_Agent : bytes; he_Payload : bytes; he_Signature : bytes; he_Type : Z }.
Definition CONNECTION_BROADCAST : Z := 1.
Definition CONNECTION_SBAC : Z := 2.
Definition CONNECTION_KV : Z := 3.
Definition CONNECTION_CHECKER : Z := 4.

(** [SignHello], with the 36 random bytes of the nonce, [None] when there are
    none to be had. *)
Definition SignHello {PI : Proto HelloInfo} (Sign : bytes -> bytes) (nonce : option bytes) (now : Z)
    (clientID serverID : uint64) (c : Z) : go Hello :=
  match nonce with
  | None => Fail "read /dev/urandom: %v"
  | Some nonce =>
      payload ← Marshal (MkHelloInfo clientID nonce serverID now);
      Ret (MkHello (str "go/0.0.1") payload (Sign payload) c)
  end.

(** ** The server *)

Record usedNonce := MkUsedNonce { un_nonce : bytes; un_ts : Z }.
Record Server := MkServer {
  se_id : uint64; se_keys : gmap uint64 bytes; se_nonceExpiration : Z; se_nonceMap : gmap uint64 (list usedNonce) }.
Definition set_nonceMap x s := MkServer (se_id s) (se_keys s) (se_nonceExpiration s) x.

(** [t.Sub(u)]: a duration, the greatest or the least one when the difference
    does not fit. *)
Definition Sub (t u : Z) : Z := Z.max (- 2 ^ 63) (Z.min (2 ^ 63 - 1) (t - u)).
(** [if diff < 0 { diff = -diff }]: the negation of the least duration is itself. *)
Definition absdur (diff : Z) : Z := if decide (diff < 0) then if decide (diff = - 2 ^ 63) then diff else - diff else diff.

Definition pruneNonces (exp now : Z) (nonces : list usedNonce) : list usedNonce :=
  filter (fun used => absdur (Sub now (un_ts used)) < exp) nonces.

(** One tick of [pruneNonceMap]. *)
Definition pruneNonceMap (now : Z) (s : Server) : Server :=
  set_nonceMap (omap (fun nonces => match pruneNonces (se_nonceExpiration s) now nonces with
                                    | [] => None
                                    | xs => Some xs
                                    end) (se_nonceMap s)) s.

Section verify.
Context {PI : Proto HelloInfo} (Verify : bytes -> bytes -> bytes -> bool).

Definition verifyPeerID (now : Z) (hello : Hello) (s : Server) : go uint64 :=
  if decide (he_Payload hello = []) then Ret 0 else
  info ← Unmarshal (he_Payload hello);
  if decide (hi_Server info <> se_id s)
  then Fail "node: mismatched server field in hello payload: expected %d, got %d" else
  match se_keys s !! hi_Client info with
  | None => Fail "node: could not find public signing key for node %d"
  | Some key =>
      if negb (Verify key (he_Payload hello) (he_Signature hello))
      then Fail "node: could not validate signature claiming to be from node %d" else
      let diff := absdur (Sub now (hi_Timestamp info)) in
      if decide (diff > se_nonceExpiration s)
      then Fail "node: timestamp in client hello is outside of the max clock skew range: %d" else
      if existsb (fun used => bool_decide (un_nonce used = hi_Nonce info)) (default [] (se_nonceMap s !! hi_Client info))
      then Fail "node: received duplicate nonce from %d" else
      Ret (hi_Client info)
  end.

(** ** A connection *)

(** [svc.Handle]: a response, none, or an error. *)
Context {Msg St : Type} {PM : Proto Msg} {PH : Proto Hello}.
Abbreviation handler := (uint64 -> Msg -> St -> go (option Msg) * St).

(** The loop over the messages; it ends at the end of the input, at an error of
    the handler and at an error of the write.  [None] when the process ends or
    when there is no fuel left. *)
Fixpoint serve (fuel : nat) (Handle : handler) (limit : goint) (peerID : uint64) (st : St) (c : Conn) : option (St * Conn) :=
  match fuel with
  | O => None
  | S fuel =>
      match ReadMessage limit c with
      | (Ret msg, c) =>
          match Handle peerID msg st with
          | (Ret (Some resp), st) =>
              match WritePayload resp limit c with
              | (Ret _, c) => serve fuel Handle limit peerID st c
              | (Fail _, c) => Some (st, close_conn c)
              | (Crash, _) => None
              end
          | (Ret None, st) => serve fuel Handle limit peerID st c
          | (Fail _, st) => Some (st, close_conn c)
          | (Crash, _) => None
          end
      | (Fail _, c) => Some (st, close_conn c)
      | (Crash, _) => None
      end
  end.

(** The services of the node; the transaction service and the checker may be
    missing, and then a message panics. *)
Record services := MkServices { sv_Broadcast : handler; sv_sbac : option handler; sv_checker : option handler }.
Definition nil_service : handler := fun _ _ st => (Crash, st).

Definition service_for (svs : services) (type : Z) : option handler :=
  if decide (type = CONNECTION_BROADCAST) then Some (sv_Broadcast svs)
  else if decide (type = CONNECTION_SBAC) then Some (default nil_service (sv_sbac svs))
  else if decide (type = CONNECTION_CHECKER) then Some (default nil_service (sv_checker svs))
  else None.

Definition handleConnection (fuel : nat) (svs : services) (now : Z) (limit : goint) (s : Server) (st : St)
    (c : Conn) : option (St * Conn) :=
  match ReadHello (A := Hello) limit c with
  | (Ret hello, c) =>
      match service_for svs (he_Type hello) with
      | Some Handle =>
          match verifyPeerID now hello s with
          | Ret peerID => serve fuel Handle limit peerID st c
          | Fail _ => Some (st, close_conn c)
          | Crash => None
          end
      | None => Some (st, close_conn c)
      end
  | (Fail _, c) => Some (st, close_conn c)
  | (Crash, _) => None
  end.
End verify.
Arguments MkServices {Msg St} _ _ _.

(** * Who is admitted and what is served

    The exact condition under which a peer is admitted, the hello messages that
    the other nodes make, and the messages of a connection. *)

(** ** Admission *)

(** The clocks agree up to the tolerance; a timestamp more than 292 years ahead
    passes as well, because the least duration has no negation. *)
Definition timely (exp now ts : Z) : Prop := Z.abs (now - ts) <= exp \/ now - ts <= - 2 ^ 63.

Lemma skew_spec exp now ts : 0 <= exp < 2 ^ 63 - 1 -> absdur (Sub now ts) <= exp <-> timely exp now ts.
Proof. intros He. unfold absdur, Sub, timely. repeat case_decide; lia. Qed.

Section admission.
Context {PI : Proto HelloInfo} (Verify : bytes -> bytes -> bytes -> bool).

Definition fresh_nonce (s : Server) (info : HelloInfo) : Prop :=
  Forall (fun used => un_nonce used <> hi_Nonce info) (default [] (se_nonceMap s !! hi_Client info)).

Lemma existsb_nonce s info :
  existsb (fun used => bool_decide (un_nonce used = hi_Nonce info)) (default [] (se_nonceMap s !! hi_Client info)) = false
  <-> fresh_nonce s info.
Proof using Type.
  unfold fresh_nonce. induction (default [] _) as [|u l IH]; cbn; [done|].
  rewrite orb_false_iff, Forall_cons, IH, bool_decide_eq_false. done.
Qed.

(** The guards of a hello in terms of [timely] and [fresh_nonce]: a peer is taken
    for the node [p] exactly when it sends no payload at all, and then [p] is 0,
    or when its payload is signed with the key of [p], names [p] as the client and
    this node as the server, has a timestamp within the tolerance, or so far ahead
    that the difference overflows, and a nonce that is not in the table, which no
    code fills, so that a recorded hello is admitted again: see
    [hello_accepted_and_replayed]. *)
Lemma admission_spec now hello s p : 0 <= se_nonceExpiration s < 2 ^ 63 - 1 ->
  verifyPeerID Verify now hello s = Ret p <->
  (he_Payload hello = [] /\ p = 0) \/
  (he_Payload hello <> [] /\ exists info key, Unmarshal (he_Payload hello) = Ret info /\
     hi_Client info = p /\ hi_Server info = se_id s /\ se_keys s !! p = Some key /\
     Verify key (he_Payload hello) (he_Signature hello) = true /\
     timely (se_nonceExpiration s) now (hi_Timestamp info) /\ fresh_nonce s info).
Proof using Type.
  intros He. unfold verifyPeerID. destruct (decide (he_Payload hello = [])) as [Hp|Hp].
  { split; [intros [= <-]; auto|]. intros [[_ ->]|[? _]]; [done|tauto]. }
  split.
  - intros H. right. split; [done|]. apply go_bind_Ret in H as (info & Hi & H). case_decide as Hs; [done|].
    destruct (se_keys s !! hi_Client info) as [key|] eqn:Ek; [|done].
    destruct (Verify _ _ _) eqn:Ev; [|done]. cbn [negb] in H. case_decide as Hd; [done|].
    destruct (existsb _ _) eqn:Ex; [done|]. injection H as <-. exists info, key.
    rewrite <-existsb_nonce, <-skew_spec by done. split_and!; auto with lia.
  - intros [[? _]|(_ & info & key & -> & <- & Hs & Hk & Hv & Ht & Hf)]; [done|]. cbn [mbind go_bind].
    rewrite decide_False by tauto. rewrite Hk, Hv. cbn [negb].
    rewrite decide_False by (rewrite <-skew_spec in Ht by done; lia). by apply existsb_nonce in Hf as ->.
Qed.

(** What happens to the table of nonces while the node runs: it is pruned. *)
Inductive server_step : Server -> Server -> Prop :=
  | st_prune now s : server_step s (pruneNonceMap now s).

Lemma server_inv s s' : rtc server_step s s' -> se_nonceMap s = ∅ ->
  s' = MkServer (se_id s) (se_keys s) (se_nonceExpiration s) ∅.
Proof using Type.
  induction 1 as [[]|s s1 s2 Hs _ IH]; intros Hn; [by simpl in Hn; subst|]. destruct Hs as [now s].
  rewrite IH; [done|]. unfold pruneNonceMap, set_nonceMap. cbn [se_nonceMap]. rewrite Hn. by rewrite omap_empty.
Qed.

(** The hello that a node signs is accepted by a server without used nonces. *)
Lemma hello_accepted `{!ProtoOk HelloInfo} Sign nonce ts client type hello s now :
  SignHello Sign nonce ts client (se_id s) type = Ret hello -> he_Payload hello <> [] ->
  (exists key, se_keys s !! client = Some key /\ forall d, Verify key d (Sign d) = true) ->
  0 <= se_nonceExpiration s < 2 ^ 63 - 1 -> se_nonceMap s = ∅ ->
  Z.abs (now - ts) <= se_nonceExpiration s -> verifyPeerID Verify now hello s = Ret client.
Proof using Type.
  intros Hsig Hp (key & Hk & Hv) He Hn Ht. unfold SignHello in Hsig.
  destruct nonce as [nonce|]; [|done]. apply go_bind_Ret in Hsig as (payload & Hm & [= <-]). cbn in Hp.
  unfold verifyPeerID. cbn [he_Payload he_Signature].
  rewrite decide_False by done. rewrite (unmarshal_marshal _ _ Hm). cbn [mbind go_bind hi_Server hi_Client hi_Timestamp].
  rewrite decide_False by tauto. rewrite Hk, Hv. cbn [negb].
  assert (timely (se_nonceExpiration s) now ts) as Htm by (by left). apply skew_spec in Htm; [|done].
  rewrite decide_False by lia. by rewrite Hn, lookup_empty.
Qed.

(** The hello that a node signs for another one is accepted there, as long
    as the clocks agree.  It is accepted again whenever it is sent again: the
    table of nonces is consulted and pruned, but nothing is ever added to it. *)
Theorem hello_accepted_and_replayed `{!ProtoOk HelloInfo} Sign nonce ts client type hello s s' now :
  SignHello Sign nonce ts client (se_id s) type = Ret hello -> he_Payload hello <> [] ->
  (exists key, se_keys s !! client = Some key /\ forall d, Verify key d (Sign d) = true) ->
  0 <= se_nonceExpiration s < 2 ^ 63 - 1 -> se_nonceMap s = ∅ -> rtc server_step s s' ->
  Z.abs (now - ts) <= se_nonceExpiration s -> verifyPeerID Verify now hello s' = Ret client.
Proof using Type.
  intros Hsig Hp Hk He Hn Hr Ht. rewrite (server_inv _ _ Hr Hn). by eapply hello_accepted.
Qed.
End admission.

(** ** The messages of a connection *)

Lemma write_loop_full data out n k : (length data <= n)%nat ->
  exists j, write_loop data (replicate (S k) n) out = (true, out ++ data, replicate j n) /\ (k <= j)%nat.
Proof.
  intros Hl. cbn [replicate write_loop]. case_decide as Hd.
  - destruct data; [|done]. exists (S k). rewrite app_nil_r. split; [done|lia].
  - exists k. rewrite take_ge, drop_ge by done. split; [by destruct k|lia].
Qed.

Lemma read_loop_eof need chunks got : (0 < need)%nat -> concat chunks = [] -> read_loop need chunks got = None.
Proof.
  revert need got. induction chunks as [|c chunks IH]; intros need got Hn Hc; cbn [read_loop];
    rewrite decide_False by lia; [done|].
  cbn in Hc. apply app_eq_nil in Hc as [-> Hc]. cbn. rewrite Nat.sub_0_r, decide_False by lia. by apply IH.
Qed.

(** A connection with [k] writes to come of [n] bytes each. *)
Definition writable (n k : nat) (c : Conn) : Prop := exists j, cn_accept c = replicate j n /\ (k <= j)%nat.

Lemma WritePayload_writes {A} `{Proto A} (pb : A) payload limit n k c :
  Marshal pb = Ret payload -> Z.of_nat (length payload) <= limit -> limit <= Z.of_nat n -> (4 <= n)%nat ->
  (4 <= length (cn_buf c))%nat -> writable n (2 + k) c ->
  exists c', WritePayload pb limit c = (Ret tt, c') /\ cn_out c' = cn_out c ++ frame payload /\
    cn_in c' = cn_in c /\ (4 <= length (cn_buf c'))%nat /\ writable n k c'.
Proof.
  intros Hm Hl Hn H4 Hb (j & Hj & Hk). unfold WritePayload. rewrite Hm. cbv zeta. rewrite decide_False by lia.
  destruct j as [|j]; [lia|]. rewrite Hj.
  set (header := PutUint32 (u32 (Z.of_nat (length payload)))).
  assert (length header = 4%nat) as Hh by apply length_PutUint.
  destruct (write_loop_full header (cn_out c) n j ltac:(lia)) as (j1 & -> & Hj1). cbn [cn_accept cn_out set_conn_out].
  destruct j1 as [|j1]; [lia|]. destruct (write_loop_full payload (cn_out c ++ header) n j1 ltac:(lia)) as (j2 & -> & Hj2).
  eexists. split; [done|]. cbn [cn_out cn_in cn_buf set_conn_out]. split; [by rewrite <-app_assoc|]. split; [done|].
  split; [unfold fill; rewrite length_app; lia|]. exists j2. split; [done|lia].
Qed.

Lemma readPayload_out limit c : cn_out (readPayload limit c).2 = cn_out c /\
  cn_accept (readPayload limit c).2 = cn_accept c.
Proof.
  unfold readPayload. destruct (read_loop 4 _ _) as [[header chunks]|]; [|done]. cbv zeta.
  destruct (Uint 4 _); [|done..]. case_decide; [done|]. case_decide; [done|].
  by destruct (read_loop _ _ _) as [[payload chunks']|].
Qed.

Section serving.
Context {Msg St : Type} {PM : Proto Msg} `{!ProtoOk Msg}.
Context (Handle : uint64 -> Msg -> St -> go (option Msg) * St) (peerID : uint64) (limit : goint) (n : nat).

(** The handler applied to one message after the other, up to the first error:
    the state afterwards and the responses. *)
Fixpoint serve_all (msgs : list Msg) (st : St) : option (St * list Msg) :=
  match msgs with
  | [] => Some (st, [])
  | m :: msgs =>
      match Handle peerID m st with
      | (Ret r, st) => '(st, rs) ← serve_all msgs st; Some (st, option_list r ++ rs)
      | (Fail _, st) => Some (st, [])
      | (Crash, _) => None
      end
  end.

(** The frames of some messages. *)
Definition frames (msgs : list Msg) (out : bytes) : Prop :=
  exists payloads, Forall2 (fun m p => Marshal m = Ret p /\ Z.of_nat (length p) <= limit) msgs payloads /\
    out = payloads ≫= frame.

Lemma frames_nil out : frames [] out <-> out = [].
Proof using Type.
  split; [|intros ->; by exists []; repeat constructor]. intros (ps & H & ->). by inversion H.
Qed.

Lemma frames_cons m msgs out : frames (m :: msgs) out <->
  exists p rest, Marshal m = Ret p /\ Z.of_nat (length p) <= limit /\ frames msgs rest /\ out = frame p ++ rest.
Proof using Type.
  split.
  - intros (ps & H & ->). inversion H as [|? p ? ps' [Hm Hl] Hf]; subst. exists p, (ps' ≫= frame).
    split_and!; try done. by exists ps'.
  - intros (p & rest & Hm & Hl & (ps & Hf & ->) & ->). exists (p :: ps). split; [by constructor|done].
Qed.

Lemma frames_option r rs out1 out2 : frames (option_list r) out1 -> frames rs out2 ->
  frames (option_list r ++ rs) (out1 ++ out2).
Proof using Type.
  destruct r as [r|]; cbn [option_list app].
  - intros (p & rest & Hm & Hl & ->%frames_nil & ->)%frames_cons H2. apply frames_cons. exists p, out2.
    by rewrite app_nil_r.
  - by intros ->%frames_nil.
Qed.

(** The responses can be sent. *)
Definition small_responses : Prop := forall m st r st', Handle peerID m st = (Ret (Some r), st') ->
  exists p, Marshal r = Ret p /\ Z.of_nat (length p) <= limit.

(** C32. A connection that has been admitted: however the messages arrive in
    fragments, the handler is called with exactly these messages, in order, up
    to the first error; its responses are written in the same order, a frame
    each, and the connection is closed at the end.  An error is not reported to
    the peer. *)
Theorem connection_served msgs data fuel st c : limit < 2 ^ 31 -> limit <= Z.of_nat n -> (4 <= n)%nat -> small_responses ->
  frames msgs data -> concat (cn_in c) = data -> (length msgs < fuel)%nat ->
  (4 <= length (cn_buf c))%nat -> writable n (2 * length msgs) c ->
  match serve_all msgs st with
  | Some (st', rs) => exists c' out, serve fuel Handle limit peerID st c = Some (st', c') /\
      frames rs out /\ cn_out c' = cn_out c ++ out /\ cn_closed c' = true
  | None => serve fuel Handle limit peerID st c = None
  end.
Proof using All.
  intros Hlim Hn H4 Hsmall. revert data fuel st c. induction msgs as [|m msgs IH]; intros data fuel st c Hfr Hin Hfuel Hbuf Hw;
    destruct fuel as [|fuel]; [cbn in Hfuel; lia| |cbn in Hfuel; lia|]; cbn [serve serve_all].
  - apply frames_nil in Hfr as ->. unfold ReadMessage, readPayload. rewrite read_loop_eof by (done || lia).
    cbn [mbind go_bind]. eexists _, []. split; [done|]. split; [by apply frames_nil|]. by rewrite app_nil_r.
  - apply frames_cons in Hfr as (p & rest & Hm & Hl & Hfr & ->).
    destruct (readPayload_frame limit c p rest Hlim Hl Hbuf Hin) as (c1 & Hr & Hin1 & Hbuf1).
    destruct (readPayload_out limit c) as [Ho1 Ha1]. rewrite Hr in Ho1, Ha1. cbn [snd] in Ho1, Ha1.
    assert (writable n (2 + 2 * length msgs) c1) as Hw1.
    { destruct Hw as (j & ? & ?). exists j. rewrite Ha1. split; [done|cbn in *; lia]. }
    unfold ReadMessage. rewrite Hr. cbn [mbind go_bind]. rewrite (unmarshal_marshal _ _ Hm).
    destruct (Handle peerID m st) as [[[r|]|e|] st1] eqn:Eh.
    + destruct (Hsmall _ _ _ _ Eh) as (pr & Hmr & Hlr).
      destruct (WritePayload_writes r pr limit n _ c1 Hmr Hlr Hn H4 Hbuf1 Hw1) as (c2 & -> & Ho2 & Hin2 & Hbuf2 & Hw2).
      specialize (IH rest fuel st1 c2 Hfr ltac:(by rewrite Hin2) ltac:(cbn in Hfuel; lia) Hbuf2 Hw2).
      destruct (serve_all msgs st1) as [[st2 rs]|]; [|done]. destruct IH as (c3 & out & -> & Hfo & Ho3 & Hcl).
      cbn [mbind option_bind]. eexists c3, (frame pr ++ out). split_and!; [done| | |done].
      * apply frames_cons. eauto 6.
      * by rewrite Ho3, Ho2, Ho1, <-app_assoc.
    + specialize (IH rest fuel st1 c1 Hfr Hin1 ltac:(cbn in Hfuel; lia) Hbuf1).
      destruct (serve_all msgs st1) as [[st2 rs]|]; cbn [mbind option_bind].
      * destruct IH as (c3 & out & -> & Hfo & Ho3 & Hcl).
        { destruct Hw1 as (j & ? & ?). exists j. split; [done|lia]. }
        exists c3, out. split_and!; try done. by rewrite Ho3, Ho1.
      * apply IH. destruct Hw1 as (j & ? & ?). exists j. split; [done|lia].
    + eexists _, []. split; [done|]. split; [by apply frames_nil|]. cbn. by rewrite Ho1, app_nil_r.
    + done.
Qed.
End serving.

(** ** Examples *)

#[local] Instance HelloInfo_eq_dec : EqDecision HelloInfo.
Proof. solve_decision. Defined.
Definition ex_info : HelloInfo := MkHelloInfo 3 [7; 7] 1 1000.
#[local] Instance Info_Proto : Proto HelloInfo := {|
  Marshal := fun x => if decide (x = ex_info) then Ret [5] else Fail "unknown";
  Unmarshal := fun b => if decide (b = [5]) then Ret ex_info else Fail "unknown" |}.
#[local] Instance Info_ProtoOk : ProtoOk HelloInfo.
Proof. intros x b. unfold Marshal, Unmarshal, Info_Proto. case_decide; [|done]. intros [= <-]. by subst. Qed.

Definition ex_check (key data sig : bytes) : bool := bool_decide (sig = key ++ data).
Definition ex_server : Server := MkServer 1 {[3 := [9]]} 500 ∅.
Definition ex_hello : Hello := MkHello (str "go/0.0.1") [5] [9; 5] CONNECTION_SBAC.

Lemma admission_spec_witness : verifyPeerID ex_check 1200 ex_hello ex_server = Ret 3.
Proof.
  apply admission_spec; [cbn; lia|]. right. split; [done|]. exists ex_info, [9].
  split_and!; try reflexivity; [left; cbn; lia|constructor].
Defined.

Lemma hello_accepted_and_replayed_witness :
  verifyPeerID ex_check 1300 ex_hello (pruneNonceMap 1250 ex_server) = Ret 3.
Proof.
  eapply (hello_accepted_and_replayed ex_check (app [9]) (Some [7; 7]) 1000 3 CONNECTION_SBAC ex_hello ex_server);
    [reflexivity|done| |cbn; lia|reflexivity|apply rtc_once; constructor|cbn; lia].
  exists [9]. split; [reflexivity|]. intros d. by apply bool_decide_eq_true.
Defined.

#[local] Instance echo_Proto : Proto bytes := {| Marshal := fun x => Ret x; Unmarshal := fun x => Ret x |}.
#[local] Instance echo_ProtoOk : ProtoOk bytes.
Proof. intros x b [= ->]. done. Qed.

(** Echoes messages that are not empty, and counts them. *)
Definition echo (_ : uint64) (m : bytes) (st : nat) : go (option bytes) * nat :=
  if decide (m = []) then (Fail "empty", st)
  else if decide (length m <= 10)%nat then (Ret (Some m), S st) else (Ret None, st).

Lemma connection_served_witness : exists c' out,
  serve 4 echo 100 3 0%nat (NewConn [[1; 0; 0]; [0; 8; 1; 0; 0; 0; 9]; [0; 0; 0; 0]] (replicate 6 100%nat)) =
    Some (2%nat, c') /\ frames 100 [[8]; [9]] out /\ cn_out c' = [] ++ out /\ cn_closed c' = true.
Proof.
  pose proof (connection_served echo 3 100 100 [[8]; [9]; []]
    [1; 0; 0; 0; 8; 1; 0; 0; 0; 9; 0; 0; 0; 0] 4 0%nat
    (NewConn [[1; 0; 0]; [0; 8; 1; 0; 0; 0; 9]; [0; 0; 0; 0]] (replicate 6 100%nat))) as H.
  apply H; [lia|lia|lia| | |reflexivity|cbn; lia|cbn; lia|by exists 6%nat].
  - intros m st r st'. unfold echo. case_decide; [done|]. case_decide; [|done]. intros [= <- _].
    exists m. split; [done|]. lia.
  - exists [[8]; [9]; []]. split; [|reflexivity]. repeat (constructor; [split; [reflexivity|cbn; lia]|]). constructor.
Defined.
