(* ===== verification/Base32.v ===== *)
(** * Base32: the encoding of keys and identifiers in the configuration

    What the program uses of the package [encoding/base32]: the standard
    alphabet without padding. *)
From S2P Require Import Prelude.

Definition alphabet32 : bytes := str "ABCDEFGHIJKLMNOPQRSTUVWXYZ234567".
Definition enc32 (i : Z) : Z := nth (Z.to_nat i) alphabet32 0.
Definition digit32 (val : Z) (i : Z) : Z := enc32 ((val / 32 ^ i) mod 32).

(** [EncodeToString]: five bytes are eight digits; a shorter last group has the
    digits that its bits need. *)
Fixpoint b32_Encode (src : bytes) : bytes :=
  match src with
  | [] => []
  | [a] => digit32 (a * 2 ^ 32) <$> [7; 6]
  | [a; b] => digit32 (a * 2 ^ 32 + b * 2 ^ 24) <$> [7; 6; 5; 4]
  | [a; b; c] => digit32 (a * 2 ^ 32 + b * 2 ^ 24 + c * 2 ^ 16) <$> [7; 6; 5; 4; 3]
  | [a; b; c; d] => digit32 (a * 2 ^ 32 + b * 2 ^ 24 + c * 2 ^ 16 + d * 2 ^ 8) <$> [7; 6; 5; 4; 3; 2; 1]
  | a :: b :: c :: d :: e :: src =>
      (digit32 (a * 2 ^ 32 + b * 2 ^ 24 + c * 2 ^ 16 + d * 2 ^ 8 + e) <$> [7; 6; 5; 4; 3; 2; 1; 0]) ++ b32_Encode src
  end.

Definition dec32 (c : Z) : option Z :=
  if decide (65 <= c <= 90) then Some (c - 65)
  else if decide (50 <= c <= 55) then Some (c - 24)
  else None.

(** The bytes of up to eight digits; a group of one, three or six digits, which
    no encoding has, gives none. *)
Definition group_size (dlen : nat) : nat :=
  match dlen with 8 => 5 | 7 => 4 | 5 => 3 | 4 => 2 | 2 => 1 | _ => 0 end%nat.
Definition value32 (ds : list Z) : Z := foldl (fun v i => v * 32 + default 0 (ds !! i)) 0 (seq 0 8).
Definition undigits32 (ds : list Z) : bytes :=
  (fun i => (value32 ds / 256 ^ (4 - Z.of_nat i)) mod 256) <$> seq 0 (group_size (length ds)).

Fixpoint b32_loop (ds : list Z) (s out : bytes) : go bytes :=
  match s with
  | [] => Ret (out ++ undigits32 ds)
  | c :: s =>
      match dec32 c with
      | None => Fail "illegal base32 data at input byte %d"
      | Some d =>
          let ds := ds ++ [d] in
          if decide (length ds = 8%nat) then b32_loop [] s (out ++ undigits32 ds) else b32_loop ds s out
      end
  end.

(** [DecodeString]: carriage returns and newlines are removed first. *)
Definition b32_Decode (s : bytes) : go bytes := b32_loop [] (filter (fun c => c <> 10 /\ c <> 13) s) [].

(** ** Round trip *)

Lemma dec_enc32 i : 0 <= i < 32 -> dec32 (enc32 i) = Some i /\ enc32 i <> 10 /\ enc32 i <> 13.
Proof.
  intros Hi. assert (forall j, (j < 32)%nat -> dec32 (enc32 (Z.of_nat j)) = Some (Z.of_nat j) /\
    enc32 (Z.of_nat j) <> 10 /\ enc32 (Z.of_nat j) <> 13) as H.
  { intros j Hj. do 32 (destruct j as [|j]; [by vm_compute|]). lia. }
  rewrite <-(Z2Nat.id i) by lia. apply H. lia.
Qed.

Lemma dec_digit32 val i : dec32 (digit32 val i) = Some ((val / 32 ^ i) mod 32) /\ digit32 val i <> 10 /\ digit32 val i <> 13.
Proof. apply dec_enc32, Z.mod_pos_bound. lia. Qed.

(** Digits that do not fill a group are collected. *)
Lemma b32_loop_digits val idx ds s out : (length ds + length idx < 8)%nat ->
  b32_loop ds ((digit32 val <$> idx) ++ s) out = b32_loop (ds ++ ((fun i => (val / 32 ^ i) mod 32) <$> idx)) s out.
Proof.
  revert ds. induction idx as [|i idx IH]; intros ds Hl; cbn [fmap list_fmap app]; [by rewrite app_nil_r|].
  cbn [b32_loop]. rewrite (proj1 (dec_digit32 val i)). cbv zeta. cbn [length] in Hl.
  rewrite decide_False by (rewrite length_app; cbn; lia).
  rewrite IH by (rewrite length_app; cbn; lia). by rewrite <-app_assoc.
Qed.

(** The value is that of the digits. *)
Lemma value_digits val : 0 <= val < 2 ^ 40 ->
  value32 ((fun i => (val / 32 ^ i) mod 32) <$> [7; 6; 5; 4; 3; 2; 1; 0]) = val.
Proof.
  intros Hv. unfold value32. cbn [seq foldl fmap list_fmap lookup list_lookup default from_option].
  change (32 ^ 0) with 1. rewrite Z.div_1_r.
  assert (forall i, 0 <= i -> val / 32 ^ i = 32 * (val / 32 ^ (i + 1)) + (val / 32 ^ i) mod 32) as H.
  { intros i Hi. rewrite Z.pow_add_r, Z.pow_1_r, <-Z.div_div by lia. apply Z.div_mod. lia. }
  pose proof (H 0 ltac:(lia) : _ = 32 * (val / 32 ^ 1) + _) as H0. pose proof (H 1 ltac:(lia) : _ = 32 * (val / 32 ^ 2) + _) as H1.
  pose proof (H 2 ltac:(lia) : _ = 32 * (val / 32 ^ 3) + _) as H2. pose proof (H 3 ltac:(lia) : _ = 32 * (val / 32 ^ 4) + _) as H3.
  pose proof (H 4 ltac:(lia) : _ = 32 * (val / 32 ^ 5) + _) as H4. pose proof (H 5 ltac:(lia) : _ = 32 * (val / 32 ^ 6) + _) as H5.
  pose proof (H 6 ltac:(lia) : _ = 32 * (val / 32 ^ 7) + _) as H6. pose proof (H 7 ltac:(lia) : _ = 32 * (val / 32 ^ 8) + _) as H7.
  assert (val / 32 ^ 8 = 0) as H8 by (apply Z.div_small; lia).
  change (32 ^ 0) with 1 in H0. rewrite Z.div_1_r in H0. rewrite H8 in H7. clear H H8 Hv.
  repeat match goal with |- context [val / ?d] => generalize dependent (val / d); intros end.
  repeat match goal with |- context [?q mod 32] => generalize dependent (q mod 32); intros end. cbn [id]. lia.
Qed.

Abbreviation digits_of val := (fun i => (val / 32 ^ i) mod 32).

(** So it is when the digits that are left out are zero. *)
Lemma value_take val k : 0 <= val < 2 ^ 40 -> val mod 32 ^ (8 - Z.of_nat k) = 0 ->
  value32 (digits_of val <$> take k [7; 6; 5; 4; 3; 2; 1; 0]) = val.
Proof.
  intros Hv Hm. etrans; [|by apply value_digits]. unfold value32.
  assert (forall i, default 0 ((digits_of val <$> take k [7; 6; 5; 4; 3; 2; 1; 0]) !! i) =
    default 0 ((digits_of val <$> [7; 6; 5; 4; 3; 2; 1; 0]) !! i)) as H.
  { intros i. rewrite !list_lookup_fmap. destruct (decide (i < k)%nat) as [Hi|Hi]; [by rewrite lookup_take_lt|].
    rewrite lookup_take_ge by lia. cbn.
    destruct ([7; 6; 5; 4; 3; 2; 1; 0] !! i) as [j|] eqn:Ej; [|done]. cbn.
    assert ((i < 8)%nat /\ j = 7 - Z.of_nat i) as [Hi8 ->].
    { do 8 (destruct i as [|i]; [injection Ej as <-; lia|]). done. }
    apply Z.mod_divide in Hm as [q ->]; [|lia].
    replace (8 - Z.of_nat k) with ((7 - Z.of_nat i) + (1 + (Z.of_nat i - Z.of_nat k))) by lia.
    rewrite Z.pow_add_r, Z.pow_add_r by lia.
    replace (q * (32 ^ (7 - Z.of_nat i) * (32 ^ 1 * 32 ^ (Z.of_nat i - Z.of_nat k))))
      with ((q * 32 ^ (Z.of_nat i - Z.of_nat k) * 32) * 32 ^ (7 - Z.of_nat i)) by lia.
    rewrite Z.div_mul by lia. by rewrite Z_mod_mult. }
  cbn [seq foldl]. by rewrite !H.
Qed.

Lemma undigits_group val (k : nat) g : 0 <= val < 2 ^ 40 -> val mod 32 ^ (8 - Z.of_nat k) = 0 -> (k <= 8)%nat ->
  g = ((fun i => (val / 256 ^ (4 - Z.of_nat i)) mod 256) <$> seq 0 (group_size k)) ->
  undigits32 (digits_of val <$> take k [7; 6; 5; 4; 3; 2; 1; 0]) = g.
Proof.
  intros Hv Hm Hk ->. unfold undigits32. rewrite value_take by done.
  by rewrite length_fmap, length_take, Nat.min_l by (cbn; lia).
Qed.

Lemma b32_full a b c d e s out : is_byte a -> is_byte b -> is_byte c -> is_byte d -> is_byte e ->
  b32_loop [] ((digit32 (a * 2 ^ 32 + b * 2 ^ 24 + c * 2 ^ 16 + d * 2 ^ 8 + e) <$> [7; 6; 5; 4; 3; 2; 1; 0]) ++ s) out =
  b32_loop [] s (out ++ [a; b; c; d; e]).
Proof.
  unfold in_width. intros Ha Hb Hc Hd He. set (val := _ + e).
  change [7; 6; 5; 4; 3; 2; 1; 0] with ([7; 6; 5; 4; 3; 2; 1] ++ [0]). rewrite fmap_app, <-app_assoc.
  rewrite b32_loop_digits by (cbn; lia). cbn [fmap list_fmap app b32_loop]. rewrite (proj1 (dec_digit32 val 0)).
  cbv zeta. rewrite decide_True by done. f_equal. f_equal.
  change (undigits32 (digits_of val <$> take 8 [7; 6; 5; 4; 3; 2; 1; 0]) = [a; b; c; d; e]).
  apply undigits_group; [lia|cbn; by rewrite Z.mod_1_r|lia|]. unfold val. cbn [group_size].
  cbn [fmap list_fmap seq]. repeat f_equal; cbn; Z.div_mod_to_equations; lia.
Qed.

Lemma b32_part val k g out : 0 <= val < 2 ^ 40 -> val mod 32 ^ (8 - Z.of_nat k) = 0 -> (k < 8)%nat ->
  g = ((fun i => (val / 256 ^ (4 - Z.of_nat i)) mod 256) <$> seq 0 (group_size k)) ->
  b32_loop [] (digit32 val <$> take k [7; 6; 5; 4; 3; 2; 1; 0]) out = Ret (out ++ g).
Proof.
  intros Hv Hm Hk Hg. rewrite <-(app_nil_r (_ <$> _)), b32_loop_digits by (rewrite length_take; cbn; lia).
  cbn [app b32_loop]. by rewrite (undigits_group val k g) by (done || lia).
Qed.

Lemma b32_loop_encode s out : Forall is_byte s -> b32_loop [] (b32_Encode s) out = Ret (out ++ s).
Proof.
  revert out. induction s as [s IH] using (induction_ltof1 _ (@length Z)). unfold ltof in IH. intros out Hs.
  destruct s as [|a [|b [|c [|d [|e s]]]]]; cbn [b32_Encode].
  - done.
  - rewrite Forall_cons in Hs. unfold in_width in Hs. apply (b32_part (a * 2 ^ 32) 2);
      [lia|cbn; Z.div_mod_to_equations; lia|lia|]. cbn [group_size fmap list_fmap seq]. f_equal. cbn. Z.div_mod_to_equations; lia.
  - rewrite !Forall_cons in Hs. unfold in_width in Hs. apply (b32_part (a * 2 ^ 32 + b * 2 ^ 24) 4);
      [lia|cbn; Z.div_mod_to_equations; lia|lia|]. cbn [group_size fmap list_fmap seq]. repeat f_equal; cbn; Z.div_mod_to_equations; lia.
  - rewrite !Forall_cons in Hs. unfold in_width in Hs. apply (b32_part (a * 2 ^ 32 + b * 2 ^ 24 + c * 2 ^ 16) 5);
      [lia|cbn; Z.div_mod_to_equations; lia|lia|]. cbn [group_size fmap list_fmap seq]. repeat f_equal; cbn; Z.div_mod_to_equations; lia.
  - rewrite !Forall_cons in Hs. unfold in_width in Hs. apply (b32_part (a * 2 ^ 32 + b * 2 ^ 24 + c * 2 ^ 16 + d * 2 ^ 8) 7);
      [lia|cbn; Z.div_mod_to_equations; lia|lia|]. cbn [group_size fmap list_fmap seq]. repeat f_equal; cbn; Z.div_mod_to_equations; lia.
  - rewrite !Forall_cons in Hs. destruct Hs as (Ha & Hb & Hc & Hd & He & Hs). rewrite b32_full by done.
    rewrite IH by (done || (cbn; lia)). by rewrite <-app_assoc.
Qed.

Lemma b32_Encode_text s : Forall (fun c => c <> 10 /\ c <> 13) (b32_Encode s).
Proof.
  assert (forall val idx, Forall (fun c => c <> 10 /\ c <> 13) (digit32 val <$> idx)) as H.
  { intros val idx. induction idx as [|i idx IH]; constructor; [apply dec_digit32|done]. }
  induction s as [s IH] using (induction_ltof1 _ (@length Z)). unfold ltof in IH.
  destruct s as [|a [|b [|c [|d [|e s]]]]]; cbn [b32_Encode]; try done.
  apply Forall_app. split; [done|]. apply IH. cbn. lia.
Qed.

Lemma filter_text_all {A} (P : A -> Prop) `{!forall x, Decision (P x)} l : Forall P l -> filter P l = l.
Proof. induction 1 as [|x l Hx _ IH]; [done|]. by rewrite filter_cons_True, IH. Qed.

(** Decoding undoes encoding. *)
Lemma base32_roundtrip s : Forall is_byte s -> b32_Decode (b32_Encode s) = Ret s.
Proof. intros Hs. unfold b32_Decode. rewrite filter_text_all by apply b32_Encode_text. by apply b32_loop_encode. Qed.

Example base32_ex : b32_Encode (str "foobar") = str "MZXW6YTBOI" /\ b32_Decode (str "MZXW6YTBOI") = Ret (str "foobar") /\
  b32_Decode (str "MZX=") = Fail "illegal base32 data at input byte %d".
Proof. by vm_compute. Qed.
