(* ===== verification/Signature.v ===== *)
(** * Signature: signing keys

    Model of [src/internal/crypto/signature].  The Ed25519 functions of the
    cryptographic library are parameters; as documented, they panic for keys of
    the wrong length. *)
From S2P Require Import Prelude.

Abbreviation Algorithm := Z (only parsing).
Definition Ed25519 : Algorithm := 1.
Definition algorithm_String (s : Algorithm) : bytes := if decide (s = Ed25519) then str "ed25519" else [].
Definition AlgorithmFromString (s : bytes) : go Algorithm :=
  if decide (s = algorithm_String Ed25519) then Ret Ed25519
  else Fail "signature: unknown digitaly signature algorithm: %v".

Definition PublicKeySize : nat := 32.
Definition PrivateKeySize : nat := 64.

Record KeyPair := MkKeyPair { kp_pub : bytes; kp_priv : bytes }.
#[export] Instance KeyPair_eq_dec : EqDecision KeyPair.
Proof. solve_decision. Defined.

(** [copy(dst, src)]: the new contents of [dst]. *)
Definition copy (dst src : bytes) : bytes := take (length dst) src ++ drop (length src) dst.

(** [Value]: the public key and then the private key, in 96 bytes. *)
Definition kp_Value (k : KeyPair) : bytes :=
  let v := copy (replicate 96 0) (kp_pub k) in
  take 32 v ++ copy (drop 32 v) (kp_priv k).

Definition GenKeyPair (GenerateKey : go (bytes * bytes)) (s : Algorithm) : go KeyPair :=
  if decide (s = Ed25519) then '(pub, priv) ← GenerateKey; Ret (MkKeyPair pub priv)
  else Fail "signature: unknown digital signature algorithm: %s".

Definition LoadKeyPair (s : Algorithm) (value : bytes) : go KeyPair :=
  if decide (s = Ed25519) then
    _ ← guard_fail (length value =? 96)%nat "signature: the length of an Ed25519 keypair should be 96 bytes, got a key with length: %d";
    Ret (MkKeyPair (take 32 value) (drop 32 value))
  else Fail "signature: unknown digital signature algorithm: %s".

Definition LoadPrivateKey (s : Algorithm) (value : bytes) : go bytes :=
  if decide (s = Ed25519) then
    _ ← guard_fail (length value =? 64)%nat "signature: the length of an Ed25519 private key should be 64 bytes, got a key with length: %d";
    Ret value
  else Fail "signature: unknown digital signature algorithm: %s".

Definition LoadPublicKey (s : Algorithm) (value : bytes) : go bytes :=
  if decide (s = Ed25519) then
    _ ← guard_fail (length value =? 32)%nat "signature: the length of an Ed25519 public key should be 32 bytes, got a key with length: %d";
    Ret value
  else Fail "signature: unknown digital signature algorithm: %s".

Section ed25519.
Context (ed_Sign : bytes -> bytes -> bytes) (ed_Verify : bytes -> bytes -> bytes -> bool).

(** [ed25519PrivKey.Sign] and [ed25519KeyPair.Sign] with the private key. *)
Definition key_Sign (priv data : bytes) : go bytes :=
  if decide (length priv = PrivateKeySize) then Ret (ed_Sign priv data) else Crash.
(** [ed25519PubKey.Verify] and [ed25519KeyPair.Verify] with the public key. *)
Definition key_Verify (pub data sig : bytes) : go bool :=
  if decide (length pub = PublicKeySize) then Ret (ed_Verify pub data sig) else Crash.
End ed25519.

(** ** Keys are loaded as they were stored *)

(** A key pair with keys of the right lengths. *)
Definition well_sized (k : KeyPair) : Prop := length (kp_pub k) = PublicKeySize /\ length (kp_priv k) = PrivateKeySize.

Lemma kp_Value_eq k : well_sized k -> kp_Value k = kp_pub k ++ kp_priv k.
Proof.
  intros [Hp Hq]. unfold kp_Value, copy. rewrite length_replicate, Hp.
  rewrite (take_ge (kp_pub k)) by (rewrite Hp; vm_compute; lia).
  rewrite take_app_length' by done. f_equal. rewrite drop_app_length' by done.
  rewrite drop_replicate, length_replicate, Hq. rewrite (take_ge (kp_priv k)) by (rewrite Hq; vm_compute; lia).
  by rewrite app_nil_r.
Qed.

(** Loading accepts exactly the values of 96 bytes; it gives back the pair that
    [Value] stored, and [Value] gives back what was loaded. *)
Lemma keypair_roundtrip :
  (forall k, well_sized k -> LoadKeyPair Ed25519 (kp_Value k) = Ret k) /\
  (forall value k, LoadKeyPair Ed25519 value = Ret k -> well_sized k /\ kp_Value k = value) /\
  (forall value, (exists k, LoadKeyPair Ed25519 value = Ret k) <-> length value = 96%nat).
Proof.
  assert (forall value k, LoadKeyPair Ed25519 value = Ret k ->
            length value = 96%nat /\ k = MkKeyPair (take 32 value) (drop 32 value)) as Hload.
  { intros value k H. unfold LoadKeyPair in H. rewrite decide_True in H by done.
    destruct (Nat.eqb_spec (length value) 96) as [Hl|]; [|done]. by injection H as <-. }
  split_and!.
  - intros k Hk. rewrite kp_Value_eq by done. destruct Hk as [Hp Hq]. unfold LoadKeyPair. rewrite decide_True by done.
    rewrite length_app, Hp, Hq. cbn [guard_fail Nat.eqb]. cbn. by rewrite take_app_length', drop_app_length' by done; destruct k.
  - intros value k [Hl ->]%Hload. assert (well_sized (MkKeyPair (take 32 value) (drop 32 value))) as Hw.
    { split; cbn; [rewrite length_take|rewrite length_drop]; rewrite Hl; done. }
    split; [done|]. rewrite kp_Value_eq by done. apply take_drop.
  - intros value. split; [by intros [k [? _]%Hload]|]. intros Hl. unfold LoadKeyPair.
    rewrite decide_True by done. rewrite Hl. cbn. eauto.
Qed.
