(* ===== verification/SbacStore.v ===== *)
(** * SbacStore: the objects and transactions of a node

    Model of [src/sbac/store.go] over the transactional database.  Object
    statuses are the bytes the store writes. *)
From S2P Require Import Prelude Database.

(** ** The interface [Store] *)

Abbreviation ObjectStatus := Z (only parsing).
Definition ACTIVE : ObjectStatus := 0.
Definition INACTIVE : ObjectStatus := 1.
Definition LOCKED : ObjectStatus := 2.

Record Object := MkObject {
  VersionID : bytes; Value : bytes; Status : ObjectStatus; Labels : list bytes }.

(** A failed operation leaves the store as it was. *)
Class Store (T : Type) := {
  CommitTransaction : bytes -> list bytes -> list Object -> T -> go T;
  LockObjects : list bytes -> T -> go T;
  UnlockObjects : list bytes -> T -> go T;
  AddTransaction : bytes -> bytes -> T -> go T;
  GetTransaction : bytes -> T -> go (option bytes * bool);
  GetObjects : list bytes -> T -> go (list Object);
  DeactivateObjects : list bytes -> T -> go T;
  CreateObjects : list Object -> T -> go T;
  CreateObject : bytes -> bytes -> T -> go (Object * T);
  DeleteObjects : list bytes -> T -> go T;
  FinishTransaction : bytes -> T -> go T;
  TxnFinished : bytes -> T -> go bool
}.

(** ** The database keys *)

Definition keyTypeObjectValue : Z := 0.
Definition keyTypeObjectStatus : Z := 1.
Definition keyTypeCommittedTxn : Z := 2.
Definition keyTypeSeenTxn : Z := 3.
Definition keyFinishedTxn : Z := 4.

Definition makeKey (ty : Z) (key : bytes) : bytes := ty :: key.
Definition committedTxnKey := makeKey keyTypeCommittedTxn.
Definition finishedTxnKey := makeKey keyFinishedTxn.
Definition objectKey := makeKey keyTypeObjectValue.
Definition objectStatusKey := makeKey keyTypeObjectStatus.
Definition seenTxnKey := makeKey keyTypeSeenTxn.

Definition ErrTransactionAlreadyExists : string := "Transaction already exists".
Definition ErrTransactionAlreadyCommitted : string := "Transaction already committed".
Definition ErrObjectAlreadyExists : string := "Output object already exists".
Definition ErrObjectAlreadyInactive : string := "Object already in INACTIVE state".
Definition ErrObjectCannotBeLocked : string := "Object cannot be locked (already INACTIVE or LOCKED)".
Definition ErrObjectCannotBeUnlocked : string := "Object cannot be unlocked".

(** ** The operations *)

Section ops.
Context (F : Faults).

(** The body of the loops that change a status: read it, check it, write it.
    [val[0]] panics on an empty value. *)
Definition moveStatus (allowed : ObjectStatus -> bool) (err : string) (new : ObjectStatus)
    (objkey : bytes) : Txn () :=
  val ← txn_Value F (objectStatusKey objkey);
  st ← lift (or_crash (head val));
  _ ← lift (guard_fail (allowed st) err);
  txn_Set F (objectStatusKey objkey) [new].

Definition setObjectsInactive (objkeys : list bytes) : Txn () :=
  txn_each (moveStatus (fun st => negb (st =? INACTIVE)) ErrObjectAlreadyInactive INACTIVE) objkeys.

(** [_, err := txn.Get(k); err == nil]: every error counts as absence. *)
Definition txn_Has (k : bytes) : Txn bool := fun db =>
  match txn_Get F k db with Ret (Some _, _) => Ret (true, db) | _ => Ret (false, db) end.

Definition createObject_txn (vid value : bytes) : Txn () :=
  b ← txn_Has (objectKey vid);
  _ ← lift (guard_fail (negb b) ErrObjectAlreadyExists);
  _ ← txn_Set F (objectKey vid) value;
  b ← txn_Has (objectStatusKey vid);
  _ ← lift (guard_fail (negb b) ErrObjectAlreadyExists);
  txn_Set F (objectStatusKey vid) [ACTIVE].

Definition createObjects (objs : list Object) : Txn () :=
  txn_each (fun obj => createObject_txn (VersionID obj) (Value obj)) objs.

(** [txn.Set(key, v)] as a statement: its error is dropped. *)
Definition txn_TrySet (k v : bytes) : Txn () := fun db =>
  match txn_Set F k v db with Ret r => Ret r | _ => Ret (tt, db) end.

Definition commitTransaction (txnkey : bytes) : Txn () :=
  val ← txn_Value F (committedTxnKey txnkey);
  b ← lift (or_crash (head val));
  _ ← lift (guard_fail (negb (b =? 1)) ErrTransactionAlreadyCommitted);
  txn_TrySet (committedTxnKey txnkey) [1].

Definition st_CommitTransaction (txnkey : bytes) (inobjkeys : list bytes) (objs : list Object) :=
  Update F (_ ← setObjectsInactive inobjkeys; _ ← createObjects objs; commitTransaction txnkey).

Definition st_LockObjects (objkeys : list bytes) :=
  Update F (txn_each (moveStatus (fun st => st =? ACTIVE) ErrObjectCannotBeLocked LOCKED) objkeys).

Definition st_UnlockObjects (objkeys : list bytes) :=
  Update F (txn_each (moveStatus (fun st => (st =? LOCKED) || (st =? ACTIVE))
                        ErrObjectCannotBeUnlocked ACTIVE) objkeys).

Definition st_AddTransaction (txkey value : bytes) :=
  Update F (
    b ← txn_Has (seenTxnKey txkey);
    _ ← lift (guard_fail (negb b) ErrTransactionAlreadyExists);
    _ ← txn_Set F (seenTxnKey txkey) value;
    b ← txn_Has (committedTxnKey txkey);
    _ ← lift (guard_fail (negb b) ErrTransactionAlreadyExists);
    txn_Set F (committedTxnKey txkey) [0]).

(** The value is nil, and not an error, when the transaction is not known. *)
Definition st_GetTransaction (txkey : bytes) (db : contents) : go (option bytes * bool) :=
  match txn_Get F (seenTxnKey txkey) db with
  | Ret (Some _, _) =>
      View (val ← txn_Value F (seenTxnKey txkey);
            status ← txn_Value F (committedTxnKey txkey);
            b ← lift (or_crash (head status));
            mret (Some val, b =? 1)) db
  | _ => Ret (None, false)
  end.

Definition assert_crash (b : bool) : go () := if b then Ret tt else Crash.

(** The error of the second [txn.Get] is dropped: the item is then nil and
    [item.Value] panics. *)
Fixpoint getObjects_loop (vids : list bytes) (objects : list Object) : Txn (list Object) :=
  match vids with
  | [] => mret objects
  | vid :: vids =>
      val ← txn_Value F (objectKey vid);
      b ← txn_Has (objectStatusKey vid);
      _ ← lift (assert_crash b);
      raw ← txn_Value F (objectStatusKey vid);
      st ← lift (or_crash (head raw));
      getObjects_loop vids (objects ++ [MkObject vid val st []])
  end.

Definition st_GetObjects (vids : list bytes) (db : contents) : go (list Object) :=
  View (getObjects_loop vids []) db.

Definition st_DeactivateObjects (keys : list bytes) := Update F (setObjectsInactive keys).
Definition st_CreateObjects (objs : list Object) := Update F (createObjects objs).

(** [return o, s.db.Update(...)]: the object is the one the transaction made. *)
Definition st_CreateObject (vid value : bytes) (db : contents) : go (Object * contents) :=
  db' ← Update F (createObject_txn vid value) db;
  Ret (MkObject vid value ACTIVE [], db').

Definition st_DeleteObjects (objkeys : list bytes) := Update F (setObjectsInactive objkeys).

Definition st_FinishTransaction (txnkey : bytes) := Update F (txn_Set F (finishedTxnKey txnkey) []).

Definition st_TxnFinished (txnkey : bytes) (db : contents) : go bool :=
  View (o ← txn_Get F (finishedTxnKey txnkey); mret (bool_decide (is_Some o))) db.

#[export] Instance BadgerStore : Store contents := {|
  CommitTransaction := st_CommitTransaction;
  LockObjects := st_LockObjects;
  UnlockObjects := st_UnlockObjects;
  AddTransaction := st_AddTransaction;
  GetTransaction := st_GetTransaction;
  GetObjects := st_GetObjects;
  DeactivateObjects := st_DeactivateObjects;
  CreateObjects := st_CreateObjects;
  CreateObject := st_CreateObject;
  DeleteObjects := st_DeleteObjects;
  FinishTransaction := st_FinishTransaction;
  TxnFinished := st_TxnFinished
|}.
End ops.
