(* ===== verification/SbacStoreProps.v ===== *)
(** * SbacStoreProps: what the object store promises

    The operations that move objects between the statuses succeed exactly when
    every object allows the move, and no history of operations spends an object
    twice, unless a creation cannot read the keys of the object: the store then
    takes it for absent. *)
From S2P Require Import Prelude Database SbacStore.

(** ** The abstract view: a status per object *)

Definition status (db : contents) (k : bytes) : option ObjectStatus :=
  db !! objectStatusKey k ≫= head.

Definition set_status (new : ObjectStatus) (ks : list bytes) (db : contents) : contents :=
  foldl (fun db k => <[objectStatusKey k := [new]]> db) db ks.

Definition add_objects (objs : list Object) (db : contents) : contents :=
  foldl (fun db o => <[objectStatusKey (VersionID o) := [ACTIVE]]>
                       (<[objectKey (VersionID o) := Value o]> db)) db objs.

(** Every object allows the move; an object named twice allows it again. *)
Definition movable (allowed : ObjectStatus -> bool) (new : ObjectStatus) (ks : list bytes)
    (db : contents) : Prop :=
  (forall k, k ∈ ks -> exists s, status db k = Some s /\ allowed s = true) /\
  (allowed new = true \/ NoDup ks).

Definition absent (db : contents) (k : bytes) : Prop :=
  db !! objectKey k = None /\ db !! objectStatusKey k = None.

Definition creatable (objs : list Object) (db : contents) : Prop :=
  NoDup (VersionID <$> objs) /\ forall k, k ∈ VersionID <$> objs -> absent db k.

(** ** Keys *)

#[export] Instance makeKey_inj ty : Inj (=) (=) (makeKey ty).
Proof. by intros x y [=]. Qed.

Ltac keys := unfold committedTxnKey, finishedTxnKey, objectKey, objectStatusKey, seenTxnKey,
  makeKey, keyTypeObjectValue, keyTypeObjectStatus, keyTypeCommittedTxn, keyTypeSeenTxn,
  keyFinishedTxn in *; congruence.

Lemma status_insert_status db k new j :
  status (<[objectStatusKey k := [new]]> db) j = if decide (j = k) then Some new else status db j.
Proof.
  unfold status. case_decide as E; [subst; by rewrite lookup_insert_eq|].
  by rewrite lookup_insert_ne by keys.
Qed.

Lemma status_insert_other db k v j :
  (forall x, k <> objectStatusKey x) -> status (<[k := v]> db) j = status db j.
Proof. intros Hk. unfold status. by rewrite lookup_insert_ne by apply Hk. Qed.

Lemma status_set_status new ks db j :
  status (set_status new ks db) j = if decide (j ∈ ks) then Some new else status db j.
Proof.
  revert db. induction ks as [|k ks IH]; intros db.
  { by rewrite decide_False by apply not_elem_of_nil. }
  change (set_status new (k :: ks) db) with (set_status new ks (<[objectStatusKey k := [new]]> db)).
  rewrite IH, status_insert_status. repeat case_decide; set_solver.
Qed.

Lemma set_status_other new ks db k :
  (forall x, k <> objectStatusKey x) -> set_status new ks db !! k = db !! k.
Proof.
  intros Hk. revert db. induction ks as [|j ks IH]; intros db; simpl; [done|].
  by rewrite IH, lookup_insert_ne by (apply not_eq_sym, Hk).
Qed.

Lemma lookup_add_objects objs db k :
  (forall o, o ∈ objs -> k <> objectKey (VersionID o) /\ k <> objectStatusKey (VersionID o)) ->
  add_objects objs db !! k = db !! k.
Proof.
  revert db. induction objs as [|o objs IH]; intros db Hk; simpl; [done|].
  destruct (Hk o ltac:(left)). rewrite IH by (intros; apply Hk; by right).
  by rewrite !lookup_insert_ne.
Qed.

(** ** The loops *)

Lemma lift_inv {A} (m : go A) db x db' : lift m db = Ret (x, db') -> m = Ret x /\ db' = db.
Proof. unfold lift. by destruct m; intros; simplify_eq/=. Qed.
Lemma guard_inv b e u : guard_fail b e = Ret u -> b = true.
Proof. by destruct b. Qed.
Lemma or_crash_inv {A} (o : option A) x : or_crash o = Ret x -> o = Some x.
Proof. by destruct o; intros; simplify_eq/=. Qed.

Lemma moveStatus_inv F allowed err new k db u db' :
  moveStatus F allowed err new k db = Ret (u, db') ->
  (exists s, status db k = Some s /\ allowed s = true) /\ db' = <[objectStatusKey k := [new]]> db.
Proof.
  unfold moveStatus. intros H.
  apply txn_bind_inv in H as (v & ? & [Hv ->]%txn_Value_inv & H).
  apply txn_bind_inv in H as (st & ? & [Hst%or_crash_inv ->]%lift_inv & H).
  apply txn_bind_inv in H as (? & ? & [Hg%guard_inv ->]%lift_inv & H).
  apply txn_Set_inv in H as ->. split; [|done]. exists st. unfold status. by rewrite Hv.
Qed.

Lemma moveStatus_ok allowed err new k db s : status db k = Some s -> allowed s = true ->
  moveStatus noFaults allowed err new k db = Ret (tt, <[objectStatusKey k := [new]]> db).
Proof.
  unfold status. intros (v & Hv & Hs)%bind_Some Ha. unfold moveStatus.
  rewrite txn_bind_eq, (txn_Value_ok _ v) by done. cbn [mbind go_bind].
  by rewrite txn_bind_eq, Hs; simpl; rewrite txn_bind_eq, Ha.
Qed.

Lemma movable_cons allowed new k ks db :
  movable allowed new (k :: ks) db <->
  (exists s, status db k = Some s /\ allowed s = true) /\
  movable allowed new ks (<[objectStatusKey k := [new]]> db).
Proof.
  unfold movable. setoid_rewrite status_insert_status. rewrite NoDup_cons. split.
  - intros [Hall Hnd]. split; [apply Hall; by left|]. split; [|naive_solver].
    intros j Hj. case_decide as E; [|apply Hall; by right]. subst. naive_solver.
  - intros [Hk [Hall Hnd]]. split.
    + intros j [->|Hj]%elem_of_cons; [done|]. specialize (Hall j Hj). by case_decide; [subst|].
    + destruct Hnd as [?|Hnd]; [by left|]. destruct (allowed new) eqn:Ha; [by left|]. right.
      split; [|done]. intros Hj. destruct (Hall k Hj) as (s & Hs & Hal). rewrite decide_True in Hs by done.
      congruence.
Qed.

Lemma moveStatus_loop_inv F allowed err new ks db u db' :
  txn_each (moveStatus F allowed err new) ks db = Ret (u, db') ->
  movable allowed new ks db /\ db' = set_status new ks db.
Proof.
  revert db. induction ks as [|k ks IH]; intros db H; cbn [txn_each] in H.
  { unfold mret, txn_ret in H. simplify_eq. split; [|done]. split; [set_solver|right; constructor]. }
  apply txn_bind_inv in H as (? & ? & [Hk ->]%moveStatus_inv & H). apply IH in H as [Hm ->].
  split; [|done]. by rewrite movable_cons.
Qed.

Lemma moveStatus_loop_ok allowed err new ks db : movable allowed new ks db ->
  txn_each (moveStatus noFaults allowed err new) ks db = Ret (tt, set_status new ks db).
Proof.
  revert db. induction ks as [|k ks IH]; intros db H; [done|].
  apply movable_cons in H as [(s & Hs & Ha) H]. cbn [txn_each].
  rewrite txn_bind_eq, (moveStatus_ok _ _ _ _ _ s) by done. cbn [mbind go_bind]. by apply IH.
Qed.

(** Reads do not fail. *)
Definition reads_ok (F : Faults) : Prop := forall k, get_err F k = None.

(** The test for a key has an outcome whatever fails; when the read works it is
    the right one. *)
Lemma txn_Has_Ret F k db : exists b, txn_Has F k db = Ret (b, db) /\
  (k <> [] -> get_err F k = None -> b = bool_decide (is_Some (db !! k))).
Proof.
  unfold txn_Has, txn_Get, fails, key_err. case_decide as Hk; [by exists false|].
  destruct (get_err F k); [by exists false|]. destruct (db !! k); [exists true|exists false]; by rewrite ?bool_decide_true by eauto.
Qed.

Lemma txn_Has_eq F k db : k <> [] -> reads_ok F -> txn_Has F k db = Ret (bool_decide (is_Some (db !! k)), db).
Proof. intros Hk HF. destruct (txn_Has_Ret F k db) as (b & -> & Hb). by rewrite Hb. Qed.

Lemma negb_is_Some {A} (o : option A) : negb (bool_decide (is_Some o)) = true -> o = None.
Proof. destruct o; [|done]. by rewrite bool_decide_true. Qed.

(** What a successful creation has seen: of the two keys those that could be
    read did not exist. *)
Definition seen_absent (F : Faults) (db : contents) (k : bytes) : Prop :=
  (get_err F (objectKey k) = None -> db !! objectKey k = None) /\
  (get_err F (objectStatusKey k) = None -> db !! objectStatusKey k = None).

Lemma createObject_txn_seen F vid value db u db' : createObject_txn F vid value db = Ret (u, db') ->
  seen_absent F db vid /\ db' = <[objectStatusKey vid := [ACTIVE]]> (<[objectKey vid := value]> db).
Proof.
  intros H. unfold createObject_txn in H. rewrite txn_bind_eq in H.
  destruct (txn_Has_Ret F (objectKey vid) db) as (b1 & E1 & Hb1). rewrite E1 in H. cbn [mbind go_bind] in H.
  apply txn_bind_inv in H as (? & ? & [Hn%guard_inv ->]%lift_inv & H).
  apply txn_bind_inv in H as (? & ? & ->%txn_Set_inv & H). rewrite txn_bind_eq in H.
  destruct (txn_Has_Ret F (objectStatusKey vid) (<[objectKey vid := value]> db)) as (b2 & E2 & Hb2).
  rewrite E2 in H. cbn [mbind go_bind] in H.
  apply txn_bind_inv in H as (? & ? & [Hs%guard_inv ->]%lift_inv & H).
  apply txn_Set_inv in H as ->. split; [|done]. split; intros Hr.
  - rewrite Hb1 in Hn by done. by apply negb_is_Some.
  - rewrite Hb2, lookup_insert_ne in Hs by (done || keys). by apply negb_is_Some.
Qed.

Lemma createObject_txn_inv F vid value db u db' : reads_ok F ->
  createObject_txn F vid value db = Ret (u, db') ->
  absent db vid /\ db' = <[objectStatusKey vid := [ACTIVE]]> (<[objectKey vid := value]> db).
Proof. intros HF [[H1 H2] ->]%createObject_txn_seen. split; [|done]. split; auto. Qed.

Lemma createObject_txn_ok vid value db : absent db vid ->
  createObject_txn noFaults vid value db =
  Ret (tt, <[objectStatusKey vid := [ACTIVE]]> (<[objectKey vid := value]> db)).
Proof.
  intros [H1 H2]. assert (bool_decide (is_Some (@None bytes)) = false) as Hn by done.
  unfold createObject_txn.
  rewrite txn_bind_eq, txn_Has_eq, H1, Hn by done. cbn [mbind go_bind].
  rewrite txn_bind_eq. cbn [lift guard_fail negb mbind go_bind].
  rewrite txn_bind_eq, txn_Set_ok by done. cbn [mbind go_bind].
  rewrite txn_bind_eq, txn_Has_eq, lookup_insert_ne, H2, Hn by (done || keys). done.
Qed.

Lemma creatable_cons o objs db :
  creatable (o :: objs) db <->
  absent db (VersionID o) /\ creatable objs (<[objectStatusKey (VersionID o) := [ACTIVE]]>
    (<[objectKey (VersionID o) := Value o]> db)).
Proof.
  unfold creatable, absent. csimpl. rewrite NoDup_cons. split.
  - intros [[Hn Hnd] Hall]. split; [apply Hall; by left|]. split; [done|]. intros k Hk.
    assert (k <> VersionID o) by (intros ->; done).
    rewrite !lookup_insert_ne by keys. apply Hall. by right.
  - intros [Ho [Hnd Hall]]. assert (VersionID o ∉ VersionID <$> objs) as Hn.
    { intros Hin. destruct (Hall _ Hin) as [_ Hs]. by rewrite lookup_insert_eq in Hs. }
    split; [done|]. intros k [->|Hk]%elem_of_cons; [done|].
    assert (k <> VersionID o) by (intros ->; done).
    specialize (Hall k Hk). by rewrite !lookup_insert_ne in Hall by keys.
Qed.

Lemma createObjects_seen F objs db u db' : createObjects F objs db = Ret (u, db') ->
  (forall k, k ∈ VersionID <$> objs -> seen_absent F db k) /\ db' = add_objects objs db.
Proof.
  unfold createObjects. revert db. induction objs as [|o objs IH]; intros db H; cbn [txn_each] in H.
  { unfold mret, txn_ret in H. simplify_eq. split; [set_solver|done]. }
  apply txn_bind_inv in H as (? & ? & [Ho ->]%createObject_txn_seen & [Hc ->]%IH). split; [|done].
  intros k Hk. destruct (decide (k = VersionID o)) as [->|Hne]; [done|].
  apply elem_of_cons in Hk as [?|Hk]; [done|]. destruct (Hc k Hk) as [H1 H2].
  rewrite !lookup_insert_ne in H1, H2 by keys. done.
Qed.

Lemma createObjects_inv F objs db u db' : reads_ok F ->
  createObjects F objs db = Ret (u, db') -> creatable objs db /\ db' = add_objects objs db.
Proof.
  intros HF. unfold createObjects. revert db. induction objs as [|o objs IH]; intros db H; cbn [txn_each] in H.
  { unfold mret, txn_ret in H. simplify_eq. split; [|done]. split; [constructor|set_solver]. }
  apply txn_bind_inv in H as (? & ? & H1 & H). apply createObject_txn_inv in H1 as [Ha ->]; [|done].
  apply IH in H as [Hc ->]. split; [|done]. by rewrite creatable_cons.
Qed.

Lemma createObjects_ok objs db : creatable objs db ->
  createObjects noFaults objs db = Ret (tt, add_objects objs db).
Proof.
  unfold createObjects. revert db. induction objs as [|o objs IH]; intros db H; [done|].
  apply creatable_cons in H as [Ha H]. cbn [txn_each].
  rewrite txn_bind_eq, createObject_txn_ok by done. cbn [mbind go_bind]. by apply IH.
Qed.

(** ** What the operations do *)

Lemma Update_ok body db db' : body db = Ret (tt, db') -> Update noFaults body db = Ret db'.
Proof. intros H. unfold Update. by rewrite H. Qed.

Lemma setObjectsInactive_inv F ks db u db' : setObjectsInactive F ks db = Ret (u, db') ->
  NoDup ks /\ (forall k, k ∈ ks -> exists s, status db k = Some s /\ s <> INACTIVE) /\
  db' = set_status INACTIVE ks db.
Proof.
  intros H. apply moveStatus_loop_inv in H as [[Hall Hnd] ->].
  destruct Hnd as [Hf|Hnd]; [by vm_compute in Hf|]. split_and!; [done| |done].
  intros k Hk. destruct (Hall k Hk) as (s & Hs & Ha). exists s. split; [done|]. lia.
Qed.

Lemma setObjectsInactive_ok ks db :
  NoDup ks -> (forall k, k ∈ ks -> exists s, status db k = Some s /\ s <> INACTIVE) ->
  setObjectsInactive noFaults ks db = Ret (tt, set_status INACTIVE ks db).
Proof.
  intros Hnd Hall. apply moveStatus_loop_ok. split; [|by right]. intros k Hk.
  destruct (Hall k Hk) as (s & Hs & Ha). exists s. split; [done|]. lia.
Qed.

(** The three moves between statuses, on a database that works: locking
    succeeds exactly when the objects are pairwise distinct and all active,
    unlocking when all are active or locked, deactivating when they are
    distinct and none is inactive or unknown; then exactly the objects named
    have the new status and nothing else changes. *)
Theorem status_moves_spec ks db db' :
  (st_LockObjects noFaults ks db = Ret db' <->
     NoDup ks /\ (forall k, k ∈ ks -> status db k = Some ACTIVE) /\ db' = set_status LOCKED ks db) /\
  (st_UnlockObjects noFaults ks db = Ret db' <->
     (forall k, k ∈ ks -> status db k = Some LOCKED \/ status db k = Some ACTIVE) /\
     db' = set_status ACTIVE ks db) /\
  (st_DeactivateObjects noFaults ks db = Ret db' <->
     NoDup ks /\ (forall k, k ∈ ks -> exists s, status db k = Some s /\ s <> INACTIVE) /\
     db' = set_status INACTIVE ks db).
Proof.
  split_and!; split.
  - intros (u & [[Hall Hnd] ->]%moveStatus_loop_inv)%Update_inv.
    destruct Hnd as [Hf|Hnd]; [by vm_compute in Hf|]. split_and!; [done| |done].
    intros k Hk. destruct (Hall k Hk) as (s & -> & Ha). f_equal. lia.
  - intros (Hnd & Hall & ->). apply Update_ok, moveStatus_loop_ok. split; [|by right].
    intros k Hk. exists ACTIVE. by rewrite Hall.
  - intros (u & [[Hall _] ->]%moveStatus_loop_inv)%Update_inv. split; [|done].
    intros k Hk. destruct (Hall k Hk) as (s & -> & [Ha|Ha]%orb_prop); [left|right]; f_equal; lia.
  - intros (Hall & ->). apply Update_ok, moveStatus_loop_ok. split; [|by left].
    intros k Hk. destruct (Hall k Hk) as [-> | ->]; eauto.
  - intros (u & H%setObjectsInactive_inv)%Update_inv. done.
  - intros (Hnd & Hall & ->). by apply Update_ok, setObjectsInactive_ok.
Qed.

Definition committed (db : contents) (txnkey : bytes) : option Z :=
  db !! committedTxnKey txnkey ≫= head.

Lemma commitTransaction_inv F txnkey db u db' : commitTransaction F txnkey db = Ret (u, db') ->
  (exists b, committed db txnkey = Some b /\ b <> 1) /\
  (db' = db \/ db' = <[committedTxnKey txnkey := [1]]> db).
Proof.
  unfold commitTransaction. intros H.
  apply txn_bind_inv in H as (v & ? & [Hv ->]%txn_Value_inv & H).
  apply txn_bind_inv in H as (b & ? & [Hb%or_crash_inv ->]%lift_inv & H).
  apply txn_bind_inv in H as (? & ? & [Hg%guard_inv ->]%lift_inv & H).
  split. { exists b. unfold committed. rewrite Hv. split; [done|]. lia. }
  unfold txn_TrySet, txn_Set, fails in H. destruct (key_err (set_err F) _); simplify_eq; auto.
Qed.

(** Objects that are inputs are known, so they are no outputs; moving them does
    not make an object known. *)
Lemma absent_set_status new ks db k : (forall j, j ∈ ks -> is_Some (status db j)) ->
  absent (set_status new ks db) k <-> absent db k.
Proof.
  intros Hks. unfold absent. rewrite set_status_other by (intros x; keys).
  assert (status db k = None -> set_status new ks db !! objectStatusKey k = db !! objectStatusKey k) as Heq.
  { intros Hn. assert (k ∉ ks) as Hk by (intros Hk; destruct (Hks k Hk); congruence).
    clear Hks Hn. revert db. induction ks as [|j ks IH]; intros db; [done|].
    apply not_elem_of_cons in Hk as [Hj Hk].
    change (set_status new (j :: ks) db) with (set_status new ks (<[objectStatusKey j := [new]]> db)).
    by rewrite IH, lookup_insert_ne by (done || keys). }
  split; intros [H1 H2]; split; try done.
  - destruct (status db k) as [s|] eqn:E; [|by rewrite <-Heq].
    pose proof (status_set_status new ks db k) as Hs. unfold status at 1 in Hs. rewrite H2 in Hs.
    case_decide; simpl in Hs; congruence.
  - rewrite Heq; [done|]. unfold status. by rewrite H2.
Qed.

(** C31. Committing a transaction, on a database that works: it succeeds
    exactly when the inputs are distinct, known and not inactive, the outputs
    distinct and unknown, and the transaction is recorded and not yet
    committed; then the inputs are inactive, the outputs active with their
    values and the transaction is committed, all in one step. *)
Theorem commit_spec txnkey ins outs db db' :
  st_CommitTransaction noFaults txnkey ins outs db = Ret db' <->
  NoDup ins /\ (forall k, k ∈ ins -> exists s, status db k = Some s /\ s <> INACTIVE) /\
  NoDup (VersionID <$> outs) /\ (forall k, k ∈ VersionID <$> outs -> absent db k) /\
  (exists b, committed db txnkey = Some b /\ b <> 1) /\
  db' = <[committedTxnKey txnkey := [1]]> (add_objects outs (set_status INACTIVE ins db)).
Proof.
  assert (forall db0, committed (add_objects outs (set_status INACTIVE ins db0)) txnkey = committed db0 txnkey) as Hcm.
  { intros db0. unfold committed. rewrite lookup_add_objects by (intros; split; keys).
    by rewrite set_status_other by (intros; keys). }
  unfold st_CommitTransaction. split.
  - intros (u & H)%Update_inv.
    apply txn_bind_inv in H as (? & ? & (Hnd & Hall & ->)%setObjectsInactive_inv & H).
    apply txn_bind_inv in H as (? & ? & H1 & H). apply createObjects_inv in H1 as [[Hn2 Ha] ->]; [|done].
    split_and!; try done.
    + intros k Hk. rewrite <-(absent_set_status INACTIVE ins); [by apply Ha|].
      intros j Hj. destruct (Hall j Hj) as (s & -> & _). done.
    + apply commitTransaction_inv in H as [Hc _]. by rewrite Hcm in Hc.
    + unfold commitTransaction in H. do 3 apply txn_bind_inv in H as (? & ? & ?Hx & H).
      apply txn_Value_inv in Hx as [_ ->]. apply lift_inv in Hx0 as [_ ->]. apply lift_inv in Hx1 as [_ ->].
      unfold txn_TrySet, txn_Set in H. simpl in H. congruence.
  - intros (Hnd & Hall & Hn2 & Ha & (b & Hb & Hb1) & ->). apply Update_ok.
    rewrite txn_bind_eq, setObjectsInactive_ok by done. cbn [mbind go_bind].
    rewrite txn_bind_eq, createObjects_ok; [cbn [mbind go_bind]|].
    + unfold commitTransaction. rewrite <-(Hcm db) in Hb. apply bind_Some in Hb as (v & Hv & Hb).
      rewrite txn_bind_eq, (txn_Value_ok _ v) by done. cbn [mbind go_bind].
      rewrite txn_bind_eq, Hb. cbn [lift or_crash mbind go_bind]. rewrite txn_bind_eq.
      by rewrite (proj2 (Z.eqb_neq b 1) Hb1).
    + split; [done|]. intros k Hk. rewrite absent_set_status; [by apply Ha|].
      intros j Hj. destruct (Hall j Hj) as (s & -> & _). done.
Qed.

(** ** Histories *)

Inductive StoreOp :=
  | OpCommit (txnkey : bytes) (ins : list bytes) (outs : list Object)
  | OpLock (ks : list bytes)
  | OpUnlock (ks : list bytes)
  | OpAdd (txkey value : bytes)
  | OpDeactivate (ks : list bytes)
  | OpCreates (objs : list Object)
  | OpCreate (vid value : bytes)
  | OpDelete (ks : list bytes)
  | OpFinish (txnkey : bytes).

Definition run_op (F : Faults) (op : StoreOp) (db : contents) : go contents :=
  match op with
  | OpCommit t ins outs => st_CommitTransaction F t ins outs db
  | OpLock ks => st_LockObjects F ks db
  | OpUnlock ks => st_UnlockObjects F ks db
  | OpAdd k v => st_AddTransaction F k v db
  | OpDeactivate ks => st_DeactivateObjects F ks db
  | OpCreates objs => st_CreateObjects F objs db
  | OpCreate vid v => '(_, db) ← st_CreateObject F vid v db; Ret db
  | OpDelete ks => st_DeleteObjects F ks db
  | OpFinish k => st_FinishTransaction F k db
  end.

(** The objects an operation spends when it succeeds. *)
Definition spends (op : StoreOp) : list bytes :=
  match op with OpCommit _ ins _ => ins | OpDeactivate ks | OpDelete ks => ks | _ => [] end.

(** The contents after a history, and the objects it spent, in order. *)
Fixpoint run_ops (hist : list (Faults * StoreOp)) (db : contents) : contents * list bytes :=
  match hist with
  | [] => (db, [])
  | (F, op) :: hist =>
      match run_op F op db with
      | Ret db => let (db, spent) := run_ops hist db in (db, spends op ++ spent)
      | _ => run_ops hist db
      end
  end.

(** The objects an operation makes. *)
Definition creates (op : StoreOp) : list bytes :=
  match op with OpCommit _ _ outs => VersionID <$> outs | OpCreates objs => VersionID <$> objs | OpCreate vid _ => [vid] | _ => [] end.

Lemma status_add_objects_eq objs db k :
  status (add_objects objs db) k = if decide (k ∈ VersionID <$> objs) then Some ACTIVE else status db k.
Proof.
  revert db. induction objs as [|o objs IH]; intros db.
  { by rewrite decide_False by apply not_elem_of_nil. }
  change (add_objects (o :: objs) db) with
    (add_objects objs (<[objectStatusKey (VersionID o) := [ACTIVE]]> (<[objectKey (VersionID o) := Value o]> db))).
  rewrite IH, status_insert_status, status_insert_other by (intros; keys).
  csimpl. repeat case_decide; set_solver.
Qed.

(** The part of a history that concerns the object [k]: it is spent at most once,
    and only if it was not inactive, and then it is inactive; an inactive object
    stays so, and the value is never lost. *)
Definition keeps (k : bytes) (spent : list bytes) (db db' : contents) : Prop :=
  NoDup (filter (fun j => j = k) spent) /\
  (k ∈ spent -> status db k <> Some INACTIVE /\ status db' k = Some INACTIVE) /\
  (status db k = Some INACTIVE -> status db' k = Some INACTIVE) /\
  (forall v, db !! objectKey k = Some v -> db' !! objectKey k = Some v).

Lemma keeps_same k db db' :
  (status db k = Some INACTIVE -> status db' k = Some INACTIVE) ->
  (forall v, db !! objectKey k = Some v -> db' !! objectKey k = Some v) -> keeps k [] db db'.
Proof. intros. split_and!; [constructor|set_solver|done|done]. Qed.

Lemma keeps_insert k db j v : (forall x, j <> objectStatusKey x) -> (forall x, j <> objectKey x) ->
  keeps k [] db (<[j := v]> db).
Proof.
  intros H1 H2. apply keeps_same; [by rewrite status_insert_other|].
  intros. by rewrite lookup_insert_ne by apply H2.
Qed.

Lemma keeps_move k allowed new ks db : allowed INACTIVE = false -> movable allowed new ks db ->
  keeps k [] db (set_status new ks db).
Proof.
  intros Ha [Hall _]. apply keeps_same.
  - intros Hk. rewrite status_set_status. case_decide as Hin; [|done].
    destruct (Hall k Hin) as (s & Hs & ?). congruence.
  - intros v Hk. by rewrite set_status_other by (intros; keys).
Qed.

Lemma keeps_inactive k ks db : NoDup ks ->
  (forall k, k ∈ ks -> exists s, status db k = Some s /\ s <> INACTIVE) ->
  keeps k ks db (set_status INACTIVE ks db).
Proof.
  intros Hnd Hall. split_and!; [by apply NoDup_filter| | |].
  - intros Hk. rewrite status_set_status, decide_True by done. split; [|done].
    destruct (Hall k Hk) as (s & -> & ?). congruence.
  - intros Hk. rewrite status_set_status. by case_decide.
  - intros v Hk. by rewrite set_status_other by (intros; keys).
Qed.

(** Creating objects, when the keys of [k] could be read or [k] is none of them. *)
Lemma keeps_create k objs db : (k ∈ VersionID <$> objs -> absent db k) -> keeps k [] db (add_objects objs db).
Proof.
  intros Ha. destruct (decide (k ∈ VersionID <$> objs)) as [Hin|Hin].
  - destruct (Ha Hin) as [Hv Hs]. apply keeps_same; [|congruence]. unfold status. by rewrite Hs.
  - apply keeps_same; [by rewrite status_add_objects_eq, decide_False|]. intros v Hv. rewrite lookup_add_objects; [done|].
    intros o Ho. split; [|keys]. intros [= ->]. by apply Hin, list_elem_of_fmap_2.
Qed.

(** Two parts of a history, one after the other. *)
Lemma keeps_app k s1 s2 db1 db2 db3 : keeps k s1 db1 db2 -> keeps k s2 db2 db3 -> keeps k (s1 ++ s2) db1 db3.
Proof.
  intros (Hn1 & Hs1 & Hi1 & Hv1) (Hn2 & Hs2 & Hi2 & Hv2). split_and!; [|..].
  2: { intros [Hk|Hk]%elem_of_app; [destruct (Hs1 Hk)|destruct (Hs2 Hk)]; auto. }
  2: auto.
  2: auto.
  rewrite filter_app. apply NoDup_app. split_and!; [done| |done]. intros j [-> H1]%list_elem_of_filter [_ H2]%list_elem_of_filter.
  destruct (Hs1 H1), (Hs2 H2). done.
Qed.

(** The keys of the object can be read by the operation if it makes the object. *)
Definition creation_reads (k : bytes) (F : Faults) (op : StoreOp) : Prop :=
  k ∈ creates op -> get_err F (objectKey k) = None /\ get_err F (objectStatusKey k) = None.

Lemma run_op_keeps k F op db db' : creation_reads k F op -> run_op F op db = Ret db' -> keeps k (spends op) db db'.
Proof.
  intros HF. destruct op as [t ins outs|ks|ks|tk v|ks|objs|vid v|ks|t]; simpl.
  - intros (u & H)%Update_inv.
    apply txn_bind_inv in H as (? & ? & (Hnd & Hall & ->)%setObjectsInactive_inv & H).
    apply txn_bind_inv in H as (? & ? & H1 & H). apply createObjects_seen in H1 as [Hc ->].
    assert (keeps k [] (set_status INACTIVE ins db) (add_objects outs (set_status INACTIVE ins db))).
    { apply keeps_create. intros Hk. destruct (HF Hk), (Hc k Hk). split; auto. }
    rewrite <-(app_nil_r ins). eapply keeps_app; [by apply keeps_inactive|].
    apply commitTransaction_inv in H as [_ [-> | ->]]; [done|].
    rewrite <-(app_nil_l []). eapply keeps_app; [done|]. apply keeps_insert; intros; keys.
  - intros (u & [Hm ->]%moveStatus_loop_inv)%Update_inv. eapply keeps_move; [|exact Hm]; done.
  - intros (u & [Hm ->]%moveStatus_loop_inv)%Update_inv. eapply keeps_move; [|exact Hm]; done.
  - intros (u & H)%Update_inv. destruct (txn_Has_Ret F (seenTxnKey tk) db) as (b1 & E1 & _).
    rewrite txn_bind_eq, E1 in H. cbn [mbind go_bind] in H.
    apply txn_bind_inv in H as (? & ? & [_ ->]%lift_inv & H).
    apply txn_bind_inv in H as (? & ? & ->%txn_Set_inv & H).
    destruct (txn_Has_Ret F (committedTxnKey tk) (<[seenTxnKey tk := v]> db)) as (b2 & E2 & _).
    rewrite txn_bind_eq, E2 in H. cbn [mbind go_bind] in H.
    apply txn_bind_inv in H as (? & ? & [_ ->]%lift_inv & H). apply txn_Set_inv in H as ->.
    rewrite <-(app_nil_l []). eapply keeps_app; apply keeps_insert; intros; keys.
  - intros (u & (? & ? & ->)%setObjectsInactive_inv)%Update_inv. by apply keeps_inactive.
  - intros (u & H)%Update_inv. apply createObjects_seen in H as [Hc ->]. apply keeps_create.
    intros Hk. destruct (HF Hk), (Hc k Hk). split; auto.
  - unfold st_CreateObject. intros H. apply go_bind_Ret in H as ([o db1] & H & ?). simplify_eq.
    apply go_bind_Ret in H as (db2 & (u & H)%Update_inv & ?). simplify_eq.
    apply createObject_txn_seen in H as [[Hc1 Hc2] ->].
    apply (keeps_create k [MkObject vid v ACTIVE []]). intros Hk. destruct (HF Hk).
    apply list_elem_of_singleton in Hk as ->. split; auto.
  - intros (u & (? & ? & ->)%setObjectsInactive_inv)%Update_inv. by apply keeps_inactive.
  - intros (u & ->%txn_Set_inv)%Update_inv. apply keeps_insert; intros; keys.
Qed.

(** C5. No double spending at a node.  Whatever sequence of store operations runs,
    with whatever failures of reads, writes and commits: an object [k] is spent
    at most once, not at all if it was inactive, and is inactive afterwards, and
    its value is never changed or lost, provided that no operation which creates
    an object with the identifier [k] fails to read one of its two keys.  The
    condition is needed: the store takes a failed read for the absence of the
    object, see [failed_reads_resurrect]. *)
Theorem no_double_spend k hist db db' spent :
  (forall F op, (F, op) ∈ hist -> creation_reads k F op) -> run_ops hist db = (db', spent) ->
  NoDup (filter (fun j => j = k) spent) /\
  (k ∈ spent -> status db k <> Some INACTIVE /\ status db' k = Some INACTIVE) /\
  (status db k = Some INACTIVE -> status db' k = Some INACTIVE) /\
  (forall v, db !! objectKey k = Some v -> db' !! objectKey k = Some v).
Proof.
  change (?P -> run_ops hist db = (db', spent) -> _) with (P -> run_ops hist db = (db', spent) -> keeps k spent db db').
  revert db spent. induction hist as [|[F op] hist IH]; intros db spent HF Hr; simpl in Hr.
  { simplify_eq. by apply keeps_same. }
  assert (forall F op, (F, op) ∈ hist -> creation_reads k F op) as HF' by (intros ? ? ?; eapply HF; by right).
  destruct (run_op F op db) as [db1| |] eqn:E; [|by apply IH..].
  destruct (run_ops hist db1) as [db2 spent'] eqn:Er. simplify_eq.
  apply (keeps_app _ _ _ _ db1); [|by apply IH]. apply (run_op_keeps _ F); [eapply HF; by left|done].
Qed.

(** Reads of the object [7] fail, and nothing else. *)
Definition unread : Faults :=
  {| get_err := fun k => if decide (k = objectKey [7] \/ k = objectStatusKey [7]) then Some "EOF" else None;
     value_err := fun _ => None; set_err := fun _ => None; commit_err := None |}.

Lemma no_double_spend_witness :
  let a := [7] in
  let hist := [(noFaults, OpCreate a [1; 2]); (noFaults, OpAdd [9] [5]); (unread, OpLock [a]); (noFaults, OpLock [a]);
               (unread, OpCommit [9] [a] [MkObject [8] [3] 0 []]); (noFaults, OpCommit [9] [a] [MkObject [8] [3] 0 []]);
               (unread, OpCreates [MkObject [6] [3] 0 []]); (noFaults, OpDeactivate [a]);
               (noFaults, OpUnlock [a]); (noFaults, OpDelete [[8]])] in
  (run_ops hist ∅).2 = [a; [8]] /\ NoDup (filter (fun j => j = a) (run_ops hist ∅).2).
Proof.
  intros a hist. split; [by vm_compute|].
  destruct (run_ops hist ∅) as [db' spent] eqn:E.
  apply (no_double_spend a hist ∅ db' spent); [|done].
  intros F op H Hk. subst hist.
  repeat (apply elem_of_cons in H as [[= -> ->]|H];
    [first [split; reflexivity | exfalso; apply (bool_decide_eq_true_2 _) in Hk; vm_compute in Hk; discriminate Hk]|]).
  by apply not_elem_of_nil in H.
Defined.

(** An object whose keys cannot be read is created anew over the one that exists:
    it is active again whatever it was, with another value. *)
Lemma failed_reads_resurrect F o db :
  is_Some (get_err F (objectKey (VersionID o))) -> is_Some (get_err F (objectStatusKey (VersionID o))) ->
  (forall k, set_err F k = None) -> commit_err F = None ->
  exists db', st_CreateObjects F [o] db = Ret db' /\ status db' (VersionID o) = Some ACTIVE /\
    db' !! objectKey (VersionID o) = Some (Value o).
Proof.
  intros H1 H2 Hs Hc. exists (add_objects [o] db). split.
  - assert (forall k d, is_Some (get_err F k) -> txn_Has F k d = Ret (false, d)) as Hno.
    { intros k d [e He]. unfold txn_Has, txn_Get, fails, key_err. case_decide; [done|]. by rewrite He. }
    assert (forall k v d, k <> [] -> txn_Set F k v d = Ret (tt, <[k := v]> d)) as Hset.
    { intros k v d Hk. unfold txn_Set, key_err. rewrite decide_False by done. by rewrite Hs. }
    unfold st_CreateObjects, Update, createObjects, createObject_txn. cbn [txn_each].
    rewrite !txn_bind_eq, Hno by done. cbn [mbind go_bind]. rewrite txn_bind_eq. cbn [lift guard_fail negb mbind go_bind].
    rewrite txn_bind_eq, Hset by done. cbn [mbind go_bind]. rewrite txn_bind_eq, Hno by done. cbn [mbind go_bind].
    rewrite txn_bind_eq. cbn [lift guard_fail negb mbind go_bind]. rewrite Hset by done. cbn. by rewrite Hc.
  - split; [rewrite status_add_objects_eq, decide_True by left; done|].
    cbn. rewrite lookup_insert_ne by keys. apply lookup_insert_eq.
Qed.

(** So it can be spent twice. *)
Lemma failed_reads_spend_twice :
  (run_ops [(noFaults, OpCreate [7] [1]); (noFaults, OpDeactivate [[7]]); (unread, OpCreate [7] [2]);
            (noFaults, OpDeactivate [[7]])] ∅).2 = [[7]; [7]].
Proof. by vm_compute. Qed.

(** ** The contract of the interface *)

(** What the state machines rely on: the statuses that the operations require
    and leave behind. *)
Class StoreOk (T : Type) {ST : Store T} (status : T -> bytes -> option ObjectStatus) : Prop := {
  lock_ok ks t t' : LockObjects ks t = Ret t' ->
    (forall k, k ∈ ks -> status t k = Some ACTIVE) /\
    forall k, status t' k = if decide (k ∈ ks) then Some LOCKED else status t k;
  unlock_ok ks t t' : UnlockObjects ks t = Ret t' ->
    (forall k, k ∈ ks -> status t k <> Some INACTIVE) /\
    forall k, status t' k = if decide (k ∈ ks) then Some ACTIVE else status t k;
  deactivate_ok ks t t' : DeactivateObjects ks t = Ret t' ->
    (forall k, k ∈ ks -> status t k <> Some INACTIVE) /\
    forall k, status t' k = if decide (k ∈ ks) then Some INACTIVE else status t k;
  create_ok objs t t' : CreateObjects objs t = Ret t' ->
    (forall k, k ∈ VersionID <$> objs -> status t k = None) /\
    forall k, status t' k = if decide (k ∈ VersionID <$> objs) then Some ACTIVE else status t k;
  finish_ok id t t' : FinishTransaction id t = Ret t' -> forall k, status t' k = status t k
}.

(** The database keeps the contract whatever writes fail. *)
Lemma BadgerStore_ok F : reads_ok F -> StoreOk contents (ST := BadgerStore F) status.
Proof.
  intros HF. split; simpl.
  - intros ks t t' (u & [[Hall _] ->]%moveStatus_loop_inv)%Update_inv. split; [|apply status_set_status].
    intros k Hk. destruct (Hall k Hk) as (st & -> & Ha). f_equal. lia.
  - intros ks t t' (u & [[Hall _] ->]%moveStatus_loop_inv)%Update_inv. split; [|apply status_set_status].
    intros k Hk. destruct (Hall k Hk) as (st & -> & Ha). intros [= ->]. done.
  - intros ks t t' (u & (_ & Hall & ->)%setObjectsInactive_inv)%Update_inv. split; [|apply status_set_status].
    intros k Hk. destruct (Hall k Hk) as (st & -> & Ha). congruence.
  - intros objs t t' (u & H)%Update_inv. apply createObjects_inv in H as [[_ Ha] ->]; [|done].
    split; [|apply status_add_objects_eq]. intros k Hk. destruct (Ha k Hk) as [_ H].
    unfold status. by rewrite H.
  - intros id t t' (u & ->%txn_Set_inv)%Update_inv k. by rewrite status_insert_other by (intros; keys).
Qed.
