(* ===== verification/SbacTypes.v ===== *)
(** * SbacTypes: transactions, messages, events and identifiers

    The data of [src/sbac]: the messages of [types.pb.go], the events of
    [events.go], the identifiers of [identifiers.go] and the arithmetic of
    [common.go].  Pointers to a transaction in a message may be nil. *)
From S2P Require Import Prelude Codec Database SbacStore.

(** ** Messages *)

Record OutputObject := MkOutputObject { oo_Labels : list bytes; oo_Object : bytes }.

Inductive Trace := MkTrace
  (ContractID Procedure : bytes)
  (InputObjectVersionIDs InputReferenceVersionIDs : list bytes)
  (OutputObjects : list OutputObject)
  (Parameters Returns : list bytes)
  (Dependencies : list Trace)
  (InputObjects InputReferences : list bytes).

Definition ContractID (t : Trace) := let 'MkTrace x _ _ _ _ _ _ _ _ _ := t in x.
Definition Procedure (t : Trace) := let 'MkTrace _ x _ _ _ _ _ _ _ _ := t in x.
Definition InputObjectVersionIDs (t : Trace) := let 'MkTrace _ _ x _ _ _ _ _ _ _ := t in x.
Definition InputReferenceVersionIDs (t : Trace) := let 'MkTrace _ _ _ x _ _ _ _ _ _ := t in x.
Definition OutputObjects (t : Trace) := let 'MkTrace _ _ _ _ x _ _ _ _ _ := t in x.
Definition Parameters (t : Trace) := let 'MkTrace _ _ _ _ _ x _ _ _ _ := t in x.
Definition Returns (t : Trace) := let 'MkTrace _ _ _ _ _ _ x _ _ _ := t in x.
Definition Dependencies (t : Trace) := let 'MkTrace _ _ _ _ _ _ _ x _ _ := t in x.
Definition InputObjects (t : Trace) := let 'MkTrace _ _ _ _ _ _ _ _ x _ := t in x.
Definition InputReferences (t : Trace) := let 'MkTrace _ _ _ _ _ _ _ _ _ x := t in x.

Record Transaction := MkTransaction { Traces : list Trace }.

(** The values of the protocol buffer enumerations are open. *)
Abbreviation SBACOp := Z (only parsing).
Definition SBACOp_Phase1 : SBACOp := 0.
Definition SBACOp_Phase2 : SBACOp := 1.
Definition SBACOp_Commit : SBACOp := 2.
Abbreviation SBACDecision := Z (only parsing).
Definition SBACDecision_ACCEPT : SBACDecision := 0.
Definition SBACDecision_REJECT : SBACDecision := 1.
Abbreviation ConsensusOp := Z (only parsing).
Definition ConsensusOp_Consensus1 : ConsensusOp := 0.
Definition ConsensusOp_Consensus2 : ConsensusOp := 1.
Definition ConsensusOp_ConsensusCommit : ConsensusOp := 2.

Record SBACMessage := MkSBACMessage {
  sm_Op : SBACOp;
  sm_Decision : SBACDecision;
  sm_TxID : bytes;
  sm_Tx : option Transaction;
  sm_Evidences : gmap uint64 bytes;
  sm_Signature : bytes;
  sm_PeerID : uint64
}.

Record ConsensusTransaction := MkConsensusTransaction {
  ct_TxID : bytes;
  ct_Tx : option Transaction;
  ct_Evidences : gmap uint64 bytes;
  ct_Op : ConsensusOp;
  ct_Initiator : uint64
}.

(** ** Events *)

Inductive Event :=
  | SBACEvent (msg : SBACMessage)
  | ConsensusEvent (data : ConsensusTransaction).

Definition ev_TxID (e : Event) : bytes :=
  match e with SBACEvent m => sm_TxID m | ConsensusEvent d => ct_TxID d end.
Definition ev_PeerID (e : Event) : uint64 :=
  match e with SBACEvent m => sm_PeerID m | ConsensusEvent d => ct_Initiator d end.

(** ** Identifiers *)

(** [ID]: the 32-bit FNV-1 hash. *)
Definition ID (data : bytes) : uint32 :=
  foldl (fun h b => Z.lxor (u32 (h * 16777619)) b) 2166136261 data.

Record TraceIdentifierPair := MkTraceIdentifierPair { tp_ID : bytes; tp_Trace : Trace }.
Record TraceObjectPair := MkTraceObjectPair {
  to_OutputObjects : list Object; to_Trace : TraceIdentifierPair }.
Record IDs := MkIDs { ids_TxID : bytes; TraceObjectPairs : list TraceObjectPair }.

Section identifiers.
(** [sha512.New512_256], whose writes never fail. *)
Context (sha512_256 : bytes -> bytes).

Fixpoint MakeTraceID (trace : Trace) : bytes :=
  let 'MkTrace cid proc ins refs _ _ _ deps _ _ := trace in
  sha512_256 (cid ++ proc ++ concat ins ++ concat refs ++ concat (map MakeTraceID deps)).

Definition MakeTraceIDs (traces : list Trace) : list TraceIdentifierPair :=
  (fun t => MkTraceIdentifierPair (MakeTraceID t) t) <$> traces.

(** [binary.LittleEndian.PutUint32(index, uint32(i))]. *)
Definition MakeObjectIDs (pair : TraceIdentifierPair) : list Object :=
  imap (fun i o => MkObject (sha512_256 (tp_ID pair ++ oo_Object o ++ PutUint32 (u32 (Z.of_nat i))))
                     (oo_Object o) ACTIVE (oo_Labels o))
    (OutputObjects (tp_Trace pair)).

Definition MakeTraceObjectPairs (traces : list TraceIdentifierPair) : list TraceObjectPair :=
  (fun p => MkTraceObjectPair (MakeObjectIDs p) p) <$> traces.

Definition MakeTransactionID (top : list TraceObjectPair) : bytes :=
  sha512_256 (top ≫= fun v => tp_ID (to_Trace v) ++ (to_OutputObjects v ≫= VersionID)).

Definition MakeIDs (tx : Transaction) : IDs :=
  let pairs := MakeTraceObjectPairs (MakeTraceIDs (Traces tx)) in
  MkIDs (MakeTransactionID pairs) pairs.

(** The objects a transaction creates, in all shards. *)
Definition outputs (tx : Transaction) : list Object :=
  MakeTraceObjectPairs (MakeTraceIDs (Traces tx)) ≫= to_OutputObjects.
End identifiers.

(** ** Quorums *)

Definition quorum2t1 (shardSize : uint64) : uint64 := u64 (u64 (2 * (shardSize `div` 3)) + 1).
Definition quorumt1 (shardSize : uint64) : uint64 := u64 (shardSize `div` 3 + 1).

(** The parts of a trace are hashed one after the other without their lengths:
    traces of different contracts share an identifier, whatever the hash. *)
Lemma trace_ids_collide sha :
  exists t t', ContractID t <> ContractID t' /\ MakeTraceID sha t = MakeTraceID sha t'.
Proof.
  exists (MkTrace [1] [2] [] [] [] [] [] [] [] []), (MkTrace [1; 2] [] [] [] [] [] [] [] [] []). done.
Qed.
