(* ===== verification/Sbac.v ===== *)
(** * Sbac: the state machine of a transaction

    Model of [src/sbac/states.go], [state_machine.go], [consensus_sm.go],
    [sbac_sm.go] and the helpers of [common.go].  The machine of a transaction
    runs over the store of the node; what it sends to other nodes, broadcasts,
    publishes and labels are traces of calls.  Serialisers, hashes and
    signatures are parameters; the store and the topology are interfaces. *)
From S2P Require Import Prelude Codec Database Topology SbacStore SbacTypes.

(** ** Computations of the service

    A call returns a value or an error, its effects being kept in both cases;
    it panics; or it does not return. *)
Inductive out (S A : Type) : Type :=
  | Done (x : A) (s : S)
  | Errored (e : string) (s : S)
  | Panicked
  | Diverged.
Arguments Done {S A} _ _.
Arguments Errored {S A} _ _.
Arguments Panicked {S A}.
Arguments Diverged {S A}.

Definition M (S A : Type) : Type := S -> out S A.
#[export] Instance M_ret {S} : MRet (M S) := fun A x s => Done x s.
#[export] Instance M_bind {S} : MBind (M S) := fun A B f m s =>
  match m s with
  | Done x s => f x s | Errored e s => Errored e s | Panicked => Panicked | Diverged => Diverged
  end.

Definition get {S} : M S S := fun s => Done s s.
Definition modify {S} (f : S -> S) : M S () := fun s => Done tt (f s).
Definition err {S A} (e : string) : M S A := fun s => Errored e s.
(** A call whose error is handled. *)
Definition try {S A} (m : M S A) : M S (string + A) := fun s =>
  match m s with
  | Done x s => Done (inr x) s | Errored e s => Done (inl e) s
  | Panicked => Panicked | Diverged => Diverged
  end.
Definition run {S A} (m : go A) : M S A := fun s =>
  match m with Ret x => Done x s | Fail e => Errored e s | Crash => Panicked end.

Fixpoint each {S A} (f : A -> M S ()) (xs : list A) : M S () :=
  match xs with [] => mret tt | x :: xs => f x ≫= fun _ => each f xs end.

(** ** States *)

Inductive State :=
  | StateWaitingForConsensus1 | StateObjectLocked
  | StateAcceptPhase1Broadcasted | StateRejectPhase1Broadcasted | StateWaitingForPhase1
  | StateConsensus2Triggered | StateWaitingForConsensus2
  | StateAcceptPhase2Broadcasted | StateRejectPhase2Broadcasted | StateWaitingForPhase2
  | StateObjectsDeactivated | StateObjectsCreated
  | StateCommitObjectsBroadcasted | StateWaitingForCommit
  | StateConsensusCommitTriggered | StateWaitingForConsensusCommit
  | StateAborted | StateSucceeded.
#[export] Instance State_eq_dec : EqDecision State.
Proof. solve_decision. Defined.

Inductive StateConsensus := StateConsensusWaiting | StateConsensusAccepted | StateConsensusRejected.
#[export] Instance StateConsensus_eq_dec : EqDecision StateConsensus.
Proof. solve_decision. Defined.
Inductive StateSBAC := StateSBACWaiting | StateSBACAccepted | StateSBACRejected.
#[export] Instance StateSBAC_eq_dec : EqDecision StateSBAC.
Proof. solve_decision. Defined.

Record DetailTx := MkDetailTx {
  dt_ID : bytes; RawTx : bytes; dt_Tx : option Transaction; dt_Evidences : gmap uint64 bytes;
  HashID : uint32 }.

Record SignedDecision := MkSignedDecision { sd_Decision : SBACDecision; sd_Signature : bytes }.

Record ConsensusStateMachine := MkConsensusStateMachine {
  cm_data : option ConsensusTransaction; cm_phase : ConsensusOp; cm_state : StateConsensus }.

Record SBACStateMachine := MkSBACStateMachine {
  bm_msgs : gmap uint64 SBACMessage; bm_decisions : gmap uint64 SignedDecision;
  bm_phase : SBACOp; bm_state : StateSBAC }.

Definition NewConsensuStateMachine (phase : ConsensusOp) : ConsensusStateMachine :=
  MkConsensusStateMachine None phase StateConsensusWaiting.
Definition NewSBACStateMachine (phase : SBACOp) : SBACStateMachine :=
  MkSBACStateMachine ∅ ∅ phase StateSBACWaiting.

Record States := MkStates {
  consensus : gmap ConsensusOp ConsensusStateMachine;
  sbac : gmap SBACOp SBACStateMachine;
  detail : DetailTx
}.

Record StateMachine := MkStateMachine { events : list Event; states : States; state : State }.

Definition NewStateMachine (d : DetailTx) (initialState : State) : StateMachine :=
  MkStateMachine []
    (MkStates
       (<[ConsensusOp_ConsensusCommit := NewConsensuStateMachine ConsensusOp_ConsensusCommit]>
       (<[ConsensusOp_Consensus2 := NewConsensuStateMachine ConsensusOp_Consensus2]>
       {[ConsensusOp_Consensus1 := NewConsensuStateMachine ConsensusOp_Consensus1]}))
       (<[SBACOp_Commit := NewSBACStateMachine SBACOp_Commit]>
       (<[SBACOp_Phase2 := NewSBACStateMachine SBACOp_Phase2]>
       {[SBACOp_Phase1 := NewSBACStateMachine SBACOp_Phase1]}))
       d) initialState.

Record Message := MkMessage { m_ID : uint64; m_Opcode : Z; m_Payload : bytes }.
Definition Opcode_SBAC : Z := 5.

(** What the service keeps and has done: [machines] is the heap of state
    machines, [txstates] has the address of the one of each transaction. *)
Record World (T : Type) := MkWorld {
  store : T;
  sent : list (uint64 * Message);
  broadcasts : list bytes;
  labels : list (bytes * bytes);
  published : list (bytes * list bytes * bool);
  pe : list Event;
  machines : list StateMachine;
  txstates : gmap bytes nat
}.
Arguments MkWorld {T} _ _ _ _ _ _ _ _.
Arguments store {T} _.
Arguments sent {T} _.
Arguments broadcasts {T} _.
Arguments labels {T} _.
Arguments published {T} _.
Arguments pe {T} _.
Arguments machines {T} _.
Arguments txstates {T} _.

Definition set_store {T} (x : T) (w : World T) := MkWorld x (sent w) (broadcasts w) (labels w) (published w) (pe w) (machines w) (txstates w).
Definition add_sent {T} x (w : World T) := MkWorld (store w) (sent w ++ x) (broadcasts w) (labels w) (published w) (pe w) (machines w) (txstates w).
Definition add_broadcast {T} x (w : World T) := MkWorld (store w) (sent w) (broadcasts w ++ [x]) (labels w) (published w) (pe w) (machines w) (txstates w).
Definition add_label {T} x (w : World T) := MkWorld (store w) (sent w) (broadcasts w) (labels w ++ [x]) (published w) (pe w) (machines w) (txstates w).
Definition add_published {T} x (w : World T) := MkWorld (store w) (sent w) (broadcasts w) (labels w) (published w ++ [x]) (pe w) (machines w) (txstates w).
Definition set_pe {T} x (w : World T) := MkWorld (store w) (sent w) (broadcasts w) (labels w) (published w) x (machines w) (txstates w).
Definition set_machines {T} x y (w : World T) := MkWorld (store w) (sent w) (broadcasts w) (labels w) (published w) (pe w) x y.

(** The fields of the service that never change. *)
Record Config (Topo : Type) := MkConfig {
  c_nodeID : uint64; c_shardID : uint64; c_shardSize : uint64; c_top : Topo }.
Arguments MkConfig {Topo} _ _ _ _.
Arguments c_nodeID {Topo} _.
Arguments c_shardID {Topo} _.
Arguments c_shardSize {Topo} _.
Arguments c_top {Topo} _.

Section machine.
Context {T : Type} {ST : Store T} {Topo : Type} {NT : NetTopology Topo}.
Context {PT : Proto Transaction} {PM : Proto SBACMessage} {PC : Proto ConsensusTransaction}.
Context (sha512_256 : bytes -> bytes).
(** [Verify key data signature]; [Sign] with the key of the node. *)
Context (Verify : bytes -> bytes -> bytes -> bool) (Sign : bytes -> bytes).
Context (s : Config Topo).

Abbreviation M := (M (World T)).

(** A nil pointer dereference panics. *)
Definition deref {A} (o : option A) : M A := run (or_crash o).

(** A function that returns no error either returns or panics. *)
Definition call {A} (m : go A) : M A := deref (match m with Ret x => Some x | _ => None end).

(** An operation on the store; when it fails the store is as before. *)
Definition on_store (f : T -> go T) : M () :=
  w ← get; t ← run (f (store w)); modify (set_store t).

Definition marshal_tx (tx : option Transaction) : go bytes :=
  match tx with Some tx => Marshal tx | None => Fail "proto: Marshal called with nil" end.
(** [b, _ := proto.Marshal(tx)]. *)
Definition marshal_tx' (tx : option Transaction) : bytes :=
  match marshal_tx tx with Ret b => b | _ => [] end.

(** ** Helpers: [common.go] *)

Definition inShard (k : bytes) : M bool :=
  sh ← call (ShardForVersionID k (c_top s)); mret (sh =? c_shardID s).

Fixpoint partition_shard (ks : list bytes) : M (list bytes * bool) :=
  match ks with
  | [] => mret ([], true)
  | k :: ks =>
      b ← inShard k;
      '(objects, all) ← partition_shard ks;
      mret (if b : bool then k :: objects else objects, b && all)
  end.

Fixpoint inputObjects_loop (traces : list Trace) : M (list bytes * bool) :=
  match traces with
  | [] => mret ([], true)
  | t :: traces =>
      '(objects, all) ← partition_shard (InputObjectVersionIDs t);
      '(_, all') ← partition_shard (InputReferenceVersionIDs t);
      '(objects', all'') ← inputObjects_loop traces;
      mret (objects ++ objects', all && all' && all'')
  end.

Definition inputObjectsForShard (tx : option Transaction) : M (list bytes * bool) :=
  tx ← deref tx; inputObjects_loop (Traces tx).

(** A remainder by zero and an index out of range panic. *)
Definition isNodeInitiatingBroadcast (txID : uint32) : M bool :=
  ns ← call (NodesInShard (c_shardID s) (c_top s));
  if decide (length ns = 0%nat) then deref None else
  n ← deref (ns !! Z.to_nat (txID `mod` u32 (Z.of_nat (length ns))));
  mret (n =? c_nodeID s).

Definition objectsExists (vids refvids : list bytes) : M (option (list Object)) :=
  '(ownvids, _) ← partition_shard (vids ++ refvids);
  w ← get;
  r ← try (run (GetObjects ownvids (store w)));
  mret (match r with inr objects => Some objects | inl _ => None end).

Definition publishObjects (ids : IDs) (success : bool) : M () :=
  each (fun topair => each (fun outo =>
      b ← inShard (VersionID outo);
      if b : bool then modify (add_published (VersionID outo, Labels outo, success)) else mret tt)
    (to_OutputObjects topair)) (TraceObjectPairs ids).

Definition saveLabels (ids : IDs) : M () :=
  each (fun topair => each (fun outo =>
      b ← inShard (VersionID outo);
      if b : bool then each (fun label => modify (add_label (label, VersionID outo))) (Labels outo)
      else mret tt)
    (to_OutputObjects topair)) (TraceObjectPairs ids).

(** Every node of every shard is sent the message by a goroutine of its own;
    failures to connect are only logged. *)
Definition sendToShards (shards : list uint64) (msg : Message) : M () :=
  each (fun shard => ns ← call (NodesInShard shard (c_top s));
                     modify (add_sent ((fun n => (n, msg)) <$> ns))) shards.

Fixpoint shardsOf (ks : list bytes) : M (list uint64) :=
  match ks with
  | [] => mret []
  | k :: ks => sh ← call (ShardForVersionID k (c_top s)); shs ← shardsOf ks; mret (sh :: shs)
  end.

(** The keys of a map, whose order is not specified. *)
Definition toUniqIds (ls : list uint64) : gset uint64 := list_to_set ls.
Definition fromUniqIds (m : gset uint64) : list uint64 := elements m.

Definition shardsInvolved (tx : option Transaction) : M (list uint64) :=
  tx ← deref tx;
  ids ← shardsOf (Traces tx ≫= fun t => InputObjectVersionIDs t ++ InputReferenceVersionIDs t);
  mret (fromUniqIds (toUniqIds ids)).

Fixpoint remove_first (x : uint64) (l : list uint64) : list uint64 :=
  match l with [] => [] | y :: l => if y =? x then l else y :: remove_first x l end.

Definition shardsInvolvedWithoutSelf (tx : option Transaction) : M (list uint64) :=
  shards ← shardsInvolved tx; mret (remove_first (c_shardID s) shards).

Definition sendToAllShardInvolved (st : States) (msg : Message) : M () :=
  shards ← shardsInvolvedWithoutSelf (dt_Tx (detail st)); sendToShards shards msg.

Definition signTransaction (tx : option Transaction) : M bytes :=
  b ← run (marshal_tx tx); mret (Sign b).

(** [key.Verify] on the key of an unknown node panics. *)
Definition verifyEvidenceSignature (txID : bytes) (evidences : gmap uint64 bytes) : M bool :=
  match evidences !! c_nodeID s with
  | None => mret false
  | Some sig => key ← deref (PublicKeys (c_top s) !! c_nodeID s); mret (Verify key txID sig)
  end.

Definition verifyTransactionSignature (tx : option Transaction) (signature : bytes) (nodeID : uint64)
    : M bool :=
  b ← run (marshal_tx tx);
  key ← deref (PublicKeys (c_top s) !! nodeID);
  mret (Verify key b signature).

(** ** Actions: [states.go] *)

Definition sbacState (st : States) (op : SBACOp) : M StateSBAC :=
  c ← deref (sbac st !! op); mret (bm_state c).
Definition consensusState (st : States) (op : ConsensusOp) : M StateConsensus :=
  c ← deref (consensus st !! op); mret (cm_state c).

Definition onWaitingForPhase1 (st : States) : M State :=
  b ← sbacState st SBACOp_Phase1;
  mret (match b with
        | StateSBACRejected => StateAborted
        | StateSBACWaiting => StateWaitingForPhase1
        | StateSBACAccepted => StateConsensus2Triggered
        end).

Definition onWaitingForPhase2 (st : States) : M State :=
  b ← sbacState st SBACOp_Phase2;
  mret (match b with
        | StateSBACRejected => StateAborted
        | StateSBACWaiting => StateWaitingForPhase2
        | StateSBACAccepted => StateObjectsDeactivated
        end).

Definition onWaitingForCommit (st : States) : M State :=
  b ← sbacState st SBACOp_Commit;
  mret (match b with
        | StateSBACRejected => StateAborted
        | StateSBACWaiting => StateWaitingForCommit
        | StateSBACAccepted => StateConsensusCommitTriggered
        end).

(** The loop over the traces: all inputs and references of this shard exist,
    none is inactive. *)
Fixpoint inputsUsable (traces : list Trace) : M bool :=
  match traces with
  | [] => mret true
  | trace :: traces =>
      o ← objectsExists (InputObjectVersionIDs trace) (InputReferenceVersionIDs trace);
      match o with
      | None => mret false
      | Some objects =>
          if existsb (fun v => Status v =? INACTIVE) objects then mret false else inputsUsable traces
      end
  end.

Definition onWaitingForConsensus1 (st : States) : M State :=
  c ← consensusState st ConsensusOp_Consensus1;
  match c with
  | StateConsensusWaiting => mret StateWaitingForConsensus1
  | StateConsensusRejected => mret StateRejectPhase1Broadcasted
  | StateConsensusAccepted =>
      tx ← deref (dt_Tx (detail st));
      b ← inputsUsable (Traces tx);
      mret (if b : bool then StateObjectLocked else StateRejectPhase1Broadcasted)
  end.

Definition onWaitingForConsensus2 (st : States) : M State :=
  c ← consensusState st ConsensusOp_Consensus2;
  mret (match c with
        | StateConsensusWaiting => StateWaitingForConsensus2
        | StateConsensusRejected => StateRejectPhase2Broadcasted
        | StateConsensusAccepted => StateAcceptPhase2Broadcasted
        end).

Definition onWaitingForConsensusCommit (st : States) : M State :=
  c ← consensusState st ConsensusOp_ConsensusCommit;
  mret (match c with
        | StateConsensusWaiting => StateWaitingForConsensusCommit
        | StateConsensusRejected => StateAborted
        | StateConsensusAccepted => StateObjectsCreated
        end).

(** ** Transitions: [states.go] *)

Definition toObjectLocked (st : States) : M State :=
  '(objects, allInShard) ← inputObjectsForShard (dt_Tx (detail st));
  r ← try (on_store (LockObjects objects));
  mret (match r with
        | inl _ => StateAborted
        | inr _ => if allInShard : bool then StateObjectsDeactivated else StateAcceptPhase1Broadcasted
        end).

Definition signSBACMessage (sbacphase : SBACOp) (decision : SBACDecision) (st : States) : M Message :=
  let d := detail st in
  signature ← signTransaction (dt_Tx d);
  payload ← run (Marshal (MkSBACMessage sbacphase decision (dt_ID d) (dt_Tx d) (dt_Evidences d)
                            signature (c_nodeID s)));
  mret (MkMessage 0 Opcode_SBAC payload).

(** The common shape of the four broadcasts of a decision. *)
Definition broadcastDecision (op : SBACOp) (decision : SBACDecision) (next : State) (st : States)
    : M State :=
  r ← try (signSBACMessage op decision st);
  match r with
  | inl _ => mret StateAborted
  | inr msg => _ ← sendToAllShardInvolved st msg; mret next
  end.

Definition toRejectPhase1Broadcasted := broadcastDecision SBACOp_Phase1 SBACDecision_REJECT StateAborted.
Definition toAcceptPhase1Broadcasted :=
  broadcastDecision SBACOp_Phase1 SBACDecision_ACCEPT StateWaitingForPhase1.
Definition toRejectPhase2Broadcasted := broadcastDecision SBACOp_Phase2 SBACDecision_REJECT StateAborted.
Definition toAcceptPhase2Broadcasted :=
  broadcastDecision SBACOp_Phase2 SBACDecision_ACCEPT StateWaitingForPhase2.

Definition toCommitObjectsBroadcasted (st : States) : M State :=
  r ← try (signSBACMessage SBACOp_Commit SBACDecision_ACCEPT st);
  match r with
  | inl _ => mret StateAborted
  | inr msg =>
      shards ← shardsInvolved (dt_Tx (detail st));
      tx ← deref (dt_Tx (detail st));
      let ids := MakeIDs sha512_256 tx in
      outShards ← shardsOf (VersionID <$> (TraceObjectPairs ids ≫= to_OutputObjects));
      let involved := fromUniqIds (toUniqIds outShards ∖ toUniqIds shards) in
      _ ← (if decide (0 < length involved)%nat then sendToShards involved msg else mret tt);
      mret StateSucceeded
  end.

Definition toWaitingForPhase1 (st : States) : M State := mret StateWaitingForPhase1.
Definition toWaitingForPhase2 (st : States) : M State := mret StateWaitingForPhase2.

Definition toObjectDeactivated (st : States) : M State :=
  '(objects, _) ← inputObjectsForShard (dt_Tx (detail st));
  r ← try (on_store (DeactivateObjects objects));
  mret (match r with inl _ => StateAborted | inr _ => StateObjectsCreated end).

(** The outputs of this shard, and whether there are no others. *)
Fixpoint ownOutputs (objs : list Object) : M (list Object * bool) :=
  match objs with
  | [] => mret ([], true)
  | o :: objs =>
      b ← inShard (VersionID o);
      '(own, all) ← ownOutputs objs;
      mret (if b : bool then o :: own else own, b && all)
  end.

Definition toObjectsCreated (st : States) : M State :=
  tx ← deref (dt_Tx (detail st));
  '(objects, all) ← ownOutputs (outputs sha512_256 tx);
  _ ← on_store (CreateObjects objects);
  mret (if all : bool then StateSucceeded else StateCommitObjectsBroadcasted).

Definition toSucceeded (st : States) : M State :=
  _ ← try (on_store (FinishTransaction (dt_ID (detail st))));
  tx ← deref (dt_Tx (detail st));
  let ids := MakeIDs sha512_256 tx in
  _ ← saveLabels ids;
  _ ← publishObjects ids true;
  mret StateSucceeded.

Definition toAborted (st : States) : M State :=
  '(objects, _) ← inputObjectsForShard (dt_Tx (detail st));
  _ ← try (on_store (UnlockObjects objects));
  _ ← try (on_store (FinishTransaction (dt_ID (detail st))));
  tx ← deref (dt_Tx (detail st));
  _ ← publishObjects (MakeIDs sha512_256 tx) false;
  mret StateAborted.

(** The common shape of the two starts of a consensus. *)
Definition triggerConsensus (op : ConsensusOp) (next : State) (st : States) : M State :=
  let d := detail st in
  b ← isNodeInitiatingBroadcast (HashID d);
  _ ← (if b : bool then
         b ← run (Marshal (MkConsensusTransaction (dt_ID d) (dt_Tx d) (dt_Evidences d) op (c_nodeID s)));
         modify (add_broadcast b)
       else mret tt);
  mret next.

Definition toConsensus2Triggered := triggerConsensus ConsensusOp_Consensus2 StateWaitingForConsensus2.
Definition toConsensusCommitTriggered :=
  triggerConsensus ConsensusOp_ConsensusCommit StateWaitingForConsensusCommit.
Definition toWaitingForConsensusCommit (st : States) : M State := mret StateWaitingForConsensusCommit.
Definition toWaitingForConsensus2 (st : States) : M State := mret StateWaitingForConsensus2.

(** ** The state table *)

Definition actions (cur : State) : option (States -> M State) :=
  match cur with
  | StateWaitingForConsensus1 => Some onWaitingForConsensus1
  | StateWaitingForConsensus2 => Some onWaitingForConsensus2
  | StateWaitingForPhase1 => Some onWaitingForPhase1
  | StateWaitingForPhase2 => Some onWaitingForPhase2
  | StateWaitingForCommit => Some onWaitingForCommit
  | StateWaitingForConsensusCommit => Some onWaitingForConsensusCommit
  | _ => None
  end.

Definition transitions (from to : State) : option (States -> M State) :=
  match from, to with
  | StateWaitingForConsensus1, StateRejectPhase1Broadcasted => Some toRejectPhase1Broadcasted
  | StateRejectPhase1Broadcasted, StateAborted => Some toAborted
  | StateObjectLocked, StateAborted => Some toAborted
  | StateObjectLocked, StateObjectsDeactivated => Some toObjectDeactivated
  | StateObjectsDeactivated, StateObjectsCreated => Some toObjectsCreated
  | StateObjectsCreated, StateSucceeded => Some toSucceeded
  | StateWaitingForConsensus1, StateObjectLocked => Some toObjectLocked
  | StateObjectLocked, StateAcceptPhase1Broadcasted => Some toAcceptPhase1Broadcasted
  | StateAcceptPhase1Broadcasted, StateWaitingForPhase1 => Some toWaitingForPhase1
  | StateWaitingForPhase1, StateAborted => Some toAborted
  | StateWaitingForPhase1, StateConsensus2Triggered => Some toConsensus2Triggered
  | StateConsensus2Triggered, StateWaitingForConsensus2 => Some toWaitingForConsensus2
  | StateWaitingForConsensus2, StateAcceptPhase2Broadcasted => Some toAcceptPhase2Broadcasted
  | StateWaitingForConsensus2, StateRejectPhase2Broadcasted => Some toRejectPhase2Broadcasted
  | StateRejectPhase2Broadcasted, StateAborted => Some toAborted
  | StateAcceptPhase2Broadcasted, StateWaitingForPhase2 => Some toWaitingForPhase2
  | StateWaitingForPhase2, StateAborted => Some toAborted
  | StateWaitingForPhase2, StateObjectsDeactivated => Some toObjectDeactivated
  | StateObjectsCreated, StateCommitObjectsBroadcasted => Some toCommitObjectsBroadcasted
  | StateCommitObjectsBroadcasted, StateAborted => Some toAborted
  | StateCommitObjectsBroadcasted, StateSucceeded => Some toSucceeded
  | StateWaitingForCommit, StateConsensusCommitTriggered => Some toConsensusCommitTriggered
  | StateWaitingForCommit, StateAborted => Some toAborted
  | StateConsensusCommitTriggered, StateWaitingForConsensusCommit => Some toWaitingForConsensusCommit
  | StateWaitingForConsensusCommit, StateObjectsCreated => Some toObjectsCreated
  | StateWaitingForConsensusCommit, StateAborted => Some toAborted
  | _, _ => None
  end.

(** ** Running the machine: [state_machine.go]

    The state of the machine is returned with the error, if any: the loops
    read and write no other part of it. *)

Fixpoint applyTransition (fuel : nat) (st : States) (curState transitionTo : State)
    : M (State * option string) :=
  match transitions curState transitionTo with
  | None => mret (curState, None)
  | Some f =>
      match fuel with
      | O => fun _ => Diverged
      | S fuel =>
          r ← try (f st);
          match r with
          | inl e => mret (curState, Some e)
          | inr nextstate => applyTransition fuel st transitionTo nextstate
          end
      end
  end.

(** Enough for [applyTransition] to return: there are fewer states than this. *)
Definition table_size : nat := 18.

Fixpoint moveState (fuel : nat) (st : States) (curState : State) : M (State * option string) :=
  match actions curState with
  | None => mret (curState, None)
  | Some action =>
      match fuel with
      | O => fun _ => Diverged
      | S fuel =>
          r ← try (action st);
          match r with
          | inl e => mret (curState, Some e)
          | inr newstate =>
              if decide (newstate = curState) then mret (curState, None) else
              match transitions curState newstate with
              | Some _ =>
                  '(curState, _) ← applyTransition table_size st curState newstate;
                  moveState fuel st curState
              | None => moveState fuel st newstate
              end
          end
      end
  end.

(** ** Events: [consensus_sm.go], [sbac_sm.go] *)

Definition onConsensusEvent (st : States) (data : ConsensusTransaction) : M StateConsensus :=
  if decide (ct_Op data <> ConsensusOp_ConsensusCommit) then
    b ← verifyEvidenceSignature (marshal_tx' (ct_Tx data)) (ct_Evidences data);
    mret (if b : bool then StateConsensusAccepted else StateConsensusRejected)
  else mret StateConsensusAccepted.

Definition set_consensus x (st : States) := MkStates x (sbac st) (detail st).
Definition set_sbac x (st : States) := MkStates (consensus st) x (detail st).

Definition cm_processEvent (c : ConsensusStateMachine) (st : States) (data : ConsensusTransaction)
    : M ConsensusStateMachine :=
  if decide (cm_state c <> StateConsensusWaiting) then err "ConsensusStateMachine already finished, state(%v)"
  else x ← onConsensusEvent st data; mret (MkConsensusStateMachine (Some data) (cm_phase c) x).

(** The accepting and rejecting nodes of a shard among the decisions. *)
Fixpoint countDecisions (ns : list uint64) (decisions : gmap uint64 SignedDecision)
    (accepted rejected : uint64) : uint64 * uint64 :=
  match ns with
  | [] => (accepted, rejected)
  | n :: ns =>
      match decisions !! n with
      | Some d => if sd_Decision d =? SBACDecision_ACCEPT
                  then countDecisions ns decisions (u64 (accepted + 1)) rejected
                  else countDecisions ns decisions accepted (u64 (rejected + 1))
      | None => countDecisions ns decisions accepted rejected
      end
  end.

(** [None] is the early return of a rejection, otherwise whether some shard is
    pending. *)
Fixpoint onSBACEvent_shards (shards : list uint64) (decisions : gmap uint64 SignedDecision)
    (somePending : bool) : M (option bool) :=
  match shards with
  | [] => mret (Some somePending)
  | v :: shards =>
      ns ← call (NodesInShard v (c_top s));
      let '(accepted, rejected) := countDecisions ns decisions 0 0 in
      if quorumt1 (c_shardSize s) <=? rejected then mret None else
      if c_shardSize s <=? accepted then onSBACEvent_shards shards decisions somePending
      else onSBACEvent_shards shards decisions true
  end.

(** The results of the verification of the signatures are only logged. *)
Definition onSBACEvent (st : States) (decisions : gmap uint64 SignedDecision) : M StateSBAC :=
  shards ← shardsInvolvedWithoutSelf (dt_Tx (detail st));
  r ← onSBACEvent_shards shards decisions false;
  match r with
  | None => mret StateSBACRejected
  | Some true => mret StateSBACWaiting
  | Some false =>
      _ ← each (fun kv => _ ← try (verifyTransactionSignature (dt_Tx (detail st))
                                   (sd_Signature kv.2) kv.1); mret tt) (map_to_list decisions);
      mret StateSBACAccepted
  end.

Definition bm_processEvent (c : SBACStateMachine) (st : States) (msg : SBACMessage) : M SBACStateMachine :=
  if decide (bm_state c <> StateSBACWaiting) then err "SBACStateMachine already finished, state(%v)"
  else
    let decisions := <[sm_PeerID msg := MkSignedDecision (sm_Decision msg) (sm_Signature msg)]>
                       (bm_decisions c) in
    x ← onSBACEvent st decisions;
    mret (MkSBACStateMachine (<[sm_PeerID msg := msg]> (bm_msgs c)) decisions (bm_phase c) x).

(** [StateMachine.processEvent]; the operation of an event that is none of the
    three finds a nil machine, which panics. *)
Definition processEvent (st : States) (rawe : Event) : M States :=
  if decide (ev_TxID rawe <> dt_ID (detail st)) then err "event linked to another transaction" else
  match rawe with
  | ConsensusEvent d =>
      c ← deref (consensus st !! ct_Op d);
      r ← try (cm_processEvent c st d);
      mret (match r with inr c' => set_consensus (<[ct_Op d := c']> (consensus st)) st | inl _ => st end)
  | SBACEvent m =>
      c ← deref (sbac st !! sm_Op m);
      r ← try (bm_processEvent c st m);
      mret (match r with inr c' => set_sbac (<[sm_Op m := c']> (sbac st)) st | inl _ => st end)
  end.

(** [consumeEvent] on a machine with its parts given. *)
Definition consumeEvent (fuel : nat) (st : States) (curState : State) (e : Event) : M (States * State) :=
  r ← try (processEvent st e);
  let st := match r with inr st' => st' | inl _ => st end in
  if decide (curState = StateSucceeded \/ curState = StateAborted) then mret (st, curState) else
  '(cur, _) ← moveState fuel st curState;
  mret (st, cur).
End machine.
