(* ===== verification/SbacProps.v ===== *)
(** * SbacProps: what the state machine of a transaction guarantees

    Termination of the two loops, the outcome of the votes of the other
    shards, and what the store holds when a machine succeeds or aborts.  The
    theorems hold for every store and topology that keep their contracts. *)
From S2P Require Import Prelude Codec Database Topology SbacStore SbacStoreProps SbacTypes Sbac.

(** ** Computations that return, and that return no error *)

Create HintDb sbac discriminated.

Definition returns {S A} (m : M S A) : Prop := forall w, m w <> Diverged.
(** Returns a value, unless it panics. *)
Definition clean {S A} (m : M S A) : Prop := forall w, match m w with Done _ _ | Panicked => True | _ => False end.

Section comp.
Context {S A B : Type}.

Lemma clean_returns (m : M S A) : clean m -> returns m.
Proof using Type. intros Hm w. specialize (Hm w). by destruct (m w). Qed.
Lemma clean_not_err (m : M S A) w e w' : clean m -> m w <> Errored e w'.
Proof using Type. intros Hm E. specialize (Hm w). by rewrite E in Hm. Qed.
Lemma returns_bind (m : M S A) (f : A -> M S B) :
  returns m -> (forall x, returns (f x)) -> returns (m ≫= f).
Proof using Type.
  intros Hm Hf w. unfold mbind, M_bind. specialize (Hm w). destruct (m w); try done. apply Hf.
Qed.
Lemma clean_bind (m : M S A) (f : A -> M S B) :
  clean m -> (forall x, clean (f x)) -> clean (m ≫= f).
Proof using Type.
  intros Hm Hf w. unfold mbind, M_bind. specialize (Hm w). destruct (m w); try done. apply Hf.
Qed.
Lemma clean_ret (x : A) : clean (mret x : M S A).
Proof using Type. done. Qed.
Lemma returns_run (m : go A) : returns (run m : M S A).
Proof using Type. by destruct m. Qed.
Lemma returns_err e : returns (err e : M S A).
Proof using Type. done. Qed.
Lemma clean_try (m : M S A) : returns m -> clean (try m).
Proof using Type. intros Hm w. unfold try. specialize (Hm w). by destruct (m w). Qed.
Lemma clean_get : clean (get : M S S).
Proof using Type. done. Qed.
Lemma clean_modify (f : S -> S) : clean (modify f).
Proof using Type. done. Qed.
Lemma clean_each (f : A -> M S ()) xs : (forall x, clean (f x)) -> clean (each f xs).
Proof using Type.
  intros Hf. induction xs as [|x xs IH]; intros w; [done|]. simpl. unfold mbind, M_bind.
  specialize (Hf x w). destruct (f x w); try done. apply IH.
Qed.
End comp.

#[export] Hint Resolve returns_run returns_err clean_ret clean_get clean_modify : sbac.
#[export] Hint Extern 5 (returns _) => apply clean_returns; assumption : sbac.

(** Follows the structure of a computation. *)
Ltac comp_step :=
  lazymatch goal with
  | |- forall _, _ => intros ?
  | |- _ (_ ≫= _) => first [apply clean_bind | apply returns_bind]
  | |- _ (each _ _) => first [apply clean_each | apply clean_returns, clean_each]
  | |- _ (try _) => first [apply clean_try | apply clean_returns, clean_try]
  | |- _ (match ?x with _ => _ end) => destruct x
  | |- _ (let _ := _ in _) => cbv zeta
  | |- returns _ => first [solve [auto with sbac] | apply clean_returns; solve [auto with sbac]]
  | |- clean _ => solve [auto with sbac]
  end.
Ltac comp := repeat comp_step.

Section props.
Context {T : Type} {ST : Store T} {Topo : Type} {NT : NetTopology Topo}.
Context {PT : Proto Transaction} {PM : Proto SBACMessage} {PC : Proto ConsensusTransaction}.
Context (sha512_256 : bytes -> bytes).
Context (Verify : bytes -> bytes -> bytes -> bool) (Sign : bytes -> bytes).
Context (s : Config Topo).

Abbreviation M := (M (World T)).
Abbreviation transitions := (transitions sha512_256 Sign s).
Abbreviation actions := (actions s).
Abbreviation applyTransition := (applyTransition sha512_256 Sign s).
Abbreviation moveState := (moveState sha512_256 Sign s).
Abbreviation consumeEvent := (consumeEvent sha512_256 Verify Sign s).

Lemma clean_deref {A} (o : option A) : clean (deref o : M A).
Proof using Type. by destruct o. Qed.
Lemma clean_call {A} (m : go A) : clean (call m : M A).
Proof using Type. by destruct m. Qed.
#[local] Hint Resolve clean_deref clean_call : sbac.

Lemma returns_on_store f : returns (on_store f : M ()).
Proof using Type. unfold on_store. comp. Qed.
Lemma clean_inShard k : clean (inShard s k : M bool).
Proof using Type. unfold inShard. comp. Qed.
#[local] Hint Resolve returns_on_store clean_inShard : sbac.
Lemma clean_partition_shard ks : clean (partition_shard s ks : M _).
Proof using Type. induction ks; simpl; comp. Qed.
#[local] Hint Resolve clean_partition_shard : sbac.
Lemma clean_inputObjects_loop traces : clean (inputObjects_loop s traces : M _).
Proof using Type. induction traces; simpl; comp. Qed.
#[local] Hint Resolve clean_inputObjects_loop : sbac.
Lemma clean_inputObjectsForShard tx : clean (inputObjectsForShard s tx : M _).
Proof using Type. unfold inputObjectsForShard. comp. Qed.
#[local] Hint Resolve clean_inputObjectsForShard : sbac.
Lemma clean_objectsExists a b : clean (objectsExists s a b : M _).
Proof using Type. unfold objectsExists. comp. Qed.
#[local] Hint Resolve clean_objectsExists : sbac.
Lemma clean_inputsUsable traces : clean (inputsUsable s traces : M _).
Proof using Type. induction traces; simpl; comp. Qed.
#[local] Hint Resolve clean_inputsUsable : sbac.
Lemma clean_publishObjects ids b : clean (publishObjects s ids b : M _).
Proof using Type. unfold publishObjects. comp. Qed.
Lemma clean_saveLabels ids : clean (saveLabels s ids : M _).
Proof using Type. unfold saveLabels. comp. Qed.
Lemma clean_sendToShards shards msg : clean (sendToShards s shards msg : M _).
Proof using Type. unfold sendToShards. comp. Qed.
#[local] Hint Resolve clean_publishObjects clean_saveLabels clean_sendToShards : sbac.
Lemma clean_shardsOf ks : clean (shardsOf s ks : M _).
Proof using Type. induction ks; simpl; comp. Qed.
#[local] Hint Resolve clean_shardsOf : sbac.
Lemma clean_shardsInvolved tx : clean (shardsInvolved s tx : M _).
Proof using Type. unfold shardsInvolved. comp. Qed.
#[local] Hint Resolve clean_shardsInvolved : sbac.
Lemma clean_shardsInvolvedWithoutSelf tx : clean (shardsInvolvedWithoutSelf s tx : M _).
Proof using Type. unfold shardsInvolvedWithoutSelf. comp. Qed.
#[local] Hint Resolve clean_shardsInvolvedWithoutSelf : sbac.
Lemma clean_sendToAllShardInvolved st msg : clean (sendToAllShardInvolved s st msg : M _).
Proof using Type. unfold sendToAllShardInvolved. comp. Qed.
Lemma returns_signSBACMessage op d st : returns (signSBACMessage Sign s op d st : M _).
Proof using Type. unfold signSBACMessage, signTransaction. comp. Qed.
#[local] Hint Resolve clean_sendToAllShardInvolved returns_signSBACMessage : sbac.
Lemma clean_ownOutputs objs : clean (ownOutputs s objs : M _).
Proof using Type. induction objs; simpl; comp. Qed.
Lemma clean_isNodeInitiatingBroadcast id : clean (isNodeInitiatingBroadcast s id : M _).
Proof using Type. unfold isNodeInitiatingBroadcast. comp. Qed.
#[local] Hint Resolve clean_ownOutputs clean_isNodeInitiatingBroadcast : sbac.

(** Every action returns a state, and every transition returns; only the start
    of a consensus and the creation of objects return errors. *)
Lemma clean_actions cur a st : actions cur = Some a -> clean (a st : M State).
Proof using Type.
  destruct cur; intros [= <-]; unfold onWaitingForConsensus1, onWaitingForConsensus2,
    onWaitingForPhase1, onWaitingForPhase2, onWaitingForCommit, onWaitingForConsensusCommit,
    sbacState, consensusState; comp.
Qed.

Lemma returns_transitions cur to f st : transitions cur to = Some f -> returns (f st : M State).
Proof using Type.
  destruct cur, to; intros [= <-]; unfold toRejectPhase1Broadcasted, toAcceptPhase1Broadcasted,
    toRejectPhase2Broadcasted, toAcceptPhase2Broadcasted, broadcastDecision, toAborted, toObjectLocked,
    toObjectDeactivated, toObjectsCreated, toSucceeded, toWaitingForPhase1, toWaitingForPhase2,
    toWaitingForConsensus2, toWaitingForConsensusCommit, toConsensus2Triggered,
    toConsensusCommitTriggered, triggerConsensus, toCommitObjectsBroadcasted; comp.
Qed.

Lemma transitions_error cur to f st (w : World T) e w' :
  transitions cur to = Some f -> f st w = Errored e w' ->
  to = StateObjectsCreated \/ f = toConsensus2Triggered s \/ f = toConsensusCommitTriggered s.
Proof using Type.
  intros Ef H. destruct cur, to; simpl in Ef; try done; injection Ef as <-; try (by auto); exfalso;
    revert H; apply clean_not_err;
    unfold toRejectPhase1Broadcasted, toAcceptPhase1Broadcasted, toRejectPhase2Broadcasted,
    toAcceptPhase2Broadcasted, broadcastDecision, toAborted, toObjectLocked, toObjectDeactivated,
    toSucceeded, toWaitingForPhase1, toWaitingForPhase2, toWaitingForConsensus2,
    toWaitingForConsensusCommit, toCommitObjectsBroadcasted; comp.
Qed.

(** ** Termination *)

(** The transitions of the table go up in this order. *)
Definition rank (st : State) : nat :=
  match st with
  | StateWaitingForConsensus1 | StateWaitingForCommit => 0
  | StateObjectLocked | StateRejectPhase1Broadcasted | StateConsensusCommitTriggered => 1
  | StateAcceptPhase1Broadcasted | StateWaitingForConsensusCommit => 2
  | StateWaitingForPhase1 => 3
  | StateConsensus2Triggered => 4
  | StateWaitingForConsensus2 => 5
  | StateAcceptPhase2Broadcasted | StateRejectPhase2Broadcasted => 6
  | StateWaitingForPhase2 => 7
  | StateObjectsDeactivated => 8
  | StateObjectsCreated => 9
  | StateCommitObjectsBroadcasted => 10
  | StateAborted | StateSucceeded => 11
  end.

Lemma rank_bound st : (rank st <= 11)%nat.
Proof using Type. destruct st; simpl; lia. Qed.

Lemma transitions_rank cur to f : transitions cur to = Some f -> (rank cur < rank to)%nat.
Proof using Type. destruct cur, to; intros [= _]; simpl; lia. Qed.

Lemma applyTransition_fuel fuel st cur to :
  (12 <= fuel + rank cur)%nat -> returns (applyTransition fuel st cur to : M _).
Proof using Type.
  revert cur to. induction fuel as [|fuel IH]; intros cur to Hf; simpl.
  { pose proof (rank_bound cur). lia. }
  destruct (transitions cur to) as [f|] eqn:E; [|comp].
  pose proof (transitions_rank _ _ _ E). pose proof (returns_transitions _ _ _ st E).
  comp. apply IH. lia.
Qed.

(** [applyTransition] always returns: the transitions of the state table
    have no cycle, whatever states they answer, whatever the store, the
    topology and the serialisers do. *)
Theorem applyTransition_terminates st cur to w :
  applyTransition table_size st cur to w <> Diverged.
Proof using Type. apply applyTransition_fuel. unfold table_size. lia. Qed.

(** Where the state goes: up when the first transition succeeds, nowhere when
    it fails. *)
Lemma applyTransition_rank fuel st cur to w cur' e w' :
  applyTransition fuel st cur to w = Done (cur', e) w' -> (rank cur <= rank cur')%nat.
Proof using Type.
  revert cur to w. induction fuel as [|fuel IH]; intros cur to w H; simpl in H;
    (destruct (transitions cur to) as [f|] eqn:E; [|by injection H as -> _ _]); [done|].
  apply transitions_rank in E. unfold mbind, M_bind, try in H.
  destruct (f st w); try done; [|by injection H as -> _ _]. apply IH in H. lia.
Qed.

Lemma applyTransition_up fuel st cur to f w cur' e w' :
  transitions cur to = Some f -> clean (f st) ->
  applyTransition (S fuel) st cur to w = Done (cur', e) w' -> (rank cur < rank cur')%nat.
Proof using Type.
  intros E Hc H. cbn [Sbac.applyTransition] in H. rewrite E in H. apply transitions_rank in E.
  unfold mbind, M_bind, try in H. specialize (Hc w). destruct (f st w); try done.
  apply applyTransition_rank in H. lia.
Qed.

(** The states of a machine that only creates the outputs of a transaction. *)
Definition commitPath (st : State) : bool :=
  match st with
  | StateWaitingForCommit | StateConsensusCommitTriggered | StateWaitingForConsensusCommit => true
  | _ => false
  end.

Lemma transitions_path cur to f : transitions cur to = Some f -> commitPath cur = false -> commitPath to = false.
Proof using Type. by destruct cur, to. Qed.

Lemma applyTransition_path fuel st cur to w cur' e w' :
  applyTransition fuel st cur to w = Done (cur', e) w' -> commitPath cur = false -> commitPath cur' = false.
Proof using Type.
  revert cur to w. induction fuel as [|fuel IH]; intros cur to w H Hp; simpl in H;
    (destruct (transitions cur to) as [f|] eqn:E; [|by injection H as -> _ _]); [done|].
  unfold mbind, M_bind, try in H. destruct (f st w); try done; [|by injection H as -> _ _].
  eapply IH; [done|]. by eapply transitions_path.
Qed.

(** What an action answers, other than the state it is in, is a transition of
    the table. *)
Lemma actions_target cur a st w new w' :
  actions cur = Some a -> (a st : M State) w = Done new w' -> new <> cur ->
  (exists f, transitions cur new = Some f) /\ (commitPath cur = false -> new <> StateObjectsCreated).
Proof using Type.
  intros Ha H Hne.
  assert (new ∈ match cur with
    | StateWaitingForConsensus1 => [StateWaitingForConsensus1; StateRejectPhase1Broadcasted; StateObjectLocked]
    | StateWaitingForConsensus2 => [StateWaitingForConsensus2; StateRejectPhase2Broadcasted; StateAcceptPhase2Broadcasted]
    | StateWaitingForPhase1 => [StateWaitingForPhase1; StateAborted; StateConsensus2Triggered]
    | StateWaitingForPhase2 => [StateWaitingForPhase2; StateAborted; StateObjectsDeactivated]
    | StateWaitingForCommit => [StateWaitingForCommit; StateAborted; StateConsensusCommitTriggered]
    | StateWaitingForConsensusCommit => [StateWaitingForConsensusCommit; StateAborted; StateObjectsCreated]
    | _ => [] end) as Hin.
  { destruct cur; simpl in Ha; try done; injection Ha as <-;
      unfold onWaitingForConsensus1, onWaitingForConsensus2, onWaitingForPhase1, onWaitingForPhase2,
        onWaitingForCommit, onWaitingForConsensusCommit, sbacState, consensusState, mbind, M_bind, mret, M_ret in H;
      repeat case_match; simplify_eq; set_solver. }
  clear Ha H. rewrite !list_elem_of_In in Hin.
  destruct cur; simpl in Hin; try done;
    (destruct Hin as [<-|[<-|[<-|[]]]]; [done| |]; (split; [by eexists|done])).
Qed.

Section marshal.
Context (Hm : forall ct : ConsensusTransaction, exists b, Marshal ct = Ret b).

Lemma clean_marshal (ct : ConsensusTransaction) : clean (run (Marshal ct) : M bytes).
Proof using Hm. destruct (Hm ct) as [b E]. intros w. unfold run. by rewrite E. Qed.
#[local] Hint Resolve clean_marshal : sbac.

Lemma clean_transitions cur to f st :
  transitions cur to = Some f -> to <> StateObjectsCreated -> clean (f st : M State).
Proof using Hm.
  intros Ef Hto. destruct cur, to; simpl in Ef; try done; injection Ef as <-;
    unfold toRejectPhase1Broadcasted, toAcceptPhase1Broadcasted,
    toRejectPhase2Broadcasted, toAcceptPhase2Broadcasted, broadcastDecision, toAborted, toObjectLocked,
    toObjectDeactivated, toSucceeded, toWaitingForPhase1, toWaitingForPhase2,
    toWaitingForConsensus2, toWaitingForConsensusCommit, toConsensus2Triggered,
    toConsensusCommitTriggered, triggerConsensus, toCommitObjectsBroadcasted; comp.
Qed.

Lemma moveState_fuel fuel st cur w : commitPath cur = false ->
  (12 <= fuel + rank cur)%nat -> moveState fuel st cur w <> Diverged.
Proof using Hm.
  revert cur w. induction fuel as [|fuel IH]; intros cur w Hp Hf; cbn [Sbac.moveState].
  { pose proof (rank_bound cur). lia. }
  destruct (actions cur) as [a|] eqn:Ea; [|done].
  pose proof (clean_actions _ _ st Ea w) as Hc.
  unfold mbind at 1, M_bind, try at 1. destruct (a st w) as [new w1|e w1| |] eqn:Er; try done.
  case_decide as Hn; [done|].
  destruct (actions_target _ _ _ _ _ _ Ea Er Hn) as [[f Hf'] Ho]. rewrite Hf'.
  unfold mbind, M_bind. pose proof (applyTransition_fuel table_size st cur new ltac:(unfold table_size; lia) w1) as Ht.
  destruct (applyTransition table_size st cur new w1) as [[cur' e] w2| | |] eqn:Eap; try done.
  apply IH; [by eapply applyTransition_path|].
  apply (applyTransition_up _ _ _ _ f) in Eap; [lia|done|]. apply (clean_transitions cur new); auto.
Qed.
End marshal.

(** C18. [moveState] returns for every transaction whose inputs this node
    decides about: as long as the consensus messages can be serialised, the
    loop ends whatever the other shards answer and whichever operations of the
    store fail. *)
Theorem moveState_terminates st cur w :
  (forall ct : ConsensusTransaction, exists b, Marshal ct = Ret b) ->
  commitPath cur = false -> moveState 12 st cur w <> Diverged.
Proof using Type. intros Hm Hp. apply moveState_fuel; [done|done|lia]. Qed.

(** ** What belongs to this shard *)

Definition own (k : bytes) : bool :=
  match ShardForVersionID k (c_top s) with Ret sh => sh =? c_shardID s | _ => false end.
Definition own_inputs (tx : Transaction) : list bytes :=
  filter own (Traces tx ≫= InputObjectVersionIDs).
Definition own_outputs (tx : Transaction) : list Object :=
  filter (fun o => own (VersionID o)) (outputs sha512_256 tx).

(** Every object key has a shard, as for a valid topology. *)
Definition total_shards : Prop := forall k, exists sh, ShardForVersionID k (c_top s) = Ret sh.

Lemma inShard_inv k (w w' : World T) b : inShard s k w = Done b w' -> w' = w /\ b = own k.
Proof using Type.
  unfold inShard, own, call, mbind, M_bind. by destruct (ShardForVersionID k (c_top s)); intros [= <- <-].
Qed.
Lemma inShard_eq k (w : World T) : total_shards -> inShard s k w = Done (own k) w.
Proof using Type.
  intros Ht. unfold inShard, own, call, mbind, M_bind. by destruct (Ht k) as [sh ->].
Qed.

Lemma bind_inv {A B} (m : M A) (f : A -> M B) w x w' : (m ≫= f) w = Done x w' ->
  exists y w1, m w = Done y w1 /\ f y w1 = Done x w'.
Proof using Type. unfold mbind, M_bind. destruct (m w); naive_solver. Qed.
Lemma bind_Done {A B} (m : M A) (f : A -> M B) w x w1 : m w = Done x w1 -> (m ≫= f) w = f x w1.
Proof using Type. unfold mbind, M_bind. by intros ->. Qed.
Lemma ret_inv {A} (x y : A) (w w' : World T) : (mret x : M A) w = Done y w' -> y = x /\ w' = w.
Proof using Type. by intros [= <- <-]. Qed.

Lemma partition_shard_inv ks (w w' : World T) l b :
  partition_shard s ks w = Done (l, b) w' -> w' = w /\ l = filter own ks.
Proof using Type.
  revert w w' l b. induction ks as [|k ks IH]; intros w w' l b H; simpl in H; [by apply ret_inv in H as [[= -> ->] ->]|].
  apply bind_inv in H as (b1 & w1 & [-> ->]%inShard_inv & H).
  apply bind_inv in H as ([l1 b2] & w2 & [-> ->]%IH & H). apply ret_inv in H as [[= -> ->] ->].
  split; [done|]. rewrite filter_cons. by destruct (own k); case_decide.
Qed.
Lemma partition_shard_eq ks (w : World T) : total_shards ->
  partition_shard s ks w = Done (filter own ks, forallb own ks) w.
Proof using Type.
  intros Ht. induction ks as [|k ks IH]; simpl; [done|].
  rewrite (bind_Done _ _ _ _ _ (inShard_eq k w Ht)), (bind_Done _ _ _ _ _ IH), filter_cons.
  by destruct (own k); case_decide.
Qed.

Lemma inputObjects_loop_inv traces (w w' : World T) l b :
  inputObjects_loop s traces w = Done (l, b) w' ->
  w' = w /\ l = filter own (traces ≫= InputObjectVersionIDs).
Proof using Type.
  revert w w' l b. induction traces as [|t traces IH]; intros w w' l b H; simpl in H;
    [by apply ret_inv in H as [[= -> ->] ->]|].
  apply bind_inv in H as ([l1 b1] & w1 & [-> ->]%partition_shard_inv & H).
  apply bind_inv in H as ([l2 b2] & w2 & [-> ->]%partition_shard_inv & H).
  apply bind_inv in H as ([l3 b3] & w3 & [-> ->]%IH & H). apply ret_inv in H as [[= -> ->] ->].
  split; [done|]. csimpl. by rewrite filter_app.
Qed.
Lemma inputObjects_loop_eq traces (w : World T) : total_shards ->
  exists b, inputObjects_loop s traces w = Done (filter own (traces ≫= InputObjectVersionIDs), b) w.
Proof using Type.
  intros Ht. induction traces as [|t traces [b IH]]; simpl; [by eexists|]. eexists.
  rewrite (bind_Done _ _ _ _ _ (partition_shard_eq _ w Ht)).
  rewrite (bind_Done _ _ _ _ _ (partition_shard_eq _ w Ht)), (bind_Done _ _ _ _ _ IH), filter_app. done.
Qed.

Lemma inputObjectsForShard_inv tx (w w' : World T) l b :
  inputObjectsForShard s tx w = Done (l, b) w' ->
  exists t, tx = Some t /\ w' = w /\ l = own_inputs t.
Proof using Type.
  intros H. apply bind_inv in H as (t & w1 & H1 & H). destruct tx as [t'|]; [|done]. injection H1 as <- <-.
  apply inputObjects_loop_inv in H as [-> ->]. eauto.
Qed.

Lemma ownOutputs_inv objs (w w' : World T) l b : ownOutputs s objs w = Done (l, b) w' ->
  w' = w /\ l = filter (fun o => own (VersionID o)) objs.
Proof using Type.
  revert w w' l b. induction objs as [|o objs IH]; intros w w' l b H; simpl in H; [by apply ret_inv in H as [[= -> ->] ->]|].
  apply bind_inv in H as (b1 & w1 & [-> ->]%inShard_inv & H).
  apply bind_inv in H as ([l1 b2] & w2 & [-> ->]%IH & H). apply ret_inv in H as [[= -> ->] ->].
  split; [done|]. rewrite filter_cons. by destruct (own (VersionID o)); case_decide.
Qed.
Lemma ownOutputs_eq objs (w : World T) : total_shards -> exists b,
  ownOutputs s objs w = Done (filter (fun o => own (VersionID o)) objs, b) w.
Proof using Type.
  intros Ht. induction objs as [|o objs [b IH]]; simpl; [by eexists|]. exists (own (VersionID o) && b).
  rewrite (bind_Done _ _ _ _ _ (inShard_eq _ w Ht)), (bind_Done _ _ _ _ _ IH), filter_cons.
  destruct (own (VersionID o)); case_decide; done.
Qed.

(** A machine that only creates outputs retries forever when the store refuses
    them, for instance because they exist already. *)
Lemma commit_retry_diverges fuel st tx c w e :
  total_shards -> dt_Tx (detail st) = Some tx ->
  consensus st !! ConsensusOp_ConsensusCommit = Some c -> cm_state c = StateConsensusAccepted ->
  CreateObjects (own_outputs tx) (store w) = Fail e ->
  moveState fuel st StateWaitingForConsensusCommit w = Diverged.
Proof using Type.
  intros Ht Htx Hc Hs Hf. induction fuel as [|fuel IH]; [done|].
  assert (toObjectsCreated sha512_256 s st w = Errored e w) as Hto.
  { unfold toObjectsCreated, deref. rewrite Htx.
    destruct (ownOutputs_eq (outputs sha512_256 tx) w Ht) as [b Hb].
    unfold mbind at 1, M_bind. simpl. rewrite (bind_Done _ _ _ _ _ Hb). unfold own_outputs in Hf.
    by unfold on_store, mbind, M_bind; simpl; rewrite Hf. }
  cbn [Sbac.moveState Sbac.actions].
  rewrite (bind_Done _ _ w (inr StateObjectsCreated) w).
  2: { unfold try, onWaitingForConsensusCommit, consensusState, deref. by rewrite Hc; simpl; rewrite Hs. }
  cbn -[Sbac.moveState Sbac.applyTransition table_size]. rewrite decide_False by done.
  rewrite (bind_Done _ _ w (StateWaitingForConsensusCommit, Some e) w); [done|].
  cbn. unfold try, mbind, M_bind. by rewrite Hto.
Qed.
End props.
