(* ===== verification/SbacSafety.v ===== *)
(** * SbacSafety: objects and the end of a transaction

    A machine that succeeds has spent its inputs once and created its outputs;
    a machine that aborts releases its inputs, whoever locked them. *)
From S2P Require Import Prelude Codec Database Topology SbacStore SbacStoreProps SbacTypes Sbac SbacProps.

(** ** Computations that leave the store alone *)

Definition frames {T A} (m : M (World T) A) : Prop := forall w,
  match m w with Done _ w' | Errored _ w' => store w' = store w | _ => True end.

Section frames.
Context {T A B : Type}.
Abbreviation M := (M (World T)).

Lemma frames_bind (m : M A) (f : A -> M B) : frames m -> (forall x, frames (f x)) -> frames (m ≫= f).
Proof using Type.
  intros Hm Hf w. unfold mbind, M_bind. specialize (Hm w). destruct (m w) as [x w1|e w1| |]; try done.
  specialize (Hf x w1). destruct (f x w1); congruence.
Qed.
Lemma frames_ret (x : A) : frames (mret x : M A).
Proof using Type. done. Qed.
Lemma frames_run (m : go A) : frames (run m : M A).
Proof using Type. by intros w; destruct m. Qed.
Lemma frames_deref (o : option A) : frames (deref o : M A).
Proof using Type. by intros w; destruct o. Qed.
Lemma frames_call (m : go A) : frames (call m : M A).
Proof using Type. by intros w; destruct m. Qed.
Lemma frames_try (m : M A) : frames m -> frames (try m).
Proof using Type. intros Hm w. unfold try. specialize (Hm w). by destruct (m w). Qed.
Lemma frames_get : frames (get : M (World T)).
Proof using Type. done. Qed.
Lemma frames_modify (f : World T -> World T) : (forall w, store (f w) = store w) -> frames (modify f).
Proof using Type. intros Hf w. apply Hf. Qed.
Lemma frames_each (f : A -> M ()) xs : (forall x, frames (f x)) -> frames (each f xs).
Proof using Type.
  intros Hf. induction xs as [|x xs IH]; intros w; [done|]. simpl. unfold mbind, M_bind.
  specialize (Hf x w). destruct (f x w) as [y w1|e w1| |]; try done.
  specialize (IH w1). destruct (each f xs w1); congruence.
Qed.
End frames.

#[export] Hint Resolve frames_ret frames_run frames_deref frames_call frames_get : sbac.
#[export] Hint Extern 1 (frames (modify _)) => apply frames_modify; done : sbac.

Ltac frame_step :=
  lazymatch goal with
  | |- forall _, _ => intros ?
  | |- _ (_ ≫= _) => apply frames_bind
  | |- _ (each _ _) => apply frames_each
  | |- _ (try _) => apply frames_try
  | |- _ (match ?x with _ => _ end) => destruct x
  | |- _ (let _ := _ in _) => cbv zeta
  | |- frames _ => solve [auto with sbac]
  end.
Ltac frame := repeat frame_step.

Section safety.
Context {T : Type} {ST : Store T} {Topo : Type} {NT : NetTopology Topo}.
Context {PT : Proto Transaction} {PM : Proto SBACMessage} {PC : Proto ConsensusTransaction}.
Context (sha512_256 : bytes -> bytes).
Context (Verify : bytes -> bytes -> bytes -> bool) (Sign : bytes -> bytes).
Context (s : Config Topo).
Context (status : T -> bytes -> option ObjectStatus) {SO : StoreOk T status}.

Abbreviation M := (M (World T)).
Abbreviation transitions := (transitions sha512_256 Sign s).
Abbreviation actions := (actions s).
Abbreviation applyTransition := (applyTransition sha512_256 Sign s).
Abbreviation moveState := (moveState sha512_256 Sign s).
Abbreviation consumeEvent := (consumeEvent sha512_256 Verify Sign s).

Lemma frames_inShard k : frames (inShard s k : M bool).
Proof using Type. unfold inShard. frame. Qed.
#[local] Hint Resolve frames_inShard : sbac.
Lemma frames_partition_shard ks : frames (partition_shard s ks : M _).
Proof using Type. induction ks; simpl; frame. Qed.
#[local] Hint Resolve frames_partition_shard : sbac.
Lemma frames_shardsOf ks : frames (shardsOf s ks : M _).
Proof using Type. induction ks; simpl; frame. Qed.
#[local] Hint Resolve frames_shardsOf : sbac.
Lemma frames_inputsUsable traces : frames (inputsUsable s traces : M _).
Proof using Type. induction traces; simpl; unfold objectsExists; frame. Qed.
#[local] Hint Resolve frames_inputsUsable : sbac.
Lemma frames_shardsInvolved tx : frames (shardsInvolved s tx : M _).
Proof using Type. unfold shardsInvolved. frame. Qed.
#[local] Hint Resolve frames_shardsInvolved : sbac.

Lemma frames_actions cur a st : actions cur = Some a -> frames (a st : M State).
Proof using Type.
  destruct cur; intros [= <-]; unfold onWaitingForConsensus1, onWaitingForConsensus2,
    onWaitingForPhase1, onWaitingForPhase2, onWaitingForCommit, onWaitingForConsensusCommit,
    sbacState, consensusState; frame.
Qed.

Lemma frames_broadcastDecision op d next st : frames (broadcastDecision Sign s op d next st : M State).
Proof using Type.
  unfold broadcastDecision, signSBACMessage, signTransaction, sendToAllShardInvolved,
    shardsInvolvedWithoutSelf, sendToShards. frame.
Qed.
Lemma frames_triggerConsensus op next st : frames (triggerConsensus s op next st : M State).
Proof using Type. unfold triggerConsensus, isNodeInitiatingBroadcast. frame. Qed.
Lemma frames_toCommitObjectsBroadcasted st : frames (toCommitObjectsBroadcasted sha512_256 Sign s st : M State).
Proof using Type.
  unfold toCommitObjectsBroadcasted, signSBACMessage, signTransaction, sendToShards. frame.
Qed.
Lemma frames_publishObjects ids b : frames (publishObjects s ids b : M _).
Proof using Type. unfold publishObjects. frame. Qed.
Lemma frames_saveLabels ids : frames (saveLabels s ids : M _).
Proof using Type. unfold saveLabels. frame. Qed.
#[local] Hint Resolve frames_publishObjects frames_saveLabels : sbac.

(** ** The effect of each transition on the statuses *)

Definition same (w w' : World T) : Prop := forall k, status (store w') k = status (store w) k.
Definition mono (w w' : World T) : Prop := forall k,
  status (store w) k = Some INACTIVE -> status (store w') k = Some INACTIVE.

(** The inputs of this shard went from not inactive to inactive. *)
Definition spent (tx : Transaction) (w w' : World T) : Prop := forall k, k ∈ own_inputs s tx ->
  status (store w) k <> Some INACTIVE /\ status (store w') k = Some INACTIVE.
Definition outputs_active (tx : Transaction) (w : World T) : Prop :=
  forall o, o ∈ own_outputs sha512_256 s tx -> status (store w) (VersionID o) = Some ACTIVE.

Lemma same_refl w : same w w.
Proof using Type. done. Qed.
Lemma same_mono w w' : same w w' -> mono w w'.
Proof using Type. intros H k. by rewrite H. Qed.
Lemma mono_trans w1 w2 w3 : mono w1 w2 -> mono w2 w3 -> mono w1 w3.
Proof using Type. intros H1 H2 k Hk. auto. Qed.
Lemma frames_same {A} (m : M A) w x w' : frames m -> m w = Done x w' -> same w w'.
Proof using Type. intros Hm E k. specialize (Hm w). rewrite E in Hm. by rewrite Hm. Qed.

Lemma try_on_store_inv f (w : World T) r w' : try (on_store f) w = Done r w' ->
  (exists t, f (store w) = Ret t /\ w' = set_store t w /\ r = inr tt) \/ (w' = w /\ exists e, r = inl e).
Proof using Type.
  unfold try, on_store, mbind, M_bind. simpl. destruct (f (store w)) as [t|e|]; simpl;
    intros; simplify_eq; eauto.
Qed.
Lemma on_store_inv f (w : World T) r w' : on_store f w = Done r w' ->
  exists t, f (store w) = Ret t /\ w' = set_store t w.
Proof using Type.
  unfold on_store, mbind, M_bind. simpl. destruct (f (store w)) as [t|e|]; [|done|done].
  intros [= _ <-]. eauto.
Qed.
Lemma deref_inv {A} (o : option A) (w w' : World T) x : deref o w = Done x w' -> o = Some x /\ w' = w.
Proof using Type. destruct o; [|done]. by intros [= -> ->]. Qed.
Lemma finish_same id (w w' : World T) r :
  try (on_store (FinishTransaction id)) w = Done r w' -> same w w'.
Proof using SO.
  intros [(t & Ht & -> & _)|[-> _]]%try_on_store_inv; [|done]. intros k. by rewrite (finish_ok _ _ _ Ht).
Qed.

Lemma toAborted_mono st w next w' : toAborted sha512_256 s st w = Done next w' -> mono w w'.
Proof using SO.
  intros H. apply bind_inv in H as ([l b] & w1 & (t & _ & -> & ->)%inputObjectsForShard_inv & H).
  apply bind_inv in H as (r & w2 & H2 & H). apply bind_inv in H as (r' & w3 & H3%finish_same & H).
  apply bind_inv in H as (tx & w4 & [_ ->]%deref_inv & H).
  apply bind_inv in H as (? & w5 & H5 & [-> ->]%ret_inv).
  apply frames_same in H5; [|auto with sbac].
  apply mono_trans with w2; [|apply mono_trans with w3; by apply same_mono].
  apply try_on_store_inv in H2 as [(t' & Ht & -> & _)|[-> _]]; [|by intros k].
  destruct (unlock_ok _ _ _ Ht) as [Hp He]. intros k Hk. simpl. rewrite He.
  case_decide as Hin; [|done]. by apply Hp in Hin.
Qed.

Lemma toObjectLocked_effect st w next w' : toObjectLocked s st w = Done next w' ->
  mono w w' /\ next <> StateObjectsCreated.
Proof using SO.
  intros H. apply bind_inv in H as ([l b] & w1 & (t & _ & -> & ->)%inputObjectsForShard_inv & H).
  apply bind_inv in H as (r & w2 & H2 & [-> ->]%ret_inv). split; [|by destruct r, b].
  apply try_on_store_inv in H2 as [(t' & Ht & -> & _)|[-> _]]; [|by intros k].
  destruct (lock_ok _ _ _ Ht) as [Hp He]. intros k Hk. simpl. rewrite He.
  case_decide as Hin; [|done]. apply Hp in Hin. rewrite Hin in Hk. done.
Qed.

Lemma toObjectDeactivated_effect st tx w next w' : dt_Tx (detail st) = Some tx ->
  toObjectDeactivated s st w = Done next w' ->
  mono w w' /\ (next = StateObjectsCreated -> spent tx w w').
Proof using SO.
  intros Htx H. apply bind_inv in H as ([l b] & w1 & (t & Ht & -> & ->)%inputObjectsForShard_inv & H).
  assert (t = tx) as -> by congruence.
  apply bind_inv in H as (r & w2 & H2 & [-> ->]%ret_inv).
  apply try_on_store_inv in H2 as [(t' & Hd & -> & ->)|[-> [e ->]]]; [|by split; [intros k|]].
  destruct (deactivate_ok _ _ _ Hd) as [Hp He]. split.
  - intros k Hk. simpl. rewrite He. by case_decide.
  - intros _ k Hk. simpl. rewrite He, decide_True by done. auto.
Qed.

Lemma toObjectsCreated_effect st tx w next w' : dt_Tx (detail st) = Some tx ->
  toObjectsCreated sha512_256 s st w = Done next w' -> mono w w' /\ outputs_active tx w'.
Proof using SO.
  intros Htx H. apply bind_inv in H as (t & w1 & [Ht ->]%deref_inv & H).
  assert (t = tx) as -> by congruence.
  apply bind_inv in H as ([l b] & w2 & [-> ->]%ownOutputs_inv & H).
  apply bind_inv in H as (? & w3 & (t' & Hc & ->)%on_store_inv & [-> ->]%ret_inv).
  destruct (create_ok _ _ _ Hc) as [Hp He]. split.
  - intros k Hk. simpl. rewrite He. case_decide as Hin; [|done]. apply Hp in Hin. congruence.
  - intros o Ho. simpl. rewrite He, decide_True; [done|]. apply list_elem_of_fmap. eauto.
Qed.

Lemma toSucceeded_same st w next w' : toSucceeded sha512_256 s st w = Done next w' -> same w w'.
Proof using SO.
  intros H. apply bind_inv in H as (r' & w3 & H3%finish_same & H).
  apply bind_inv in H as (tx & w4 & [_ ->]%deref_inv & H).
  apply bind_inv in H as (? & w5 & H5 & H). apply frames_same in H5; [|auto with sbac].
  apply bind_inv in H as (? & w6 & H6 & [-> ->]%ret_inv). apply frames_same in H6; [|auto with sbac].
  intros k. by rewrite H6, H5, H3.
Qed.

(** A machine whose outputs of this shard have been created. *)
Definition created (st : State) : bool :=
  match st with
  | StateObjectsCreated | StateCommitObjectsBroadcasted | StateSucceeded => true
  | _ => false
  end.

Lemma transition_effect cur to f st tx w next w' :
  transitions cur to = Some f -> dt_Tx (detail st) = Some tx -> f st w = Done next w' ->
  mono w w' /\ (to = StateObjectsDeactivated -> next = StateObjectsCreated -> spent tx w w') /\
  (to = StateObjectsCreated -> outputs_active tx w') /\
  (created to = true -> to <> StateObjectsCreated -> same w w').
Proof using SO.
  intros Ef Htx H.
  assert (forall m : M State, f st = m -> frames m -> to <> StateObjectsDeactivated -> to <> StateObjectsCreated ->
    mono w w' /\ (to = StateObjectsDeactivated -> next = StateObjectsCreated -> spent tx w w') /\
    (to = StateObjectsCreated -> outputs_active tx w') /\
    (created to = true -> to <> StateObjectsCreated -> same w w')) as Hframe.
  { intros m <- Hm ? ?. pose proof (frames_same _ _ _ _ Hm H). split_and!; [by apply same_mono|done..]. }
  destruct cur, to; simpl in Ef; try done; injection Ef as <-;
    first
      [ apply (Hframe _ eq_refl); [|done..];
        first [apply frames_broadcastDecision | apply frames_triggerConsensus
              | apply frames_toCommitObjectsBroadcasted | done]
      | apply toAborted_mono in H; split_and!; done
      | apply toObjectLocked_effect in H as [??]; split_and!; done
      | apply (toObjectDeactivated_effect _ tx) in H as [??]; [split_and!; done|done]
      | apply (toObjectsCreated_effect _ tx) in H as [??]; [split_and!; done|done]
      | pose proof (toSucceeded_same _ _ _ _ H); split_and!; [by apply same_mono|done..] ].
Qed.

(** A transition that fails leaves the store as it was. *)
Lemma transition_error_frames cur to f st (w : World T) e w' :
  transitions cur to = Some f -> f st w = Errored e w' -> store w' = store w.
Proof using Type.
  intros Ef H. destruct (transitions_error _ _ _ _ _ _ _ _ _ _ Ef H) as [-> | [-> | ->]].
  - destruct cur; simpl in Ef; try done; injection Ef as <-; unfold toObjectsCreated in H;
      (destruct (dt_Tx (detail st)) as [tx|]; [|done]); unfold mbind at 1, M_bind in H; simpl in H;
      (destruct (ownOutputs s (outputs sha512_256 tx) w) as [[l b] w1| | |] eqn:Eo;
        unfold mbind at 1, M_bind in H; rewrite Eo in H; try done).
    all: try (apply ownOutputs_inv in Eo as [-> _]; unfold on_store, mbind, M_bind in H; simpl in H;
      destruct (CreateObjects l (store w)); simpl in H; try done; by injection H as _ <-).
    all: exfalso; revert Eo; by apply clean_not_err, clean_ownOutputs.
  - pose proof (frames_triggerConsensus ConsensusOp_Consensus2 StateWaitingForConsensus2 st w) as Hf.
    unfold toConsensus2Triggered in H. by rewrite H in Hf.
  - pose proof (frames_triggerConsensus ConsensusOp_ConsensusCommit StateWaitingForConsensusCommit st w) as Hf.
    unfold toConsensusCommitTriggered in H. by rewrite H in Hf.
Qed.

(** ** A successful transaction *)

(** What holds of a machine since the world was [w0]. *)
Definition progress (tx : Transaction) (w0 : World T) (cur : State) (w : World T) : Prop :=
  mono w0 w /\ (created cur = true -> spent tx w0 w /\ outputs_active tx w).

Lemma progress_store tx w0 cur w w' : store w' = store w -> progress tx w0 cur w -> progress tx w0 cur w'.
Proof using Type. unfold progress, mono, spent, outputs_active. by intros ->. Qed.

Lemma spent_mono tx w0 w w' : spent tx w0 w -> mono w w' -> spent tx w0 w'.
Proof using Type. intros Hs Hm k Hk. destruct (Hs k Hk). auto. Qed.

(** One transition. *)
Lemma transition_progress cur to f st tx w0 w next w' :
  transitions cur to = Some f -> dt_Tx (detail st) = Some tx -> f st w = Done next w' ->
  commitPath cur = false -> progress tx w0 cur w ->
  (cur = StateObjectsDeactivated -> to = StateObjectsCreated -> spent tx w0 w) ->
  progress tx w0 to w' /\ (to = StateObjectsDeactivated -> next = StateObjectsCreated -> spent tx w0 w').
Proof using SO.
  intros E Htx Ef Hp [Hm Hc] Hd.
  destruct (transition_effect _ _ _ _ tx _ _ _ E Htx Ef) as (Hm1 & Hs1 & Ho1 & Hsame).
  split; [split; [by apply mono_trans with w|]|].
  - intros Hto. destruct (decide (to = StateObjectsCreated)) as [->|Hne].
    + split; [|by apply Ho1]. apply (spent_mono _ _ w); [|done]. apply Hd; [|done]. by destruct cur.
    + destruct Hc as [Hs Ho]; [by destruct cur, to|]. split; [by apply (spent_mono _ _ w)|].
      intros o Hin. by rewrite (Hsame Hto Hne), (Ho o Hin).
  - intros Hto Hn k Hk. destruct (Hs1 Hto Hn k Hk) as [H1 H2]. split; [|done].
    intros Hi. by apply H1, Hm.
Qed.

Lemma applyTransition_progress fuel st tx w0 cur to w cur' e w' :
  dt_Tx (detail st) = Some tx -> commitPath cur = false ->
  progress tx w0 cur w -> (cur = StateObjectsDeactivated -> to = StateObjectsCreated -> spent tx w0 w) ->
  applyTransition fuel st cur to w = Done (cur', e) w' -> progress tx w0 cur' w'.
Proof using SO.
  intros Htx. revert cur to w. induction fuel as [|fuel IH]; intros cur to w Hp Hg Hd H; simpl in H;
    (destruct (transitions cur to) as [f|] eqn:E; [|by injection H as <- <- <-]); [done|].
  unfold mbind, M_bind, try in H.
  destruct (f st w) as [next w1|e1 w1| |] eqn:Ef; try done.
  - destruct (transition_progress _ _ _ _ _ _ _ _ _ E Htx Ef Hp Hg Hd) as [Hg1 Hd1].
    eapply IH; [..|exact H]; [by eapply transitions_path|done|done].
  - injection H as <- <- <-. eapply progress_store; [|done]. by eapply transition_error_frames.
Qed.

Lemma moveState_progress fuel st tx w0 cur w cur' e w' :
  dt_Tx (detail st) = Some tx -> commitPath cur = false -> progress tx w0 cur w ->
  moveState fuel st cur w = Done (cur', e) w' -> progress tx w0 cur' w'.
Proof using SO.
  intros Htx. revert cur w. induction fuel as [|fuel IH]; intros cur w Hp Hg H; cbn [Sbac.moveState] in H;
    (destruct (actions cur) as [a|] eqn:Ea; [|by injection H as <- <- <-]); [done|].
  pose proof (frames_actions _ _ st Ea w) as Hfr. unfold mbind at 1, M_bind, try at 1 in H.
  destruct (a st w) as [new w1|e1 w1| |] eqn:Er; try done.
  2: { injection H as <- <- <-. by eapply progress_store. }
  case_decide as Hn; [injection H as <- <- <-; by eapply progress_store|].
  destruct (actions_target sha512_256 Sign s _ _ _ _ _ _ Ea Er Hn) as [[f Hf'] _]. rewrite Hf' in H.
  apply bind_inv in H as ([cur1 e1] & w2 & H2 & H).
  eapply IH; [by eapply applyTransition_path| |exact H].
  eapply applyTransition_progress; [done|done|by eapply progress_store| |exact H2].
  by destruct cur.
Qed.

Lemma frames_onSBACEvent_shards shards ds b : frames (onSBACEvent_shards s shards ds b : M _).
Proof using Type.
  revert b. induction shards as [|v shards IH]; intros b; simpl; frame; apply IH.
Qed.
#[local] Hint Resolve frames_onSBACEvent_shards : sbac.
Lemma frames_processEvent st e : frames (processEvent Verify s st e : M _).
Proof using Type.
  unfold processEvent, cm_processEvent, bm_processEvent, onConsensusEvent, onSBACEvent,
    verifyEvidenceSignature, verifyTransactionSignature, shardsInvolvedWithoutSelf, err.
  frame; try (by intros w).
Qed.
Lemma processEvent_detail st e (w : World T) st' w' :
  processEvent Verify s st e w = Done st' w' -> detail st' = detail st.
Proof using Type.
  unfold processEvent. case_decide as Hd; [done|]. clear Hd. destruct e; intros (c & w1 & _ & H)%bind_inv;
    apply bind_inv in H as ([e|c'] & w2 & _ & [-> _]%ret_inv); done.
Qed.

(** C4. A transaction that succeeds spends its inputs exactly once: when an
    event brings a machine, started to decide about its inputs, to the creation
    of its outputs or further, then every input of this shard was not inactive
    before the event and is inactive after it, and every output of this shard
    is active. *)
Theorem success_spends_inputs fuel st tx cur e w st' cur' w' :
  dt_Tx (detail st) = Some tx -> commitPath cur = false -> created cur = false ->
  consumeEvent fuel st cur e w = Done (st', cur') w' -> created cur' = true ->
  spent tx w w' /\ outputs_active tx w'.
Proof using SO.
  intros Htx Hp Hc H Hc'.
  apply bind_inv in H as (r & w1 & H1 & H). cbv zeta in H.
  assert (store w1 = store w /\ dt_Tx (detail (match r with inr st' => st' | inl _ => st end)) = Some tx) as [Hw Htx'].
  { pose proof (frames_processEvent st e w) as Hf. unfold try in H1.
    destruct (processEvent Verify s st e w) as [st1 w2|e1 w2| |] eqn:E; try done; injection H1 as <- <-; [|done].
    split; [done|]. by rewrite (processEvent_detail _ _ _ _ _ E). }
  case_decide as Hend; [apply ret_inv in H as [[= -> ->] ->]; congruence|].
  apply bind_inv in H as ([cur1 e1] & w2 & H2 & [[= -> ->] ->]%ret_inv).
  eapply (moveState_progress _ _ _ w) in H2 as [_ Hg]; [by apply Hg|done|done|].
  apply (progress_store _ _ _ w); [done|]. split; [by intros k|]. congruence.
Qed.
End safety.

(** ** An aborted transaction *)

Section abort.
Context {Topo : Type} {NT : NetTopology Topo}.
Context {PT : Proto Transaction} {PM : Proto SBACMessage} {PC : Proto ConsensusTransaction}.
Context (sha512_256 : bytes -> bytes) (Sign : bytes -> bytes) (s : Config Topo).
#[local] Instance ST : Store contents := BadgerStore noFaults.
Abbreviation W := (World contents).

(** A loop over known objects does not panic. *)
Lemma moveStatus_loop_known allowed err new ks db :
  (forall k, k ∈ ks -> is_Some (status db k)) ->
  txn_each (moveStatus noFaults allowed err new) ks db <> Crash.
Proof using Type.
  revert db. induction ks as [|k ks IH]; intros db Hk; [done|]. cbn [txn_each]. rewrite txn_bind_eq.
  destruct (Hk k ltac:(left)) as [st Hst].
  destruct (allowed st) eqn:Ha.
  - rewrite (moveStatus_ok _ _ _ _ _ st) by done. cbn [mbind go_bind]. apply IH. intros j Hj.
    rewrite status_insert_status. case_decide; [done|]. apply Hk. by right.
  - unfold moveStatus. unfold status in Hst. apply bind_Some in Hst as (v & Hv & Hh).
    rewrite txn_bind_eq, (txn_Value_ok _ v) by done. cbn [mbind go_bind].
    rewrite txn_bind_eq, Hh. cbn [lift or_crash mbind go_bind]. rewrite txn_bind_eq, Ha. done.
Qed.

Lemma each_frames {A} (f : A -> M W ()) (xs : list A) (w : W) :
  (forall x w, exists w', f x w = Done tt w' /\ store w' = store w) ->
  exists w', each f xs w = Done tt w' /\ store w' = store w.
Proof using Type.
  intros Hf. revert w. induction xs as [|x xs IH]; intros w; [by exists w|]. simpl.
  destruct (Hf x w) as (w1 & H1 & E1). destruct (IH w1) as (w2 & H2 & E2).
  exists w2. rewrite (bind_Done _ _ _ _ _ H1), H2. split; congruence.
Qed.

Lemma publishObjects_eq (ids : IDs) (b : bool) (w : W) : total_shards s ->
  exists w', publishObjects s ids b w = Done tt w' /\ store w' = store w.
Proof using Type.
  intros Ht. apply each_frames. intros x w1. apply each_frames. intros o w2.
  rewrite (bind_Done _ _ _ _ _ (inShard_eq s _ w2 Ht)). destruct (own s (VersionID o)); eauto.
Qed.

Lemma lock_refused ks db k : (forall k, k ∈ ks -> is_Some (status db k)) ->
  k ∈ ks -> status db k = Some LOCKED -> exists e, st_LockObjects noFaults ks db = Fail e.
Proof using Type.
  intros Hks Hk Hl. unfold st_LockObjects, Update.
  pose proof (moveStatus_loop_known (fun st => st =? ACTIVE) ErrObjectCannotBeLocked LOCKED ks db Hks) as Hnc.
  destruct (txn_each _ ks db) as [[u db']|e|] eqn:E; [|by eexists|done].
  apply moveStatus_loop_inv in E as [[Hall _] _]. destruct (Hall k Hk) as (st & Hst & Ha).
  rewrite Hl in Hst. injection Hst as <-. done.
Qed.

Lemma inputObjectsForShard_eq (tx : Transaction) (w : W) : total_shards s ->
  exists b, inputObjectsForShard s (Some tx) w = Done (own_inputs s tx, b) w.
Proof using Type. intros Ht. by apply inputObjects_loop_eq. Qed.

Lemma toAborted_unlocks (st : States) (tx : Transaction) (w : W) :
  total_shards s -> dt_Tx (detail st) = Some tx ->
  (forall k, k ∈ own_inputs s tx -> status (store w) k = Some LOCKED \/ status (store w) k = Some ACTIVE) ->
  exists w', toAborted sha512_256 s st w = Done StateAborted w' /\
    forall k, k ∈ own_inputs s tx -> status (store w') k = Some ACTIVE.
Proof using Type.
  intros Ht Htx Hst. unfold toAborted. rewrite Htx.
  destruct (inputObjectsForShard_eq tx w Ht) as [b Hin]. rewrite (bind_Done _ _ _ _ _ Hin).
  set (t1 := set_status ACTIVE (own_inputs s tx) (store w)).
  rewrite (bind_Done _ _ w (inr tt) (set_store t1 w)).
  2: { unfold try, on_store, mbind, M_bind. simpl. unfold st_UnlockObjects, Update.
       rewrite moveStatus_loop_ok; [done|]. split; [|by left]. intros k Hk.
       destruct (Hst k Hk) as [-> | ->]; eauto. }
  set (t2 := <[finishedTxnKey (dt_ID (detail st)) := []]> t1).
  rewrite (bind_Done _ _ (set_store t1 w) (inr tt) (set_store t2 (set_store t1 w))) by done.
  cbn [deref or_crash]. rewrite (bind_Done _ _ _ tx (set_store t2 (set_store t1 w))) by done.
  destruct (publishObjects_eq (MakeIDs sha512_256 tx) false (set_store t2 (set_store t1 w)) Ht) as (w' & Hp & Hw).
  rewrite (bind_Done _ _ _ _ _ Hp). exists w'. split; [done|]. intros k Hk. rewrite Hw. simpl.
  unfold t2. rewrite status_insert_other by (intros; keys). unfold t1. by rewrite status_set_status, decide_True.
Qed.

(** Aborting releases every input of this shard, whoever holds its lock:
    when the inputs of a transaction cannot be locked because one of them is
    locked already - by another transaction, since this one has locked nothing -
    the machine aborts and leaves all of them active, the lock of the other
    transaction included. *)
Theorem abort_releases_locks (st : States) (tx : Transaction) (w : W) (k : bytes) :
  total_shards s -> dt_Tx (detail st) = Some tx ->
  (forall j, j ∈ own_inputs s tx -> status (store w) j = Some LOCKED \/ status (store w) j = Some ACTIVE) ->
  k ∈ own_inputs s tx -> status (store w) k = Some LOCKED ->
  exists w', applyTransition sha512_256 Sign s table_size st StateWaitingForConsensus1 StateObjectLocked w =
      Done (StateAborted, None) w' /\
    forall j, j ∈ own_inputs s tx -> status (store w') j = Some ACTIVE.
Proof using Type.
  intros Ht Htx Hst Hk Hl.
  assert (toObjectLocked s st w = Done StateAborted w) as Hlock.
  { unfold toObjectLocked. rewrite Htx. destruct (inputObjectsForShard_eq tx w Ht) as [b Hin].
    rewrite (bind_Done _ _ _ _ _ Hin). destruct (lock_refused (own_inputs s tx) (store w) k) as [e He]; [|done|done|].
    { intros j Hj. destruct (Hst j Hj) as [-> | ->]; eauto. }
    unfold try, on_store, mbind, M_bind. simpl. by rewrite He. }
  destruct (toAborted_unlocks st tx w Ht Htx Hst) as (w' & Ha & Hw'). exists w'. split; [|done].
  unfold table_size. cbn [applyTransition transitions].
  rewrite (bind_Done _ _ w (inr StateAborted) w) by (unfold try; by rewrite Hlock).
  rewrite (bind_Done _ _ w (inr StateAborted) w') by (unfold try; by rewrite Ha). done.
Qed.
End abort.
