(* ===== verification/SbacVotes.v ===== *)
(** * SbacVotes: the outcome of the votes of the other shards

    What [onSBACEvent] of [src/sbac/sbac_sm.go] decides from the decisions
    received so far, against the contract of the topology. *)
From S2P Require Import Prelude Codec Database Topology SbacStore SbacTypes Sbac SbacProps.

Lemma elem_of_remove_first x y l : NoDup l -> y ∈ remove_first x l <-> y ∈ l /\ y <> x.
Proof.
  induction 1 as [|z l Hz Hnd IH]; simpl; [set_solver|].
  destruct (Z.eqb_spec z x) as [->|Hne]; [set_solver|]. rewrite !elem_of_cons, IH. naive_solver.
Qed.

Definition accepts (ds : gmap uint64 SignedDecision) (n : uint64) : bool :=
  match ds !! n with Some d => sd_Decision d =? SBACDecision_ACCEPT | None => false end.
Definition rejects (ds : gmap uint64 SignedDecision) (n : uint64) : bool :=
  match ds !! n with Some d => negb (sd_Decision d =? SBACDecision_ACCEPT) | None => false end.

Lemma countDecisions_spec ns ds a r : 0 <= a -> 0 <= r ->
  a + Z.of_nat (length ns) < 2 ^ 64 -> r + Z.of_nat (length ns) < 2 ^ 64 ->
  countDecisions ns ds a r =
  (a + Z.of_nat (length (filter (accepts ds) ns)), r + Z.of_nat (length (filter (rejects ds) ns))).
Proof.
  revert a r. induction ns as [|n ns IH]; intros a r Ha Hr Ha' Hr'.
  { simpl. f_equal; lia. }
  assert (countDecisions (n :: ns) ds a r =
    if accepts ds n then countDecisions ns ds (u64 (a + 1)) r
    else if rejects ds n then countDecisions ns ds a (u64 (r + 1)) else countDecisions ns ds a r) as ->.
  { simpl. unfold accepts, rejects. destruct (ds !! n); [|done]. by destruct (_ =? _). }
  assert (accepts ds n = true -> rejects ds n = false) as Hx.
  { unfold accepts, rejects. destruct (ds !! n); [|done]. by intros ->. }
  cbn [length] in *. rewrite !filter_cons.
  destruct (accepts ds n); [rewrite Hx by done|destruct (rejects ds n)]; simpl; rewrite IH; unwrap;
    try lia; f_equal; lia.
Qed.

Lemma filter_all {A} (P : A -> bool) (l : list A) :
  (length l <= length (filter P l))%nat <-> forall x, x ∈ l -> P x = true.
Proof.
  induction l as [|x l IH]; [split; [set_solver|done]|]. rewrite filter_cons.
  pose proof (length_filter P l) as Hle. case_decide as Hx; simpl.
  - rewrite <-Nat.succ_le_mono, IH. split; [|set_solver]. intros H y [->|?]%elem_of_cons; [|auto].
    by apply Is_true_true.
  - split; [lia|]. intros H. destruct Hx. apply Is_true_true. apply H. left.
Qed.

Section votes.
Context {T : Type} {ST : Store T} {Topo : Type} {NT : NetTopology Topo}.
Context {PT : Proto Transaction}.
Context (s : Config Topo).
Context {valid : Topo -> Prop} {shards : Topo -> Z} {TO : NetTopologyOk Topo valid shards}.
Context (Hvalid : valid (c_top s)).

Abbreviation M := (M (World T)).

(** The other shards that hold an input or a reference of a transaction. *)
Definition involved (tx : Transaction) (sh : uint64) : Prop :=
  sh <> c_shardID s /\ exists k, ShardForVersionID k (c_top s) = Ret sh /\
    k ∈ Traces tx ≫= fun t => InputObjectVersionIDs t ++ InputReferenceVersionIDs t.

Lemma shardsOf_eq ks (w : World T) : exists shs, shardsOf s ks w = Done shs w /\
  forall sh, sh ∈ shs <-> exists k, ShardForVersionID k (c_top s) = Ret sh /\ k ∈ ks.
Proof using TO Hvalid.
  induction ks as [|k ks (shs & IH & Hin)]; simpl; [exists []; split; [done|set_solver]|].
  destruct (key_shard (c_top s) k Hvalid) as (sh & Hk & _). exists (sh :: shs).
  rewrite (bind_Done _ _ w sh w) by (unfold call; by rewrite Hk). rewrite (bind_Done _ _ _ _ _ IH).
  split; [done|]. intros x. rewrite elem_of_cons, Hin. setoid_rewrite elem_of_cons. split.
  - intros [->|(j & ? & ?)]; eauto.
  - intros (j & Hj & [->|?]); [left; congruence|eauto].
Qed.

Lemma shardsInvolvedWithoutSelf_eq tx (w : World T) :
  exists shs, shardsInvolvedWithoutSelf s (Some tx) w = Done shs w /\ forall sh, sh ∈ shs <-> involved tx sh.
Proof using TO Hvalid.
  destruct (shardsOf_eq (Traces tx ≫= fun t => InputObjectVersionIDs t ++ InputReferenceVersionIDs t) w)
    as (shs & Hs & Hin).
  eexists. unfold shardsInvolvedWithoutSelf. rewrite (bind_Done _ _ w (fromUniqIds (toUniqIds shs)) w).
  2: { unfold shardsInvolved. rewrite (bind_Done _ _ _ tx w) by done. by rewrite (bind_Done _ _ _ _ _ Hs). }
  split; [done|]. intros sh. unfold fromUniqIds, toUniqIds.
  rewrite elem_of_remove_first by apply NoDup_elements.
  rewrite elem_of_elements, elem_of_list_to_set, Hin. unfold involved. tauto.
Qed.

Lemma involved_nodes tx sh : involved tx sh -> exists ns, NodesInShard sh (c_top s) = Ret ns /\
  Z.of_nat (length ns) = ShardSize (c_top s).
Proof using TO Hvalid.
  intros (_ & k & Hk & _). destruct (key_shard (c_top s) k Hvalid) as (sh' & Hk' & Hb).
  assert (sh' = sh) as -> by congruence.
  destruct (shard_nodes (c_top s) sh Hvalid Hb) as (ns & ? & _ & ? & _). eauto.
Qed.

Context (Hsize : c_shardSize s = ShardSize (c_top s)) (Hwidth : 0 < ShardSize (c_top s) < 2 ^ 64).

(** A shard rejects with t+1 rejections; it accepts with all its nodes. *)
Definition shard_rejects (ds : gmap uint64 SignedDecision) (sh : uint64) : Prop := exists ns,
  NodesInShard sh (c_top s) = Ret ns /\
  quorumt1 (c_shardSize s) <= Z.of_nat (length (filter (rejects ds) ns)).
Definition shard_accepts (ds : gmap uint64 SignedDecision) (sh : uint64) : Prop := exists ns,
  NodesInShard sh (c_top s) = Ret ns /\ forall n, n ∈ ns -> accepts ds n = true.

Lemma onSBACEvent_shards_eq shs ds b (w : World T) :
  (forall sh, sh ∈ shs -> exists ns, NodesInShard sh (c_top s) = Ret ns /\
    Z.of_nat (length ns) = ShardSize (c_top s)) ->
  exists r, onSBACEvent_shards s shs ds b w = Done r w /\
    (r = None <-> exists sh, sh ∈ shs /\ shard_rejects ds sh) /\
    (r = Some false <-> b = false /\ (forall sh, sh ∈ shs -> shard_accepts ds sh) /\
                        ~ exists sh, sh ∈ shs /\ shard_rejects ds sh).
Proof using TO Hvalid Hsize Hwidth.
  revert b. induction shs as [|v shs IH]; intros b Hns.
  { exists (Some b). split; [done|]. split; [split; [done|set_solver]|].
    split; [intros [= ->]; split; [done|set_solver]|by intros [-> _]]. }
  destruct (Hns v ltac:(left)) as (ns & Hv & Hlen).
  assert (forall ns', NodesInShard v (c_top s) = Ret ns' -> ns' = ns) as Huniq by (intros; congruence).
  cbn [onSBACEvent_shards]. rewrite (bind_Done _ _ w ns w) by (unfold call; by rewrite Hv).
  rewrite countDecisions_spec by lia. rewrite !Z.add_0_l.
  destruct (Z.leb_spec (quorumt1 (c_shardSize s)) (Z.of_nat (length (filter (rejects ds) ns)))) as [Hr|Hr].
  { exists None. split; [done|]. assert (exists sh, sh ∈ v :: shs /\ shard_rejects ds sh) as Hex.
    { exists v. split; [left|]. by exists ns. }
    split; [done|]. split; [done|]. by intros (_ & _ & []). }
  assert ((exists sh, sh ∈ v :: shs /\ shard_rejects ds sh) <-> exists sh, sh ∈ shs /\ shard_rejects ds sh) as Hex.
  { split; intros (sh & Hsh & Hr'); [|exists sh; split; [by right|done]].
    apply elem_of_cons in Hsh as [->|?]; [|eauto]. destruct Hr' as (ns' & ->%Huniq & ?). lia. }
  assert (c_shardSize s <= Z.of_nat (length (filter (accepts ds) ns)) <-> shard_accepts ds v) as Hacc.
  { rewrite Hsize, <-Hlen, <-Nat2Z.inj_le, filter_all. split; [by exists ns|]. by intros (ns' & ->%Huniq & ?). }
  assert (forall sh, sh ∈ shs -> exists ns, NodesInShard sh (c_top s) = Ret ns /\
    Z.of_nat (length ns) = ShardSize (c_top s)) as Hns' by (intros; apply Hns; by right).
  destruct (Z.leb_spec (c_shardSize s) (Z.of_nat (length (filter (accepts ds) ns)))) as [Ha|Ha].
  - destruct (IH b Hns') as (r & Hrun & H1 & H2). exists r. rewrite Hex, H1, H2.
    split; [done|]. split; [done|]. setoid_rewrite elem_of_cons. naive_solver.
  - destruct (IH true Hns') as (r & Hrun & H1 & H2). exists r. rewrite Hex, H1, H2.
    split; [done|]. split; [done|]. split; [by intros [? _]|]. intros (_ & Hall & _).
    assert (shard_accepts ds v) as Hv' by (apply Hall; left). apply Hacc in Hv'. lia.
Qed.

Context (Verify : bytes -> bytes -> bytes -> bool).

(** C9. The outcome of a vote: with the keys of the voters known and a
    serialiser that does not panic, the decisions
    received so far reject the transaction exactly when in some other involved
    shard t+1 nodes reject it, and accept it exactly when every node of every
    other involved shard accepts it; the signatures have no influence. *)
Theorem votes_spec (st : States) (tx : Transaction) (ds : gmap uint64 SignedDecision) (w : World T) :
  dt_Tx (detail st) = Some tx -> Marshal tx <> Crash ->
  (forall n, n ∈ dom ds -> is_Some (PublicKeys (c_top s) !! n)) ->
  exists r, onSBACEvent Verify s st ds w = Done r w /\
    (r = StateSBACRejected <-> exists sh, involved tx sh /\ shard_rejects ds sh) /\
    (r = StateSBACAccepted <-> forall sh, involved tx sh -> shard_accepts ds sh).
Proof using TO Hvalid Hsize Hwidth.
  intros Htx Hmar Hkeys. destruct (shardsInvolvedWithoutSelf_eq tx w) as (shs & Hs & Hin).
  destruct (onSBACEvent_shards_eq shs ds false w) as (r & Hr & H1 & H2).
  { intros sh Hsh. by apply (involved_nodes tx), Hin. }
  assert ((forall sh, sh ∈ shs -> shard_accepts ds sh) -> ~ exists sh, sh ∈ shs /\ shard_rejects ds sh) as Hex.
  { intros Hall (sh & Hsh & ns & Hns & Hq). destruct (Hall sh Hsh) as (ns' & Hns' & Ha).
    assert (ns' = ns) as -> by congruence.
    assert (filter (rejects ds) ns = []) as Hnil.
    { destruct (filter (rejects ds) ns) as [|n l] eqn:E; [done|].
      assert (n ∈ filter (rejects ds) ns) as [Hrj Hn]%list_elem_of_filter by (rewrite E; left).
      specialize (Ha n Hn). unfold accepts, rejects in *. destruct (ds !! n); [|done]. by rewrite Ha in Hrj. }
    rewrite Hnil in Hq. unfold quorumt1 in Hq.
    assert (0 <= c_shardSize s `div` 3 <= c_shardSize s) by (split; [apply Z.div_pos|apply Z.div_le_upper_bound]; lia).
    rewrite wrap_small in Hq by (split; [lia|]; pose proof (Z.div_lt_upper_bound (c_shardSize s) 3 (2 ^ 63)); lia).
    simpl in Hq. lia. }
  unfold onSBACEvent. rewrite Htx, (bind_Done _ _ _ _ _ Hs), (bind_Done _ _ _ _ _ Hr).
  setoid_rewrite <-Hin. destruct r as [[]|].
  - exists StateSBACWaiting. split; [done|]. split; [split; [done|by intros ?%H1]|].
    split; [done|]. intros Hall. assert (Some true = Some false) by (apply H2; auto). done.
  - exists StateSBACAccepted. split.
    { rewrite (bind_Done _ _ w tt w); [done|].
      assert (forall n d, (n, d) ∈ map_to_list ds -> is_Some (PublicKeys (c_top s) !! n)) as Hk.
      { intros n d Hnd%elem_of_map_to_list. apply Hkeys. by apply elem_of_dom_2 in Hnd. }
      clear -Hk Hmar. induction (map_to_list ds) as [|[n d] l IH]; [done|]. cbn [each].
      rewrite (bind_Done _ _ w tt w); [apply IH; intros; eapply Hk; by right|].
      destruct (Hk n d ltac:(left)) as [key Hkey].
      unfold try, verifyTransactionSignature, marshal_tx, mbind, M_bind, run, deref. simpl.
      destruct (Marshal tx) as [b|e|]; [by rewrite Hkey|done|done]. }
    split; [split; [done|by intros ?%H1]|]. split; [|done]. intros _. by apply H2.
  - exists StateSBACRejected. split; [done|]. split; [split; [|done]; intros _; by apply H1|].
    split; [done|]. intros Hall%Hex. by destruct Hall; apply H1.
Qed.
End votes.
