(* ===== verification/SbacService.v ===== *)
(** * SbacService: scheduling and requests

    Model of [src/sbac/state_machine_scheduler.go], [pending_events.go] and
    [sbac.go].  A machine is an address in the heap of machines, since the
    scheduler may forget one that still has events to consume; the goroutines
    are the steps [machine_step] and [pe_step]. *)
From S2P Require Import Prelude Codec Database BroadcastStore Broadcast Topology.
From S2P Require Import SbacStore SbacStoreProps SbacTypes Sbac SbacProps.

(** ** Requests and responses *)

Definition Opcode_ADD_TRANSACTION : Z := 1.
Definition Opcode_QUERY_OBJECT : Z := 2.
Definition Opcode_CREATE_OBJECT : Z := 3.
Definition Opcode_STATES : Z := 4.
Definition Opcode_CREATE_OBJECTS : Z := 6.

Record AddTransactionRequest := MkAddTransactionRequest {
  ar_Tx : option Transaction; ar_Evidences : gmap uint64 bytes }.
Record AddTransactionResponse := MkAddTransactionResponse { as_Objects : list Object }.
(** The version ID of a query may be nil. *)
Record QueryObjectRequest := MkQueryObjectRequest { q_VersionID : option bytes }.
Record QueryObjectResponse := MkQueryObjectResponse { qr_Object : option Object; qr_Error : string }.
Record CreateObjectRequest := MkCreateObjectRequest { cr_Object : bytes }.
Record CreateObjectResponse := MkCreateObjectResponse { cs_ID : bytes; cs_Error : string }.
Record CreateObjectsRequest := MkCreateObjectsRequest { cr_Objects : list bytes }.
Record CreateObjectsResponse := MkCreateObjectsResponse { cs_IDs : list bytes; css_Error : string }.
Record SBACMessageAck := MkSBACMessageAck { LastID : uint64 }.
Record StateReport := MkStateReport {
  sr_HashID : uint32; sr_State : string;
  CommitDecisions : gmap uint64 bool; Phase1Decisions : gmap uint64 bool; Phase2Decisions : gmap uint64 bool;
  PendingEvents : Z }.
Record StatesReportResponse := MkStatesReportResponse { srr_States : list StateReport; EventsInQueue : Z }.

Definition State_String (st : State) : string :=
  match st with
  | StateWaitingForConsensus1 => "StateWaitingOnConsensus1"
  | StateObjectLocked => "StateObjectLocked"
  | StateRejectPhase1Broadcasted => "StateRejectPhase1Broadcasted"
  | StateAcceptPhase1Broadcasted => "StateAcceptPhase1Broadcasted"
  | StateWaitingForPhase1 => "StateWaitingForPhase1"
  | StateConsensus2Triggered => "StateConsensus2Triggered"
  | StateWaitingForConsensus2 => "StateWaitingForConsensus2"
  | StateAcceptPhase2Broadcasted => "StateAcceptPhase2Broadcasted"
  | StateRejectPhase2Broadcasted => "StateRejectPhase2Broadcasted"
  | StateWaitingForPhase2 => "StateWaitingForPhase2"
  | StateObjectsDeactivated => "StateObjectsDeactivated"
  | StateObjectsCreated => "StateObjectsCreated"
  | StateSucceeded => "StateSucceeded"
  | StateCommitObjectsBroadcasted => "StateCommitObjectsBroadcasted"
  | StateConsensusCommitTriggered => "StateConsensusCommitTriggered"
  | StateWaitingForCommit => "StateWaitingForCommit"
  | StateWaitingForConsensusCommit => "StateWaitingForConsensusCommit"
  | StateAborted => "StateAborted"
  end.

Section service.
Context {T : Type} {ST : Store T} {Topo : Type} {NT : NetTopology Topo}.
Context {PT : Proto Transaction} {PM : Proto SBACMessage} {PC : Proto ConsensusTransaction}.
Context {PAR : Proto AddTransactionRequest} {PAS : Proto AddTransactionResponse}.
Context {PQ : Proto QueryObjectRequest} {PQR : Proto QueryObjectResponse}.
Context {PCR : Proto CreateObjectRequest} {PCS : Proto CreateObjectResponse}.
Context {PCRs : Proto CreateObjectsRequest} {PCSs : Proto CreateObjectsResponse}.
Context {PK : Proto SBACMessageAck} {PSR : Proto StatesReportResponse} {PB : Proto Block}.
Context (sha512_256 : bytes -> bytes).
Context (Verify : bytes -> bytes -> bytes -> bool) (Sign : bytes -> bytes).
Context (s : Config Topo).

Abbreviation M := (M (World T)).

(** ** The scheduler *)

Definition newMachine (d : DetailTx) (initialState : State) : M nat :=
  w ← get;
  let sm := length (machines w) in
  _ ← modify (set_machines (machines w ++ [NewStateMachine d initialState])
                           (<[dt_ID d := sm]> (txstates w)));
  mret sm.

(** A machine of the same transaction is replaced. *)
Definition Add (d : DetailTx) (initialState : State) : M nat := newMachine d initialState.

Definition sch_Get (txID : bytes) : M (option nat) := w ← get; mret (txstates w !! txID).

Definition GetOrCreate (d : DetailTx) (initialState : State) : M nat :=
  o ← sch_Get (dt_ID d);
  match o with Some sm => mret sm | None => newMachine d initialState end.

Definition decisionsOf (st : States) (op : SBACOp) : M (gmap uint64 bool) :=
  c ← deref (sbac st !! op);
  mret ((fun d => sd_Decision d =? SBACDecision_ACCEPT) <$> bm_decisions c).

Definition sm_StateReport (sm : StateMachine) : M StateReport :=
  commit ← decisionsOf (states sm) SBACOp_Commit;
  phase1 ← decisionsOf (states sm) SBACOp_Phase1;
  phase2 ← decisionsOf (states sm) SBACOp_Phase2;
  mret (MkStateReport (HashID (detail (states sm))) (State_String (state sm)) commit phase1 phase2
          (Z.of_nat (length (events sm)))).

Fixpoint reports (sms : list nat) : M (list StateReport) :=
  match sms with
  | [] => mret []
  | i :: sms => w ← get; sm ← deref (machines w !! i); r ← sm_StateReport sm;
                rs ← reports sms; mret (r :: rs)
  end.

Definition StatesReport : M (list StateReport) :=
  w ← get; reports (map_to_list (txstates w)).*2.

Definition finished (w : World T) (sm : nat) : bool :=
  match machines w !! sm with
  | Some m => bool_decide (state m = StateAborted \/ state m = StateSucceeded)
  | None => false
  end.

(** One round of [RunGC]. *)
Definition RunGC_round : M () :=
  modify (fun w => set_machines (machines w) (filter (fun kv => ~ finished w kv.2) (txstates w)) w).

(** ** Queues of events *)

(** [StateMachine.OnEvent]. *)
Definition sm_OnEvent (sm : nat) (e : Event) : M () :=
  w ← get;
  m ← deref (machines w !! sm);
  modify (set_machines (<[sm := MkStateMachine (events m ++ [e]) (states m) (state m)]> (machines w))
                       (txstates w)).

(** One round of [pendingEvents.Run] of a machine: its callback always returns
    true.  [false] when the queue is empty. *)
Definition machine_step (fuel : nat) (sm : nat) : M bool :=
  w ← get;
  m ← deref (machines w !! sm);
  match events m with
  | [] => mret false
  | e :: es =>
      '(st, cur) ← consumeEvent sha512_256 Verify Sign s fuel (states m) (state m) e;
      _ ← modify (fun w => set_machines (<[sm := MkStateMachine es st cur]> (machines w)) (txstates w) w);
      mret true
  end.

Definition pe_OnEvent (e : Event) : M () := modify (fun w => set_pe (pe w ++ [e]) w).

Definition consumeEvents (e : Event) : M bool :=
  w ← get;
  r ← try (run (TxnFinished (ev_TxID e) (store w)));
  match r with
  | inl _ => mret true
  | inr _ =>
      o ← sch_Get (ev_TxID e);
      match o with
      | Some sm => _ ← sm_OnEvent sm e; mret true
      | None => mret false
      end
  end.

(** One round of [pendingEvents.Run] of the service. *)
Definition pe_step : M bool :=
  w ← get;
  match pe w with
  | [] => mret false
  | e :: es =>
      _ ← modify (set_pe es);
      b ← consumeEvents e;
      _ ← (if b : bool then mret tt else pe_OnEvent e);
      mret true
  end.

(** ** Deliveries and requests *)

Definition mkDetail (id : bytes) (tx : option Transaction) (evidences : gmap uint64 bytes) : DetailTx :=
  MkDetailTx id (marshal_tx' tx) tx evidences (ID id).

Definition checkEvent (d : ConsensusTransaction) : M () :=
  if ct_Op d =? ConsensusOp_Consensus1 then
    _ ← GetOrCreate (mkDetail (ct_TxID d) (ct_Tx d) (ct_Evidences d)) StateWaitingForConsensus1; mret tt
  else mret tt.

(** Transaction data that is no consensus transaction is skipped. *)
Definition deliverTx (data : TransactionData) : M () :=
  match Unmarshal (td_Data data) with
  | Ret tx => _ ← checkEvent tx; pe_OnEvent (ConsensusEvent tx)
  | _ => mret tt
  end.

Definition handleDeliver (blocks : list SignedData) : M () :=
  each (fun signed =>
          block ← call (Unmarshal (Data signed));
          match b_Transactions block with
          | Some txs => l ← call (iterate (Z.to_nat (Count txs)) (Iter txs)); each deliverTx l
          | None => deref None
          end) blocks.

Definition sb_AddTransaction (tx : option Transaction) (evidences : gmap uint64 bytes) : M (list Object) :=
  t ← deref tx;
  let ids := MakeIDs sha512_256 t in
  b ← verifyEvidenceSignature Verify s (marshal_tx' tx) evidences;
  if b : bool then
    let objects := TraceObjectPairs ids ≫= to_OutputObjects in
    _ ← Add (mkDetail (ids_TxID ids) tx evidences) StateWaitingForConsensus1;
    b ← run (Marshal (MkConsensusTransaction (ids_TxID ids) tx evidences ConsensusOp_Consensus1 (c_nodeID s)));
    _ ← modify (add_broadcast b);
    mret objects
  else err "sbac: invalid evidences from nodes".

Definition handleAddTransaction (payload : bytes) (id : uint64) : M Message :=
  req ← run (Unmarshal payload);
  objects ← sb_AddTransaction (ar_Tx req) (ar_Evidences req);
  b ← run (Marshal (MkAddTransactionResponse objects));
  mret (MkMessage id Opcode_ADD_TRANSACTION b).

(** [b, _ := proto.Marshal(res)]. *)
Definition payload_of {A} `{Proto A} (x : A) : bytes := match Marshal x with Ret b => b | _ => [] end.

Definition createPayload (id : uint64) (res : CreateObjectResponse) : M Message :=
  mret (MkMessage id Opcode_CREATE_OBJECT (payload_of res)).
Definition createObjectsPayload (id : uint64) (res : CreateObjectsResponse) : M Message :=
  mret (MkMessage id Opcode_CREATE_OBJECT (payload_of res)).
Definition queryPayload (id : uint64) (res : QueryObjectResponse) : M Message :=
  mret (MkMessage id Opcode_QUERY_OBJECT (payload_of res)).

Definition store_create (object : bytes) : M Object :=
  w ← get;
  '(o, t) ← run (CreateObject (sha512_256 object) object (store w));
  _ ← modify (set_store t);
  mret o.

Definition handleCreateObject (payload : bytes) (id : uint64) : M Message :=
  match Unmarshal payload with
  | Ret req =>
      if decide (cr_Object req = []) then createPayload id (MkCreateObjectResponse [] "sbac: nil object") else
      r ← try (store_create (cr_Object req));
      createPayload id (match r with
                        | inr o => MkCreateObjectResponse (VersionID o) ""
                        | inl e => MkCreateObjectResponse [] e
                        end)
  | _ => createPayload id (MkCreateObjectResponse [] "sbac: new_object unmarshaling error: %v")
  end.

(** The loop stops at the first object that cannot be created; those before it
    stay. *)
Fixpoint createAll (objects : list bytes) (out : list bytes) : M (list bytes * string) :=
  match objects with
  | [] => mret (out, EmptyString)
  | object :: objects =>
      r ← try (store_create object);
      match r with
      | inr o => createAll objects (out ++ [VersionID o])
      | inl e => mret (out, e)
      end
  end.

Definition handleCreateObjects (payload : bytes) (id : uint64) : M Message :=
  match Unmarshal payload with
  | Ret req =>
      if decide (cr_Objects req = []) then createObjectsPayload id (MkCreateObjectsResponse [] "sbac: nil object") else
      '(out, e) ← createAll (cr_Objects req) [];
      createObjectsPayload id (MkCreateObjectsResponse (if decide (e = EmptyString) then out else []) e)
  | _ => createObjectsPayload id (MkCreateObjectsResponse [] "sbac: new_object unmarshaling error: %v")
  end.

Definition handleSBAC (payload : bytes) (msgID : uint64) : M Message :=
  req ← run (Unmarshal payload);
  _ ← (if sm_Op req =? SBACOp_Commit then
         _ ← GetOrCreate (mkDetail (sm_TxID req) (sm_Tx req) (sm_Evidences req)) StateWaitingForCommit; mret tt
       else mret tt);
  _ ← pe_OnEvent (SBACEvent req);
  b ← run (Marshal (MkSBACMessageAck msgID));
  mret (MkMessage msgID Opcode_SBAC b).

Definition handleQueryObject (payload : bytes) (id : uint64) : M Message :=
  match Unmarshal payload with
  | Ret req =>
      match q_VersionID req with
      | None => queryPayload id (MkQueryObjectResponse None "sbac: nil versionid")
      | Some vid =>
          w ← get;
          r ← try (run (GetObjects [vid] (store w)));
          queryPayload id (match r with
            | inl e => MkQueryObjectResponse None e
            | inr [o] => MkQueryObjectResponse (Some o) ""
            | inr _ => MkQueryObjectResponse None "sbac: invalid number of objects found, expected %v found %v"
            end)
      end
  | _ => queryPayload id (MkQueryObjectResponse None "sbac: query_object unmarshaling error: %v")
  end.

Definition QueryObjectByVersionID (versionid : bytes) : M bytes :=
  w ← get;
  objects ← run (GetObjects [versionid] (store w));
  match objects with
  | [o] => mret (Value o)
  | _ => err "invalid number of objects found, expected %v found %v"
  end.

Definition handleStates (id : uint64) : M Message :=
  sr ← StatesReport;
  w ← get;
  b ← run (Marshal (MkStatesReportResponse sr (Z.of_nat (length (pe w)))));
  mret (MkMessage id Opcode_STATES b).

Definition Handle (peerID : uint64) (m : Message) : M Message :=
  if m_Opcode m =? Opcode_ADD_TRANSACTION then handleAddTransaction (m_Payload m) (m_ID m)
  else if m_Opcode m =? Opcode_QUERY_OBJECT then handleQueryObject (m_Payload m) (m_ID m)
  else if m_Opcode m =? Opcode_CREATE_OBJECT then handleCreateObject (m_Payload m) (m_ID m)
  else if m_Opcode m =? Opcode_STATES then handleStates (m_ID m)
  else if m_Opcode m =? Opcode_SBAC then handleSBAC (m_Payload m) (m_ID m)
  else if m_Opcode m =? Opcode_CREATE_OBJECTS then handleCreateObjects (m_Payload m) (m_ID m)
  else err "sbac: unknown message opcode: %v".
End service.

(** ** What the scheduling does *)

Section lemmas.
Context {T : Type} {ST : Store T} {Topo : Type} {NT : NetTopology Topo} {PT : Proto Transaction}.
Context (Verify : bytes -> bytes -> bytes -> bool) (s : Config Topo).

(** A message with an operation that does not exist panics the node. *)
Lemma unknown_op_panics d init m (w : World T) :
  sm_TxID m = dt_ID d -> 2 < sm_Op m -> processEvent Verify s (states (NewStateMachine d init)) (SBACEvent m) w = Panicked.
Proof using Type.
  intros Hid Hop. unfold processEvent. cbn [ev_TxID]. rewrite decide_False by (intros []; done).
  unfold mbind, M_bind, deref. cbn [states NewStateMachine sbac].
  rewrite !lookup_insert_ne, lookup_singleton_ne by (unfold SBACOp_Commit, SBACOp_Phase2, SBACOp_Phase1; lia).
  done.
Qed.

(** Adding a transaction again replaces its machine: the decisions and the
    state of the first one are out of reach of later events. *)
Lemma Add_replaces d init (w : World T) sm w' : Add d init w = Done sm w' ->
  sm = length (machines w) /\ txstates w' !! dt_ID d = Some sm /\
  machines w' !! sm = Some (NewStateMachine d init).
Proof using Type.
  intros [= <- <-]. split; [done|]. simpl. split; [by rewrite lookup_insert_eq|].
  rewrite lookup_app_r by done. by rewrite Nat.sub_diag.
Qed.

(** While the machine of a transaction is known, looking it up again changes
    nothing. *)
Lemma GetOrCreate_idempotent d init init' (w : World T) sm w' :
  GetOrCreate d init w = Done sm w' -> GetOrCreate d init' w' = Done sm w'.
Proof using Type.
  unfold GetOrCreate, mbind, M_bind. simpl. destruct (txstates w !! dt_ID d) as [i|] eqn:E.
  - intros [= <- <-]. by rewrite E.
  - intros [= <- <-]. simpl. by rewrite lookup_insert_eq.
Qed.
End lemmas.
