(* ===== verification/SbacExample.v ===== *)
(** * SbacExample: concrete transactions

    Two shards of four nodes, an object of each shard, and the runs of the
    state machine on them. *)
From S2P Require Import Prelude Codec Database Topology SbacStore SbacStoreProps SbacTypes Sbac SbacProps.
From S2P Require Import SbacSafety SbacVotes.

(** The first byte of a key tells its shard: shard 1 when even. *)
Definition ex_sum (k _ : bytes) : uint64 := default 0 (head k).
Definition ex_top : Topology :=
  MkTopology ∅ [] [] (list_to_map ((fun n => (n, [n])) <$> [1; 2; 3; 4; 5; 6; 7; 8])) [] 2 4.
Definition ex_cfg : Config Topology := MkConfig 1 1 4 ex_top.
#[export] Instance ex_nt : NetTopology Topology := Topology_NetTopology ex_sum.
#[export] Instance ex_st : Store contents := BadgerStore noFaults.
#[export] Instance ex_proto A : Proto A := {| Marshal := fun _ => Ret [1]; Unmarshal := fun _ => Fail "no" |}.

Definition ex_sha (_ : bytes) : bytes := [0; 99].
Definition ex_verify (_ _ _ : bytes) : bool := true.
Definition ex_sign (d : bytes) : bytes := d.

Definition obj1 : bytes := [0; 7].
Definition obj2 : bytes := [1; 5].
Definition ex_trace (ins : list bytes) : Trace :=
  MkTrace [1] [2] ins [] [MkOutputObject [] [4]] [] [] [] [[3]] [].
Definition ex_tx (ins : list bytes) : Transaction := MkTransaction [ex_trace ins].
Definition ex_machine (ins : list bytes) : StateMachine :=
  NewStateMachine (MkDetailTx [8] [1] (Some (ex_tx ins)) {[1 := [5]]} 3) StateWaitingForConsensus1.
Definition ex_world (st : ObjectStatus) : World contents :=
  MkWorld (<[objectKey obj1 := [3]]> {[objectStatusKey obj1 := [st]]}) [] [] [] [] [] [] ∅.
Definition ex_event (ins : list bytes) : Event :=
  ConsensusEvent (MkConsensusTransaction [8] (Some (ex_tx ins)) {[1 := [5]]} ConsensusOp_Consensus1 1).

Lemma ex_total : total_shards ex_cfg.
Proof. intros k. by eexists. Qed.

(** A transaction of one shard runs to its end with one event. *)
Lemma success_spends_inputs_witness :
  exists st' w', consumeEvent ex_sha ex_verify ex_sign ex_cfg 12 (states (ex_machine [obj1]))
      StateWaitingForConsensus1 (ex_event [obj1]) (ex_world ACTIVE) = Done (st', StateSucceeded) w' /\
    status (store (ex_world ACTIVE)) obj1 <> Some INACTIVE /\ status (store w') obj1 = Some INACTIVE.
Proof.
  assert (match consumeEvent ex_sha ex_verify ex_sign ex_cfg 12 (states (ex_machine [obj1]))
      StateWaitingForConsensus1 (ex_event [obj1]) (ex_world ACTIVE) with
      Done (_, StateSucceeded) _ => true | _ => false end = true) as E by by vm_compute.
  destruct (consumeEvent _ _ _ _ _ _ _ _ _) as [[st' cur'] w'| | |] eqn:Ec; try done.
  destruct cur'; try done. exists st', w'. split; [done|].
  destruct (success_spends_inputs (SO := BadgerStore_ok noFaults (fun _ => eq_refl)) ex_sha ex_verify ex_sign
    ex_cfg status 12 (states (ex_machine [obj1])) (ex_tx [obj1]) StateWaitingForConsensus1 (ex_event [obj1])
    (ex_world ACTIVE) st' StateSucceeded w' eq_refl eq_refl eq_refl Ec eq_refl) as [Hs _].
  apply Hs. vm_compute. left.
Defined.

Lemma moveState_terminates_witness :
  moveState ex_sha ex_sign ex_cfg 12 (states (ex_machine [obj1])) StateWaitingForConsensus1 (ex_world ACTIVE)
  <> Diverged.
Proof. apply moveState_terminates; [|done]. intros ct. by exists [1]. Defined.

Lemma abort_releases_locks_witness :
  exists w', applyTransition ex_sha ex_sign ex_cfg table_size (states (ex_machine [obj1]))
      StateWaitingForConsensus1 StateObjectLocked (ex_world LOCKED) = Done (StateAborted, None) w' /\
    status (store w') obj1 = Some ACTIVE.
Proof.
  assert (obj1 ∈ own_inputs ex_cfg (ex_tx [obj1])) as Hin by (vm_compute; left).
  destruct (abort_releases_locks ex_sha ex_sign ex_cfg (states (ex_machine [obj1])) (ex_tx [obj1])
    (ex_world LOCKED) obj1 ex_total eq_refl) as (w' & Hr & Hs); [|done|by vm_compute|].
  { intros j Hj. vm_compute in Hj. apply list_elem_of_singleton in Hj as ->. left. by vm_compute. }
  exists w'. split; [done|]. by apply Hs.
Defined.

(** The votes on a transaction of shard 2, seen from shard 1. *)
Definition ex_votes (d : SBACDecision) : gmap uint64 SignedDecision :=
  list_to_map ((fun n => (n, MkSignedDecision d [])) <$> [2; 4; 6; 8]).

Lemma votes_spec_witness :
  exists r, onSBACEvent ex_verify ex_cfg (states (ex_machine [obj1; obj2])) (ex_votes SBACDecision_ACCEPT)
      (ex_world LOCKED) = Done r (ex_world LOCKED) /\
    (r = StateSBACAccepted <-> forall sh, involved ex_cfg (ex_tx [obj1; obj2]) sh ->
       shard_accepts ex_cfg (ex_votes SBACDecision_ACCEPT) sh).
Proof.
  destruct (votes_spec (TO := Topology_ok ex_sum) ex_cfg ltac:(split_and!; simpl; lia) eq_refl
    ltac:(simpl; lia) ex_verify (states (ex_machine [obj1; obj2])) (ex_tx [obj1; obj2])
    (ex_votes SBACDecision_ACCEPT) (ex_world LOCKED) eq_refl) as (r & H1 & _ & H2); [done| |by exists r].
  intros n Hn. assert (n = 2 \/ n = 4 \/ n = 6 \/ n = 8) as Hc.
  { apply elem_of_dom in Hn as [d Hd]. unfold ex_votes in Hd.
    apply elem_of_list_to_map_2, list_elem_of_fmap in Hd as (x & [= -> _] & Hx).
    rewrite !elem_of_cons in Hx. destruct Hx as [->|[->|[->|[->|[]%not_elem_of_nil]]]]; auto. }
  destruct Hc as [-> | [-> | [-> | ->]]]; by eexists.
Defined.

(** All nodes of the other shard have to accept. *)
Example three_votes_are_not_enough :
  match onSBACEvent (T := contents) ex_verify ex_cfg (states (ex_machine [obj1; obj2]))
      (delete 8 (ex_votes SBACDecision_ACCEPT)) (ex_world LOCKED) with
  | Done StateSBACWaiting _ => True | _ => False end /\ quorum2t1 4 = 3.
Proof. split; by vm_compute. Qed.
