(* ===== verification/Checker.v ===== *)
(** * Checker: checking the traces of a transaction

    Model of [src/checker]: the types of the object versions
    ([typecheck.go]), the run of the checkers ([run.go]) and the service that
    signs the result ([checker.go]).  The checkers of the contracts and the
    private key are parameters. *)
From S2P Require Import Prelude Codec Database SbacStore SbacTypes.

(** ** [typecheck.go] *)

Inductive idstate := active | inactive.
Record statedata := MkStatedata { sd_state : idstate; sd_contract : bytes }.
Abbreviation idmap := (gmap (list Z) statedata).

Fixpoint check_inputs (contract : bytes) (vs : list bytes) (ids : idmap) : go idmap :=
  match vs with
  | [] => Ret ids
  | v :: vs =>
      match ids !! v with
      | Some sd =>
          match sd_state sd with
          | inactive => Fail "%v.%v using inactive versionid(%v) as input"
          | active => Fail "%v.%v using versionid(%v) previously reference by another contract(%v)"
          end
      | None => check_inputs contract vs (<[v := MkStatedata inactive contract]> ids)
      end
  end.

Fixpoint check_references (contract : bytes) (vs : list bytes) (ids : idmap) : go idmap :=
  match vs with
  | [] => Ret ids
  | v :: vs =>
      match ids !! v with
      | Some sd =>
          match sd_state sd with
          | inactive => Fail "%v.%v using inactive versionid(%v) as reference"
          | active => check_references contract vs ids
          end
      | None => check_references contract vs (<[v := MkStatedata active contract]> ids)
      end
  end.

(** What is checked of one trace after its dependencies. *)
Definition check_trace (trace : Trace) (ids : idmap) : go idmap :=
  _ ← guard_fail (bool_decide (ContractID trace <> [])) "missing contractid";
  _ ← guard_fail (bool_decide (Procedure trace <> [])) "missing procedure";
  _ ← guard_fail (length (OutputObjects trace) =? length (InputObjects trace))%nat
        "%v.%v() expect %v outputs, have %v";
  ids ← check_inputs (ContractID trace) (InputObjectVersionIDs trace) ids;
  check_references (ContractID trace) (InputReferenceVersionIDs trace) ids.

(** The map of IDs is shared by all traces. *)
Fixpoint typeCheck_trace (trace : Trace) (ids : idmap) : go idmap :=
  let 'MkTrace _ _ _ _ _ _ _ deps _ _ := trace in
  ids ← (fix loop (ts : list Trace) (ids : idmap) : go idmap :=
           match ts with [] => Ret ids | t :: ts => ids ← typeCheck_trace t ids; loop ts ids end) deps ids;
  check_trace trace ids.

Fixpoint typeCheck (ids : idmap) (traces : list Trace) : go idmap :=
  match traces with
  | [] => Ret ids
  | trace :: traces => ids ← typeCheck_trace trace ids; typeCheck ids traces
  end.

Definition TypeCheck (tx : Transaction) : go () := _ ← typeCheck ∅ (Traces tx); Ret tt.

(** ** [run.go] *)

Record Checker := MkChecker {
  ck_ContractID : bytes;
  ck_Name : bytes;
  ck_Check : list bytes -> list bytes -> list bytes -> list OutputObject -> list bytes -> list Trace -> bool
}.
Abbreviation checkersMap := (gmap (list Z) (gmap (list Z) Checker)).

Fixpoint aggregate_trace (checkers : checkersMap) (t : Trace) : go (list (Checker * Trace)) :=
  let 'MkTrace cid proc _ _ _ _ _ deps _ _ := t in
  match checkers !! cid with
  | None => Fail "unknown contract with ID: %v"
  | Some m =>
      match m !! proc with
      | None => Fail "unknown procedure %v for contract with ID: %v"
      | Some checker =>
          newpairs ← (fix loop (ts : list Trace) : go (list (Checker * Trace)) :=
                        match ts with
                        | [] => Ret []
                        | t :: ts => l ← aggregate_trace checkers t; l' ← loop ts; Ret (l ++ l')
                        end) deps;
          Ret ((checker, t) :: newpairs)
      end
  end.

Fixpoint aggregate (checkers : checkersMap) (traces : list Trace) : go (list (Checker * Trace)) :=
  match traces with
  | [] => Ret []
  | t :: traces => l ← aggregate_trace checkers t; l' ← aggregate checkers traces; Ret (l ++ l')
  end.

Definition run_check (ct : Checker * Trace) : bool :=
  ck_Check ct.1 (InputObjects ct.2) (InputReferences ct.2) (Parameters ct.2) (OutputObjects ct.2)
    (Returns ct.2) (Dependencies ct.2).

(** The checks run concurrently; the group fails when one of them does. *)
Definition run (checkers : checkersMap) (tx : Transaction) : go bool :=
  ctpairs ← aggregate checkers (Traces tx);
  Ret (forallb run_check ctpairs).

(** ** [checker.go] *)

(** [New]: a later checker of the same contract and name replaces an earlier one. *)
Fixpoint newCheckers (cs : list Checker) (checkers : checkersMap) : checkersMap :=
  match cs with
  | [] => checkers
  | c :: cs =>
      newCheckers cs
        (match checkers !! ck_ContractID c with
         | Some m => <[ck_ContractID c := <[ck_Name c := c]> m]> checkers
         | None => <[ck_ContractID c := {[ck_Name c := c]}]> checkers
         end)
  end.

Record CheckRequest := MkCheckRequest { cq_Tx : option Transaction }.
Record CheckResponse := MkCheckResponse { cp_Ok : bool; cp_Signature : bytes }.
Record Message := MkMessage { m_ID : uint64; m_Opcode : Z; m_Payload : bytes }.
Definition Opcode_CHECK : Z := 1.

Definition Check (checkers : checkersMap) (tx : Transaction) : go bool :=
  _ ← typeCheck ∅ (Traces tx);
  match run checkers tx with
  | Fail _ => Fail "checker error [err=%v]"
  | r => r
  end.

Section service.
Context {PT : Proto Transaction} {PQ : Proto CheckRequest} {PP : Proto CheckResponse}.
Context (checkers : checkersMap) (Sign : bytes -> bytes).

Definition CheckAndSign (tx : Transaction) : go (bool * bytes) :=
  ok ← Check checkers tx;
  txbytes ← Marshal tx;
  Ret (ok, Sign txbytes).

Definition check (payload : bytes) (msgID : uint64) : go Message :=
  req ← Unmarshal payload;
  tx ← or_crash (cq_Tx req);
  ok ← Check checkers tx;
  txbytes ← Marshal tx;
  resbytes ← Marshal (MkCheckResponse ok (Sign txbytes));
  Ret (MkMessage msgID Opcode_CHECK resbytes).

Definition Handle (m : Message) : go Message :=
  if m_Opcode m =? Opcode_CHECK then check (m_Payload m) (m_ID m)
  else Fail "checker: unknown message opcode: %v".
End service.

(** ** What the checks mean *)

(** The traces of a transaction with their dependencies, in the order in which
    they are type checked. *)
Fixpoint flatten (t : Trace) : list Trace :=
  let 'MkTrace _ _ _ _ _ _ _ deps _ _ := t in concat (map flatten deps) ++ [t].

Definition all_traces (tx : Transaction) : list Trace := concat (map flatten (Traces tx)).

Definition trace_ok (t : Trace) : Prop :=
  ContractID t <> [] /\ Procedure t <> [] /\ length (OutputObjects t) = length (InputObjects t).

(** The IDs seen so far: [ins] as inputs and [refs] as references. *)
Definition seen (ids : idmap) (ins refs : list bytes) : Prop :=
  (forall v, (exists sd, ids !! v = Some sd /\ sd_state sd = inactive) <-> v ∈ ins) /\
  (forall v, (exists sd, ids !! v = Some sd /\ sd_state sd = active) <-> v ∈ refs).

Definition typed (ins refs : list bytes) : Prop := NoDup ins /\ forall v, v ∈ ins -> v ∉ refs.

Lemma seen_None ids ins refs v : seen ids ins refs -> ids !! v = None <-> v ∉ ins /\ v ∉ refs.
Proof.
  intros [Hi Hr]. rewrite <-Hi, <-Hr. destruct (ids !! v) as [sd|]; [|naive_solver].
  split; [done|]. intros [H1 H2]. exfalso. destruct (sd_state sd) eqn:E; eauto.
Qed.

Lemma seen_insert ids ins refs v st c : seen ids ins refs -> ids !! v = None ->
  seen (<[v := MkStatedata st c]> ids)
    (if st is inactive then ins ++ [v] else ins) (if st is active then refs ++ [v] else refs).
Proof.
  intros Hs Hn. pose proof (proj1 (seen_None _ _ _ v Hs) Hn) as [Hi' Hr']. destruct Hs as [Hi Hr].
  split; intros x; destruct (decide (x = v)) as [->|Hne].
  - rewrite lookup_insert_eq. destruct st; rewrite ?elem_of_app, ?list_elem_of_singleton;
      split; [intros (sd & [= <-] & ?); done|tauto|auto|intros _; eexists; done].
  - rewrite lookup_insert_ne by done. rewrite Hi. destruct st; [done|]. set_solver.
  - rewrite lookup_insert_eq. destruct st; rewrite ?elem_of_app, ?list_elem_of_singleton;
      split; [auto|intros _; eexists; done|intros (sd & [= <-] & ?); done|tauto].
  - rewrite lookup_insert_ne by done. rewrite Hr. destruct st; [|done]. set_solver.
Qed.
