(* ===== verification/CheckerProps.v ===== *)
(** * CheckerProps: when a transaction passes the checks *)
From S2P Require Import Prelude Codec Database Topology SbacStore SbacTypes Sbac Checker.

(** Induction over a trace and its dependencies. *)
Lemma Trace_rec' (P : Trace -> Prop) :
  (forall t, (forall d, d ∈ Dependencies t -> P d) -> P t) -> forall t, P t.
Proof.
  intros H. fix IH 1. intros [a b c d e f g deps h i]. apply H. simpl. apply Forall_forall.
  induction deps as [|x deps IHd]; constructor; [apply IH|exact IHd].
Qed.

(** ** Type checking is one pass over all traces *)

Fixpoint typeCheck_flat (l : list Trace) (ids : idmap) : go idmap :=
  match l with [] => Ret ids | t :: l => ids ← check_trace t ids; typeCheck_flat l ids end.

Lemma go_bind_assoc {A B C} (m : go A) (f : A -> go B) (g : B -> go C) :
  (m ≫= f) ≫= g = m ≫= fun x => f x ≫= g.
Proof. by destruct m. Qed.
Lemma go_bind_ext {A B} (m : go A) (f g : A -> go B) : (forall x, f x = g x) -> m ≫= f = m ≫= g.
Proof. intros H. by destruct m; simpl. Qed.
Lemma go_bind_id {A} (m : go A) : m ≫= Ret = m.
Proof. by destruct m. Qed.

Lemma typeCheck_flat_app l l' ids :
  typeCheck_flat (l ++ l') ids = typeCheck_flat l ids ≫= typeCheck_flat l'.
Proof.
  revert ids. induction l as [|t l IH]; intros ids; simpl; [done|].
  rewrite go_bind_assoc. by apply go_bind_ext.
Qed.

Lemma typeCheck_trace_flat t ids : typeCheck_trace t ids = typeCheck_flat (flatten t) ids.
Proof.
  revert ids. induction t as [[a b c d e f g deps h i] IH] using Trace_rec'. intros ids.
  cbn [typeCheck_trace flatten]. rewrite typeCheck_flat_app. simpl in IH.
  etrans; [|apply go_bind_ext; intros ids'; symmetry; apply go_bind_id]. f_equal.
  revert ids. induction deps as [|x deps IHd]; intros ids; [done|]. simpl.
  rewrite typeCheck_flat_app, IH by left. apply go_bind_ext. intros ids'. apply IHd.
  intros ? ?. apply IH. by right.
Qed.

Lemma typeCheck_eq ids traces : typeCheck ids traces = typeCheck_flat (concat (map flatten traces)) ids.
Proof.
  revert ids. induction traces as [|t traces IH]; intros ids; simpl; [done|].
  rewrite typeCheck_flat_app, typeCheck_trace_flat. apply go_bind_ext. intros ids'. apply IH.
Qed.

(** ** What one trace adds *)

(** The outcome of checks that should end with these inputs and references. *)
Definition outcome (ok : Prop) (r : go idmap) (ins refs : list bytes) : Prop :=
  match r with
  | Ret ids => ok /\ seen ids ins refs /\ typed ins refs
  | Fail _ => ~ (ok /\ typed ins refs)
  | Crash => False
  end.

Lemma check_inputs_outcome c vs ids ins refs : seen ids ins refs -> typed ins refs ->
  outcome True (check_inputs c vs ids) (ins ++ vs) refs.
Proof.
  revert ids ins. induction vs as [|v vs IH]; intros ids ins Hs Ht; simpl; [by rewrite app_nil_r|].
  destruct (ids !! v) as [sd|] eqn:E.
  - assert (v ∈ ins \/ v ∈ refs) as Hv.
    { destruct Hs as [Hi Hr]. destruct (sd_state sd) eqn:Es; [right; apply Hr|left; apply Hi]; eauto. }
    assert (~ typed (ins ++ v :: vs) refs) as Hnt.
    { intros [Hnd Hdis]. destruct Hv as [Hv|Hv]; [|by apply (Hdis v); [apply elem_of_app; right; left|]].
      apply NoDup_app in Hnd as (_ & Hnd & _). apply (Hnd v); [done|left]. }
    destruct (sd_state sd); by intros [_ ?].
  - apply (seen_None _ _ _ v Hs) in E as Hv. destruct Hv as [Hv1 Hv2].
    pose proof (seen_insert _ _ _ v inactive c Hs E) as Hs'.
    specialize (IH _ _ Hs'). rewrite <-app_assoc in IH. apply IH.
    destruct Ht as [Hnd Hdis]. split; [|set_solver].
    apply NoDup_app. split_and!; [done|set_solver|apply NoDup_singleton].
Qed.

Lemma check_references_outcome c vs ids ins refs : seen ids ins refs -> typed ins refs ->
  outcome True (check_references c vs ids) ins (refs ++ vs).
Proof.
  revert ids refs. induction vs as [|v vs IH]; intros ids refs Hs Ht; simpl; [by rewrite app_nil_r|].
  destruct (ids !! v) as [sd|] eqn:E.
  - destruct Hs as [Hi Hr]. destruct (sd_state sd) eqn:Es.
    + assert (v ∈ refs) as Hv by (apply Hr; eauto).
      assert (seen ids ins (refs ++ [v])) as Hs'.
      { split; [done|]. intros x. rewrite Hr. set_solver. }
      specialize (IH _ _ Hs'). rewrite <-app_assoc in IH. apply IH.
      destruct Ht as [Hnd Hdis]. split; [done|set_solver].
    + intros [_ [_ Hdis]]. apply (Hdis v); [apply Hi; eauto|]. apply elem_of_app. right. left.
  - apply (seen_None _ _ _ v Hs) in E as Hv. destruct Hv as [Hv1 Hv2].
    pose proof (seen_insert _ _ _ v active c Hs E) as Hs'.
    specialize (IH _ _ Hs'). rewrite <-app_assoc in IH. apply IH.
    destruct Ht as [Hnd Hdis]. split; [done|set_solver].
Qed.

Lemma typed_prefix ins ins' refs refs' : typed (ins ++ ins') (refs ++ refs') -> typed ins refs.
Proof. intros [[Hnd _]%NoDup_app Hdis]. split; [done|set_solver]. Qed.

Lemma check_trace_outcome t ids ins refs : seen ids ins refs -> typed ins refs ->
  outcome (trace_ok t) (check_trace t ids) (ins ++ InputObjectVersionIDs t) (refs ++ InputReferenceVersionIDs t).
Proof.
  intros Hs Ht. unfold check_trace, guard_fail.
  destruct (decide (ContractID t <> [])) as [H1|H1]; [|rewrite (bool_decide_false _ H1); by intros [[? _] _]].
  rewrite (bool_decide_true _ H1). cbn [mbind go_bind].
  destruct (decide (Procedure t <> [])) as [H2|H2]; [|rewrite (bool_decide_false _ H2); by intros [(_ & ? & _) _]].
  rewrite (bool_decide_true _ H2). cbn [mbind go_bind].
  destruct (Nat.eqb_spec (length (OutputObjects t)) (length (InputObjects t))) as [H3|H3]; [|by intros [(_ & _ & ?) _]].
  cbn [mbind go_bind].
  pose proof (check_inputs_outcome (ContractID t) (InputObjectVersionIDs t) _ _ _ Hs Ht) as Hin.
  destruct (check_inputs _ _ ids) as [ids1|e|]; [|intros [_ Htt]; apply Hin|done].
  2: { split; [done|]. apply (typed_prefix _ [] _ (InputReferenceVersionIDs t)). by rewrite app_nil_r. }
  destruct Hin as (_ & Hs1 & Ht1). cbn [mbind go_bind].
  pose proof (check_references_outcome (ContractID t) (InputReferenceVersionIDs t) _ _ _ Hs1 Ht1) as Hr.
  destruct (check_references _ _ ids1) as [ids2|e|]; [|intros [_ Htt]; by apply Hr|done].
  destruct Hr as (_ & ? & ?). done.
Qed.

Lemma typeCheck_flat_outcome l ids ins refs : seen ids ins refs -> typed ins refs ->
  outcome (Forall trace_ok l) (typeCheck_flat l ids)
    (ins ++ (l ≫= InputObjectVersionIDs)) (refs ++ (l ≫= InputReferenceVersionIDs)).
Proof.
  revert ids ins refs. induction l as [|t l IH]; intros ids ins refs Hs Ht; csimpl; [by rewrite !app_nil_r|].
  pose proof (check_trace_outcome t _ _ _ Hs Ht) as Hc. rewrite !app_assoc.
  destruct (check_trace t ids) as [ids1|e|]; [|cbn|done].
  - destruct Hc as (Hok & Hs1 & Ht1). specialize (IH _ _ _ Hs1 Ht1). cbn [mbind go_bind].
    destruct (typeCheck_flat l ids1) as [ids2|e|]; simpl in *; [|rewrite Forall_cons; tauto|done].
    rewrite Forall_cons. tauto.
  - intros [Hf Htt]. apply Forall_cons in Hf as [? _]. apply Hc. split; [done|]. by eapply typed_prefix.
Qed.

(** C16. Type checking accepts a transaction exactly when every trace, the
    dependencies included, names a contract and a procedure and has as many
    outputs as inputs, no object version is an input twice, and none is both
    an input and a reference, in whatever order the traces come. *)
Theorem typeCheck_spec tx :
  TypeCheck tx = Ret tt <->
  Forall trace_ok (all_traces tx) /\ NoDup (all_traces tx ≫= InputObjectVersionIDs) /\
  forall v, v ∈ all_traces tx ≫= InputObjectVersionIDs -> v ∉ all_traces tx ≫= InputReferenceVersionIDs.
Proof.
  assert (seen ∅ [] []) as Hs.
  { split; intros v; rewrite lookup_empty; (split; [by intros (? & ? & _)|by intros ?%not_elem_of_nil]). }
  assert (typed [] []) as Ht by (split; [constructor|set_solver]).
  pose proof (typeCheck_flat_outcome (all_traces tx) ∅ [] [] Hs Ht) as Ho.
  unfold TypeCheck. rewrite typeCheck_eq. fold (all_traces tx).
  destruct (typeCheck_flat (all_traces tx) ∅) as [ids|e|]; simpl in *; unfold typed in Ho; [|naive_solver|done].
  split; [intros _|done]. tauto.
Qed.

(** ** Running the checkers *)

Definition find_checker (checkers : checkersMap) (t : Trace) : option Checker :=
  checkers !! ContractID t ≫= fun m => m !! Procedure t.

(** The pairs of exactly these traces with their checkers, if they all have one. *)
Definition paired (checkers : checkersMap) (ts : list Trace) (r : go (list (Checker * Trace))) : Prop :=
  match r with
  | Ret l => (forall t, t ∈ ts -> is_Some (find_checker checkers t)) /\
             forall c t, (c, t) ∈ l <-> t ∈ ts /\ find_checker checkers t = Some c
  | Fail _ => exists t, t ∈ ts /\ find_checker checkers t = None
  | Crash => False
  end.

Lemma paired_app checkers ts ts' r r' : paired checkers ts r -> paired checkers ts' r' ->
  paired checkers (ts ++ ts') (l ← r; l' ← r'; Ret (l ++ l')).
Proof.
  destruct r as [l|e|]; [|intros (t & ? & ?) _; exists t; set_solver|done]. intros [H1 H2].
  destruct r' as [l'|e|]; [|intros (t & ? & ?); exists t; set_solver|done]. intros [H1' H2']. split.
  - set_solver.
  - intros c t. rewrite !elem_of_app, H2, H2'. tauto.
Qed.

Lemma aggregate_trace_paired checkers t : paired checkers (flatten t) (aggregate_trace checkers t).
Proof.
  induction t as [[cid proc c d e f g deps h i] IH] using Trace_rec'. simpl in IH.
  cbn [aggregate_trace flatten]. set (t := MkTrace cid proc c d e f g deps h i) in *.
  assert (find_checker checkers t = checkers !! cid ≫= fun m => m !! proc) as Hf by done.
  assert (t ∈ concat (map flatten deps) ++ [t]) as Ht by (apply elem_of_app; right; left).
  destruct (checkers !! cid) as [m|]; [|cbn; by exists t]. simpl in Hf.
  destruct (m !! proc) as [ck|]; [|cbn; by exists t]. fold t.
  assert (paired checkers (concat (map flatten deps))
    ((fix loop (ts : list Trace) : go (list (Checker * Trace)) :=
        match ts with [] => Ret [] | t :: ts => l ← aggregate_trace checkers t; l' ← loop ts; Ret (l ++ l') end) deps)) as Hd.
  { clear -IH. induction deps as [|x deps IHd]; [split; set_solver|]. simpl.
    apply paired_app; [apply IH; left|]. apply IHd. intros ? ?. apply IH. by right. }
  match type of Hd with paired _ _ ?r => destruct r as [l|e'|] end;
    [|destruct Hd as (t' & ? & ?); exists t'; set_solver|done].
  destruct Hd as [H1 H2]. split.
  - intros t' Ht'. apply elem_of_app in Ht' as [?|Ht']; [auto|].
    apply list_elem_of_singleton in Ht' as ->. by rewrite Hf.
  - intros c' t'. rewrite elem_of_cons, elem_of_app, list_elem_of_singleton, H2.
    split.
    + intros [Heq|[? ?]]; [injection Heq as -> ->; auto|auto].
    + intros [[?| ->] ?]; [auto|]. left. congruence.
Qed.

Lemma aggregate_paired checkers traces :
  paired checkers (concat (map flatten traces)) (aggregate checkers traces).
Proof.
  induction traces as [|t traces IH]; [split; set_solver|]. cbn [aggregate map concat].
  apply paired_app; [apply aggregate_trace_paired|done].
Qed.

(** A trace whose checker accepts it. *)
Definition passes (checkers : checkersMap) (t : Trace) : Prop :=
  exists c, find_checker checkers t = Some c /\ run_check (c, t) = true.

(** C17. A transaction is checked successfully exactly when it is type correct
    and every trace, the dependencies included, has a checker that accepts it;
    the result is negative, and not an error, exactly when it is type correct
    and all traces have a checker, but one of them refuses. *)
Theorem check_spec checkers tx :
  (Check checkers tx = Ret true <->
     TypeCheck tx = Ret tt /\ forall t, t ∈ all_traces tx -> passes checkers t) /\
  (Check checkers tx = Ret false <->
     TypeCheck tx = Ret tt /\ (forall t, t ∈ all_traces tx -> is_Some (find_checker checkers t)) /\
     exists t, t ∈ all_traces tx /\ ~ passes checkers t).
Proof.
  unfold Check, TypeCheck, Checker.run, passes.
  pose proof (aggregate_paired checkers (Traces tx)) as Ha. fold (all_traces tx) in Ha.
  destruct (typeCheck ∅ (Traces tx)) as [ids|e|]; [|naive_solver..]. cbn [mbind go_bind].
  destruct (aggregate checkers (Traces tx)) as [l|e|]; [|destruct Ha as (t & Ht & Hn)|done]; cbn [mbind go_bind].
  2: { split; (split; [done|]).
       - intros [_ H]. destruct (H t Ht) as (c & Hc & _). congruence.
       - intros (_ & H & _). destruct (H t Ht) as [c Hc]. congruence. }
  destruct Ha as [H1 H2]. destruct (forallb run_check l) eqn:E.
  - rewrite forallb_forall in E. split; (split; [intros Hr|intros Hr]); try done.
    + split; [done|]. intros t Ht. destruct (H1 t Ht) as [c Hc]. exists c. split; [done|].
      apply E, list_elem_of_In, H2. done.
    + destruct Hr as (_ & _ & t & Ht & Hn). destruct Hn. destruct (H1 t Ht) as [c Hc].
      exists c. split; [done|]. apply E, list_elem_of_In, H2. done.
  - assert (exists t, t ∈ all_traces tx /\ ~ exists c, find_checker checkers t = Some c /\ run_check (c, t) = true) as Hex.
    { clear -E H2. assert (exists ct, ct ∈ l /\ run_check ct = false) as ([c t] & Hin & Hf).
      { clear -E. induction l as [|x l IH]; [done|]. simpl in E. destruct (run_check x) eqn:Ex.
        - destruct IH as (ct & ? & ?); [done|]. exists ct. split; [by right|done].
        - exists x. split; [left|done]. }
      apply H2 in Hin as [? ?]. exists t. split; [done|]. intros (c' & ? & ?). congruence. }
    split; (split; [intros Hr|intros Hr]); try done.
    destruct Hr as [_ Hr]. destruct Hex as (t & Ht & Hn). by destruct Hn, (Hr t Ht) as (c & ? & ?); exists c.
Qed.

(** ** Signatures and evidence *)

(** The service signs a transaction whatever the result of its checkers is, and
    the transaction service takes the signature alone as evidence: a refused
    transaction has the evidence of an accepted one. *)
Lemma refused_transaction_has_evidence {T Topo} {NT : NetTopology Topo} {PT : Proto Transaction}
    checkers Sign Verify (s : Config Topo) tx b sig key (w : World T) :
  CheckAndSign checkers Sign tx = Ret (false, sig) -> Marshal tx = Ret b ->
  PublicKeys (c_top s) !! c_nodeID s = Some key -> (forall d, Verify key d (Sign d) = true) ->
  verifyEvidenceSignature Verify s (marshal_tx' (Some tx)) {[c_nodeID s := sig]} w = Done true w.
Proof.
  unfold CheckAndSign. intros H Hm Hk Hv. apply go_bind_Ret in H as (ok & _ & H). rewrite Hm in H.
  cbn [mbind go_bind] in H. injection H as _ <-.
  unfold verifyEvidenceSignature, marshal_tx', marshal_tx. rewrite Hm, lookup_singleton_eq.
  unfold mbind, M_bind, deref. rewrite Hk. simpl. by rewrite Hv.
Qed.
