(* ===== verification/LogFields.v ===== *)
(** * LogFields: fields and levels of the log

    Model of [src/internal/log/field.go], [src/internal/log/level.go] and
    [src/internal/log/fld/fld.go].  A field carries its value in one of three
    places, according to its type; [interface{}] is the sum [dynamic]. *)
From S2P Require Import Prelude Config.

(** ** Values *)

(** A [time.Time] as far as [AppendFormat] shows it. *)
Record time := MkTime { year : Z; month : Z; day : Z; hour : Z; minute : Z; second : Z }.

(** The dynamic types that the constructors store; [[]byte] and [[]uint8] are
    one type.  A float is its IEEE 754 bits, an error its message. *)
Inductive dynamic : Type :=
  | DNil
  | DBools (v : list bool)
  | DBytes (v : bytes)
  | DBytesArray (v : list bytes)
  | DDurations (v : list Z)
  | DError (v : bytes)
  | DErrors (v : list bytes)
  | DFloat32s (v : list Z)
  | DFloat64s (v : list Z)
  | DInts (v : list Z)
  | DInt8s (v : list Z)
  | DInt16s (v : list Z)
  | DInt32s (v : list Z)
  | DInt64s (v : list Z)
  | DStrings (v : list bytes)
  | DTime (v : time)
  | DTimes (v : list time)
  | DUints (v : list Z)
  | DUint16s (v : list Z)
  | DUint32s (v : list Z)
  | DUint64s (v : list Z).

(** The named types in the order of their numbers, and the other bytes. *)
Inductive fieldType : Type :=
  | TypeBool | TypeBools | TypeBytes | TypeBytesArray | TypeDigest | TypeDigests | TypeDuration
  | TypeDurations | TypeErr | TypeErrs | TypeFloat32 | TypeFloat32s | TypeFloat64 | TypeFloat64s
  | TypeInt | TypeInts | TypeInt8 | TypeInt8s | TypeInt16 | TypeInt16s | TypeInt32 | TypeInt32s
  | TypeInt64 | TypeInt64s | TypeString | TypeStrings | TypeTime | TypeTimes | TypeUint
  | TypeUints | TypeUint8 | TypeUint8s | TypeUint16 | TypeUint16s | TypeUint32 | TypeUint32s
  | TypeUint64 | TypeUint64s
  | TypeOther (n : Z).

#[export] Instance fieldType_eq_dec : EqDecision fieldType.
Proof. solve_decision. Defined.

Definition namedTypes : list fieldType :=
  [TypeBool; TypeBools; TypeBytes; TypeBytesArray; TypeDigest; TypeDigests; TypeDuration;
   TypeDurations; TypeErr; TypeErrs; TypeFloat32; TypeFloat32s; TypeFloat64; TypeFloat64s; TypeInt;
   TypeInts; TypeInt8; TypeInt8s; TypeInt16; TypeInt16s; TypeInt32; TypeInt32s; TypeInt64;
   TypeInt64s; TypeString; TypeStrings; TypeTime; TypeTimes; TypeUint; TypeUints; TypeUint8;
   TypeUint8s; TypeUint16; TypeUint16s; TypeUint32; TypeUint32s; TypeUint64; TypeUint64s].

(** [byte(f)]. *)
Definition typeByte (f : fieldType) : Z :=
  match f with
  | TypeBool => 1
  | TypeBools => 2
  | TypeBytes => 3
  | TypeBytesArray => 4
  | TypeDigest => 5
  | TypeDigests => 6
  | TypeDuration => 7
  | TypeDurations => 8
  | TypeErr => 9
  | TypeErrs => 10
  | TypeFloat32 => 11
  | TypeFloat32s => 12
  | TypeFloat64 => 13
  | TypeFloat64s => 14
  | TypeInt => 15
  | TypeInts => 16
  | TypeInt8 => 17
  | TypeInt8s => 18
  | TypeInt16 => 19
  | TypeInt16s => 20
  | TypeInt32 => 21
  | TypeInt32s => 22
  | TypeInt64 => 23
  | TypeInt64s => 24
  | TypeString => 25
  | TypeStrings => 26
  | TypeTime => 27
  | TypeTimes => 28
  | TypeUint => 29
  | TypeUints => 30
  | TypeUint8 => 31
  | TypeUint8s => 32
  | TypeUint16 => 33
  | TypeUint16s => 34
  | TypeUint32 => 35
  | TypeUint32s => 36
  | TypeUint64 => 37
  | TypeUint64s => 38
  | TypeOther n => n
  end.

Definition typeString (f : fieldType) : go bytes :=
  match f with
  | TypeBool => Ret (str "Bool")
  | TypeBools => Ret (str "Bools")
  | TypeBytes => Ret (str "Bytes")
  | TypeBytesArray => Ret (str "BytesArray")
  | TypeDigest => Ret (str "Digest")
  | TypeDigests => Ret (str "Digests")
  | TypeDuration => Ret (str "Duration")
  | TypeDurations => Ret (str "Durations")
  | TypeErr => Ret (str "Err")
  | TypeErrs => Ret (str "Errs")
  | TypeFloat32 => Ret (str "Float32")
  | TypeFloat32s => Ret (str "Float32s")
  | TypeFloat64 => Ret (str "Float64")
  | TypeFloat64s => Ret (str "Float64s")
  | TypeInt => Ret (str "Int")
  | TypeInts => Ret (str "Ints")
  | TypeInt8 => Ret (str "Int8")
  | TypeInt8s => Ret (str "Int8s")
  | TypeInt16 => Ret (str "Int16")
  | TypeInt16s => Ret (str "Int16s")
  | TypeInt32 => Ret (str "Int32")
  | TypeInt32s => Ret (str "Int32s")
  | TypeInt64 => Ret (str "Int64")
  | TypeInt64s => Ret (str "Int64s")
  | TypeString => Ret (str "String")
  | TypeStrings => Ret (str "Strings")
  | TypeTime => Ret (str "Time")
  | TypeTimes => Ret (str "Times")
  | TypeUint => Ret (str "Uint")
  | TypeUints => Ret (str "Uints")
  | TypeUint8 => Ret (str "Uint8")
  | TypeUint8s => Ret (str "Uint8s")
  | TypeUint16 => Ret (str "Uint16")
  | TypeUint16s => Ret (str "Uint16s")
  | TypeUint32 => Ret (str "Uint32")
  | TypeUint32s => Ret (str "Uint32s")
  | TypeUint64 => Ret (str "Uint64")
  | TypeUint64s => Ret (str "Uint64s")
  | TypeOther _ => Crash
  end.

Record Field := MkField { key : bytes; typ : fieldType; ival : Z; sval : bytes; xval : dynamic }.

(** [int64(x)] for an integer of another type. *)
Definition int64 (x : Z) : Z := to_int (u64 x).

Module Fields.
(** Fields with the value in [ival], in [sval] and in [xval]. *)
Definition ofInt (k : bytes) (t : fieldType) (x : Z) : Field := MkField k t x [] DNil.
Definition ofString (k : bytes) (t : fieldType) (x : bytes) : Field := MkField k t 0 x DNil.
Definition ofAny (k : bytes) (t : fieldType) (x : dynamic) : Field := MkField k t 0 [] x.

Definition Bool (k : bytes) (value : bool) : Field :=
  if value then ofInt k TypeBool 1 else ofInt k TypeBool 0.
Definition Bools (k : bytes) (value : list bool) : Field := ofAny k TypeBools (DBools value).
Definition Bytes (k : bytes) (value : bytes) : Field := ofAny k TypeBytes (DBytes value).
Definition BytesArray (k : bytes) (value : list bytes) : Field := ofAny k TypeBytesArray (DBytesArray value).
Definition Digest (k : bytes) (value : bytes) : Field := ofAny k TypeDigest (DBytes value).
Definition Digests (k : bytes) (value : list bytes) : Field := ofAny k TypeDigests (DBytesArray value).
Definition Duration (k : bytes) (value : Z) : Field := ofInt k TypeDuration (int64 value).
Definition Durations (k : bytes) (value : list Z) : Field := ofAny k TypeDurations (DDurations value).
(** A nil error has no method. *)
Definition Err (value : option bytes) : go Field :=
  v ← or_crash value; Ret (ofString (str "error") TypeErr v).
(** The value is one error, not a slice of errors. *)
Definition Errs (value : option bytes) : Field :=
  ofAny (str "error") TypeErrs (match value with Some v => DError v | None => DNil end).
Definition Float32 (k : bytes) (value : Z) : Field := ofInt k TypeFloat32 (int64 value).
Definition Float32s (k : bytes) (value : list Z) : Field := ofAny k TypeFloat32s (DFloat32s value).
Definition Float64 (k : bytes) (value : Z) : Field := ofInt k TypeFloat64 (int64 value).
Definition Float64s (k : bytes) (value : list Z) : Field := ofAny k TypeFloat64s (DFloat64s value).
Definition Int (k : bytes) (value : Z) : Field := ofInt k TypeInt (int64 value).
Definition Ints (k : bytes) (value : list Z) : Field := ofAny k TypeInts (DInts value).
Definition Int8 (k : bytes) (value : Z) : Field := ofInt k TypeInt8 (int64 value).
Definition Int8s (k : bytes) (value : list Z) : Field := ofAny k TypeInt8s (DInt8s value).
Definition Int16 (k : bytes) (value : Z) : Field := ofInt k TypeInt16 (int64 value).
Definition Int16s (k : bytes) (value : list Z) : Field := ofAny k TypeInt16s (DInt16s value).
Definition Int32 (k : bytes) (value : Z) : Field := ofInt k TypeInt32 (int64 value).
Definition Int32s (k : bytes) (value : list Z) : Field := ofAny k TypeInt32s (DInt32s value).
Definition Int64 (k : bytes) (value : Z) : Field := ofInt k TypeInt64 (int64 value).
Definition Int64s (k : bytes) (value : list Z) : Field := ofAny k TypeInt64s (DInt64s value).
Definition String (k value : bytes) : Field := ofString k TypeString value.
Definition Strings (k : bytes) (value : list bytes) : Field := ofAny k TypeStrings (DStrings value).
Definition Time (k : bytes) (value : time) : Field := ofAny k TypeTime (DTime value).
Definition Times (k : bytes) (value : list time) : Field := ofAny k TypeTimes (DTimes value).
Definition Uint (k : bytes) (value : Z) : Field := ofInt k TypeUint (int64 value).
Definition Uints (k : bytes) (value : list Z) : Field := ofAny k TypeUints (DUints value).
Definition Uint8 (k : bytes) (value : Z) : Field := ofInt k TypeUint8 (int64 value).
Definition Uint8s (k : bytes) (value : bytes) : Field := ofAny k TypeUint8s (DBytes value).
Definition Uint16 (k : bytes) (value : Z) : Field := ofInt k TypeUint16 (int64 value).
Definition Uint16s (k : bytes) (value : list Z) : Field := ofAny k TypeUint16s (DUint16s value).
Definition Uint32 (k : bytes) (value : Z) : Field := ofInt k TypeUint32 (int64 value).
Definition Uint32s (k : bytes) (value : list Z) : Field := ofAny k TypeUint32s (DUint32s value).
Definition Uint64 (k : bytes) (value : Z) : Field := ofInt k TypeUint64 (int64 value).
Definition Uint64s (k : bytes) (value : list Z) : Field := ofAny k TypeUint64s (DUint64s value).
End Fields.

(** ** Fields with preset names: [fld.go]

    A [fmt.Stringer] is the string that it returns. *)
Module Fld.
Import Fields.
Definition Address (value : bytes) : Field := String (str "address") value.
Definition BlockHash (value : bytes) : Field := Digest (str "block.hash") value.
Definition BlockID (value : bytes) : Field := String (str "block.id") value.
Definition ConnectionType (value : Z) : Field := Int32 (str "type") value.
Definition Err (value : option bytes) : go Field := Fields.Err value.
Definition FromBlock (value : bytes) : Field := String (str "block.from") value.
Definition FromState (value : bytes) : Field := String (str "status.from") value.
Definition InterpretedRound (value : Z) : Field := Uint64 (str "interpreted.round") value.
Definition LatestRound (value : Z) : Field := Uint64 (str "latest.round") value.
Definition NetworkName (value : bytes) : Field := String (str "network.name") value.
Definition NodeID (value : Z) : Field := Uint64 (str "node.id") value.
Definition OK (value : bool) : Field := Bool (str "ok") value.
Definition ObjectID (value : bytes) : Field := Digest (str "object.id") value.
Definition Path (value : bytes) : Field := String (str "path") value.
Definition PayloadLimit (value : Z) : Field := Int (str "payload.limit") value.
Definition PeerID (value : Z) : Field := Uint64 (str "peer.id") value.
Definition PeerShard (value : Z) : Field := Uint64 (str "peer.shard") value.
Definition Perspective (value : Z) : Field := Uint64 (str "perspective") value.
Definition Port (value : Z) : Field := Int (str "port") value.
Definition Round (value : Z) : Field := Uint64 (str "round") value.
Definition Rounds (value : list Z) : Field := Uint64s (str "rounds") value.
Definition SelfNodeID (value : Z) : Field := Uint64 (str "@self/node.id") value.
Definition SelfShardID (value : Z) : Field := Uint64 (str "@self/shard.id") value.
Definition Service (value : bytes) : Field := String (str "service") value.
Definition ShardCount (value : Z) : Field := Uint64 (str "shard.count") value.
Definition ShardID (value : Z) : Field := Uint64 (str "shard.id") value.
Definition ShardSize (value : Z) : Field := Uint64 (str "shard.size") value.
Definition Size (value : Z) : Field := Int (str "size") value.
Definition Status (value : bytes) : Field := String (str "status") value.
Definition TimeTaken (value : Z) : Field := Duration (str "time.taken") value.
Definition ToBlock (value : bytes) : Field := String (str "block.to") value.
Definition ToState (value : bytes) : Field := String (str "status.to") value.
Definition SBACCmd (value : bytes) : Field := String (str "cmd") value.
Definition TxID (value : Z) : Field := Uint32 (str "tx.id") value.
Definition URL (value : bytes) : Field := String (str "url") value.
End Fld.

(** ** Levels: [level.go] *)

Definition DebugLevel : Z := 1.
Definition InfoLevel : Z := 2.
Definition WarnLevel : Z := 3.
Definition ErrorLevel : Z := 4.
Definition StackTraceLevel : Z := 5.
Definition FatalLevel : Z := 6.
Definition maxLevel : Z := FatalLevel + 1.

Module Level.
Definition MarshalYAML (l : Z) : go bytes :=
  if decide (l = 0) then Ret (str "")
  else if decide (l = DebugLevel) then Ret (str "debug")
  else if decide (l = ErrorLevel) then Ret (str "error")
  else if decide (l = FatalLevel) then Ret (str "fatal")
  else if decide (l = InfoLevel) then Ret (str "info")
  else if decide (l = StackTraceLevel) then Ret (str "stacktrace")
  else if decide (l = WarnLevel) then Ret (str "warn")
  else Crash.

(** There is no case for [WarnLevel]. *)
Definition String (l : Z) : go bytes :=
  if decide (l = DebugLevel) then Ret (str "DEBUG")
  else if decide (l = ErrorLevel) then Ret (str "ERROR")
  else if decide (l = FatalLevel) then Ret (str "FATAL")
  else if decide (l = InfoLevel) then Ret (str "INFO")
  else if decide (l = StackTraceLevel) then Ret (str "STACKTRACE")
  else Crash.

(** [l] is the value of the receiver before the call. *)
Definition UnmarshalYAML (raw : bytes) (l : Z) : go Z :=
  let raw := ToLower raw in
  if decide (raw = str "") then Ret l
  else if decide (raw = str "debug") then Ret DebugLevel
  else if decide (raw = str "error") then Ret ErrorLevel
  else if decide (raw = str "fatal") then Ret FatalLevel
  else if decide (raw = str "info") then Ret InfoLevel
  else if decide (raw = str "stacktrace") then Ret StackTraceLevel
  else if decide (raw = str "warn") then Ret WarnLevel
  else Fail "log: unable to decode Level value: %q".

(** A level of a configuration is read back; the zero level is written as the
    empty string, which leaves the receiver alone. *)
Lemma yaml_roundtrip l s : MarshalYAML l = Ret s -> UnmarshalYAML s 0 = Ret l.
Proof. unfold MarshalYAML. repeat case_decide; intros [= <-]; by subst. Qed.
End Level.

Definition rpad (text : bytes) : bytes := text ++ replicate (12 - length text) 32.

Definition color (code : Z) (text : bytes) : bytes :=
  [27] ++ str "[" ++ fmt_d code ++ str "m" ++ rpad text ++ [27] ++ str "[0m".

Definition level2color : list bytes :=
  [str ""; color 33 (str "DEBUG"); color 34 (str "INFO"); color 36 (str "WARN"); color 31 (str "ERROR");
   color 35 (str "STACKTRACE"); color 31 (str "FATAL")].

(** The global levels, and whether there is a log file. *)
Record levels := MkLevels {
  minLevel : Z; consoleLevel : Z; fileLevel : Z; netLevel : Z; textLevel : Z; logFile : bool }.

Definition initialLevels : levels := MkLevels maxLevel maxLevel maxLevel maxLevel maxLevel false.

Definition updateMinLevels (s : levels) : levels :=
  let '(m, t) := (maxLevel, maxLevel) in
  let '(m, t) := if decide (consoleLevel s < m) then (consoleLevel s, consoleLevel s) else (m, t) in
  let '(m, t) := if decide (fileLevel s < m) then (fileLevel s, fileLevel s) else (m, t) in
  let m := if decide (netLevel s < m) then netLevel s else m in
  MkLevels m (consoleLevel s) (fileLevel s) (netLevel s) t (logFile s).

(** [AtDebug], [AtInfo] and the like. *)
Definition At (lvl : Z) (s : levels) : bool := bool_decide (minLevel s <= lvl).

(** The functions that configure a sink, [ToFile] after the file was opened. *)
Definition ToConsole (lvl : Z) (s : levels) : levels :=
  updateMinLevels (MkLevels (minLevel s) lvl (fileLevel s) (netLevel s) (textLevel s) (logFile s)).
Definition ToFile (opened : bool) (lvl : Z) (s : levels) : levels :=
  if opened
  then updateMinLevels (MkLevels (minLevel s) (consoleLevel s) lvl (netLevel s) (textLevel s) true) else s.
Definition ToServer (lvl : Z) (s : levels) : levels :=
  updateMinLevels (MkLevels (minLevel s) (consoleLevel s) (fileLevel s) lvl (textLevel s) (logFile s)).

Inductive configure : levels -> levels -> Prop :=
  | conf_console lvl s : configure s (ToConsole lvl s)
  | conf_file opened lvl s : configure s (ToFile opened lvl s)
  | conf_server lvl s : configure s (ToServer lvl s).

(** The derived levels are what their names say. *)
Definition levels_ok (s : levels) : Prop :=
  textLevel s = Z.min maxLevel (Z.min (consoleLevel s) (fileLevel s)) /\
  minLevel s = Z.min (textLevel s) (netLevel s).

Lemma updateMinLevels_ok s : levels_ok (updateMinLevels s).
Proof. unfold levels_ok, updateMinLevels. repeat case_decide; simpl; lia. Qed.

Lemma configure_ok s s' : configure s s' -> levels_ok s -> levels_ok s'.
Proof.
  destruct 1; intros Hs; unfold ToConsole, ToFile, ToServer; try apply updateMinLevels_ok.
  destruct opened; [apply updateMinLevels_ok|done].
Qed.

Lemma configured_ok s : rtc configure initialLevels s -> levels_ok s.
Proof.
  intros Hs. assert (levels_ok initialLevels) as H0 by done.
  induction Hs as [|s1 s2 s3 H12 _ IH]; [done|]. apply IH. by eapply configure_ok.
Qed.
