(* ===== verification/LogText.v ===== *)
(** * LogText: log entries as text

    Model of [src/internal/log/text.go], [logger.go], [log.go] and
    [intercept.go].  A function that appends to the buffer returns what it
    appends.  The formatting of floats is a parameter; slices have no spare
    capacity. *)
From S2P Require Import Prelude Config LogFields.

(** ** Formatting of the standard library *)

(** [strconv.AppendInt(b, x, 10)]. *)
Definition fmt_int (x : Z) : bytes := if x <? 0 then 45 :: fmt_d (- x) else fmt_d x.

Definition fmt_pad (width : nat) (x : Z) : bytes :=
  let digits := fmt_d (Z.abs x) in
  (if x <? 0 then [45] else []) ++ replicate (width - length digits) 48 ++ digits.

(** [t.AppendFormat(b, timefmt)]. *)
Definition formatTime (t : time) : bytes :=
  fmt_pad 4 (year t) ++ [45] ++ fmt_pad 2 (month t) ++ [45] ++ fmt_pad 2 (day t) ++ [32] ++
  fmt_pad 2 (hour t) ++ [58] ++ fmt_pad 2 (minute t) ++ [58] ++ fmt_pad 2 (second t).

(** [fmtFrac]: the fraction of [prec] digits without trailing zeros, and the
    rest of the number. *)
Fixpoint fmtFrac (prec : nat) (v : Z) (out : bytes) : bytes * Z :=
  match prec with
  | O => (match out with [] => [] | _ => 46 :: out end, v)
  | S prec =>
      let digit := v mod 10 in
      fmtFrac prec (v / 10) (match out with
                             | [] => if digit =? 0 then [] else [48 + digit]
                             | _ => 48 + digit :: out
                             end)
  end.

(** [Duration.String]. *)
Definition formatDuration (d : Z) : bytes :=
  let u := Z.abs d in
  let body :=
    if u =? 0 then str "0s"
    else if u <? 1000 then fmt_d u ++ str "ns"
    else if u <? 1000000 then let '(f, u) := fmtFrac 3 u [] in fmt_d u ++ f ++ [194; 181] ++ str "s"
    else if u <? 1000000000 then let '(f, u) := fmtFrac 6 u [] in fmt_d u ++ f ++ str "ms"
    else
      let '(f, u) := fmtFrac 9 u [] in
      let secs := fmt_d (u mod 60) ++ f ++ str "s" in
      let u := u / 60 in
      if u =? 0 then secs else
      let mins := fmt_d (u mod 60) ++ str "m" ++ secs in
      let u := u / 60 in
      if u =? 0 then mins else fmt_d u ++ str "h" ++ mins in
  if d <? 0 then 45 :: body else body.

Definition between (lo c hi : Z) : bool := (lo <=? c) && (c <=? hi).
Definition cont (c : Z) : bool := between 128 c 191.

(** [utf8.DecodeRune]: the length of the first rune, [None] when it returns
    [RuneError] and 1. *)
Definition decodeRune (s : bytes) : option nat :=
  match s with
  | [] => None
  | a :: s =>
      if a <? 128 then Some 1%nat
      else if between 194 a 223 then
        match s with b :: _ => if cont b then Some 2%nat else None | _ => None end
      else if between 224 a 239 then
        match s with
        | b :: c :: _ =>
            if between (if a =? 224 then 160 else 128) b (if a =? 237 then 159 else 191) && cont c
            then Some 3%nat else None
        | _ => None
        end
      else if between 240 a 244 then
        match s with
        | b :: c :: d :: _ =>
            if between (if a =? 240 then 144 else 128) b (if a =? 244 then 143 else 191) && cont c && cont d
            then Some 4%nat else None
        | _ => None
        end
      else None
  end.

(** ** Strings *)

Definition hex : bytes := str "0123456789abcdef".
Definition hex_at (i : Z) : Z := nth (Z.to_nat i) hex 0.

(** What [writeTextByte] appends, [None] when it returns false. *)
Definition writeTextByte (v : Z) : option bytes :=
  if v >=? 128 then None
  else if (32 <=? v) && negb (v =? 92) && negb (v =? 34) then Some [v]
  else if (v =? 92) || (v =? 34) then Some [92; v]
  else if v =? 10 then Some [92; 110]
  else if v =? 13 then Some [92; 114]
  else if v =? 9 then Some [92; 116]
  else Some (str "\u00" ++ [hex_at (Z.shiftr v 4); hex_at (Z.land v 15)]).

(** The loop of [writeTextBytes] and of [writeTextString]; every iteration
    consumes a byte. *)
Fixpoint writeTextRunes (fuel : nat) (s : bytes) : bytes :=
  match fuel, s with
  | S fuel, c :: r =>
      match writeTextByte c with
      | Some out => out ++ writeTextRunes fuel r
      | None =>
          match decodeRune s with
          | None => str "\ufffd" ++ writeTextRunes fuel r
          | Some size => take size s ++ writeTextRunes fuel (drop size s)
          end
      end
  | _, _ => []
  end.

Definition writeTextBytes (s : bytes) : bytes := writeTextRunes (length s) s.
Definition writeTextString (s : bytes) : bytes := writeTextRunes (length s) s.

Definition writeTextDigest (hash : bytes) : go bytes :=
  if decide (6 <= length hash)%nat then Ret (take 6 hash ≫= hex_byte) else Crash.

(** ** Fields *)

(** The loop over a slice, with the separator after all but the last. *)
Fixpoint text_items {A} (f : A -> go bytes) (i last : Z) (l : list A) : go bytes :=
  match l with
  | [] => Ret []
  | v :: l =>
      out ← f v;
      rest ← text_items f (i + 1) last l;
      Ret (out ++ (if decide (i <> last) then [44; 32] else []) ++ rest)
  end.

Definition text_slice {A} (f : A -> go bytes) (val : list A) : go bytes :=
  let last := Z.of_nat (length val) - 1 in
  items ← text_items f 0 last val;
  Ret ([91] ++ items ++ [93]).

Definition text_bool (v : bool) : bytes := if v then str "true" else str "false".
Definition quoted (s : bytes) : bytes := [34] ++ s ++ [34].

Section text.
(** [formatFloat bits f]: [strconv.AppendFloat] of the float with the bits [f]. *)
Context (formatFloat : Z -> Z -> bytes).

Definition text_ret {A} (f : A -> bytes) (v : A) : go bytes := Ret (f v).

Definition text_bools (x : dynamic) : go bytes :=
  match x with DBools val => text_slice (text_ret text_bool) val | _ => Crash end.
Definition text_bytes (x : dynamic) : go bytes :=
  match x with DBytes val => Ret (quoted (writeTextBytes val)) | _ => Crash end.
Definition text_bytesArray (x : dynamic) : go bytes :=
  match x with DBytesArray val => text_slice (fun v => Ret (quoted (writeTextBytes v))) val | _ => Crash end.
Definition text_digest (x : dynamic) : go bytes :=
  match x with DBytes val => writeTextDigest val | _ => Crash end.
Definition text_digests (x : dynamic) : go bytes :=
  match x with DBytesArray val => text_slice writeTextDigest val | _ => Crash end.
Definition text_durations (x : dynamic) : go bytes :=
  match x with DDurations val => text_slice (text_ret formatDuration) val | _ => Crash end.
Definition text_errs (x : dynamic) : go bytes :=
  match x with DErrors val => text_slice (fun v => Ret (quoted (writeTextString v))) val | _ => Crash end.
Definition text_float32s (x : dynamic) : go bytes :=
  match x with DFloat32s val => text_slice (text_ret (formatFloat 32)) val | _ => Crash end.
Definition text_float64s (x : dynamic) : go bytes :=
  match x with DFloat64s val => text_slice (text_ret (formatFloat 64)) val | _ => Crash end.
Definition text_ints (x : dynamic) : go bytes :=
  match x with DInts val => text_slice (text_ret fmt_int) val | _ => Crash end.
Definition text_int8s (x : dynamic) : go bytes :=
  match x with DInt8s val => text_slice (text_ret fmt_int) val | _ => Crash end.
Definition text_int16s (x : dynamic) : go bytes :=
  match x with DInt16s val => text_slice (text_ret fmt_int) val | _ => Crash end.
Definition text_int32s (x : dynamic) : go bytes :=
  match x with DInt32s val => text_slice (text_ret fmt_int) val | _ => Crash end.
Definition text_int64s (x : dynamic) : go bytes :=
  match x with DInt64s val => text_slice (text_ret fmt_int) val | _ => Crash end.
Definition text_strings (x : dynamic) : go bytes :=
  match x with DStrings val => text_slice (fun v => Ret (quoted (writeTextString v))) val | _ => Crash end.
Definition text_time (x : dynamic) : go bytes :=
  match x with DTime val => Ret (formatTime val) | _ => Crash end.
Definition text_times (x : dynamic) : go bytes :=
  match x with DTimes val => text_slice (text_ret formatTime) val | _ => Crash end.
Definition text_uints (x : dynamic) : go bytes :=
  match x with DUints val => text_slice (text_ret fmt_d) val | _ => Crash end.
Definition text_uint8s (x : dynamic) : go bytes :=
  match x with DBytes val => text_slice (text_ret fmt_d) val | _ => Crash end.
Definition text_uint16s (x : dynamic) : go bytes :=
  match x with DUint16s val => text_slice (text_ret fmt_d) val | _ => Crash end.
Definition text_uint32s (x : dynamic) : go bytes :=
  match x with DUint32s val => text_slice (text_ret fmt_d) val | _ => Crash end.
Definition text_uint64s (x : dynamic) : go bytes :=
  match x with DUint64s val => text_slice (text_ret fmt_d) val | _ => Crash end.

(** The key, in another colour for errors. *)
Definition text_key (f : Field) : bytes :=
  [32; 32; 27] ++ (if decide (typ f = TypeErr) then str "[101m " else str "[100m ") ++ key f ++
  [32; 27] ++ str "[0m ".

(** The switch on the type; there are no cases for [TypeInt16] and
    [TypeUint16]. *)
Definition text_value (f : Field) : go bytes :=
  match typ f with
  | TypeBool => Ret (text_bool (bool_decide (ival f = 1)))
  | TypeBools => text_bools (xval f)
  | TypeBytes => text_bytes (xval f)
  | TypeBytesArray => text_bytesArray (xval f)
  | TypeDigest => text_digest (xval f)
  | TypeDigests => text_digests (xval f)
  | TypeDuration => Ret (formatDuration (ival f))
  | TypeDurations => text_durations (xval f)
  | TypeErr => Ret (quoted (writeTextString (sval f)))
  | TypeErrs => text_errs (xval f)
  | TypeFloat32 => Ret (formatFloat 32 (u32 (ival f)))
  | TypeFloat32s => text_float32s (xval f)
  | TypeFloat64 => Ret (formatFloat 64 (u64 (ival f)))
  | TypeFloat64s => text_float64s (xval f)
  | TypeInt | TypeInt8 | TypeInt32 | TypeInt64 => Ret (fmt_int (ival f))
  | TypeInts => text_ints (xval f)
  | TypeInt8s => text_int8s (xval f)
  | TypeInt16s => text_int16s (xval f)
  | TypeInt32s => text_int32s (xval f)
  | TypeInt64s => text_int64s (xval f)
  | TypeString => Ret (quoted (writeTextString (sval f)))
  | TypeStrings => text_strings (xval f)
  | TypeTime => text_time (xval f)
  | TypeTimes => text_times (xval f)
  | TypeUint | TypeUint8 | TypeUint32 | TypeUint64 => Ret (fmt_d (u64 (ival f)))
  | TypeUints => text_uints (xval f)
  | TypeUint8s => text_uint8s (xval f)
  | TypeUint16s => text_uint16s (xval f)
  | TypeUint32s => text_uint32s (xval f)
  | TypeUint64s => text_uint64s (xval f)
  | TypeInt16 | TypeUint16 | TypeOther _ => Crash
  end.

Fixpoint writeTextFields (fields : list Field) : go bytes :=
  match fields with
  | [] => Ret []
  | f :: fields => v ← text_value f; rest ← writeTextFields fields; Ret (text_key f ++ v ++ rest)
  end.

(** ** Entries *)

Record entry := MkEntry {
  e_fields : list Field; e_level : Z; e_parfields : list Field; e_text : bytes; e_time : time }.

(** The text of an entry. *)
Definition text_entry (e : entry) : go bytes :=
  color ← (if decide (e_level e < 0) then Crash else or_crash (level2color !! Z.to_nat (e_level e)));
  let head := [91] ++ formatTime (e_time e) ++ [93; 32; 32; 32] ++ color ++ e_text e ++ [10] in
  match e_parfields e, e_fields e with
  | [], [] => Ret head
  | _, _ =>
      p ← writeTextFields (e_parfields e);
      q ← writeTextFields (e_fields e);
      Ret (head ++ replicate 34 32 ++ p ++ q ++ [10])
  end.

(** What is written to the console and to the file. *)
Definition textLog (e : entry) (s : levels) : go (option bytes * option bytes) :=
  if decide (textLevel s > e_level e) then Ret (None, None) else
  buf ← text_entry e;
  Ret (if decide (consoleLevel s <= e_level e) then Some buf else None,
       if decide (logFile s = true /\ fileLevel s <= e_level e) then Some buf else None).

(** [intercept.Write]: the standard logger's output as an entry, and the result. *)
Definition intercept_Write (p : bytes) (now : time) (s : levels) : go (option bytes * option bytes * goint) :=
  let p := if decide (last p = Some 10) then take (length p - 1) p else p in
  out ← textLog (MkEntry [] InfoLevel [] p now) s;
  Ret (out, Z.of_nat (length p)).
End text.

(** ** Loggers: [logger.go]

    A logger is its fields; logging an entry is the entry and whether the
    process exits afterwards. *)
Definition With (l fields : list Field) : list Field := l ++ fields.

Definition log (l : list Field) (lvl : Z) (text : bytes) (fields : list Field) (now : time) : entry :=
  MkEntry fields lvl l text now.

Record frame := MkFrame { fr_Function : bytes; fr_File : bytes; fr_Line : Z }.

(** The loop stops when there are no more frames, which drops the last one. *)
Fixpoint stack_frames (frames : list frame) : bytes :=
  match frames with
  | f :: ((_ :: _) as rest) =>
      [9] ++ fr_Function f ++ str "()" ++ [10; 9; 9] ++ fr_File f ++ [58] ++ fmt_int (fr_Line f) ++ [10] ++
      stack_frames rest
  | _ => []
  end.

Definition stacktrace (l : list Field) (text : bytes) (frames : list frame) (now : time) : entry :=
  log l StackTraceLevel (text ++ [10; 10] ++ stack_frames frames) [] now.

Definition Debug l text fields now : entry * bool := (log l DebugLevel text fields now, false).
Definition Debugf l text now : entry * bool := (log l DebugLevel text [] now, false).
Definition Error l text fields now : entry * bool := (log l ErrorLevel text fields now, false).
Definition Errorf l text now : entry * bool := (log l ErrorLevel text [] now, false).
Definition Fatal l text fields now : entry * bool := (log l FatalLevel text fields now, true).
Definition Fatalf l text now : entry * bool := (log l FatalLevel text [] now, false).
Definition Info l text fields now : entry * bool := (log l InfoLevel text fields now, false).
Definition Infof l text now : entry * bool := (log l InfoLevel text [] now, false).
Definition Warn l text fields now : entry * bool := (log l WarnLevel text fields now, false).
Definition Warnf l text now : entry * bool := (log l WarnLevel text [] now, false).

(** [Fatalf] of the package goes through [Fatal], the method does not. *)
Definition rootFatalf root text now : entry * bool := Fatal root text [] now.

(** * What the text of a log entry shows

    Quoted strings can be read back, and which entries reach which sink. *)

(** ** Reading a quoted string *)

Definition hex_val (c : Z) : Z := if between 48 c 57 then c - 48 else if between 97 c 102 then c - 87 else 0.

(** UTF-8 of a code point below [0x10000]. *)
Definition encodeRune (x : Z) : bytes :=
  if x <? 128 then [x]
  else if x <? 2048 then [192 + x / 64; 128 + x mod 64]
  else [224 + x / 4096; 128 + x / 64 mod 64; 128 + x mod 64].

(** A reader of strings quoted in the manner of JSON: the string up to the
    closing quote, and what follows. *)
Fixpoint unquote (s : bytes) : option (bytes * bytes) :=
  match s with
  | [] => None
  | c :: s =>
      if c =? 34 then Some ([], s)
      else if c =? 92 then
        match s with
        | [] => None
        | d :: s =>
            if d =? 117 then
              match s with
              | h1 :: h2 :: h3 :: h4 :: s =>
                  let x := ((hex_val h1 * 16 + hex_val h2) * 16 + hex_val h3) * 16 + hex_val h4 in
                  '(t, rest) ← unquote s; Some (encodeRune x ++ t, rest)
              | _ => None
              end
            else
              let x := if d =? 110 then 10 else if d =? 114 then 13 else if d =? 116 then 9 else d in
              '(t, rest) ← unquote s; Some (x :: t, rest)
        end
      else '(t, rest) ← unquote s; Some (c :: t, rest)
  end.

(** The string with every byte that is not part of a rune replaced. *)
Fixpoint sanitize (fuel : nat) (s : bytes) : bytes :=
  match fuel, s with
  | S fuel, c :: r =>
      match decodeRune s with
      | None => [239; 191; 189] ++ sanitize fuel r
      | Some size => take size s ++ sanitize fuel (drop size s)
      end
  | _, _ => []
  end.

(** The string is a sequence of runes. *)
Fixpoint validUTF8 (fuel : nat) (s : bytes) : bool :=
  match fuel, s with
  | _, [] => true
  | O, _ => false
  | S fuel, _ => match decodeRune s with None => false | Some size => validUTF8 fuel (drop size s) end
  end.

Lemma sanitize_valid fuel s : validUTF8 fuel s = true -> sanitize fuel s = s.
Proof.
  revert s. induction fuel as [|fuel IH]; intros [|c r] Hv; [done..|]. cbn [validUTF8 sanitize] in *.
  destruct (decodeRune (c :: r)) as [n|]; [|done]. by rewrite IH, take_drop.
Qed.

(** A rune longer than a byte has no byte below 128. *)
Lemma decodeRune_high s n : decodeRune s = Some n -> (forall c r, s = c :: r -> 128 <= c) ->
  (0 < n <= length s)%nat /\ Forall (fun c => 128 <= c) (take n s).
Proof.
  destruct s as [|a s]; [done|]. intros Hd Ha. specialize (Ha a s eq_refl). unfold decodeRune in Hd.
  destruct (Z.ltb_spec a 128); [lia|]. unfold cont, between in Hd.
  repeat match type of Hd with
  | match ?l with [] => _ | _ :: _ => _ end = _ => destruct l as [|?b ?l]; [done|]
  | (if ?b then _ else _) = _ => destruct b eqn:?; [|try done]
  end; try done; injection Hd as <-; cbn [take length]; (split; [lia|]);
  repeat constructor; try lia;
  repeat match goal with H : _ && _ = true |- _ => apply andb_prop in H as [??] end;
  repeat match goal with H : (_ <=? _) = true |- _ => apply Z.leb_le in H end;
  repeat case_match; lia.
Qed.

Lemma unquote_literal l s t rest : Forall (fun c => 128 <= c) l -> unquote s = Some (t, rest) ->
  unquote (l ++ s) = Some (l ++ t, rest).
Proof.
  induction 1 as [|c l Hc _ IH]; intros Hs; [done|]. cbn [app unquote].
  destruct (Z.eqb_spec c 34), (Z.eqb_spec c 92); try lia. by rewrite IH.
Qed.

Lemma unquote_escape v s t rest : 0 <= v < 128 -> unquote s = Some (t, rest) ->
  exists out, writeTextByte v = Some out /\ unquote (out ++ s) = Some (v :: t, rest).
Proof.
  intros Hv Hs. destruct (decide (32 <= v)) as [H32|H32].
  - unfold writeTextByte. rewrite Z.geb_leb. destruct (Z.leb_spec 128 v); [lia|].
    destruct (Z.leb_spec 32 v); [|lia]. cbn [andb].
    destruct (Z.eqb_spec v 92) as [->|]; [|destruct (Z.eqb_spec v 34) as [->|]]; cbn [negb andb orb];
      eexists; (split; [done|]); cbn [app unquote].
    + by rewrite Hs.
    + by rewrite Hs.
    + destruct (Z.eqb_spec v 34), (Z.eqb_spec v 92); try lia. by rewrite Hs.
  - assert (v ∈ seqZ 0 32) as Hin by (apply elem_of_seqZ; lia).
    assert (forall x, x ∈ seqZ 0 32 -> exists out, writeTextByte x = Some out /\
              unquote (out ++ s) = Some (x :: t, rest)) as Hall; [|by apply Hall].
    clear v Hv H32 Hin. apply Forall_forall. cbn [seqZ seq fmap list_fmap Z.to_nat Pos.to_nat Pos.iter_op Nat.add].
    repeat (constructor; [eexists; split; [by vm_compute|]; cbn [app unquote]; by rewrite Hs|]). constructor.
Qed.

Lemma quoting_runes fuel s rest : (length s <= fuel)%nat -> Forall (fun c => 0 <= c) s ->
  unquote (writeTextRunes fuel s ++ 34 :: rest) = Some (sanitize fuel s, rest).
Proof.
  revert s. induction fuel as [|fuel IH]; intros [|c r] Hl Hs; [done|simpl in Hl; lia|done|].
  cbn [length] in Hl. pose proof Hs as Hs'. inversion_clear Hs' as [|? ? Hc Hr].
  cbn [writeTextRunes sanitize]. destruct (decide (c < 128)) as [Hlt|Hge].
  - destruct (unquote_escape c _ _ _ ltac:(lia) (IH r ltac:(lia) Hr)) as (out & -> & Hu).
    assert (decodeRune (c :: r) = Some 1%nat) as ->.
    { unfold decodeRune. by destruct (Z.ltb_spec c 128); [|lia]. }
    rewrite <-app_assoc, Hu. done.
  - assert (writeTextByte c = None) as ->.
    { unfold writeTextByte. rewrite Z.geb_leb. by destruct (Z.leb_spec 128 c); [|lia]. }
    destruct (decodeRune (c :: r)) as [n|] eqn:E.
    + apply decodeRune_high in E as [Hn Hh]; [|intros ? ? [= <- <-]; lia].
      rewrite <-app_assoc. apply unquote_literal; [done|]. apply IH; [rewrite length_drop; simpl; lia|].
      by apply Forall_drop.
    + rewrite <-app_assoc. cbn -[writeTextRunes]. by rewrite IH by (done || lia).
Qed.

(** A string of a log entry can be read back: a reader of quoted strings that
    starts behind the opening quote stops exactly at the closing one, whatever
    the string contains and whatever follows, and finds the string itself when
    it is valid UTF-8, and otherwise the string with its invalid bytes replaced
    by U+FFFD. *)
Theorem quoting_roundtrip s rest : Forall (fun c => 0 <= c) s ->
  quoted (writeTextString s) ++ rest = 34 :: writeTextString s ++ 34 :: rest /\
  unquote (writeTextString s ++ 34 :: rest) = Some (sanitize (length s) s, rest) /\
  writeTextBytes s = writeTextString s /\
  (validUTF8 (length s) s = true -> unquote (writeTextString s ++ 34 :: rest) = Some (s, rest)).
Proof.
  intros Hs. assert (unquote (writeTextString s ++ 34 :: rest) = Some (sanitize (length s) s, rest)) as Hu
    by (by apply quoting_runes).
  split_and!; [unfold quoted; cbn; by rewrite <-app_assoc|done|done|].
  intros Hv. by rewrite Hu, sanitize_valid.
Qed.

Lemma quoting_roundtrip_witness :
  writeTextString (str "a\b" ++ [10; 34; 255; 195; 169]) = str "a\\b\n\" ++ [34] ++ str "\ufffd" ++ [195; 169] /\
  unquote (writeTextString (str "a\b" ++ [10; 34; 255; 195; 169]) ++ 34 :: str "x") =
    Some (str "a\b" ++ [10; 34; 239; 191; 189; 195; 169], str "x").
Proof.
  split; [by vm_compute|].
  destruct (quoting_roundtrip (str "a\b" ++ [10; 34; 255; 195; 169]) (str "x")) as (_ & H & _).
  - repeat constructor; by vm_compute.
  - exact H.
Defined.

(** ** Which fields have a text *)

Definition long (d : bytes) : Prop := (6 <= length d)%nat.

(** The type is supported and the value has the dynamic type that it expects. *)
Definition textable (f : Field) : Prop :=
  match typ f, xval f with
  | (TypeBool | TypeDuration | TypeErr | TypeFloat32 | TypeFloat64), _ => True
  | (TypeInt | TypeInt8 | TypeInt32 | TypeInt64 | TypeString), _ => True
  | (TypeUint | TypeUint8 | TypeUint32 | TypeUint64), _ => True
  | TypeBools, DBools _ | TypeBytes, DBytes _ | TypeBytesArray, DBytesArray _ => True
  | TypeDigest, DBytes d => long d
  | TypeDigests, DBytesArray l => Forall long l
  | TypeDurations, DDurations _ | TypeErrs, DErrors _ => True
  | TypeFloat32s, DFloat32s _ | TypeFloat64s, DFloat64s _ => True
  | TypeInts, DInts _ | TypeInt8s, DInt8s _ | TypeInt16s, DInt16s _ => True
  | TypeInt32s, DInt32s _ | TypeInt64s, DInt64s _ => True
  | TypeStrings, DStrings _ | TypeTime, DTime _ | TypeTimes, DTimes _ => True
  | TypeUints, DUints _ | TypeUint8s, DBytes _ | TypeUint16s, DUint16s _ => True
  | TypeUint32s, DUint32s _ | TypeUint64s, DUint64s _ => True
  | _, _ => False
  end.

Lemma text_items_Ret {A} (f : A -> go bytes) i last l :
  (exists out, text_items f i last l = Ret out) <-> Forall (fun v => exists out, f v = Ret out) l.
Proof.
  revert i. induction l as [|v l IH]; intros i; cbn [text_items]; [split; eauto|].
  rewrite Forall_cons, <-(IH (i + 1)). split.
  - intros (out & H). apply go_bind_Ret in H as (o & Ho & H). apply go_bind_Ret in H as (rest & Hr & _). eauto.
  - intros [[o ->] [rest Hr]]. cbn [mbind go_bind]. rewrite Hr. eauto.
Qed.

Lemma text_slice_Ret {A} (f : A -> go bytes) l :
  (exists out, text_slice f l = Ret out) <-> Forall (fun v => exists out, f v = Ret out) l.
Proof.
  rewrite <-(text_items_Ret f 0 (Z.of_nat (length l) - 1)). unfold text_slice. split.
  - intros (out & H). apply go_bind_Ret in H as (o & Ho & _). eauto.
  - intros [o ->]. cbn. eauto.
Qed.

Lemma digest_Ret d : (exists out, writeTextDigest d = Ret out) <-> long d.
Proof. unfold writeTextDigest, long. case_decide; naive_solver. Qed.

Section text.
Context (formatFloat : Z -> Z -> bytes).

Lemma text_value_Ret f : (exists out, text_value formatFloat f = Ret out) <-> textable f.
Proof using Type.
  assert (forall A (g : A -> bytes) (l : list A), (exists out, text_slice (fun v => Ret (g v)) l = Ret out) <-> True)
    as Htot.
  { intros A g l. rewrite text_slice_Ret. split; [done|]. intros _. apply Forall_true. eauto. }
  destruct f as [k t i s x]. unfold text_value, textable. cbn [typ xval ival sval].
  destruct t; try (split; [done|by eauto]); try (split; [by intros [? ?]|done]);
    destruct x; cbn; try (split; [by intros [? ?]|done]); try apply Htot; try (split; [done|by eauto]).
  - apply digest_Ret.
  - rewrite text_slice_Ret. apply Forall_iff. apply digest_Ret.
Qed.

Lemma writeTextFields_Ret fs : (exists out, writeTextFields formatFloat fs = Ret out) <-> Forall textable fs.
Proof using Type.
  induction fs as [|f fs IH]; cbn [writeTextFields]; [split; eauto|].
  rewrite Forall_cons, <-IH, <-text_value_Ret. split.
  - intros (out & H). apply go_bind_Ret in H as (o & Ho & H). apply go_bind_Ret in H as (rest & Hr & _). eauto.
  - intros [[o ->] [rest Hr]]. cbn [mbind go_bind]. rewrite Hr. eauto.
Qed.

Lemma text_entry_Ret e : 0 <= e_level e <= FatalLevel ->
  (exists out, text_entry formatFloat e = Ret out) <-> Forall textable (e_parfields e ++ e_fields e).
Proof using Type.
  intros Hl. unfold text_entry. rewrite decide_False by lia.
  destruct (level2color !! Z.to_nat (e_level e)) as [col|] eqn:E.
  2: { apply lookup_ge_None in E. unfold FatalLevel in Hl. change (length level2color) with 7%nat in E. lia. }
  cbn [or_crash mbind go_bind]. rewrite Forall_app, <-!writeTextFields_Ret.
  destruct (e_parfields e) as [|p ps]; [destruct (e_fields e) as [|q qs]|]; [cbn; split; eauto|..].
  all: split.
  1,3: intros (out & H); apply go_bind_Ret in H as (o & Ho & H); apply go_bind_Ret in H as (r & Hr & _); eauto.
  all: intros [[o ->] [r Hr]]; cbn [mbind go_bind]; rewrite Hr; cbn; eauto.
Qed.

Lemma file_open s : rtc configure initialLevels s -> fileLevel s < maxLevel -> logFile s = true.
Proof using Type.
  intros Hs. assert (fileLevel initialLevels < maxLevel -> logFile initialLevels = true) as H0 by (intros; simpl in *; lia).
  induction Hs as [|s1 s2 s3 H12 _ IH]; [done|]. apply IH.
  destruct H12 as [lvl s|opened lvl s|lvl s]; unfold ToConsole, ToFile, ToServer, updateMinLevels.
  all: try destruct opened; repeat case_decide; done.
Qed.

(** However the sinks have been configured, an entry is written to the console
    exactly when the level of the console asks for it, and to the file exactly
    when its level does, the same line to both; [At] tells whether any sink
    wants a level.  A wanted entry makes the process panic exactly when one of
    its fields has no text. *)
Theorem text_log_spec e s : rtc configure initialLevels s -> 0 <= e_level e <= FatalLevel ->
  let console := consoleLevel s <= e_level e in
  let file := fileLevel s <= e_level e in
  (At (e_level e) s = true <-> console \/ file \/ netLevel s <= e_level e) /\
  (~ console /\ ~ file -> textLog formatFloat e s = Ret (None, None)) /\
  (Forall textable (e_parfields e ++ e_fields e) -> exists line, text_entry formatFloat e = Ret line /\
     textLog formatFloat e s = Ret (if decide console then Some line else None,
                                    if decide file then Some line else None)) /\
  (console \/ file -> ~ Forall textable (e_parfields e ++ e_fields e) ->
     forall out, textLog formatFloat e s <> Ret out).
Proof using Type.
  intros Hs Hl. cbn zeta. pose proof (configured_ok s Hs) as [Ht Hm]. pose proof (file_open s Hs) as Hf.
  unfold maxLevel, FatalLevel in *. split_and!.
  - unfold At. rewrite bool_decide_eq_true. lia.
  - intros [??]. unfold textLog. by rewrite decide_True by lia.
  - intros Hx. apply text_entry_Ret in Hx as [line Hline]; [|done]. exists line. split; [done|].
    unfold textLog. rewrite Hline. cbn [mbind go_bind].
    destruct (decide (fileLevel s <= e_level e)) as [E|E].
    + rewrite decide_False by lia. rewrite (decide_True (P := logFile s = true /\ _)); [done|].
      split; [apply Hf; lia|done].
    + rewrite (decide_False (P := logFile s = true /\ _)) by tauto.
      case_decide; [|done]. by rewrite decide_False by lia.
  - intros Hw Hx out. unfold textLog. rewrite decide_False by lia. intros H. apply go_bind_Ret in H as (line & Hline & _).
    apply Hx. apply text_entry_Ret; eauto.
Qed.
End text.

(** Fields that no entry can show: the sixteen-bit integers, and a slice of
    errors, whose constructor takes a single error. *)
Lemma untextable k v e : ~ textable (Fields.Int16 k v) /\ ~ textable (Fields.Uint16 k v) /\
  ~ textable (Fields.Errs e).
Proof. split_and!; [by intros []..|]. destruct e; by intros []. Qed.

Definition someField : Field := Fld.NodeID 7.
Definition someEntry (fs : list Field) : entry :=
  MkEntry fs ErrorLevel [someField] (str "Hi") (MkTime 2019 1 2 3 4 5).
Definition someLevels : levels := ToFile true ErrorLevel (ToConsole FatalLevel initialLevels).

Lemma text_log_spec_witness : exists line,
  textLog (fun _ _ => []) (someEntry [Fld.BlockHash (replicate 32 171)]) someLevels = Ret (None, Some line).
Proof.
  destruct (text_log_spec (fun _ _ => []) (someEntry [Fld.BlockHash (replicate 32 171)]) someLevels)
    as (_ & _ & H & _).
  - eapply rtc_l; [apply (conf_console FatalLevel)|]. eapply rtc_l; [apply (conf_file true ErrorLevel)|]. apply rtc_refl.
  - by vm_compute.
  - destruct H as (line & _ & H).
    + repeat constructor; vm_compute; lia.
    + exists line. exact H.
Defined.
