(* ===== verification/LogNet.v ===== *)
(** * LogNet: log entries on the network

    Model of [src/internal/log/network.go] and of the connection handler of
    [src/internal/log/server.go].  The first bytes of the buffer are scratch
    space through which numbers are appended.  The encoder is compared with a
    direct definition of the format, which has a decoder. *)
From S2P Require Import Prelude Codec Config LogFields LogText Database Conn.

(** ** The encoder *)

(** [binary.LittleEndian.PutUint32(buf, v)] and the like, [n] bytes wide. *)
Definition put (n : nat) (v : Z) (buf : bytes) : go bytes :=
  if decide (n <= length buf)%nat then Ret (PutUint n v ++ drop n buf) else Crash.

(** A number through the scratch space: [append(buf, buf[:n]...)]. *)
Definition writeUint (n : nat) (v : Z) (buf : bytes) : go bytes :=
  buf ← put n v buf; Ret (buf ++ take n buf).

Definition writeUint32 (buf : bytes) (val : goint) : go bytes := writeUint 4 (u32 val) buf.
Definition writeUint64 (buf : bytes) (val : goint) : go bytes := writeUint 8 (u64 val) buf.

(** The switch on the type of the field. *)
Definition net_value (field : Field) (buf : bytes) : go bytes :=
  match typ field with
  | TypeBool => Ret (buf ++ [typeByte TypeBool; if decide (ival field = 1) then 1 else 0])
  | TypeBools =>
      let buf := buf ++ [typeByte TypeBools] in
      match xval field with
      | DBools val =>
          buf ← writeUint32 buf (Z.of_nat (length val));
          Ret (buf ++ ((fun v : bool => if v then 1 else 0) <$> val))
      | _ => Crash
      end
  | TypeErr =>
      let buf := buf ++ [typeByte TypeErr] in
      buf ← writeUint32 buf (Z.of_nat (length (sval field)));
      Ret (buf ++ sval field)
  | TypeString =>
      let buf := buf ++ [typeByte TypeString] in
      buf ← writeUint32 buf (Z.of_nat (length (sval field)));
      Ret (buf ++ sval field)
  | TypeUint32 =>
      let buf := buf ++ [typeByte TypeUint32] in
      writeUint 4 (u32 (ival field)) buf
  | TypeUint64 =>
      let buf := buf ++ [typeByte TypeUint64] in
      writeUint 8 (u64 (ival field)) buf
  | _ => Crash
  end.

Fixpoint writeNetFields (buf pbuf : bytes) (fields : list Field) : go (bytes * bytes) :=
  match fields with
  | [] => Ret (buf, pbuf)
  | field :: fields =>
      buf ← writeUint32 buf (Z.of_nat (length (key field)));
      let buf := buf ++ key field in
      c ← or_crash (key field !! 0%nat);
      let idx := if decide (c = 64) then Some (length buf) else None in
      let pbuf := if idx then pbuf ++ key field else pbuf in
      buf ← net_value field buf;
      let pbuf := match idx with Some i => pbuf ++ drop i buf | None => pbuf end in
      writeNetFields buf pbuf fields
  end.

(** The part of an iteration of [writeNetEntries] that fills the buffers. *)
Definition fillBuffers (e : entry) (buf pbuf : bytes) : go (bytes * bytes) :=
  let buf := take 8 buf in
  let pbuf := take 4 pbuf in
  let buf := buf ++ [u8 (e_level e)] in
  buf ← writeUint32 buf (Z.of_nat (length (e_text e)));
  let buf := buf ++ e_text e in
  let flen := Z.of_nat (length (e_parfields e)) + Z.of_nat (length (e_fields e)) in
  buf ← writeUint32 buf flen;
  '(buf, pbuf) ← (if decide (flen > 0) then
                    '(buf, pbuf) ← (if decide (0 < length (e_parfields e))%nat
                                    then writeNetFields buf pbuf (e_parfields e) else Ret (buf, pbuf));
                    if decide (0 < length (e_fields e))%nat
                    then writeNetFields buf pbuf (e_fields e) else Ret (buf, pbuf)
                  else Ret (buf, pbuf));
  size ← put 4 (u32 (Z.of_nat (length buf) - 8)) (drop 4 buf);
  psize ← put 4 (u32 (Z.of_nat (length pbuf) - 4)) pbuf;
  Ret (take 4 buf ++ size, psize).

(** The goroutine: its buffers, whether it is connected, the channel of the
    entries to send, the entry that is not yet sent, and the frames handed to the
    connection, a pair per entry. *)
Record netWriter := MkNetWriter {
  nw_buf : bytes; nw_pbuf : bytes; nw_conn : bool; nw_pending : list entry; nw_entry : option entry;
  nw_sent : list bytes }.

(** What the goroutine starts with. *)
Definition newNetWriter (pending : list entry) : netWriter :=
  MkNetWriter (replicate 8 0) (replicate 4 0) false pending None [].

(** An iteration of [writeNetEntries] that gets an entry and has or makes a
    connection; [ok] and [pok] tell whether the two writes succeed. *)
Definition writeNetEntry (ok pok : bool) (w : netWriter) : go netWriter :=
  let '(next, pending) := match nw_entry w, nw_pending w with
                          | Some e, pending => (Some e, pending)
                          | None, e :: pending => (Some e, pending)
                          | None, [] => (None, [])
                          end in
  match next with
  | None => Ret w
  | Some e =>
      '(buf, pbuf) ← fillBuffers e (nw_buf w) (nw_pbuf w);
      if ok && pok then Ret (MkNetWriter buf pbuf true pending None (nw_sent w ++ [drop 4 buf ++ pbuf]))
      else Ret (MkNetWriter buf pbuf false pending (Some e) (nw_sent w))
  end.

Fixpoint writeNetEntries (n : nat) (w : netWriter) : go netWriter :=
  match n with
  | O => Ret w
  | S n => w ← writeNetEntry true true w; writeNetEntries n w
  end.

(** [netLog]: an entry is queued when its level is wanted and there is room. *)
Definition netLog (limit : nat) (s : levels) (e : entry) (pending : list entry) : list entry :=
  if decide (netLevel s > e_level e) then pending
  else if decide (length pending < limit)%nat then pending ++ [e] else pending.

(** ** The format *)

Inductive netValue : Type :=
  | NBool (v : bool) | NBools (v : list bool) | NErr (v : bytes) | NString (v : bytes)
  | NUint32 (v : Z) | NUint64 (v : Z).

Definition netValue_of (f : Field) : option netValue :=
  match typ f, xval f with
  | TypeBool, _ => Some (NBool (bool_decide (ival f = 1)))
  | TypeBools, DBools val => Some (NBools val)
  | TypeErr, _ => Some (NErr (sval f))
  | TypeString, _ => Some (NString (sval f))
  | TypeUint32, _ => Some (NUint32 (u32 (ival f)))
  | TypeUint64, _ => Some (NUint64 (u64 (ival f)))
  | _, _ => None
  end.

Definition bit (v : bool) : Z := if v then 1 else 0.
Definition len32 (l : nat) : bytes := PutUint32 (u32 (Z.of_nat l)).
Definition sized (s : bytes) : bytes := len32 (length s) ++ s.

Definition encodeValue (v : netValue) : bytes :=
  match v with
  | NBool v => [1; bit v]
  | NBools v => [2] ++ len32 (length v) ++ (bit <$> v)
  | NErr v => [9] ++ sized v
  | NString v => [25] ++ sized v
  | NUint32 v => [35] ++ PutUint32 v
  | NUint64 v => [37] ++ PutUint64 v
  end.

Definition encodeField (kv : bytes * netValue) : bytes := sized kv.1 ++ encodeValue kv.2.

(** The fields whose key starts with [@] go to the second frame as well. *)
Definition isProp (kv : bytes * netValue) : Prop := kv.1 !! 0%nat = Some 64.
#[export] Instance isProp_dec kv : Decision (isProp kv).
Proof. unfold isProp. apply _. Defined.
Definition encodeProp (kv : bytes * netValue) : bytes := kv.1 ++ encodeValue kv.2.

Definition encodeBody (level : Z) (text : bytes) (kvs : list (bytes * netValue)) : bytes :=
  [level] ++ sized text ++ len32 (length kvs) ++ (kvs ≫= encodeField).

(** The fields of an entry on the network, [None] when one cannot be sent. *)
Definition netField (f : Field) : option (bytes * netValue) :=
  v ← netValue_of f; match key f with [] => None | _ => Some (key f, v) end.
Fixpoint netFields (fs : list Field) : option (list (bytes * netValue)) :=
  match fs with
  | [] => Some []
  | f :: fs => kv ← netField f; kvs ← netFields fs; Some (kv :: kvs)
  end.

(** ** The server *)

(** One of the two loops of [handle] that read a frame into [buf]. *)
Definition readFrame (buf : bytes) (chunks : list bytes) : option (bytes * list bytes) :=
  '(header, chunks) ← read_loop 4 chunks [];
  match Uint 4 header with
  | Ret size =>
      let buf := if decide (size > Z.of_nat (length buf)) then replicate (Z.to_nat size) 0 else buf in
      '(data, chunks) ← read_loop (Z.to_nat size) chunks [];
      Some (fill buf data, chunks)
  | _ => None
  end.

(** An iteration of [handle]: both buffers, which are printed as a whole. *)
Definition handle_step (buf pbuf : bytes) (chunks : list bytes) : option (bytes * bytes * list bytes) :=
  '(buf, chunks) ← readFrame buf chunks;
  '(pbuf, chunks) ← readFrame pbuf chunks;
  Some (buf, pbuf, chunks).

(** [n] iterations and what they print. *)
Fixpoint handle (n : nat) (buf pbuf : bytes) (chunks : list bytes) : option (list (bytes * bytes) * list bytes) :=
  match n with
  | O => Some ([], chunks)
  | S n =>
      '(buf, pbuf, chunks) ← handle_step buf pbuf chunks;
      '(printed, chunks) ← handle n buf pbuf chunks;
      Some ((buf, pbuf) :: printed, chunks)
  end.

(** ** The encoder follows the format *)

(** A buffer with scratch space and what has been appended to it. *)
Definition holds (buf : bytes) (content : bytes) : Prop :=
  exists scratch, buf = scratch ++ content /\ length scratch = 8%nat.

Lemma writeUint_holds n v buf content : (n <= 8)%nat -> holds buf content ->
  exists buf', writeUint n v buf = Ret buf' /\ holds buf' (content ++ PutUint n v).
Proof.
  intros Hn (scratch & -> & Hs). unfold writeUint, put.
  rewrite decide_True by (rewrite length_app; lia). cbn [mbind go_bind]. eexists. split; [done|].
  exists (PutUint n v ++ drop n scratch). rewrite length_app, length_PutUint, length_drop.
  split; [|lia]. rewrite (take_app_length' (PutUint n v)) by (by rewrite length_PutUint).
  rewrite drop_app_le by lia. by rewrite <-!app_assoc.
Qed.

Lemma holds_app buf content x : holds buf content -> holds (buf ++ x) (content ++ x).
Proof. intros (scratch & -> & Hs). exists scratch. by rewrite app_assoc. Qed.

Lemma net_value_holds f v buf content : netValue_of f = Some v -> holds buf content ->
  exists buf', net_value f buf = Ret buf' /\ holds buf' (content ++ encodeValue v).
Proof.
  unfold netValue_of, net_value. intros Hv Hb.
  destruct (typ f) eqn:Et; try done; [|destruct (xval f); try done|..]; injection Hv as <-.
  - eexists. split; [done|]. unfold encodeValue, bit. cbn [typeByte].
    rewrite <-(decide_bool_decide (ival f = 1)). destruct (decide (ival f = 1)); by apply holds_app.
  - destruct (writeUint_holds 4 (u32 (Z.of_nat (length v0))) _ _ ltac:(lia) (holds_app _ _ [2] Hb)) as (b & Hw & Hh).
    unfold writeUint32. cbn [typeByte]. rewrite Hw. eexists. split; [done|].
    unfold encodeValue, len32. rewrite !app_assoc. by apply holds_app.
  - destruct (writeUint_holds 4 (u32 (Z.of_nat (length (sval f)))) _ _ ltac:(lia) (holds_app _ _ [9] Hb)) as (b & Hw & Hh).
    unfold writeUint32. cbn [typeByte]. rewrite Hw. eexists. split; [done|].
    unfold encodeValue, sized, len32. rewrite !app_assoc. by apply holds_app.
  - destruct (writeUint_holds 4 (u32 (Z.of_nat (length (sval f)))) _ _ ltac:(lia) (holds_app _ _ [25] Hb)) as (b & Hw & Hh).
    unfold writeUint32. cbn [typeByte]. rewrite Hw. eexists. split; [done|].
    unfold encodeValue, sized, len32. rewrite !app_assoc. by apply holds_app.
  - destruct (writeUint_holds 4 (u32 (ival f)) _ _ ltac:(lia) (holds_app _ _ [35] Hb)) as (b & Hw & Hh).
    exists b. split; [done|]. unfold encodeValue. by rewrite app_assoc.
  - destruct (writeUint_holds 8 (u64 (ival f)) _ _ ltac:(lia) (holds_app _ _ [37] Hb)) as (b & Hw & Hh).
    exists b. split; [done|]. unfold encodeValue. by rewrite app_assoc.
Qed.

Lemma net_value_none f buf out : netValue_of f = None -> net_value f buf <> Ret out.
Proof. unfold netValue_of, net_value. destruct (typ f); try done. by destruct (xval f). Qed.

Lemma holds_drop buf buf' c x : holds buf c -> holds buf' (c ++ x) -> drop (length buf) buf' = x.
Proof.
  intros (s & -> & Hs) (s' & -> & Hs'). rewrite app_assoc. apply drop_app_length'.
  rewrite !length_app. lia.
Qed.

Definition encodeProps (kvs : list (bytes * netValue)) : bytes := filter isProp kvs ≫= encodeProp.

Lemma writeNetFields_holds fs kvs buf pbuf content : netFields fs = Some kvs -> holds buf content ->
  exists buf', writeNetFields buf pbuf fs = Ret (buf', pbuf ++ encodeProps kvs) /\
    holds buf' (content ++ (kvs ≫= encodeField)).
Proof.
  revert kvs buf pbuf content. induction fs as [|f fs IH]; intros kvs buf pbuf content Hk Hb; cbn [netFields] in Hk.
  { injection Hk as <-. exists buf. cbn. by rewrite !app_nil_r. }
  apply bind_Some in Hk as (kv & Hkv & Hk). apply bind_Some in Hk as (kvs' & Hk & [= <-]).
  unfold netField in Hkv. apply bind_Some in Hkv as (v & Hv & Hkv).
  destruct (key f) as [|c k] eqn:Ek; [done|]. injection Hkv as <-.
  cbn [writeNetFields]. rewrite Ek. unfold writeUint32.
  destruct (writeUint_holds 4 (u32 (Z.of_nat (length (c :: k)))) _ _ ltac:(lia) Hb) as (b1 & -> & H1).
  cbn [mbind go_bind]. apply (holds_app _ _ (c :: k)) in H1. cbn [lookup list_lookup or_crash].
  destruct (net_value_holds _ _ _ _ Hv H1) as (b2 & H2 & Hh2). rewrite H2. cbn [mbind go_bind].
  set (pbuf' := match _ with Some i => _ | None => _ end).
  destruct (IH kvs' b2 pbuf' _ Hk Hh2) as (b3 & -> & Hh3).
  exists b3. split.
  - do 2 f_equal. unfold pbuf', encodeProps. rewrite filter_cons.
    destruct (decide (c = 64)) as [->|Hc].
    + rewrite decide_True by done. rewrite (holds_drop _ _ _ _ H1 Hh2). csimpl. unfold encodeProp at 2.
      cbn [fst snd]. by rewrite <-!app_assoc.
    + rewrite decide_False; [done|]. unfold isProp. cbn. congruence.
  - change (holds b3 (content ++ ((len32 (length (c :: k)) ++ (c :: k)) ++ encodeValue v) ++ (kvs' ≫= encodeField))).
    rewrite <-!app_assoc in Hh3. rewrite <-!app_assoc. exact Hh3.
Qed.

Lemma writeNetFields_none fs buf pbuf out : netFields fs = None -> writeNetFields buf pbuf fs <> Ret out.
Proof.
  revert buf pbuf. induction fs as [|f fs IH]; intros buf pbuf Hn H; cbn [netFields writeNetFields] in *; [done|].
  apply go_bind_Ret in H as (b1 & _ & H). apply go_bind_Ret in H as (c & Hc & H).
  apply go_bind_Ret in H as (b2 & Hv & H). unfold netField in Hn. destruct (netValue_of f) eqn:Ev.
  - destruct (key f); [done|]. cbn in Hn. destruct (netFields fs) eqn:E; [done|]. by eapply IH.
  - by eapply net_value_none in Ev.
Qed.

Lemma netFields_app xs ys : netFields (xs ++ ys) = (a ← netFields xs; b ← netFields ys; Some (a ++ b)).
Proof.
  induction xs as [|x xs IH]; cbn [app netFields]; [by destruct (netFields ys)|].
  destruct (netField x); cbn; [|done]. rewrite IH. destruct (netFields xs); cbn; [|done]. by destruct (netFields ys).
Qed.

Lemma writeNetFields_if fs buf pbuf :
  (if decide (0 < length fs)%nat then writeNetFields buf pbuf fs else Ret (buf, pbuf)) =
  writeNetFields buf pbuf fs.
Proof. by destruct fs. Qed.

Lemma netFields_length fs kvs : netFields fs = Some kvs -> length kvs = length fs.
Proof.
  revert kvs. induction fs as [|f fs IH]; intros kvs H; cbn [netFields] in H; [by injection H as <-|].
  apply bind_Some in H as (kv & _ & H). apply bind_Some in H as (kvs' & H & [= <-]). cbn. by rewrite IH.
Qed.

(** The fields of an entry: those of the logger, then its own. *)
Lemma entry_fields e buf pbuf :
  (if decide (Z.of_nat (length (e_parfields e)) + Z.of_nat (length (e_fields e)) > 0) then
     '(buf, pbuf) ← (if decide (0 < length (e_parfields e))%nat
                     then writeNetFields buf pbuf (e_parfields e) else Ret (buf, pbuf));
     if decide (0 < length (e_fields e))%nat then writeNetFields buf pbuf (e_fields e) else Ret (buf, pbuf)
   else Ret (buf, pbuf)) = writeNetFields buf pbuf (e_parfields e ++ e_fields e).
Proof.
  rewrite writeNetFields_if. assert (forall xs ys b p, writeNetFields b p (xs ++ ys) =
    ('(b, p) ← writeNetFields b p xs; writeNetFields b p ys)) as Happ.
  { intros xs ys. induction xs as [|x xs IH]; intros b p; [done|]. cbn [app writeNetFields].
    destruct (writeUint32 _ _); [|done..]. cbn [mbind go_bind]. destruct (or_crash _); [|done..].
    cbn [mbind go_bind]. destruct (net_value _ _); [|done..]. cbn [mbind go_bind]. apply IH. }
  rewrite Happ. case_decide.
  - destruct (writeNetFields _ _ (e_parfields e)) as [[b p]| |]; [|done..]. cbn [mbind go_bind]. apply writeNetFields_if.
  - destruct (e_parfields e), (e_fields e); simpl in *; try lia. done.
Qed.

Lemma put_app n v a c : length a = n -> put n v (a ++ c) = Ret (PutUint n v ++ c).
Proof. intros <-. unfold put. rewrite decide_True by (rewrite length_app; lia). by rewrite drop_app_length. Qed.

(** The encoder, which appends numbers through scratch space at the start of
    its reused buffer, produces exactly the two frames of the format: the
    entry, and the values of the fields whose key starts with [@].  It panics
    when a field has an empty key or a type other than the six supported. *)
Lemma fillBuffers_format e buf pbuf : (8 <= length buf)%nat -> (4 <= length pbuf)%nat ->
  match netFields (e_parfields e ++ e_fields e) with
  | Some kvs => exists buf',
      fillBuffers e buf pbuf = Ret (buf', frame (encodeProps kvs)) /\
      drop 4 buf' = frame (encodeBody (u8 (e_level e)) (e_text e) kvs) /\ (8 <= length buf')%nat
  | None => forall out, fillBuffers e buf pbuf <> Ret out
  end.
Proof.
  intros Hb Hp. unfold fillBuffers.
  assert (holds (take 8 buf) []) as H0 by (exists (take 8 buf); rewrite app_nil_r, length_take; split; [done|lia]).
  apply (holds_app _ _ [u8 (e_level e)]) in H0. unfold writeUint32.
  destruct (writeUint_holds 4 (u32 (Z.of_nat (length (e_text e)))) _ _ ltac:(lia) H0) as (b1 & -> & H1).
  cbn [mbind go_bind]. apply (holds_app _ _ (e_text e)) in H1.
  destruct (writeUint_holds 4 (u32 (Z.of_nat (length (e_parfields e)) + Z.of_nat (length (e_fields e)))) _ _
              ltac:(lia) H1) as (b2 & -> & H2).
  cbn [mbind go_bind]. rewrite entry_fields. destruct (netFields _) as [kvs|] eqn:Ek.
  2: { intros out H. apply go_bind_Ret in H as ([b p] & H & _). by eapply writeNetFields_none in H. }
  destruct (writeNetFields_holds _ _ _ (take 4 pbuf) _ Ek H2) as (b3 & -> & (scratch & -> & Hs)).
  cbn [mbind go_bind]. set (content := _ ++ (kvs ≫= encodeField)).
  assert (content = encodeBody (u8 (e_level e)) (e_text e) kvs) as Hc.
  { unfold content, encodeBody, sized, len32. rewrite (netFields_length _ _ Ek), length_app, Nat2Z.inj_add.
    cbn [app]. by rewrite <-!app_assoc. }
  clearbody content. subst content. set (body := encodeBody _ _ _).
  rewrite (drop_app_le scratch) by lia. rewrite (put_app 4 _ (drop 4 scratch)) by (rewrite length_drop; lia).
  cbn [mbind go_bind]. rewrite (put_app 4 _ (take 4 pbuf)) by (rewrite length_take; lia). cbn [mbind go_bind].
  eexists. split; [|split].
  - rewrite (length_app (take 4 pbuf)), length_take, Nat.min_l, Nat2Z.inj_add by lia. unfold frame.
    by replace (Z.of_nat 4 + Z.of_nat (length (encodeProps kvs)) - 4) with (Z.of_nat (length (encodeProps kvs))) by lia.
  - rewrite drop_app_length' by (rewrite length_take, length_app; lia). unfold frame.
    rewrite length_app, Hs, Nat2Z.inj_add.
    by replace (Z.of_nat 8 + Z.of_nat (length body) - 8) with (Z.of_nat (length body)) by lia.
  - rewrite !length_app, length_take, length_PutUint, length_app. lia.
Qed.

(** The two frames of an entry by the format; the code panics where it has none. *)
Definition wireFrames (e : entry) : go (bytes * bytes) :=
  match netFields (e_parfields e ++ e_fields e) with
  | Some kvs => Ret (frame (encodeBody (u8 (e_level e)) (e_text e) kvs), frame (encodeProps kvs))
  | None => Crash
  end.

(** The encoder returns no errors. *)
Definition panics_only {A} (r : go A) : Prop := match r with Fail _ => False | _ => True end.

Lemma panics_bind {A B} (r : go A) (f : A -> go B) : panics_only r -> (forall a, panics_only (f a)) ->
  panics_only (a ← r; f a).
Proof. destruct r; cbn; auto. Qed.

Lemma put_panics n v buf : panics_only (put n v buf).
Proof. unfold put. by case_decide. Qed.
Lemma writeUint_panics n v buf : panics_only (writeUint n v buf).
Proof. apply panics_bind; [apply put_panics|done]. Qed.

Lemma net_value_panics f buf : panics_only (net_value f buf).
Proof.
  unfold net_value, writeUint32. destruct (typ f); try done; try apply writeUint_panics; [destruct (xval f); try done|..];
    (apply panics_bind; [apply writeUint_panics|done]).
Qed.

Lemma writeNetFields_panics fs buf pbuf : panics_only (writeNetFields buf pbuf fs).
Proof.
  revert buf pbuf. induction fs as [|f fs IH]; intros buf pbuf; cbn [writeNetFields]; [done|].
  apply panics_bind; [apply writeUint_panics|intros b]. apply panics_bind; [by destruct (key f)|intros c].
  apply panics_bind; [apply net_value_panics|intros b']. apply IH.
Qed.

Lemma fillBuffers_panics e buf pbuf : panics_only (fillBuffers e buf pbuf).
Proof.
  unfold fillBuffers. cbv zeta. apply panics_bind; [apply writeUint_panics|intros b1].
  apply panics_bind; [apply writeUint_panics|intros b2]. rewrite entry_fields.
  apply panics_bind; [apply writeNetFields_panics|intros [b3 p3]].
  apply panics_bind; [apply put_panics|intros b4]. by apply panics_bind; [apply put_panics|].
Qed.

(** C27. The encoder of log entries, which writes numbers through scratch space
    at the start of a buffer that it reuses from entry to entry, computes the
    same frames as the direct definition of the format, whatever the buffers
    held before; it panics exactly when a field has an empty key or a type other
    than the six that are supported. *)
Theorem net_encoding e buf pbuf : (8 <= length buf)%nat -> (4 <= length pbuf)%nat ->
  ('(b, p) ← fillBuffers e buf pbuf; Ret (drop 4 b, p)) = wireFrames e.
Proof.
  intros Hb Hp. pose proof (fillBuffers_format e buf pbuf Hb Hp) as Hf. unfold wireFrames.
  destruct (netFields _) as [kvs|].
  - destruct Hf as (b & -> & Hd & _). cbn [mbind go_bind]. by rewrite Hd.
  - pose proof (fillBuffers_panics e buf pbuf). destruct (fillBuffers e buf pbuf) as [out| |]; try done.
    by edestruct Hf.
Qed.

Definition net_example : entry :=
  MkEntry [LogFields.Fields.Uint32 [107] 7] InfoLevel [LogFields.Fields.Bool [64; 98] true] [104; 105]
    (MkTime 2019 1 2 3 4 5).

Lemma net_encoding_witness :
  ('(b, p) ← fillBuffers net_example (replicate 9 5) (replicate 7 1); Ret (drop 4 b, p)) =
  Ret ([29; 0; 0; 0; 2; 2; 0; 0; 0; 104; 105; 2; 0; 0; 0; 2; 0; 0; 0; 64; 98; 1; 1; 1; 0; 0; 0; 107; 35; 7; 0; 0; 0],
       [4; 0; 0; 0; 64; 98; 1; 1]).
Proof. etransitivity; [apply net_encoding; cbn; lia|vm_compute]. reflexivity. Defined.
