(* ===== verification/LogServer.v ===== *)
(** * LogServer: log entries arrive

    A decoder of the network format of log entries, and the composition of the
    writer with the log server over a connection that fragments the stream. *)
From S2P Require Import Prelude Codec Config LogFields LogText Database Conn LogNet.

(** ** The decoder *)

Definition getUint (n : nat) (s : bytes) : option (Z * bytes) :=
  match Uint n s with Ret v => Some (v, drop n s) | _ => None end.

Definition getBytes (n : nat) (s : bytes) : option (bytes * bytes) :=
  if decide (n <= length s)%nat then Some (take n s, drop n s) else None.

Definition getSized (s : bytes) : option (bytes * bytes) :=
  '(n, s) ← getUint 4 s; getBytes (Z.to_nat n) s.

Definition decodeValue (s : bytes) : option (netValue * bytes) :=
  '(t, s) ← getUint 1 s;
  if decide (t = 1) then '(b, s) ← getUint 1 s; Some (NBool (bool_decide (b = 1)), s)
  else if decide (t = 2) then '(l, s) ← getSized s; Some (NBools ((fun b => bool_decide (b = 1)) <$> l), s)
  else if decide (t = 9) then '(v, s) ← getSized s; Some (NErr v, s)
  else if decide (t = 25) then '(v, s) ← getSized s; Some (NString v, s)
  else if decide (t = 35) then '(v, s) ← getUint 4 s; Some (NUint32 v, s)
  else if decide (t = 37) then '(v, s) ← getUint 8 s; Some (NUint64 v, s)
  else None.

Fixpoint decodeFields (n : nat) (s : bytes) : option (list (bytes * netValue)) :=
  match n with
  | O => match s with [] => Some [] | _ => None end
  | S n =>
      '(k, s) ← getSized s;
      '(v, s) ← decodeValue s;
      kvs ← decodeFields n s; Some ((k, v) :: kvs)
  end.

Definition decodeBody (s : bytes) : option (Z * bytes * list (bytes * netValue)) :=
  '(level, s) ← getUint 1 s;
  '(text, s) ← getSized s;
  '(n, s) ← getUint 4 s;
  kvs ← decodeFields (Z.to_nat n) s;
  Some (level, text, kvs).

(** ** Round trip *)

Lemma getUint_Put n v s : 0 <= v < 2 ^ (8 * Z.of_nat n) -> getUint n (PutUint n v ++ s) = Some (v, s).
Proof.
  intros Hv. unfold getUint. rewrite Uint_PutUint by done.
  by rewrite drop_app_length' by (by rewrite length_PutUint).
Qed.

Lemma getUint_byte c s : is_byte c -> getUint 1 (c :: s) = Some (c, s).
Proof.
  intros Hc. pose proof (getUint_Put 1 c s Hc) as Hg. cbn [PutUint app] in Hg.
  by rewrite (wrap_small 8 c Hc) in Hg.
Qed.

Definition short (l : nat) : Prop := Z.of_nat l < 2 ^ 32.

Lemma getLen l s : short l -> getUint 4 (len32 l ++ s) = Some (Z.of_nat l, s).
Proof.
  unfold short. intros Hl. unfold len32. rewrite wrap_small by (split; lia). apply getUint_Put. simpl. lia.
Qed.

Lemma getSized_len l x s : short l -> length x = l -> getSized (len32 l ++ x ++ s) = Some (x, s).
Proof.
  intros Hl <-. unfold getSized. rewrite getLen by done. cbn [mbind option_bind].
  rewrite Nat2Z.id. unfold getBytes. rewrite decide_True by (rewrite length_app; lia).
  by rewrite take_app_length, drop_app_length.
Qed.

(** The lengths fit their fields and the numbers their widths. *)
Definition value_ok (v : netValue) : Prop :=
  match v with
  | NBool _ => True
  | NBools l => short (length l)
  | NErr s | NString s => short (length s)
  | NUint32 x => is_u32 x
  | NUint64 x => is_u64 x
  end.
Definition field_ok (kv : bytes * netValue) : Prop := short (length kv.1) /\ value_ok kv.2.

Lemma decodeValue_encode v s : value_ok v -> decodeValue (encodeValue v ++ s) = Some (v, s).
Proof.
  intros Hv. destruct v as [b|l|x|x|x|x]; cbn [encodeValue]; unfold decodeValue, sized;
    cbn [app]; rewrite getUint_byte by (split; lia); cbn [mbind option_bind].
  - rewrite decide_True by done. rewrite getUint_byte by (destruct b; split; simpl; lia). by destruct b.
  - rewrite decide_False, decide_True by done. rewrite <-app_assoc.
    rewrite (getSized_len (length l) (bit <$> l) s Hv) by (by rewrite length_fmap). cbn [mbind option_bind].
    do 3 f_equal. rewrite <-list_fmap_compose. rewrite <-(list_fmap_id l) at 2. apply list_fmap_ext.
    intros i [] _; done.
  - do 2 rewrite decide_False by done. rewrite decide_True by done. rewrite <-app_assoc.
    by rewrite (getSized_len (length x) x s Hv).
  - do 3 rewrite decide_False by done. rewrite decide_True by done. rewrite <-app_assoc.
    by rewrite (getSized_len (length x) x s Hv).
  - do 4 rewrite decide_False by done. rewrite decide_True by done. by rewrite getUint_Put.
  - do 5 rewrite decide_False by done. rewrite decide_True by done. by rewrite getUint_Put.
Qed.

Lemma decodeFields_encode kvs : Forall field_ok kvs ->
  decodeFields (length kvs) (kvs ≫= encodeField) = Some kvs.
Proof.
  induction 1 as [|[k v] kvs [Hk Hv] Hkvs IH]; [done|].
  assert (((k, v) :: kvs) ≫= encodeField = len32 (length k) ++ k ++ encodeValue v ++ (kvs ≫= encodeField)) as ->.
  { cbn [mbind list_bind]. unfold encodeField at 1, sized. cbn [fst snd]. by rewrite <-!app_assoc. }
  cbn [length decodeFields]. rewrite getSized_len by done. cbn [mbind option_bind].
  rewrite decodeValue_encode by done. cbn [mbind option_bind]. by rewrite IH.
Qed.

Lemma decodeBody_encode level text kvs : is_byte level -> short (length text) -> short (length kvs) ->
  Forall field_ok kvs -> decodeBody (encodeBody level text kvs) = Some (level, text, kvs).
Proof.
  intros Hl Ht Hn Hk. unfold decodeBody, encodeBody, sized. cbn [app]. rewrite getUint_byte by done.
  cbn [mbind option_bind]. rewrite <-app_assoc, getSized_len by done. cbn [mbind option_bind].
  rewrite getLen by done. cbn [mbind option_bind]. rewrite Nat2Z.id. by rewrite decodeFields_encode.
Qed.

(** A frame that fits its header. *)
Lemma readFrame_spec payload buf chunks rest : short (length payload) ->
  concat chunks = frame payload ++ rest ->
  exists buf' chunks', readFrame buf chunks = Some (buf', chunks') /\ payload `prefix_of` buf' /\
    concat chunks' = rest.
Proof.
  intros Hs Hc. unfold frame in Hc. rewrite <-app_assoc in Hc. unfold readFrame.
  destruct (read_loop_spec 4 _ [] _ _ Hc) as (ch & -> & Hch); [apply length_PutUint|].
  cbn [mbind option_bind]. rewrite app_nil_l. unfold short in Hs.
  rewrite <-(app_nil_r (PutUint _ _)), wrap_small by (split; lia).
  rewrite Uint_PutUint by (simpl; lia). cbv zeta. rewrite Nat2Z.id.
  destruct (read_loop_spec (length payload) ch [] _ _ Hch eq_refl) as (ch' & -> & Hch').
  cbn [mbind option_bind]. rewrite app_nil_l. eexists _, _. split; [done|]. split; [|done].
  apply prefix_app_r. done.
Qed.

(** ** Frames that fit *)

Lemma encodeValue_length v : (1 <= length (encodeValue v))%nat.
Proof. destruct v; cbn; lia. Qed.

Lemma encodeProps_length kvs : (length (encodeProps kvs) <= length (kvs ≫= encodeField))%nat.
Proof.
  unfold encodeProps. induction kvs as [|kv kvs IH]; [done|]. rewrite filter_cons, bind_cons, length_app.
  case_decide; [|lia]. rewrite bind_cons, length_app.
  enough (length (encodeProp kv) <= length (encodeField kv))%nat by lia.
  unfold encodeProp, encodeField, sized. rewrite !length_app. lia.
Qed.

Lemma encodeFields_length kvs : (length kvs <= length (kvs ≫= encodeField))%nat.
Proof.
  induction kvs as [|kv kvs IH]; [done|]. rewrite bind_cons, length_app. unfold encodeField at 1.
  rewrite length_app. pose proof (encodeValue_length kv.2). cbn [length]. lia.
Qed.

Lemma netField_width f kv : netField f = Some kv -> match kv.2 with
  | NUint32 x => is_u32 x | NUint64 x => is_u64 x | _ => True end.
Proof.
  unfold netField, netValue_of. intros (v & Hv & Hk)%bind_Some. destruct (key f); [done|]. injection Hk as <-.
  cbn [snd]. destruct (typ f), (xval f); try done; injection Hv as <-; try done; by apply wrap_in_width.
Qed.

Lemma netFields_ok fs kvs : netFields fs = Some kvs -> short (length (kvs ≫= encodeField)) ->
  Forall field_ok kvs.
Proof.
  revert kvs. induction fs as [|f fs IH]; intros kvs Hk Hs; cbn [netFields] in Hk; [by injection Hk as <-|].
  apply bind_Some in Hk as (kv & Hkv & Hk). apply bind_Some in Hk as (kvs' & Hk & [= <-]).
  revert Hs. unfold short. rewrite bind_cons, length_app, Nat2Z.inj_add. intros Hs.
  constructor; [|apply IH; [done|unfold short; lia]]. apply netField_width in Hkv.
  assert (Z.of_nat (length (encodeField kv)) < 2 ^ 32) as Hl by lia. revert Hl.
  unfold encodeField, sized, field_ok, short. destruct kv as [k v]. cbn [fst snd] in *.
  rewrite !length_app. intros Hl. split; [lia|].
  destruct v; cbn [value_ok encodeValue] in *; try done; unfold sized, short in *;
    rewrite ?length_app, ?length_fmap in Hl; lia.
Qed.

(** ** The composition *)

(** An entry that can be sent, with its fields. *)
Definition sendable (e : entry) (kvs : list (bytes * netValue)) : Prop :=
  netFields (e_parfields e ++ e_fields e) = Some kvs /\
  short (length (encodeBody (u8 (e_level e)) (e_text e) kvs)).

(** A printed pair of buffers starts with the entry and its properties. *)
Definition shows (e : entry) (kvs : list (bytes * netValue)) (printed : bytes * bytes) : Prop :=
  (exists body, body `prefix_of` printed.1 /\ decodeBody body = Some (u8 (e_level e), e_text e, kvs)) /\
  encodeProps kvs `prefix_of` printed.2.

Lemma sendable_decode e kvs : sendable e kvs ->
  decodeBody (encodeBody (u8 (e_level e)) (e_text e) kvs) = Some (u8 (e_level e), e_text e, kvs) /\
  short (length (encodeProps kvs)).
Proof.
  intros [Hk Hs]. revert Hs. unfold short, encodeBody, sized at 1. rewrite !length_app. intros Hs.
  pose proof (encodeProps_length kvs). pose proof (encodeFields_length kvs).
  split; [|unfold short; lia]. apply decodeBody_encode; [by apply wrap_in_width|unfold short; lia..|].
  eapply netFields_ok; [done|]. unfold short. lia.
Qed.

Lemma writeNetEntry_sends e kvs w pending : sendable e kvs -> nw_entry w = None -> nw_pending w = e :: pending ->
  (8 <= length (nw_buf w))%nat -> (4 <= length (nw_pbuf w))%nat ->
  exists w', writeNetEntry true true w = Ret w' /\ nw_entry w' = None /\ nw_pending w' = pending /\
    (8 <= length (nw_buf w'))%nat /\ (4 <= length (nw_pbuf w'))%nat /\
    nw_sent w' = nw_sent w ++ [frame (encodeBody (u8 (e_level e)) (e_text e) kvs) ++ frame (encodeProps kvs)].
Proof.
  intros [Hk _] He Hp Hb Hpb. pose proof (fillBuffers_format e _ _ Hb Hpb) as Hf. rewrite Hk in Hf.
  destruct Hf as (buf & Hf & Hd & Hl). unfold writeNetEntry. rewrite He, Hp, Hf.
  cbn [mbind go_bind andb]. eexists. split; [done|]. cbn [nw_entry nw_pending nw_buf nw_pbuf nw_sent].
  rewrite Hd. split_and!; try done. unfold frame. rewrite length_app, length_PutUint. lia.
Qed.

Lemma writeNetEntries_sends es kvss w : Forall2 sendable es kvss -> nw_entry w = None -> nw_pending w = es ->
  (8 <= length (nw_buf w))%nat -> (4 <= length (nw_pbuf w))%nat ->
  exists w', writeNetEntries (length es) w = Ret w' /\ nw_entry w' = None /\ nw_pending w' = [] /\
    concat (nw_sent w') = concat (nw_sent w) ++ concat (zip_with (fun e kvs =>
      frame (encodeBody (u8 (e_level e)) (e_text e) kvs) ++ frame (encodeProps kvs)) es kvss).
Proof.
  intros Hs. revert w. induction Hs as [|e kvs es kvss Hek _ IH]; intros w He Hp Hb Hpb.
  { exists w. cbn. by rewrite app_nil_r. }
  destruct (writeNetEntry_sends _ _ _ _ Hek He Hp Hb Hpb) as (w1 & H1 & He1 & Hp1 & Hb1 & Hpb1 & Hs1).
  destruct (IH _ He1 Hp1 Hb1 Hpb1) as (w2 & H2 & He2 & Hp2 & Hs2). exists w2.
  cbn [length writeNetEntries]. rewrite H1. cbn [mbind go_bind]. split_and!; try done.
  rewrite Hs2, Hs1, concat_app. cbn [zip_with concat]. by rewrite app_nil_r, <-!app_assoc.
Qed.

Lemma handle_shows es kvss : Forall2 sendable es kvss -> forall buf pbuf chunks rest,
  concat chunks = concat (zip_with (fun e kvs =>
    frame (encodeBody (u8 (e_level e)) (e_text e) kvs) ++ frame (encodeProps kvs)) es kvss) ++ rest ->
  exists printed chunks', handle (length es) buf pbuf chunks = Some (printed, chunks') /\
    Forall2 (fun x => shows x.1 x.2) (zip es kvss) printed /\ concat chunks' = rest.
Proof.
  induction 1 as [|e kvs es kvss Hek _ IH]; intros buf pbuf chunks rest Hc.
  { exists [], chunks. split_and!; [done|constructor|done]. }
  destruct (sendable_decode _ _ Hek) as [Hd Hps]. destruct Hek as [Hk Hs].
  cbn [zip_with concat] in Hc. rewrite <-!app_assoc in Hc. cbn [length handle]. unfold handle_step.
  destruct (readFrame_spec _ buf _ _ Hs Hc) as (b & c1 & -> & Hb & Hc1). cbn [mbind option_bind].
  destruct (readFrame_spec _ pbuf _ _ Hps Hc1) as (p & c2 & -> & Hp & Hc2). cbn [mbind option_bind].
  destruct (IH b p c2 rest Hc2) as (printed & c3 & -> & Hpr & Hc3). cbn [mbind option_bind].
  eexists _, _. split; [done|]. split; [|done]. constructor; [|done]. split; [|done]. by eexists.
Qed.

(** Log entries arrive: the entries in the channel are written one after the
    other, and when the bytes reach the log server in fragments of any size it
    prints, for each entry in order, buffers that begin with an encoding from
    which the level, the text and all the fields can be read back, and with the
    properties; exactly the bytes of the entries are consumed. *)
Theorem log_entries_arrive es kvss : Forall2 sendable es kvss ->
  exists w, writeNetEntries (length es) (newNetWriter es) = Ret w /\ nw_pending w = [] /\ nw_entry w = None /\
  forall chunks rest, concat chunks = concat (nw_sent w) ++ rest ->
    exists printed chunks',
      handle (length es) (replicate 1024 0) (replicate 1024 0) chunks = Some (printed, chunks') /\
      Forall2 (fun x => shows x.1 x.2) (zip es kvss) printed /\ concat chunks' = rest.
Proof.
  intros Hs.
  destruct (writeNetEntries_sends es kvss (newNetWriter es) Hs) as (w & Hw & He & Hp & Hsent); [done|done|cbn; lia..|].
  exists w. split_and!; [done..|]. intros chunks rest Hc.
  rewrite Hsent in Hc. cbn [newNetWriter nw_sent concat app] in Hc. by eapply handle_shows.
Qed.

Lemma log_entries_arrive_witness : exists printed chunks',
  handle 1 (replicate 1024 0) (replicate 1024 0)
    [[29; 0; 0; 0; 2; 2; 0; 0; 0; 104; 105; 2; 0]; [0; 0; 2; 0; 0; 0; 64; 98; 1; 1; 1; 0; 0; 0; 107; 35; 7; 0; 0; 0; 4; 0];
     [0; 0; 64]; [98; 1; 1; 77]] = Some (printed, chunks') /\
  Forall2 (fun x => shows x.1 x.2) [(net_example, [([64; 98], NBool true); ([107], NUint32 7)])] printed /\
  concat chunks' = [77].
Proof.
  destruct (log_entries_arrive [net_example] [[([64; 98], NBool true); ([107], NUint32 7)]]) as (w & Hw & _ & _ & H).
  { repeat constructor; vm_compute; reflexivity. }
  vm_compute in Hw. injection Hw as <-. apply (H _ [77]). reflexivity.
Defined.
