(* ===== verification/Paths.v ===== *)
(** * Paths: slash-separated path names

    What the program uses of the packages [path] and [path/filepath] (on a
    system whose separator is the slash): [Clean] and [Join]. *)
From S2P Require Import Prelude.

Definition slash : Z := 47.
Definition dot : bytes := str ".".
Definition dotdot : bytes := str "..".

(** The elements between slashes. *)
Fixpoint elements (cur s : bytes) : list bytes :=
  match s with
  | [] => [cur]
  | c :: s => if c =? slash then cur :: elements [] s else elements (cur ++ [c]) s
  end.

(** [strings.Join(elems, "/")]. *)
Fixpoint join_slash (elems : list bytes) : bytes :=
  match elems with
  | [] => []
  | [e] => e
  | e :: elems => e ++ slash :: join_slash elems
  end.

(** What an element does to the output so far, the last element first. *)
Definition clean_step (rooted : bool) (out : list bytes) (e : bytes) : list bytes :=
  if decide (e = [] \/ e = dot) then out
  else if decide (e = dotdot) then
    match out with
    | x :: rest => if decide (x = dotdot) then e :: out else rest
    | [] => if rooted then [] else [e]
    end
  else e :: out.

Definition is_rooted (s : bytes) : bool := match s with c :: _ => c =? slash | [] => false end.
Definition cleaned (s : bytes) : list bytes :=
  reverse (foldl (clean_step (is_rooted s)) [] (elements [] s)).
Definition render (rooted : bool) (elems : list bytes) : bytes :=
  if rooted then slash :: join_slash elems
  else match elems with [] => dot | _ => join_slash elems end.

(** [path.Clean] and [filepath.Clean]. *)
Definition Clean (s : bytes) : bytes :=
  match s with [] => dot | _ => render (is_rooted s) (cleaned s) end.

(** [path.Join] and [filepath.Join]: leading empty elements are ignored. *)
Fixpoint Join (elems : list bytes) : bytes :=
  match elems with
  | [] => []
  | e :: rest => if decide (e = []) then Join rest else Clean (join_slash elems)
  end.

(** ** Paths of directories and the files in them *)

(** The name of a file or directory. *)
Definition plain (e : bytes) : Prop := e <> [] /\ e <> dot /\ e <> dotdot /\ slash ∉ e.
#[export] Instance plain_dec e : Decision (plain e) := _.

(** The elements of a cleaned path: [..] only at the beginning, and there only
    when the path is not rooted. *)
Definition canonical (rooted : bool) (elems : list bytes) : Prop :=
  exists k rest, elems = replicate k dotdot ++ rest /\ Forall plain rest /\ (rooted = true -> k = 0%nat).

Lemma elements_cur cur s : exists e l, elements cur s = (cur ++ e) :: l.
Proof.
  revert cur. induction s as [|c s IH]; intros cur; cbn; [exists [], []; by rewrite app_nil_r|].
  destruct (c =? slash); [exists [], (elements [] s); by rewrite app_nil_r|].
  destruct (IH (cur ++ [c])) as (e & l & ->). exists (c :: e), l. by rewrite <-app_assoc.
Qed.

Lemma elements_app cur s t : elements cur (s ++ slash :: t) = elements cur s ++ elements [] t.
Proof.
  revert cur. induction s as [|c s IH]; intros cur; cbn; [done|]. destruct (c =? slash); cbn; by rewrite IH.
Qed.

Lemma elements_name cur e : slash ∉ e -> elements cur e = [cur ++ e].
Proof.
  revert cur. induction e as [|c e IH]; intros cur He; cbn; [by rewrite app_nil_r|].
  rewrite not_elem_of_cons in He. destruct He as [Hc He]. destruct (Z.eqb_spec c slash) as [->|]; [done|].
  by rewrite IH, <-app_assoc.
Qed.

Lemma elements_no_slash cur s : slash ∉ cur -> Forall (fun e => slash ∉ e) (elements cur s).
Proof.
  revert cur. induction s as [|c s IH]; intros cur Hc; cbn; [by repeat constructor|].
  destruct (Z.eqb_spec c slash); [constructor; [done|apply IH, not_elem_of_nil]|].
  apply IH. rewrite elem_of_app, list_elem_of_singleton. naive_solver.
Qed.

Lemma elements_join elems : elems <> [] -> Forall (fun e => slash ∉ e) elems -> elements [] (join_slash elems) = elems.
Proof.
  intros Hn H. induction H as [|e elems He Hs IH]; [done|]. destruct elems as [|e' elems]; cbn [join_slash].
  - by rewrite elements_name.
  - rewrite elements_app, elements_name by done. cbn. f_equal. by apply IH.
Qed.

Lemma canonical_step rooted out e : slash ∉ e -> canonical rooted (reverse out) ->
  canonical rooted (reverse (clean_step rooted out e)).
Proof.
  intros He (k & rest & Ho & Hp & Hr). unfold clean_step. case_decide as H1; [by exists k, rest|]. case_decide as H2.
  - destruct out as [|x out].
    + destruct rooted; [exists 0%nat, []; by cbn|]. exists 1%nat, []. subst e. by cbn.
    + rewrite reverse_cons in Ho. case_decide as Hx.
      * destruct rest as [|y rest _] using rev_ind.
        -- rewrite app_nil_r in Ho. exists (S k), []. subst e x. rewrite !reverse_cons, Ho, app_nil_r.
           rewrite <-replicate_cons_app. split; [done|]. split; [done|]. intros ->. specialize (Hr eq_refl). subst k.
           cbn in Ho. by destruct (reverse out).
        -- rewrite app_assoc in Ho. apply app_inj_tail in Ho as [_ ->]. apply Forall_app in Hp as [_ Hp].
           rewrite Forall_singleton in Hp. destruct Hp as (_ & _ & Hp & _). done.
      * destruct rest as [|y rest _] using rev_ind.
        -- rewrite app_nil_r in Ho. destruct k as [|k]; [by destruct (reverse out)|].
           rewrite replicate_S_end in Ho. by apply app_inj_tail in Ho as [_ ->].
        -- rewrite app_assoc in Ho. apply app_inj_tail in Ho as [Ho _]. apply Forall_app in Hp as [Hp _].
           by exists k, rest.
  - rewrite reverse_cons, Ho. exists k, (rest ++ [e]). split; [by rewrite app_assoc|]. split; [|done].
    apply Forall_app. split; [done|]. apply Forall_singleton. unfold plain. tauto.
Qed.

Lemma canonical_fold rooted es out : Forall (fun e => slash ∉ e) es -> canonical rooted (reverse out) ->
  canonical rooted (reverse (foldl (clean_step rooted) out es)).
Proof. intros H. revert out. induction H as [|e es He _ IH]; intros out Ho; cbn; [done|]. apply IH. by apply canonical_step. Qed.

Lemma cleaned_canonical s : canonical (is_rooted s) (cleaned s).
Proof.
  apply canonical_fold; [apply elements_no_slash, not_elem_of_nil|]. exists 0%nat, []. done.
Qed.

Lemma fold_canonical rooted es : canonical rooted es -> foldl (clean_step rooted) [] es = reverse es.
Proof.
  intros (k & rest & -> & Hp & Hr). rewrite foldl_app.
  assert (foldl (clean_step rooted) [] (replicate k dotdot) = replicate k dotdot) as ->.
  { destruct rooted; [by rewrite (Hr eq_refl)|]. clear. induction k as [|k IH]; [done|].
    rewrite replicate_S_end, foldl_app, IH. cbn. destruct k; [done|]. cbn [replicate]. unfold clean_step.
    rewrite decide_False by (intros [?|?]; done). rewrite !decide_True by done. cbn. f_equal. by rewrite <-replicate_cons_app. }
  clear Hr. rewrite reverse_app, reverse_replicate.
  induction rest as [|e rest IH] using rev_ind; [done|]. apply Forall_app in Hp as [Hp He].
  rewrite Forall_singleton in He. rewrite foldl_app, (IH Hp), reverse_app. cbn.
  unfold clean_step. destruct He as (? & ? & ? & ?). rewrite decide_False by tauto. by rewrite decide_False.
Qed.

Lemma canonical_no_slash rooted es : canonical rooted es -> Forall (fun e => slash ∉ e) es.
Proof.
  intros (k & rest & -> & Hp & _). apply Forall_app. split; [apply Forall_replicate, (bool_decide_eq_true_1 (slash ∉ dotdot)); reflexivity|].
  eapply Forall_impl; [exact Hp|]. by intros e (_ & _ & _ & ?).
Qed.

Lemma canonical_snoc rooted es e : canonical rooted es -> plain e -> canonical rooted (es ++ [e]).
Proof.
  intros (k & rest & -> & Hp & Hr) He. exists k, (rest ++ [e]). rewrite app_assoc. split_and!; [done| |done].
  apply Forall_app. by rewrite Forall_singleton.
Qed.

Lemma clean_step_empty rooted out : clean_step rooted out [] = out.
Proof. unfold clean_step. by rewrite decide_True by (by left). Qed.

Lemma is_rooted_join es : es <> [] -> Forall plain es -> is_rooted (join_slash es) = false.
Proof.
  intros Hn H. destruct H as [|e es (He & _ & _ & Hs) _]; [done|].
  destruct e as [|c e]; [done|]. rewrite not_elem_of_cons in Hs.
  destruct es; cbn; apply Z.eqb_neq; naive_solver.
Qed.

(** A path whose elements are already clean is not changed. *)
Lemma render_inv rooted es : es <> [] -> canonical rooted es ->
  is_rooted (render rooted es) = rooted /\ cleaned (render rooted es) = es.
Proof.
  intros Hn Hc. pose proof (canonical_no_slash _ _ Hc) as Hs.
  assert (is_rooted (render rooted es) = rooted) as Hr.
  { destruct rooted; [done|]. cbn. destruct es as [|e es]; [done|]. destruct Hc as (k & rest & Hc & Hp & _).
    destruct k as [|k]; cbn in Hc; [subst rest; by apply is_rooted_join|]. injection Hc as -> _. by destruct es. }
  split; [done|]. unfold cleaned. rewrite Hr. destruct rooted; cbn [render].
  - change (slash :: join_slash es) with ([] ++ slash :: join_slash es). rewrite elements_app.
    cbn [elements app foldl]. rewrite clean_step_empty, elements_join by done. by rewrite fold_canonical, reverse_involutive.
  - destruct es as [|e es]; [done|]. rewrite elements_join by done. by rewrite fold_canonical, reverse_involutive.
Qed.

(** A file in a directory. *)
Lemma Join_child dir name : dir <> [] -> plain name ->
  Join [dir; name] = render (is_rooted dir) (cleaned dir ++ [name]) /\
  is_rooted (Join [dir; name]) = is_rooted dir /\ cleaned (Join [dir; name]) = cleaned dir ++ [name].
Proof.
  intros Hd Hp. assert (Join [dir; name] = render (is_rooted dir) (cleaned dir ++ [name])) as Hj.
  { cbn. rewrite decide_False by done. unfold Clean. destruct dir as [|c dir]; [done|].
    change ((c :: dir) ++ slash :: name) with (c :: (dir ++ slash :: name)). cbv iota.
    change (c :: (dir ++ slash :: name)) with ((c :: dir) ++ slash :: name). unfold cleaned.
    rewrite elements_app, foldl_app. destruct Hp as (H1 & H2 & H3 & H4). rewrite (elements_name [] name) by done.
    cbn [app is_rooted foldl]. unfold clean_step at 1. rewrite decide_False by tauto. rewrite decide_False by done.
    by rewrite reverse_cons. }
  rewrite Hj. split; [done|]. apply render_inv; [by destruct (cleaned dir)|].
  apply canonical_snoc; [apply cleaned_canonical|done].
Qed.

(** Paths of files are equal exactly when they are the same file of the same
    directory. *)
Lemma Join_inj d1 d2 n1 n2 : d1 <> [] -> d2 <> [] -> plain n1 -> plain n2 ->
  Join [d1; n1] = Join [d2; n2] <-> (is_rooted d1 = is_rooted d2 /\ cleaned d1 = cleaned d2) /\ n1 = n2.
Proof.
  intros H1 H2 P1 P2. destruct (Join_child d1 n1 H1 P1) as (E1 & R1 & C1). destruct (Join_child d2 n2 H2 P2) as (E2 & R2 & C2).
  split.
  - intros He. rewrite He, R2 in R1. rewrite He, C2 in C1. apply app_inj_tail in C1 as [-> ->]. by rewrite R1.
  - intros [[Hr Hc] ->]. by rewrite E1, E2, Hr, Hc.
Qed.

Lemma Join_nonempty dir name : dir <> [] -> plain name -> Join [dir; name] <> [].
Proof.
  intros Hd Hp He. destruct (Join_child dir name Hd Hp) as (_ & _ & C). rewrite He in C.
  cbn in C. by destruct (cleaned dir).
Qed.

Lemma Clean_nonempty s : Clean s <> [].
Proof.
  unfold Clean. destruct s as [|c s]; [done|]. pose proof (cleaned_canonical (c :: s)) as Hc.
  destruct (is_rooted (c :: s)); [done|]. destruct (cleaned (c :: s)) as [|e es]; [done|]. intros He.
  destruct (render_inv false (e :: es) ltac:(done) Hc) as [_ Hi]. rewrite He in Hi. done.
Qed.

Lemma Join_nonempty' es : Exists (fun e => e <> []) es -> Join es <> [].
Proof.
  induction 1 as [e es He|e es Hes IH]; cbn [Join].
  - rewrite decide_False by done. apply Clean_nonempty.
  - case_decide; [done|apply Clean_nonempty].
Qed.

Example clean_ex : Clean (str "a//b/./../c/") = str "a/c" /\ Clean (str "/../x") = str "/x" /\
  Join [[]; str "../y"; str ".."; str ".."] = str "../..".
Proof. by vm_compute. Qed.
