(* ===== verification/Base64.v ===== *)
(** * Base64: the standard encoding of binary data as text

    What the HTTP interfaces use of the package [encoding/base64]: padded
    encoding, and decoding that returns the bytes decoded so far together with
    the error. *)
From S2P Require Import Prelude.

Definition alphabet : bytes := str "ABCDEFGHIJKLMNOPQRSTUVWXYZabcdefghijklmnopqrstuvwxyz0123456789+/".
Definition enc64 (i : Z) : Z := nth (Z.to_nat i) alphabet 0.
Definition digit64 (val : Z) (i : Z) : Z := enc64 ((val / 64 ^ i) mod 64).
Definition pad : Z := 61.

(** [base64.StdEncoding.EncodeToString]. *)
Fixpoint EncodeToString (src : bytes) : bytes :=
  match src with
  | [] => []
  | [a] => let val := a * 65536 in [digit64 val 3; digit64 val 2; pad; pad]
  | [a; b] => let val := a * 65536 + b * 256 in [digit64 val 3; digit64 val 2; digit64 val 1; pad]
  | a :: b :: c :: src =>
      let val := a * 65536 + b * 256 + c in
      [digit64 val 3; digit64 val 2; digit64 val 1; digit64 val 0] ++ EncodeToString src
  end.

(** The value of a digit. *)
Definition dec64 (c : Z) : option Z :=
  if decide (65 <= c <= 90) then Some (c - 65)
  else if decide (97 <= c <= 122) then Some (c - 71)
  else if decide (48 <= c <= 57) then Some (c + 4)
  else if decide (c = 43) then Some 62
  else if decide (c = 47) then Some 63
  else None.

Definition newline (c : Z) : bool := (c =? 10) || (c =? 13).
Fixpoint skip_newlines (s : bytes) : bytes :=
  match s with c :: r => if newline c then skip_newlines r else s | [] => [] end.

(** The bytes of the digits of a quantum. *)
Definition undigits (ds : list Z) : bytes :=
  match ds with
  | [a; b; c; d] => [a * 4 + b / 16; b mod 16 * 16 + c / 4; c mod 4 * 64 + d]
  | [a; b; c] => [a * 4 + b / 16; b mod 16 * 16 + c / 4]
  | [a; b] => [a * 4 + b / 16]
  | _ => []
  end.

(** [decodeQuantum]: the decoded bytes, the rest of the input, and whether there
    was an error. *)
Fixpoint decodeQuantum (ds : list Z) (s : bytes) : bytes * bytes * bool :=
  match s with
  | [] => ([], [], bool_decide (ds <> []))
  | c :: r =>
      match dec64 c with
      | Some d =>
          let ds := ds ++ [d] in
          if decide (length ds = 4%nat) then (undigits ds, r, false) else decodeQuantum ds r
      | None =>
          if newline c then decodeQuantum ds r
          else if negb (c =? pad) then ([], r, true)
          else if decide (length ds < 2)%nat then ([], r, true)
          else if decide (length ds = 2%nat) then
            match skip_newlines r with
            | c :: r =>
                if c =? pad then let r := skip_newlines r in (undigits ds, r, bool_decide (r <> []))
                else ([], r, true)
            | [] => ([], [], true)
            end
          else let r := skip_newlines r in (undigits ds, r, bool_decide (r <> []))
      end
  end.

Fixpoint decode_loop (fuel : nat) (s out : bytes) : bytes * bool :=
  match fuel, s with
  | S fuel, _ :: _ =>
      let '(b, r, err) := decodeQuantum [] s in
      if err : bool then (out ++ b, true) else decode_loop fuel r (out ++ b)
  | _, _ => (out, false)
  end.

(** [base64.StdEncoding.DecodeString]: the bytes and whether there is an error. *)
Definition DecodeString (s : bytes) : bytes * bool := decode_loop (length s) s [].

(** ** Round trip *)

Lemma dec_enc i : 0 <= i < 64 -> dec64 (enc64 i) = Some i.
Proof.
  intros Hi. assert (forall j, (j < 64)%nat -> dec64 (enc64 (Z.of_nat j)) = Some (Z.of_nat j)) as H.
  { intros j Hj. do 64 (destruct j as [|j]; [reflexivity|]). lia. }
  rewrite <-(Z2Nat.id i) by lia. apply H. lia.
Qed.

Lemma dec_digit val i : 0 <= i -> dec64 (digit64 val i) = Some ((val / 64 ^ i) mod 64).
Proof. intros Hi. apply dec_enc, Z.mod_pos_bound. lia. Qed.

Lemma decodeQuantum_digit ds d r v : dec64 d = Some v -> (length ds < 3)%nat ->
  decodeQuantum ds (d :: r) = decodeQuantum (ds ++ [v]) r.
Proof. intros Hd Hl. cbn [decodeQuantum]. rewrite Hd. cbv zeta. rewrite decide_False; [done|]. rewrite length_app. cbn. lia. Qed.

Lemma decodeQuantum_last ds d r v : dec64 d = Some v -> length ds = 3%nat ->
  decodeQuantum ds (d :: r) = (undigits (ds ++ [v]), r, false).
Proof. intros Hd Hl. cbn [decodeQuantum]. rewrite Hd. cbv zeta. rewrite decide_True; [done|]. rewrite length_app. cbn. lia. Qed.

Ltac digits := repeat (erewrite decodeQuantum_digit by (first [by apply dec_digit | cbn; lia])).

Lemma decodeQuantum_3 a b c r : is_byte a -> is_byte b -> is_byte c ->
  decodeQuantum [] (EncodeToString [a; b; c] ++ r) = ([a; b; c], r, false).
Proof.
  unfold in_width. intros Ha Hb Hc. cbn [EncodeToString app]. digits.
  erewrite decodeQuantum_last by (first [by apply dec_digit | cbn; lia]). cbn [app undigits].
  do 2 f_equal. change (64 ^ 3) with 262144. change (64 ^ 2) with 4096. change (64 ^ 1) with 64. change (64 ^ 0) with 1.
  f_equal; [|f_equal; [|f_equal]]; Z.div_mod_to_equations; lia.
Qed.

Lemma decodeQuantum_2 a b : is_byte a -> is_byte b ->
  decodeQuantum [] (EncodeToString [a; b]) = ([a; b], [], false).
Proof.
  unfold in_width. intros Ha Hb. cbn [EncodeToString]. digits. cbn [app].
  change (64 ^ 3) with 262144. change (64 ^ 2) with 4096. change (64 ^ 1) with 64.
  cbn [decodeQuantum dec64 pad length]. cbn. do 2 f_equal.
  f_equal; [|f_equal]; Z.div_mod_to_equations; lia.
Qed.

Lemma decodeQuantum_1 a : is_byte a -> decodeQuantum [] (EncodeToString [a]) = ([a], [], false).
Proof.
  unfold in_width. intros Ha. cbn [EncodeToString]. digits. cbn [app].
  change (64 ^ 3) with 262144. change (64 ^ 2) with 4096. cbn. do 2 f_equal.
  f_equal; Z.div_mod_to_equations; lia.
Qed.

Lemma decode_encode fuel s out : (length s <= fuel)%nat -> Forall is_byte s ->
  decode_loop fuel (EncodeToString s) out = (out ++ s, false).
Proof.
  revert s out. induction fuel as [|fuel IH]; intros s out Hl Hs.
  { destruct s; [|simpl in Hl; lia]. by rewrite app_nil_r. }
  destruct s as [|a [|b [|c s]]].
  - by rewrite app_nil_r.
  - inversion_clear Hs as [|? ? Ha]. change (EncodeToString [a]) with
      (digit64 (a * 65536) 3 :: tail (EncodeToString [a])). cbn [decode_loop].
    change (digit64 (a * 65536) 3 :: tail (EncodeToString [a])) with (EncodeToString [a]).
    rewrite decodeQuantum_1 by done. by destruct fuel.
  - inversion_clear Hs as [|? ? Ha Hs']. inversion_clear Hs' as [|? ? Hb]. cbn [decode_loop].
    change (EncodeToString [a; b]) with (digit64 (a * 65536 + b * 256) 3 :: tail (EncodeToString [a; b])).
    cbn [decode_loop].
    change (digit64 (a * 65536 + b * 256) 3 :: tail (EncodeToString [a; b])) with (EncodeToString [a; b]).
    rewrite decodeQuantum_2 by done. by destruct fuel.
  - inversion_clear Hs as [|? ? Ha Hs']. inversion_clear Hs' as [|? ? Hb Hs]. inversion_clear Hs as [|? ? Hc Hs'].
    change (EncodeToString (a :: b :: c :: s)) with (EncodeToString [a; b; c] ++ EncodeToString s).
    change (EncodeToString [a; b; c]) with (digit64 (a * 65536 + b * 256 + c) 3 :: tail (EncodeToString [a; b; c])).
    cbn [app decode_loop].
    change (digit64 (a * 65536 + b * 256 + c) 3 :: tail (EncodeToString [a; b; c]) ++ EncodeToString s)
      with (EncodeToString [a; b; c] ++ EncodeToString s).
    rewrite decodeQuantum_3 by done. rewrite IH; [by rewrite <-app_assoc|simpl in Hl; lia|done].
Qed.

Lemma length_EncodeToString s : (length s <= length (EncodeToString s))%nat.
Proof.
  induction s as [s IH] using (induction_ltof1 _ (@length Z)). unfold ltof in IH.
  destruct s as [|a [|b [|c s]]]; cbn; try lia. specialize (IH s). cbn in IH. lia.
Qed.

(** Decoding undoes encoding. *)
Lemma base64_roundtrip s : Forall is_byte s -> DecodeString (EncodeToString s) = (s, false).
Proof. intros Hs. apply decode_encode; [apply length_EncodeToString|done]. Qed.
