(* ===== verification/Kv.v ===== *)
(** * Kv: labels of objects

    Model of [src/kv]: the key-value service that keeps the version ID of the
    latest object with a label, over the transactional store of [Database], and
    of the service of its HTTP interface in [src/kv/api]. *)
From S2P Require Import Prelude Codec Database Base64.

Record ObjectEntry := MkObjectEntry { oe_Label : bytes; oe_VersionID : bytes }.
Record GetRequest := MkGetRequest { gq_Key : bytes }.
Record GetResponse := MkGetResponse { gr_ObjectID : bytes }.
Record Message := MkMessage { km_ID : uint64; km_Opcode : Z; km_Payload : bytes }.
Definition Opcode_GET : Z := 1.

Section service.
Context (F : Faults).

Definition kv_Get (key : bytes) (db : contents) : go bytes := View (txn_Value F key) db.

(** The loop of [GetByPrefix] over the items of the iterator. *)
Fixpoint entries_loop (items : list (bytes * bytes)) : go (list ObjectEntry) :=
  match items with
  | [] => Ret []
  | (k, v) :: items =>
      v ← fails (value_err F k) (Ret v);
      entries ← entries_loop items;
      Ret (MkObjectEntry k v :: entries)
  end.

Definition kv_GetByPrefix (prefix : bytes) (db : contents) : go (list ObjectEntry) :=
  entries_loop (scan prefix prefix db).

Definition kv_Set (key value : bytes) (db : contents) : go contents := Update F (txn_Set F key value) db.

Context {PQ : Proto GetRequest} {PR : Proto GetResponse}.

Definition handleGet (m : Message) (db : contents) : go Message :=
  req ← Unmarshal (km_Payload m);
  if decide (gq_Key req = []) then Fail "empty key" else
  value ← kv_Get (gq_Key req) db;
  b ← Marshal (MkGetResponse value);
  Ret (MkMessage (km_ID m) Opcode_GET b).

Definition kv_Handle (peerID : uint64) (m : Message) (db : contents) : go Message :=
  if decide (km_Opcode m = Opcode_GET) then handleGet m db else Fail "kvstore: unknown opcode: %v".
End service.

(** ** The service of the HTTP interface *)

Record LabelObject := MkLabelObject { lo_Label : bytes; lo_Object : bytes; lo_VersionID : bytes }.
Record LabelVersionID := MkLabelVersionID { lv_Label : bytes; lv_VersionID : bytes }.
Definition NotFound : Z := 404.
Definition BadRequest : Z := 400.
Definition OK : Z := 200.

Section api.
Context (F : Faults) (db : contents).
(** [sbac.QueryObjectByVersionID]. *)
Context (QueryObjectByVersionID : bytes -> go bytes).

(** A result with its status. *)
Definition status_of {A B} (m : go A) (failure : Z) (k : A -> Z * go B) : Z * go B :=
  match m with Ret x => k x | Fail e => (failure, Fail e) | Crash => (0, Crash) end.

Definition GetByLabel (label : bytes) : Z * go LabelObject :=
  status_of (kv_Get F label db) NotFound (fun versionID =>
  status_of (QueryObjectByVersionID versionID) BadRequest (fun rawObject =>
  (OK, Ret (MkLabelObject label rawObject (EncodeToString versionID))))).

Fixpoint query_all (objs : list ObjectEntry) : go (list LabelObject) :=
  match objs with
  | [] => Ret []
  | v :: objs =>
      rawObject ← QueryObjectByVersionID (oe_VersionID v);
      out ← query_all objs;
      Ret (MkLabelObject (oe_Label v) rawObject (EncodeToString (oe_VersionID v)) :: out)
  end.

Definition GetByPrefix (prefix : bytes) : Z * go (list LabelObject) :=
  status_of (kv_GetByPrefix F prefix db) NotFound (fun objs =>
  status_of (query_all objs) BadRequest (fun out => (OK, Ret out))).

Definition GetVersionID (label : bytes) : Z * go bytes :=
  status_of (kv_Get F label db) NotFound (fun objectID => (OK, Ret (EncodeToString objectID))).

Definition GetVersionIDByPrefix (prefix : bytes) : Z * go (list LabelVersionID) :=
  status_of (kv_GetByPrefix F prefix db) NotFound (fun objs =>
  (OK, Ret ((fun obj => MkLabelVersionID (oe_Label obj) (EncodeToString (oe_VersionID obj))) <$> objs))).
End api.

(** ** The labels are a map *)

(** Writes of labels, some of which may fail. *)
Fixpoint label_history (ws : list (Faults * bytes * bytes)) (db : contents) : contents * list (bytes * bytes) :=
  match ws with
  | [] => (db, [])
  | (F, k, v) :: ws =>
      match kv_Set F k v db with
      | Ret db => let '(db, done) := label_history ws db in (db, (k, v) :: done)
      | _ => label_history ws db
      end
  end.

Lemma kv_Set_inv F k v db db' : kv_Set F k v db = Ret db' -> db' = <[k := v]> db.
Proof. unfold kv_Set. intros (u & H)%Update_inv. by apply txn_Set_inv in H. Qed.

Lemma label_history_spec ws db : (label_history ws db).1 =
  foldl (fun m kv => <[kv.1 := kv.2]> m) db (label_history ws db).2.
Proof.
  revert db. induction ws as [|[[F k] v] ws IH]; intros db; cbn [label_history]; [done|].
  destruct (kv_Set F k v db) as [db'|e|] eqn:E; [|apply IH..]. apply kv_Set_inv in E as ->.
  specialize (IH (<[k := v]> db)). destruct (label_history ws _) as [db2 done]. cbn in *. done.
Qed.

Lemma entries_loop_ok items : entries_loop noFaults items = Ret ((fun kv => MkObjectEntry kv.1 kv.2) <$> items).
Proof. induction items as [|[k v] items IH]; cbn [entries_loop]; [done|]. cbn. by rewrite IH. Qed.

Lemma get_by_prefix_ok prefix db : kv_GetByPrefix noFaults prefix db =
  Ret ((fun kv => MkObjectEntry kv.1 kv.2) <$> scan prefix prefix db).
Proof. apply entries_loop_ok. Qed.

Lemma elem_of_prefix_scan prefix k v db : (k, v) ∈ scan prefix prefix db <-> db !! k = Some v /\ prefix `prefix_of` k.
Proof.
  rewrite elem_of_scan.
  - split; [tauto|]. intros [Hk Hp]. split_and!; try done. destruct Hp as [r ->].
    unfold bytes_le. clear. induction prefix as [|x p IH]; [by destruct r|]. cbn. by rewrite Z.compare_refl.
  - done.
Qed.

(** The label of a lookup that succeeds on a working database. *)
Lemma kv_Get_ok k db : k <> [] ->
  kv_Get noFaults k db = match db !! k with Some v => Ret v | None => Fail ErrKeyNotFound end.
Proof.
  intros Hk. unfold kv_Get, View, txn_Value, txn_Get, key_err. rewrite decide_False by done. cbn. by destruct (db !! k).
Qed.

(** The empty label is refused. *)
Lemma empty_label F v db : kv_Get F [] db = Fail ErrEmptyKey /\ kv_Set F [] v db = Fail ErrEmptyKey.
Proof. done. Qed.

(** The labels behave as a map: after any history of writes, some of which
    fail, a label has the version that was last written to it successfully, and
    a prefix lists exactly the labels that start with it, each one once and in
    their order, with these versions.  The empty label is refused. *)
Theorem labels_spec ws prefix k :
  let '(db, written) := label_history ws ∅ in
  let last := foldl (fun (m : contents) kv => <[kv.1 := kv.2]> m) ∅ written in
  kv_Get noFaults k db = (if decide (k = []) then Fail ErrEmptyKey else
                          match last !! k with Some v => Ret v | None => Fail ErrKeyNotFound end) /\
  exists entries, kv_GetByPrefix noFaults prefix db = Ret entries /\
    (forall label vid, MkObjectEntry label vid ∈ entries <-> last !! label = Some vid /\ prefix `prefix_of` label) /\
    NoDup (oe_Label <$> entries) /\ StronglySorted bytes_le (oe_Label <$> entries).
Proof.
  pose proof (label_history_spec ws ∅) as Hh. destruct (label_history ws ∅) as [db written]. cbn in Hh. subst db.
  cbv zeta. set (last := foldl _ _ _). split.
  { case_decide as Hk; [by subst|]. by apply kv_Get_ok. }
  rewrite get_by_prefix_ok. eexists. split; [done|].
  assert (oe_Label <$> ((fun kv : bytes * bytes => MkObjectEntry kv.1 kv.2) <$> scan prefix prefix last) =
          (scan prefix prefix last).*1) as -> by (by rewrite <-list_fmap_compose).
  split_and!.
  - intros label vid. rewrite <-elem_of_prefix_scan, list_elem_of_fmap. split.
    + by intros ([k' v'] & [= -> ->] & Hin).
    + intros Hin. by exists (label, vid).
  - apply scan_NoDup.
  - induction (scan_sorted prefix prefix last) as [|x l _ IH Hx]; constructor; [done|].
    apply Forall_fmap. eapply Forall_impl; [done|]. done.
Qed.
