(* ===== verification/Pubsub.v ===== *)
(** * Pubsub: publishing the outcome of transactions

    Model of [src/pubsub]: the framing of payloads on a connection
    ([internal]), the server that publishes to its subscribers, and the client.
    A read finds some bytes, times out, or fails; a write takes some bytes,
    times out, or fails.  The JSON encoding of payloads is a parameter. *)
From S2P Require Import Prelude Codec Database Base64 Conn.

Record Payload := MkPayload { pl_Labels : list bytes; pl_NodeID : uint64; pl_ObjectID : bytes; pl_Success : bool }.

(** ** Connections: [internal.go] *)

Inductive read_event := Data (b : bytes) | ReadTimeout | ReadEOF | ReadBroken.
Inductive write_event := Took (n : nat) | WriteTimeout | WriteBroken.

(** [pc_out] has the bytes that were written. *)
Record PConn := MkPConn {
  pc_buf : bytes; pc_in : list read_event; pc_out : bytes; pc_accept : list write_event; pc_closed : bool }.

Definition pc_New (ins : list read_event) (accept : list write_event) : PConn :=
  MkPConn (replicate 1024 0) ins [] accept false.
Definition pc_close c := MkPConn (pc_buf c) (pc_in c) (pc_out c) (pc_accept c) true.
Definition pc_set_in buf ins c := MkPConn buf ins (pc_out c) (pc_accept c) (pc_closed c).
Definition pc_set_out out accept c := MkPConn (pc_buf c) (pc_in c) out accept (pc_closed c).

(** How a loop of reads ends: with the bytes, with [return nil, nil], or with
    an error. *)
Inductive read_result := Got (data : bytes) | Nothing | Broken.

(** Nothing arrives any more at the end of the list. *)
Fixpoint ps_read (need : nat) (ins : list read_event) (got : bytes) : read_result * list read_event :=
  if decide (need = 0%nat) then (Got got, ins) else
  match ins with
  | [] => (Nothing, [])
  | Data b :: ins =>
      if decide (need < length b)%nat then (Got (got ++ take need b), Data (drop need b) :: ins)
      else ps_read (need - length b) ins (got ++ b)
  | ReadTimeout :: ins => (Nothing, ins)
  | ReadEOF :: ins => (Nothing, ins)
  | ReadBroken :: ins => (Broken, ins)
  end.

Section conn.
Context (parse : bytes -> go Payload).

Definition Read (c : PConn) : go (option Payload) * PConn :=
  match ps_read 4 (pc_in c) [] with
  | (Nothing, ins) => (Ret None, pc_set_in (pc_buf c) ins c)
  | (Broken, ins) => (Fail "read error", pc_close (pc_set_in (pc_buf c) ins c))
  | (Got header, ins) =>
      let buf := fill (pc_buf c) header in
      match Uint 4 buf with
      | Ret x =>
          let size := to_int32 x in
          let buf := if decide (Z.of_nat (length buf) < size) then replicate (Z.to_nat size) 0 else buf in
          if decide (size < 0) then (Crash, c) else
          match ps_read (Z.to_nat size) ins [] with
          | (Nothing, ins) => (Ret None, pc_set_in buf ins c)
          | (Broken, ins) => (Fail "read error", pc_close (pc_set_in buf ins c))
          | (Got data, ins) =>
              let buf := fill buf data in
              (p ← parse (take (Z.to_nat size) buf); Ret (Some p), pc_set_in buf ins c)
          end
      | Fail e => (Fail e, c)
      | Crash => (Crash, c)
      end
  end.
End conn.

(** The loop of writes: whether it returned an error, the output and the rest. *)
Fixpoint ps_write (data : bytes) (accept : list write_event) (out : bytes) : bool * bytes * list write_event :=
  if decide (length data = 0%nat) then (true, out, accept) else
  match accept with
  | [] => (true, out, [])
  | Took n :: accept => ps_write (drop n data) accept (out ++ take n data)
  | WriteTimeout :: accept => (true, out, accept)
  | WriteBroken :: accept => (false, out, accept)
  end.

Definition Write (payload : bytes) (c : PConn) : bool * PConn :=
  let buf := PutUint32 (u32 (Z.of_nat (length payload))) ++ payload in
  let '(ok, out, accept) := ps_write buf (pc_accept c) (pc_out c) in
  let c := pc_set_out out accept c in
  if ok : bool then (true, c) else (false, pc_close c).

(** ** The server: [pubsub.go] *)

(** [ps_conns]: the connections by remote address; [ps_notified] has the calls
    of the notifiers, which are numbers. *)
Record server := MkServer {
  ps_nodeID : uint64; ps_conns : gmap (list Z) PConn; ps_notifiers : list nat; ps_notified : list (nat * Payload) }.

Definition RegisterNotifier (n : nat) (s : server) : server :=
  MkServer (ps_nodeID s) (ps_conns s) (ps_notifiers s ++ [n]) (ps_notified s).

Definition ps_handleConnection (addr : bytes) (c : PConn) (s : server) : server :=
  MkServer (ps_nodeID s) (<[addr := c]> (ps_conns s)) (ps_notifiers s) (ps_notified s).

(** The payload is marshalled as [json] of it. *)
Definition Publish (json : Payload -> bytes) (objectID : bytes) (labels : list bytes) (success : bool) (s : server)
    : server :=
  let payload := MkPayload labels (ps_nodeID s) (EncodeToString objectID) success in
  let written := Write (json payload) <$> ps_conns s in
  MkServer (ps_nodeID s) (snd <$> filter (fun kv => kv.2.1 = true) written) (ps_notifiers s)
    (ps_notified s ++ ((fun n => (n, payload)) <$> ps_notifiers s)).

(** ** The client: [client.go] *)

Record Client := MkClient { cl_nodes : gmap uint64 bytes; cl_conns : gmap uint64 PConn }.

(** [run], with the connection that [net.Dial] makes, if it does. *)
Definition cl_run (dialed : option PConn) (nodeID : uint64) (c : Client) : bool * Client :=
  match dialed with
  | None => (false, c)
  | Some conn => (true, MkClient (cl_nodes c) (<[nodeID := conn]> (cl_conns c)))
  end.

(** A node is announced. *)
Definition cl_cb (dialed : option PConn) (nodeID : uint64) (addr : bytes) (c : Client) : Client :=
  if decide (cl_nodes c !! nodeID = Some addr) then c
  else (cl_run dialed nodeID (MkClient (<[nodeID := addr]> (cl_nodes c)) (cl_conns c))).2.

(** An iteration of the goroutine of a connection: the call of the callback. *)
Definition cl_read (parse : bytes -> go Payload) (c : PConn) : go (option (uint64 * bytes * bool * list bytes)) * PConn :=
  match Read parse c with
  | (Ret (Some p), c) => (Ret (Some (pl_NodeID p, pl_ObjectID p, pl_Success p, pl_Labels p)), c)
  | (Ret None, c) => (Ret None, c)
  | (Fail _, c) => (Ret None, c)
  | (Crash, c) => (Crash, c)
  end.

(** ** What is published is read *)

Lemma ps_read_data need chunks got : ps_read need (Data <$> chunks) got =
  match read_loop need chunks got with
  | Some (data, chunks) => (Got data, Data <$> chunks)
  | None => (Nothing, [])
  end.
Proof.
  revert need got. induction chunks as [|b chunks IH]; intros need got; cbn [fmap list_fmap ps_read read_loop].
  - by case_decide.
  - case_decide; [done|]. case_decide; [done|]. apply IH.
Qed.

Lemma Read_frame parse c payload chunks rest p :
  Z.of_nat (length payload) < 2 ^ 31 -> pc_in c = Data <$> chunks -> concat chunks = frame payload ++ rest ->
  parse payload = Ret p -> (4 <= length (pc_buf c))%nat ->
  exists c' chunks', Read parse c = (Ret (Some p), c') /\ pc_in c' = Data <$> chunks' /\ concat chunks' = rest /\
    (4 <= length (pc_buf c'))%nat.
Proof.
  intros Hl Hin Hc Hp Hb. unfold frame in Hc. rewrite <-app_assoc in Hc. unfold Read. rewrite Hin, ps_read_data.
  destruct (read_loop_spec 4 chunks [] _ _ Hc) as (ch & -> & Hch); [apply length_PutUint|]. rewrite app_nil_l.
  set (h := PutUint32 (u32 (Z.of_nat (length payload)))) in *.
  assert (length h = 4%nat) as Hh by apply length_PutUint.
  assert (Uint 4 (fill (pc_buf c) h) = Ret (Z.of_nat (length payload))) as ->.
  { unfold fill, h. rewrite wrap_small by (split; lia). apply Uint_PutUint. simpl. lia. }
  assert (to_int32 (Z.of_nat (length payload)) = Z.of_nat (length payload)) as Hi
    by (unfold to_int32; by rewrite decide_True by lia).
  cbv zeta. rewrite !Hi. rewrite (decide_False (P := Z.of_nat (length payload) < 0)) by lia. rewrite Nat2Z.id, ps_read_data.
  destruct (read_loop_spec (length payload) ch [] _ _ Hch eq_refl) as (ch' & -> & Hch'). rewrite app_nil_l.
  set (buf := if decide _ then _ else _). unfold fill at 1. rewrite take_app_length, Hp. cbn [mbind go_bind].
  eexists _, ch'. split; [done|]. split_and!; [done|done|]. cbn. unfold fill. rewrite length_app, length_drop.
  assert (4 <= length buf)%nat; [|lia]. subst buf. unfold fill in *. case_decide as Hd; rewrite ?length_replicate;
    rewrite ?length_app, ?length_drop in *; lia.
Qed.

(** Publications one after the other, and the reads of a subscriber. *)
Abbreviation publication := (list Z * list (list Z) * bool)%type.
Definition payload_for (s : server) (e : publication) : Payload :=
  MkPayload e.1.2 (ps_nodeID s) (EncodeToString e.1.1) e.2.
Definition publish_all (json : Payload -> bytes) (es : list publication) (s : server) : server :=
  foldl (fun s (e : publication) => Publish json e.1.1 e.1.2 e.2 s) s es.

Fixpoint read_all (parse : bytes -> go Payload) (n : nat) (c : PConn) : go (list Payload) * PConn :=
  match n with
  | O => (Ret [], c)
  | S n =>
      match Read parse c with
      | (Ret (Some p), c) => let '(r, c) := read_all parse n c in (ps ← r; Ret (p :: ps), c)
      | (_, c) => (Fail "no payload", c)
      end
  end.

(** The connection takes the payloads completely, in pieces of any size. *)
Fixpoint delivers (payloads : list bytes) (accept : list write_event) : Prop :=
  match payloads with
  | [] => True
  | p :: payloads => exists accept', ps_write (frame p) accept [] = (true, frame p, accept') /\ delivers payloads accept'
  end.

Lemma ps_write_out data accept out : ps_write data accept out =
  let '(ok, o, acc) := ps_write data accept [] in (ok, out ++ o, acc).
Proof.
  revert data out. induction accept as [|[n| |] accept IH]; intros data out; cbn [ps_write]; case_decide;
    rewrite ?app_nil_r; try done. rewrite (IH _ (out ++ take n data)), (IH _ ([] ++ take n data)).
  destruct (ps_write (drop n data) accept []) as [[ok o] acc]. by rewrite app_nil_l, <-app_assoc.
Qed.

Lemma Publish_conn json e s addr c accept' :
  let p := json (payload_for s e) in
  ps_conns s !! addr = Some c -> ps_write (frame p) (pc_accept c) [] = (true, frame p, accept') ->
  ps_conns (Publish json e.1.1 e.1.2 e.2 s) !! addr = Some (pc_set_out (pc_out c ++ frame p) accept' c).
Proof.
  intros p Hc Hw. unfold Publish. cbn [ps_conns]. fold (payload_for s e). fold p.
  rewrite lookup_fmap, map_lookup_filter, lookup_fmap, Hc. cbn [fmap option_fmap option_map mbind option_bind].
  unfold Write. fold (frame p). rewrite ps_write_out, Hw. cbn. done.
Qed.

Lemma publish_all_conn json es s addr c : ps_conns s !! addr = Some c ->
  delivers ((fun e => json (payload_for s e)) <$> es) (pc_accept c) ->
  exists c', ps_conns (publish_all json es s) !! addr = Some c' /\
    pc_out c' = pc_out c ++ (((fun e => json (payload_for s e)) <$> es) ≫= frame).
Proof.
  revert s c. induction es as [|e es IH]; intros s c Hc Hd; cbn [publish_all foldl].
  { exists c. cbn. by rewrite app_nil_r. }
  cbn [fmap list_fmap delivers] in Hd. destruct Hd as (accept' & Hw & Hd).
  destruct (IH (Publish json e.1.1 e.1.2 e.2 s) _ (Publish_conn json e s addr c accept' Hc Hw) Hd) as (c' & Hc' & Ho).
  exists c'. split; [exact Hc'|]. rewrite Ho. cbn [pc_out pc_set_out]. rewrite <-app_assoc. done.
Qed.

Lemma publish_all_notified json es s : ps_notified (publish_all json es s) =
  ps_notified s ++ (es ≫= fun e => (fun n => (n, payload_for s e)) <$> ps_notifiers s).
Proof.
  revert s. induction es as [|e es IH]; intros s; cbn [publish_all foldl]; [by rewrite app_nil_r|].
  change (foldl _ _ es) with (publish_all json es (Publish json e.1.1 e.1.2 e.2 s)). rewrite IH.
  cbn [ps_notified Publish ps_notifiers]. rewrite bind_cons, <-app_assoc. done.
Qed.

Lemma read_all_frames parse payloads ps c chunks rest :
  Forall2 (fun b p => Z.of_nat (length b) < 2 ^ 31 /\ parse b = Ret p) payloads ps ->
  pc_in c = Data <$> chunks -> concat chunks = (payloads ≫= frame) ++ rest -> (4 <= length (pc_buf c))%nat ->
  exists c' chunks', read_all parse (length payloads) c = (Ret ps, c') /\ pc_in c' = Data <$> chunks' /\ concat chunks' = rest.
Proof.
  intros Hf. revert c chunks. induction Hf as [|b p payloads ps [Hl Hp] _ IH]; intros c chunks Hin Hc Hb.
  { exists c, chunks. done. }
  rewrite bind_cons, <-app_assoc in Hc.
  destruct (Read_frame parse c b chunks _ p Hl Hin Hc Hp Hb) as (c1 & ch1 & Hr & Hin1 & Hc1 & Hb1).
  destruct (IH c1 ch1 Hin1 Hc1 Hb1) as (c2 & ch2 & Hr2 & Hin2 & Hc2).
  exists c2, ch2. cbn [length read_all]. rewrite Hr, Hr2. done.
Qed.

(** What is published arrives: every notifier is called with every payload in
    order, and a subscriber whose connection takes the data, in pieces of any
    size, and which receives the bytes in fragments of any size without a
    timeout, reads exactly these payloads in order, whatever happens to the
    connections of the others. *)
Theorem publications_arrive json parse es s addr c :
  ps_conns s !! addr = Some c -> pc_out c = [] ->
  Forall (fun e => Z.of_nat (length (json (payload_for s e))) < 2 ^ 31 /\
                   parse (json (payload_for s e)) = Ret (payload_for s e)) es ->
  delivers ((fun e => json (payload_for s e)) <$> es) (pc_accept c) ->
  ps_notified (publish_all json es s) =
    ps_notified s ++ (es ≫= fun e => (fun n => (n, payload_for s e)) <$> ps_notifiers s) /\
  exists c', ps_conns (publish_all json es s) !! addr = Some c' /\
  forall chunks rest, concat chunks = pc_out c' ++ rest ->
    exists r chunks', read_all parse (length es) (pc_New (Data <$> chunks) []) = (Ret (payload_for s <$> es), r) /\
      pc_in r = Data <$> chunks' /\ concat chunks' = rest.
Proof.
  intros Hc Ho Hl Hd. split; [apply publish_all_notified|].
  destruct (publish_all_conn json es s addr c Hc Hd) as (c' & Hc' & Ho'). exists c'. split; [done|].
  intros chunks rest Hch. rewrite Ho', Ho, app_nil_l in Hch.
  destruct (read_all_frames parse ((fun e => json (payload_for s e)) <$> es) (payload_for s <$> es)
              (pc_New (Data <$> chunks) []) chunks rest) as (r & ch & Hr & Hin & Hrest); [|done|done|cbn; lia|].
  { apply Forall2_fmap, Forall_Forall2_diag. done. }
  rewrite length_fmap in Hr. eauto 6.
Qed.

(** ** Examples *)

Definition ex_json (p : Payload) : bytes := if pl_Success p then 123 :: pl_ObjectID p else pl_ObjectID p.
Definition ex_parse (b : bytes) : go Payload :=
  match b with 123 :: r => Ret (MkPayload [] 4 r true) | _ => Ret (MkPayload [] 4 b false) end.
Definition ex_conn : PConn := pc_New [] [Took 3; Took 20; Took 100].
Definition ex_ps : server := MkServer 4 {[ [1] := ex_conn; [2] := pc_New [] [WriteBroken] ]} [8%nat] [].
Definition ex_es : list publication := [([77; 97; 110], [], true); ([], [], false)].

Lemma publications_arrive_witness : exists r chunks',
  read_all ex_parse 2 (pc_New (Data <$> [[5; 0]; [0; 0; 123; 84; 87; 70; 117; 0; 0]; [0]; [0; 6]]) []) =
    (Ret [MkPayload [] 4 [84; 87; 70; 117] true; MkPayload [] 4 [] false], r) /\
  pc_in r = Data <$> chunks' /\ concat chunks' = [6].
Proof.
  destruct (publications_arrive ex_json ex_parse ex_es ex_ps [1] ex_conn) as (_ & c' & Hc & H).
  - reflexivity.
  - reflexivity.
  - repeat (constructor; [split; [vm_compute; reflexivity|vm_compute; reflexivity]|]). constructor.
  - eexists. split; [vm_compute; reflexivity|]. eexists. split; [vm_compute; reflexivity|]. exact I.
  - vm_compute in Hc. injection Hc as <-. apply (H _ [6]). reflexivity.
Defined.

(** A read that times out after the header of a frame loses it: the next read
    takes the first bytes of the payload for a header. *)
Lemma timeout_loses_the_frame p :
  let c := pc_New [Data [2; 0; 0; 0]; ReadTimeout; Data [1; 0]; Data [0; 0; 9]] [] in
  let '(first, c) := Read (fun _ => Ret p) c in
  first = Ret None /\ ps_read 4 (pc_in c) [] = (Got [1; 0; 0; 0], [Data [9]]).
Proof. vm_compute. done. Qed.

(** A write that times out after a part of the frame is reported as a success and
    the connection is kept: the subscriber takes the next frame for the rest. *)
Lemma timed_out_write_is_kept payload n accept c : pc_accept c = Took n :: WriteTimeout :: accept ->
  (n < 4 + length payload)%nat ->
  Write payload c = (true, pc_set_out (pc_out c ++ take n (frame payload)) accept c).
Proof.
  intros Ha Hn. unfold Write. fold (frame payload).
  assert (length (frame payload) = (4 + length payload)%nat) as Hl
    by (unfold frame; rewrite length_app, length_PutUint; lia).
  rewrite Ha. cbn [ps_write]. rewrite decide_False by lia. rewrite decide_False by (rewrite length_drop; lia). done.
Qed.

(** A header with the highest bit set makes the subscriber panic. *)
Lemma negative_size_panics parse ins : (Read parse (pc_New (Data [0; 0; 0; 128] :: ins) [])).1 = Crash.
Proof. by destruct ins. Qed.

(** A node whose address was announced while it could not be reached is not tried
    again at the same address. *)
Lemma failed_dial_is_final nodeID addr c : cl_nodes c !! nodeID <> Some addr ->
  let c1 := cl_cb None nodeID addr c in
  cl_conns c1 = cl_conns c /\ forall conn, cl_cb (Some conn) nodeID addr c1 = c1.
Proof.
  intros Hn. unfold cl_cb at 1 2. rewrite decide_False by done. cbn. split; [done|]. intros conn. unfold cl_cb.
  rewrite decide_True; [done|]. cbn. by rewrite lookup_insert_eq.
Qed.
