(* ===== verification/PubsubApi.v ===== *)
(** * PubsubApi: notifications over websockets

    Model of [src/pubsub/api/service.go].  A published payload starts a
    goroutine that takes the mutex of the service and sends the payload into the
    buffered channel of every client; a goroutine per client takes payloads out
    of its channel and writes them to a websocket.  The steps of all goroutines
    interleave. *)
From S2P Require Import Prelude Pubsub.

(** The capacity of a channel. *)
Definition capacity : nat := 100.

(** [cc_pushed] and [cc_written] record what went in and out. *)
Record chanCloser := MkChan {
  cc_queue : list Payload; cc_close : bool; cc_pushed : list Payload; cc_written : list Payload }.

(** Where a call of [Websocket] is: in the [select], with a payload taken,
    before [ch.Close()], or at its end. *)
Inductive websocket := Selecting | Writing (p : Payload) | Closing | Returned.

(** A goroutine of [Callback] that has the mutex of the service: its payload, the
    clients still to visit, those whose channel it has closed, and whether it is
    blocked on the full channel of the first client with the mutex of the
    channel in its hands. *)
Record visiting := MkVisiting {
  vi_p : Payload; vi_todo : list nat; vi_doneConn : list nat; vi_blocked : bool }.

(** [ws_order] records the payloads in the order in which their goroutines got
    the mutex. *)
Record service := MkPsService {
  ws_chans : gmap nat chanCloser; ws_socks : gmap nat websocket; ws_waiting : list Payload;
  ws_current : option visiting; ws_order : list Payload }.

Definition NewService : service := MkPsService ∅ ∅ [] None [].

Inductive action :=
  | Register (clt : nat)
  | Notify (p : Payload)
  | Begin (i : nat)
  | Visit
  | End
  | Take (clt : nat)
  | WriteMessage (clt : nat) (ok : bool)
  | Cancel (clt : nat)
  | CloseChan (clt : nat).

Definition set_chans x s := MkPsService x (ws_socks s) (ws_waiting s) (ws_current s) (ws_order s).
Definition set_socks x s := MkPsService (ws_chans s) x (ws_waiting s) (ws_current s) (ws_order s).
Definition set_waiting x s := MkPsService (ws_chans s) (ws_socks s) x (ws_current s) (ws_order s).
Definition set_current x s := MkPsService (ws_chans s) (ws_socks s) (ws_waiting s) x (ws_order s).
Definition set_order x s := MkPsService (ws_chans s) (ws_socks s) (ws_waiting s) (ws_current s) x.

Definition push (p : Payload) (c : chanCloser) : chanCloser :=
  MkChan (cc_queue c ++ [p]) (cc_close c) (cc_pushed c ++ [p]) (cc_written c).

(** [addChan] waits for the mutex of the service. *)
Definition register (clt : nat) (s : service) : option service :=
  match ws_current s with
  | Some _ => None
  | None => Some (set_socks (<[clt := Selecting]> (ws_socks s))
                    (set_chans (<[clt := MkChan [] false [] []]> (ws_chans s)) s))
  end.

Definition cb_begin (i : nat) (s : service) : option service :=
  match ws_current s with
  | Some _ => None
  | None => p ← ws_waiting s !! i;
            Some (set_current (Some (MkVisiting p (elements (dom (ws_chans s))) [] false))
                    (set_waiting (delete i (ws_waiting s)) (set_order (ws_order s ++ [p]) s)))
  end.

(** One client: its channel is closed, or the payload is sent, or the goroutine
    blocks. *)
Definition cb_visit (s : service) : option service :=
  v ← ws_current s;
  match vi_todo v with
  | [] => None
  | k :: todo =>
      ch ← ws_chans s !! k;
      if cc_close ch && negb (vi_blocked v) then
        Some (set_current (Some (MkVisiting (vi_p v) todo (vi_doneConn v ++ [k]) false)) s)
      else if decide (length (cc_queue ch) < capacity)%nat then
        Some (set_current (Some (MkVisiting (vi_p v) todo (vi_doneConn v) false))
                (set_chans (<[k := push (vi_p v) ch]> (ws_chans s)) s))
      else if vi_blocked v then None
      else Some (set_current (Some (MkVisiting (vi_p v) (k :: todo) (vi_doneConn v) true)) s)
  end.

Definition cb_end (s : service) : option service :=
  v ← ws_current s;
  match vi_todo v with
  | [] => Some (set_current None (set_chans (foldr delete (ws_chans s) (vi_doneConn v)) s))
  | _ => None
  end.

Definition ws_take (clt : nat) (s : service) : option service :=
  w ← ws_socks s !! clt;
  ch ← ws_chans s !! clt;
  match w, cc_queue ch with
  | Selecting, p :: q =>
      Some (set_socks (<[clt := Writing p]> (ws_socks s))
              (set_chans (<[clt := MkChan q (cc_close ch) (cc_pushed ch) (cc_written ch)]> (ws_chans s)) s))
  | _, _ => None
  end.

Definition ws_write (clt : nat) (ok : bool) (s : service) : option service :=
  w ← ws_socks s !! clt;
  ch ← ws_chans s !! clt;
  match w with
  | Writing p =>
      if ok then
        Some (set_socks (<[clt := Selecting]> (ws_socks s))
                (set_chans (<[clt := MkChan (cc_queue ch) (cc_close ch) (cc_pushed ch) (cc_written ch ++ [p])]>
                              (ws_chans s)) s))
      else Some (set_socks (<[clt := Closing]> (ws_socks s)) s)
  | _ => None
  end.

Definition ws_cancel (clt : nat) (s : service) : option service :=
  w ← ws_socks s !! clt;
  match w with Selecting => Some (set_socks (<[clt := Closing]> (ws_socks s)) s) | _ => None end.

(** Whether a goroutine of [Callback] has the mutex of the channel. *)
Definition channel_held (clt : nat) (s : service) : bool :=
  match ws_current s with
  | Some v => vi_blocked v && bool_decide (head (vi_todo v) = Some clt)
  | None => false
  end.

Definition ws_closeChan (clt : nat) (s : service) : option service :=
  w ← ws_socks s !! clt;
  ch ← ws_chans s !! clt;
  match w with
  | Closing =>
      if channel_held clt s then None
      else Some (set_socks (<[clt := Returned]> (ws_socks s))
                   (set_chans (<[clt := MkChan (cc_queue ch) true (cc_pushed ch) (cc_written ch)]> (ws_chans s)) s))
  | _ => None
  end.

Definition act (a : action) (s : service) : option service :=
  match a with
  | Register clt => register clt s
  | Notify p => Some (set_waiting (ws_waiting s ++ [p]) s)
  | Begin i => cb_begin i s
  | Visit => cb_visit s
  | End => cb_end s
  | Take clt => ws_take clt s
  | WriteMessage clt ok => ws_write clt ok s
  | Cancel clt => ws_cancel clt s
  | CloseChan clt => ws_closeChan clt s
  end.

Fixpoint acts (l : list action) (s : service) : option service :=
  match l with [] => Some s | a :: l => s ← act a s; acts l s end.


(** ** A blocked service stays blocked *)

(** A goroutine waits for room in the channel of [clt], whose websocket has
    failed and waits for the mutex of the channel. *)
Definition deadlocked (clt : nat) (s : service) : Prop :=
  exists v todo ch, ws_current s = Some v /\ vi_blocked v = true /\ vi_todo v = clt :: todo /\
    ws_chans s !! clt = Some ch /\ (capacity <= length (cc_queue ch))%nat /\ ws_socks s !! clt = Some Closing.

(** No goroutine of a notification can go on, and no client can register. *)
Definition halted (s : service) : Prop :=
  (forall i, act (Begin i) s = None) /\ act Visit s = None /\ act End s = None /\ (forall k, act (Register k) s = None).

Lemma deadlocked_halted clt s : deadlocked clt s -> halted s.
Proof.
  intros (v & todo & ch & Hv & Hb & Ht & Hch & Hq & _). unfold halted, act, cb_begin, cb_visit, cb_end, register.
  rewrite Hv. cbn [mbind option_bind]. rewrite Ht. split_and!; try done. rewrite Hch. cbn [mbind option_bind].
  rewrite Hb, andb_false_r, decide_False by lia. done.
Qed.

(** The payloads that the channel of a client got. *)
Definition pushed (k : nat) (s : service) : option (list Payload) := cc_pushed <$> ws_chans s !! k.

(** A step of another client's websocket that changes its channel by [f]. *)
Lemma deadlocked_other clt k s s1 w c (f : chanCloser -> chanCloser) : deadlocked clt s -> k <> clt ->
  ws_chans s !! k = Some c -> (forall c, cc_pushed (f c) = cc_pushed c) ->
  s1 = set_socks (<[k := w]> (ws_socks s)) (set_chans (<[k := f c]> (ws_chans s)) s) ->
  deadlocked clt s1 /\ ws_current s1 = ws_current s /\ forall j, pushed j s1 = pushed j s.
Proof.
  intros (v & todo & ch & Hd) Hk Hc Hf ->. split; [|split; [done|]].
  - exists v, todo, ch. cbn. rewrite !lookup_insert_ne by done. exact Hd.
  - intros j. unfold pushed. cbn. destruct (decide (j = k)) as [->|]; [|by rewrite lookup_insert_ne].
    rewrite lookup_insert_eq, Hc. cbn. by rewrite Hf.
Qed.

Lemma deadlocked_sock clt k s w : deadlocked clt s -> k <> clt ->
  deadlocked clt (set_socks (<[k := w]> (ws_socks s)) s).
Proof. intros (v & todo & ch & Hd) Hk. exists v, todo, ch. cbn. rewrite lookup_insert_ne by done. exact Hd. Qed.

Lemma deadlocked_socket clt s w : deadlocked clt s -> ws_socks s !! clt = Some w -> w = Closing.
Proof. intros (v & todo & ch & _ & _ & _ & _ & _ & Hs) Hw. congruence. Qed.

Lemma deadlocked_held clt s : deadlocked clt s -> channel_held clt s = true.
Proof.
  intros (v & todo & ch & Hv & Hb & Ht & _). unfold channel_held. rewrite Hv, Hb, Ht. cbn. by rewrite bool_decide_true.
Qed.

Lemma deadlocked_step clt a s s1 : deadlocked clt s -> act a s = Some s1 ->
  deadlocked clt s1 /\ ws_current s1 = ws_current s /\ forall j, pushed j s1 = pushed j s.
Proof.
  intros Hd Ha. pose proof (deadlocked_halted clt s Hd) as (Hbegin & Hvisit & Hend & Hreg).
  pose proof (deadlocked_socket clt s) as Hsock.
  destruct a as [k|p|i| | |k|k ok|k|k];
    [by rewrite Hreg in Ha| |by rewrite Hbegin in Ha|by rewrite Hvisit in Ha|by rewrite Hend in Ha|..]; cbn [act] in Ha.
  - injection Ha as <-. split; [|done]. destruct Hd as (v & todo & ch & Hd). by exists v, todo, ch.
  - unfold ws_take in Ha. apply bind_Some in Ha as (w & Hw & Ha). apply bind_Some in Ha as (c & Hc & Ha).
    destruct w; try done. destruct (cc_queue c) as [|p q]; [done|]. injection Ha as <-.
    eapply (deadlocked_other clt k s _ _ c (fun c => MkChan q (cc_close c) (cc_pushed c) (cc_written c))); try done.
    intros ->. by apply Hsock in Hw.
  - unfold ws_write in Ha. apply bind_Some in Ha as (w & Hw & Ha). apply bind_Some in Ha as (c & Hc & Ha).
    destruct w as [|p| |]; try done. assert (k <> clt) as Hk by (intros ->; by apply Hsock in Hw).
    destruct ok; injection Ha as <-.
    + by eapply (deadlocked_other clt k s _ _ c (fun c => MkChan (cc_queue c) (cc_close c) (cc_pushed c) (cc_written c ++ [p]))).
    + split; [by apply deadlocked_sock|done].
  - unfold ws_cancel in Ha. apply bind_Some in Ha as (w & Hw & Ha). destruct w; try done. injection Ha as <-.
    split; [|done]. apply deadlocked_sock; [done|]. intros ->. by apply Hsock in Hw.
  - unfold ws_closeChan in Ha. apply bind_Some in Ha as (w & Hw & Ha). apply bind_Some in Ha as (c & Hc & Ha).
    destruct w; try done. destruct (channel_held k s) eqn:Eh; [done|]. injection Ha as <-.
    eapply (deadlocked_other clt k s _ _ c (fun c => MkChan (cc_queue c) true (cc_pushed c) (cc_written c))); try done.
    intros ->. by rewrite (deadlocked_held clt s Hd) in Eh.
Qed.

(** A client whose websocket fails while its channel is full blocks the
    notifications of all clients for good: whatever happens afterwards, no
    goroutine of a notification starts or goes on, no client can register, and
    no channel gets another payload. *)
Theorem failed_websocket_blocks_all clt l s s' : deadlocked clt s -> acts l s = Some s' ->
  deadlocked clt s' /\ halted s' /\ ws_current s' = ws_current s /\ forall k, pushed k s' = pushed k s.
Proof.
  revert s. induction l as [|a l IH]; intros s Hd Hr; cbn [acts] in Hr.
  - injection Hr as <-. split_and!; try done. by eapply deadlocked_halted.
  - apply bind_Some in Hr as (s1 & Ha & Hr). destruct (deadlocked_step clt a s s1 Hd Ha) as (Hd1 & Hc1 & Hp1).
    destruct (IH s1 Hd1 Hr) as (H1 & H2 & H3 & H4). split_and!; try done; [congruence|]. intros k. by rewrite H4.
Qed.

(** ** Payloads are written in the order in which they were sent *)







(** ** Every client sees the same order *)











(** ** Examples *)

Definition ex_payload : Payload := MkPayload [] 1 [] true.
(** A hundred notifications for a client that takes one of them and fails to
    write it. *)
Definition notification : list action := [Notify ex_payload; Begin 0; Visit; End].
Definition deadlock_run : list action :=
  Register 5 :: notification ++ Take 5 :: concat (replicate 100 notification) ++
  [Notify ex_payload; Begin 0; Visit; WriteMessage 5 false].

Definition blocked_service : service := default NewService (acts deadlock_run NewService).

Lemma blocked_service_deadlocked : deadlocked 5 blocked_service.
Proof.
  assert (match ws_current blocked_service, ws_chans blocked_service !! 5%nat, ws_socks blocked_service !! 5%nat with
          | Some v, Some ch, Some Closing => vi_blocked v = true /\ vi_todo v = [5%nat] /\ length (cc_queue ch) = 100%nat
          | _, _, _ => False end) as H by (vm_compute; done).
  unfold deadlocked. destruct (ws_current blocked_service) as [v|]; [|done].
  destruct (ws_chans blocked_service !! 5%nat) as [ch|]; [|done].
  destruct (ws_socks blocked_service !! 5%nat) as [[]|]; try done. destruct H as (Hb & Ht & Hl).
  exists v, [], ch. unfold capacity. split_and!; try done. lia.
Qed.

Lemma failed_websocket_blocks_all_witness : exists s', acts [Notify ex_payload] blocked_service = Some s' /\ halted s'.
Proof.
  eexists. split; [reflexivity|].
  destruct (failed_websocket_blocks_all 5 [Notify ex_payload] blocked_service _ blocked_service_deadlocked eq_refl)
    as (_ & H & _). exact H.
Defined.


