(* ===== verification/SbacApi.v ===== *)
(** * SbacApi: transactions of the HTTP interface

    Model of [src/sbac/api]: the transactions that clients post, their
    validation, their translation to the transactions of the service, and the
    way they are sent to the shards.  JSON values other than strings, and the
    services that are called, are parameters. *)
From S2P Require Import Prelude Codec Database Topology SbacStore SbacTypes Base64 Checker LogText.

(** ** [json.Marshal] of a string *)

(** Characters below 128: control characters, quotes, backslashes and the
    characters of HTML are escaped. *)
Definition jsonByte (c : Z) : bytes :=
  if decide (c = 92 \/ c = 34) then [92; c]
  else if decide (c = 10) then str "\n"
  else if decide (c = 13) then str "\r"
  else if decide (c = 9) then str "\t"
  else if decide (c < 32 \/ c = 60 \/ c = 62 \/ c = 38)
  then str "\u00" ++ [hex_at (Z.shiftr c 4); hex_at (Z.land c 15)]
  else [c].

Fixpoint jsonRunes (fuel : nat) (s : bytes) : bytes :=
  match fuel, s with
  | S fuel, c :: r =>
      if decide (c < 128) then jsonByte c ++ jsonRunes fuel r else
      match decodeRune s with
      | None => str "\ufffd" ++ jsonRunes fuel r
      | Some size =>
          (if decide (take size s = [226; 128; 168]) then str "\u2028"
           else if decide (take size s = [226; 128; 169]) then str "\u2029"
           else take size s) ++ jsonRunes fuel (drop size s)
      end
  | _, _ => []
  end.

Definition jsonString (s : bytes) : bytes := [34] ++ jsonRunes (length s) s ++ [34].

(** ** [models.go] *)

Module Api.

Inductive Trace := MkTrace
  (ContractID : bytes)
  (Dependencies : list Trace)
  (InputObjectVersionIDs InputReferenceVersionIDs : list bytes)
  (OutputObjects : list OutputObject)
  (Parameters : list bytes)
  (Procedure : bytes)
  (Returns : list bytes).

Definition InputObjectVersionIDs (t : Trace) := let 'MkTrace _ _ x _ _ _ _ _ := t in x.
Definition InputReferenceVersionIDs (t : Trace) := let 'MkTrace _ _ _ x _ _ _ _ := t in x.

Record Transaction := MkTransaction {
  Mappings : gmap (list Z) bytes; Signatures : gmap uint64 bytes; Traces : list Trace }.

Record Object (V : Type) := MkObject { Status : bytes; Value : V; VersionID : bytes }.
Arguments MkObject {V} _ _ _.
End Api.

(** The errors are ignored. *)
Definition b64DecodeStrings (s : list bytes) : list bytes := (fun v => (DecodeString v).1) <$> s.
Definition toByteSlice (s : list bytes) : list bytes := s.

(** [mappings[v]] is the empty string for an unknown key. *)
Definition mapped (mappings : gmap (list Z) bytes) (v : bytes) : bytes :=
  jsonString (default [] (mappings !! v)).

Fixpoint trace_ToSBAC (mappings : gmap (list Z) bytes) (tc : Api.Trace) : Trace :=
  let 'Api.MkTrace contract deps ins refs outs params proc rets := tc in
  MkTrace contract proc (b64DecodeStrings ins) (b64DecodeStrings refs) outs (toByteSlice params)
    (toByteSlice rets) (map (trace_ToSBAC mappings) deps) (mapped mappings <$> ins) (mapped mappings <$> refs).

Definition ToSBAC (validate : Api.Transaction -> go ()) (tx : Api.Transaction) : go Transaction :=
  _ ← validate tx;
  Ret (MkTransaction (trace_ToSBAC (Api.Mappings tx) <$> Api.Traces tx)).

(** ** [validator.go] *)

Fixpoint check_mappings (e : string) (mappings : gmap (list Z) bytes) (vs : list bytes) : go () :=
  match vs with
  | [] => Ret tt
  | v :: vs => if decide (is_Some (mappings !! v)) then check_mappings e mappings vs else Fail e
  end.

Fixpoint ValidateTrace (mappings : gmap (list Z) bytes) (trace : Api.Trace) : go () :=
  let 'Api.MkTrace _ deps ins refs _ _ _ _ := trace in
  _ ← (fix loop (ds : list Api.Trace) : go () :=
         match ds with [] => Ret tt | d :: ds => _ ← ValidateTrace mappings d; loop ds end) deps;
  _ ← guard_fail (bool_decide (ins <> [])) "Missing input version ID";
  _ ← check_mappings "Missing object mapping for key [%v]" mappings ins;
  check_mappings "Missing reference mapping for key [%v]" mappings refs.

Fixpoint Validate_loop (mappings : gmap (list Z) bytes) (traces : list Api.Trace) : go () :=
  match traces with
  | [] => Ret tt
  | tc :: traces => _ ← ValidateTrace mappings tc; Validate_loop mappings traces
  end.
Definition Validate (tx : Api.Transaction) : go () := Validate_loop (Api.Mappings tx) (Api.Traces tx).

(** ** [service.go]; a result comes with an HTTP status *)

Definition StatusOK : Z := 200.
Definition StatusBadRequest : Z := 400.
Definition StatusNotFound : Z := 404.
Definition StatusInternalServerError : Z := 500.

(** [v.Status.String()]. *)
Definition ObjectStatus_String (st : Z) : bytes :=
  if decide (st = ACTIVE) then str "ACTIVE"
  else if decide (st = INACTIVE) then str "INACTIVE"
  else if decide (st = LOCKED) then str "LOCKED"
  else fmt_int st.

Definition api_object (v : SbacStore.Object) : Api.Object bytes :=
  Api.MkObject (ObjectStatus_String (SbacStore.Status v)) (SbacStore.Value v) (EncodeToString (SbacStore.VersionID v)).
Definition buildObject (objects : list SbacStore.Object) : list (Api.Object bytes) := api_object <$> objects.

Section service.
Context `{NT : NetTopology Topo} (top : Topo) (shardID : uint64).
(** A node of the shard is chosen at random. *)
Context (RandNodeInShard : uint64 -> uint64).
(** The checkers, the service of this node and the client of the others. *)
Context (Check : Transaction -> go (gmap uint64 bytes)).
Context (AddTransaction : Transaction -> gmap uint64 bytes -> go (list SbacStore.Object)).
Context (clt_AddTransaction : list uint64 -> Transaction -> gmap uint64 bytes -> go (list SbacStore.Object)).

Fixpoint shards_of (vids : list bytes) (shards : gset uint64) : go (gset uint64) :=
  match vids with
  | [] => Ret shards
  | vid :: vids => sh ← ShardForVersionID vid top; shards_of vids ({[sh]} ∪ shards)
  end.

(** The map of shards is shared by all traces. *)
Fixpoint shardsForTrace (t : Trace) (shards : gset uint64) : go (gset uint64) :=
  let 'MkTrace _ _ ins refs _ _ _ deps _ _ := t in
  shards ← shards_of ins shards;
  shards ← shards_of refs shards;
  (fix loop (ts : list Trace) (shards : gset uint64) : go (gset uint64) :=
     match ts with [] => Ret shards | t :: ts => shards ← shardsForTrace t shards; loop ts shards end) deps shards.

Fixpoint shardsForTraces (shards : gset uint64) (ts : list Trace) : go (gset uint64) :=
  match ts with
  | [] => Ret shards
  | t :: ts => shards ← shardsForTrace t shards; shardsForTraces shards ts
  end.

Definition shardsForTx (tx : Transaction) : go (list uint64) :=
  ids ← shardsForTraces ∅ (Traces tx); Ret (elements ids).

(** The loop that finds out whether this shard is involved, and chooses a node
    of every other one. *)
Definition route (shards : list uint64) : bool * list uint64 :=
  foldl (fun '(self, peerids) shrd =>
           if decide (shrd = shardID) then (true, peerids) else (self, peerids ++ [RandNodeInShard shrd]))
        (false, []) shards.

Definition sendTransaction (tx : Transaction) (evidences : gmap uint64 bytes) : go (list SbacStore.Object) :=
  shards ← shardsForTx tx;
  let '(self, peerids) := route shards in
  objects ← (if self then AddTransaction tx evidences else Ret []);
  if decide (0 < length peerids)%nat then clt_AddTransaction peerids tx evidences else Ret objects.

Definition has_inputs (tx : Api.Transaction) : bool :=
  forallb (fun v => bool_decide (Api.InputObjectVersionIDs v <> [])) (Api.Traces tx).

(** The status and the objects, or the error. *)
Definition Add (tx : Api.Transaction) : Z * go (list (Api.Object bytes)) :=
  if has_inputs tx then
    match ToSBAC Validate tx with
    | Ret sbactx =>
        match Check sbactx with
        | Ret evidences =>
            match sendTransaction sbactx evidences with
            | Ret objects => (StatusOK, Ret (buildObject objects))
            | Fail e => (StatusInternalServerError, Fail e)
            | Crash => (0, Crash)
            end
        | Fail e => (StatusInternalServerError, Fail e)
        | Crash => (0, Crash)
        end
    | Fail e => (StatusBadRequest, Fail e)
    | Crash => (0, Crash)
    end
  else (StatusBadRequest, Fail "no input objects for a trace").

(** The first error in the order of the map. *)
Definition signaturesToBytes (signs : gmap uint64 bytes) : go (gmap uint64 bytes) :=
  foldr (fun kv r => r ← r;
           let '(sbytes, err) := DecodeString kv.2 in
           if err : bool then Fail "illegal base64 data at input byte %d" else Ret (<[kv.1 := sbytes]> r))
        (Ret ∅) (map_to_list signs).

Definition AddChecked (tx : Api.Transaction) : Z * go (list (Api.Object bytes)) :=
  if has_inputs tx then
    match ToSBAC Validate tx with
    | Ret sbactx =>
        match shardsForTx sbactx with
        | Ret _ =>
            match signaturesToBytes (Api.Signatures tx) with
            | Ret signatures =>
                match sendTransaction sbactx signatures with
                | Ret objects => (StatusOK, Ret (buildObject objects))
                | Fail e => (StatusInternalServerError, Fail e)
                | Crash => (0, Crash)
                end
            | Fail e => (StatusBadRequest, Fail e)
            | Crash => (0, Crash)
            end
        | Fail e => (0, Fail e)
        | Crash => (0, Crash)
        end
    | Fail e => (StatusBadRequest, Fail e)
    | Crash => (0, Crash)
    end
  else (StatusBadRequest, Fail "no input objects for a trace").
End service.

(** [CreateObject]: the identifier, the status, and whether there is an error;
    different identifiers are an internal error without an error value. *)
Definition CreateObject (b : go bytes) (Create : bytes -> go (list bytes)) : go (bytes * Z * bool) :=
  match b with
  | Ret b =>
      match Create b with
      | Ret ids =>
          match ids with
          | [] => Crash
          | id0 :: _ =>
              if forallb (fun v => bool_decide (v = id0)) ids
              then Ret (EncodeToString id0, StatusOK, false)
              else Ret ([], StatusInternalServerError, false)
          end
      | Fail _ => Ret ([], StatusInternalServerError, true)
      | Crash => Crash
      end
  | Fail _ => Ret ([], StatusBadRequest, true)
  | Crash => Crash
  end.

(** [BuildObjectResponse]; [parse] is [json.Unmarshal] of any value. *)
Section response.
Context {V : Type} (parse : bytes -> go V).

Fixpoint build_all (objects : list SbacStore.Object) : go (list (Api.Object V)) :=
  match objects with
  | [] => Ret []
  | v :: objects =>
      match parse (SbacStore.Value v) with
      | Ret val =>
          data ← build_all objects;
          Ret (Api.MkObject (ObjectStatus_String (SbacStore.Status v)) val (EncodeToString (SbacStore.VersionID v)) :: data)
      | Fail _ => Fail "unable to unmarshal value: %v"
      | Crash => Crash
      end
  end.

Definition BuildObjectResponse (objects : list SbacStore.Object) : go (Api.Object V) :=
  match objects with
  | [] => Fail "object already inactive"
  | v0 :: _ =>
      if forallb (fun v => bool_decide (SbacStore.Value v = SbacStore.Value v0)) objects then
        data ← build_all objects; or_crash (head data)
      else Fail "inconsistent data"
  end.
End response.
