(* ===== verification/SbacApiProps.v ===== *)
(** * SbacApiProps: posted transactions

    Which posted transactions are translated, what they are translated to, and
    which shards they reach. *)
From S2P Require Import Prelude Codec Database Topology SbacStore SbacTypes Base64 Checker CheckerProps LogText SbacApi.

(** ** Validation *)

Fixpoint api_flatten (t : Api.Trace) : list Api.Trace :=
  let 'Api.MkTrace _ deps _ _ _ _ _ _ := t in concat (map api_flatten deps) ++ [t].
Definition api_traces (tx : Api.Transaction) : list Api.Trace := concat (map api_flatten (Api.Traces tx)).

(** A trace has an input, and an object for every version it names. *)
Definition valid_trace (mappings : gmap (list Z) bytes) (t : Api.Trace) : Prop :=
  Api.InputObjectVersionIDs t <> [] /\
  Forall (fun v => is_Some (mappings !! v)) (Api.InputObjectVersionIDs t ++ Api.InputReferenceVersionIDs t).

(** Traces nest. *)
Lemma ApiTrace_ind (P : Api.Trace -> Prop) :
  (forall c deps ins refs outs ps p rs, Forall P deps -> P (Api.MkTrace c deps ins refs outs ps p rs)) ->
  forall t, P t.
Proof.
  intros Hstep. fix IH 1. intros [c deps ins refs outs ps p rs]. apply Hstep.
  induction deps as [|d deps IHd]; constructor; [apply IH|exact IHd].
Qed.

Lemma check_mappings_spec e m vs :
  check_mappings e m vs = (if decide (Forall (fun v => is_Some (m !! v)) vs) then Ret tt else Fail e).
Proof.
  induction vs as [|v vs IH]; cbn [check_mappings]; [done|]. rewrite IH.
  destruct (decide (is_Some (m !! v))); destruct (decide (Forall _ vs)); destruct (decide (Forall _ (v :: vs)))
    as [Hf|Hf]; try done; try (by inversion Hf); exfalso; apply Hf; by constructor.
Qed.

#[export] Instance valid_trace_dec m t : Decision (valid_trace m t).
Proof. unfold valid_trace. apply _. Defined.

(** A computation succeeds when [P] holds and returns an error otherwise. *)
Definition accepts (P : Prop) (m : go ()) : Prop := (P /\ m = Ret tt) \/ (~ P /\ exists e, m = Fail e).

Lemma accepts_bind P Q m k : accepts P m -> accepts Q (k tt) -> accepts (P /\ Q) (x ← m; k x).
Proof.
  intros [[HP ->]|[HP [e ->]]] HQ; cbn.
  - destruct HQ as [[? ->]|[? [e ->]]]; [left|right]; naive_solver.
  - right. naive_solver.
Qed.

Lemma accepts_iff P Q m : (P <-> Q) -> accepts P m -> accepts Q m.
Proof. unfold accepts. tauto. Qed.

Lemma accepts_dec P `{!Decision P} e m : m = (if decide P then Ret tt else Fail e) -> accepts P m.
Proof. intros ->. unfold accepts. case_decide; naive_solver. Qed.

Lemma validate_trace_spec m t : accepts (Forall (valid_trace m) (api_flatten t)) (ValidateTrace m t).
Proof.
  induction t as [c deps ins refs outs ps p rs IH] using ApiTrace_ind. cbn [api_flatten ValidateTrace].
  set (loop := fix loop (ds : list Api.Trace) : go () :=
         match ds with [] => Ret tt | d :: ds => _ ← ValidateTrace m d; loop ds end).
  assert (accepts (Forall (valid_trace m) (concat (map api_flatten deps))) (loop deps)) as Hl.
  { induction IH as [|d deps Hd _ IH]; [by left|]. cbn [map concat].
    eapply accepts_iff; [symmetry; apply Forall_app|]. by apply (accepts_bind _ _ _ (fun _ => loop deps)). }
  eapply accepts_iff; [symmetry; apply Forall_app|].
  apply (accepts_bind _ _ (loop deps) (fun _ => _)); [done|].
  eapply (accepts_iff (ins <> [] /\ Forall (fun v => is_Some (m !! v)) ins /\ Forall (fun v => is_Some (m !! v)) refs)).
  { rewrite Forall_singleton. unfold valid_trace. cbn [Api.InputObjectVersionIDs Api.InputReferenceVersionIDs].
    by rewrite Forall_app. }
  apply (accepts_bind _ _ _ (fun _ => _)); [|apply (accepts_bind _ _ _ (fun _ => _))];
    eapply accepts_dec; [|apply check_mappings_spec..].
  unfold guard_fail. case_bool_decide; case_decide; done.
Qed.

Lemma validate_spec tx : accepts (Forall (valid_trace (Api.Mappings tx)) (api_traces tx)) (Validate tx).
Proof.
  unfold Validate, api_traces. induction (Api.Traces tx) as [|t ts IH]; [by left|]. cbn [map concat Validate_loop].
  eapply accepts_iff; [symmetry; apply Forall_app|].
  apply (accepts_bind _ _ _ (fun _ => _)); [apply validate_trace_spec|done].
Qed.

(** ** Translation *)

(** What one trace is translated to, apart from its dependencies. *)
Definition translates (m : gmap (list Z) bytes) (a : Api.Trace) (t : Trace) : Prop :=
  let 'Api.MkTrace contract _ ins refs outs params proc rets := a in
  ContractID t = contract /\ Procedure t = proc /\ OutputObjects t = outs /\ Parameters t = params /\
  Returns t = rets /\
  InputObjectVersionIDs t = fst ∘ DecodeString <$> ins /\
  InputReferenceVersionIDs t = fst ∘ DecodeString <$> refs /\
  Forall2 (fun v x => exists o, m !! v = Some o /\ x = jsonString o) ins (InputObjects t) /\
  Forall2 (fun v x => exists o, m !! v = Some o /\ x = jsonString o) refs (InputReferences t).

Lemma mapped_all m vs : Forall (fun v => is_Some (m !! v)) vs ->
  Forall2 (fun v x => exists o, m !! v = Some o /\ x = jsonString o) vs (mapped m <$> vs).
Proof.
  intros Hv. apply Forall2_fmap_r. eapply Forall_Forall2_diag, Forall_impl; [done|].
  intros v [o Ho]. exists o. split; [done|]. unfold mapped. by rewrite Ho.
Qed.

Lemma translate_trace m t : Forall (valid_trace m) (api_flatten t) ->
  Forall2 (translates m) (api_flatten t) (flatten (trace_ToSBAC m t)).
Proof.
  induction t as [c deps ins refs outs ps p rs IH] using ApiTrace_ind. cbn [api_flatten trace_ToSBAC flatten].
  intros [Hd Ht]%Forall_app. apply Forall2_app.
  - clear Ht. induction IH as [|d deps Hd' _ IHd]; [constructor|]. cbn [map concat] in *.
    apply Forall_app in Hd as [Hd1 Hd2]. apply Forall2_app; [by apply Hd'|by apply IHd].
  - apply Forall_singleton in Ht as [_ Hm]. cbn in Hm. apply Forall_app in Hm as [Hi Hr].
    constructor; [|constructor]. split_and!; try done; by apply mapped_all.
Qed.

(** A posted transaction is accepted exactly when every trace, the
    dependencies included, has an input object and names only versions for which
    an object is posted; otherwise it is an error.  The accepted transaction
    has the same traces in the same nesting, with the version IDs decoded from
    base64 and the objects as JSON strings, one for each version ID. *)
Theorem ToSBAC_spec tx :
  match ToSBAC Validate tx with
  | Ret stx => Forall (valid_trace (Api.Mappings tx)) (api_traces tx) /\
      Forall2 (translates (Api.Mappings tx)) (api_traces tx) (all_traces stx) /\
      length (Traces stx) = length (Api.Traces tx)
  | Fail _ => ~ Forall (valid_trace (Api.Mappings tx)) (api_traces tx)
  | Crash => False
  end.
Proof.
  unfold ToSBAC. destruct (validate_spec tx) as [[Hv ->]|[Hv [e ->]]]; cbn [mbind go_bind]; [|done].
  split; [done|]. split; [|apply length_fmap]. unfold all_traces, api_traces in *. cbn [Traces].
  induction (Api.Traces tx) as [|t ts IH]; [constructor|]. cbn [map concat fmap list_fmap] in *.
  apply Forall_app in Hv as [Ht Hts]. apply Forall2_app; [by apply translate_trace|by apply IH].
Qed.

(** ** The shards of a transaction *)

Section collect.
Context `{NT : NetTopology Topo} (top : Topo).

(** The version IDs that a trace names. *)
Definition versions (t : Trace) : list bytes := InputObjectVersionIDs t ++ InputReferenceVersionIDs t.

(** The shards of some version IDs. *)
Definition shard_in (vids : list bytes) (s : uint64) : Prop :=
  exists v, v ∈ vids /\ ShardForVersionID v top = Ret s.

(** [m] adds the shards of [vids] to its argument. *)
Definition collects (vids : list bytes) (m : gset uint64 -> go (gset uint64)) : Prop :=
  forall acc, exists acc', m acc = Ret acc' /\ forall s, s ∈ acc' <-> s ∈ acc \/ shard_in vids s.

Lemma collects_nil : collects [] (fun acc => Ret acc).
Proof. intros acc. exists acc. split; [done|]. intros s. unfold shard_in. set_solver. Qed.

Lemma collects_app xs ys m k : collects xs m -> collects ys k -> collects (xs ++ ys) (fun acc => a ← m acc; k a).
Proof.
  intros Hm Hk acc. destruct (Hm acc) as (a & -> & Ha). destruct (Hk a) as (b & Hb & Hab). exists b. split; [done|].
  intros s. rewrite Hab, Ha. unfold shard_in. set_solver.
Qed.

Lemma collects_ext xs ys m k : (forall v, v ∈ xs <-> v ∈ ys) -> (forall acc, m acc = k acc) -> collects xs m -> collects ys k.
Proof.
  intros Hv Hm Hc acc. destruct (Hc acc) as (a & Ha & Hin). exists a. rewrite <-Hm. split; [done|].
  intros s. rewrite Hin. unfold shard_in. set_solver.
Qed.

End collect.

Section shards.
Context `{NT : NetTopology Topo, !NetTopologyOk Topo valid shards} (top : Topo) (Hvalid : valid top).

Lemma shards_of_collects vids : collects top vids (shards_of top vids).
Proof.
  induction vids as [|v vids IH]; [apply collects_nil|]. intros acc. cbn [shards_of].
  destruct (key_shard top v Hvalid) as (s & Hs & _). rewrite Hs. cbn [mbind go_bind].
  destruct (IH ({[s]} ∪ acc)) as (a & Ha & Hin). exists a. split; [done|]. intros s'. rewrite Hin. unfold shard_in.
  split.
  - intros [[->%elem_of_singleton|Hacc]%elem_of_union|(v' & Hv & Hs')]; [right|by left|right]; eexists; (split; [|done]); set_solver.
  - intros [Hacc|(v' & [->|Hv]%elem_of_cons & Hs')]; [set_solver| |right; eauto].
    left. rewrite Hs in Hs'. injection Hs' as ->. set_solver.
Qed.

Lemma shardsForTrace_collects t : collects top (flatten t ≫= versions) (shardsForTrace top t).
Proof.
  induction t as [[c p ins refs outs ps rs deps objs robjs] IH] using Trace_rec'. cbn [flatten]. cbn [Dependencies] in IH.
  set (loop := fix loop (ts : list Trace) (acc : gset uint64) : go (gset uint64) :=
     match ts with [] => Ret acc | t :: ts => a ← shardsForTrace top t acc; loop ts a end).
  assert (collects top (concat (map flatten deps) ≫= versions) (loop deps)) as Hl.
  { apply Forall_forall in IH. induction IH as [|d deps Hd _ IHd]; [apply collects_nil|]. cbn [map concat].
    eapply collects_ext; [|done|apply collects_app; [exact Hd|exact IHd]]. intros v. by rewrite bind_app. }
  pose proof (collects_app top _ _ _ _ (shards_of_collects ins)
                (collects_app top _ _ _ _ (shards_of_collects refs) Hl)) as Hc.
  eapply collects_ext; [|done|exact Hc].
  intros v. rewrite bind_app, !elem_of_app. cbn. rewrite app_nil_r. unfold versions. cbn. rewrite elem_of_app. tauto.
Qed.

Lemma shardsForTx_ok tx : exists l, shardsForTx top tx = Ret l /\ NoDup l /\
  forall s, s ∈ l <-> shard_in top (all_traces tx ≫= versions) s.
Proof.
  assert (collects top (all_traces tx ≫= versions) (fun acc => shardsForTraces top acc (Traces tx))) as Hc.
  { unfold all_traces. induction (Traces tx) as [|t ts IH]; [apply collects_nil|]. cbn [map concat].
    eapply collects_ext; [|done|apply collects_app; [apply shardsForTrace_collects|exact IH]]. intros v. by rewrite bind_app. }
  destruct (Hc ∅) as (ids & Hids & Hin). exists (elements ids). unfold shardsForTx. rewrite Hids. split; [done|].
  split; [apply NoDup_elements|]. intros s. rewrite elem_of_elements, Hin. set_solver.
Qed.
End shards.
