(* ===== verification/Clients.v ===== *)
(** * Clients: requests to the services of other nodes

    Model of [src/checker/client] and [src/sbac/client].  A client sends a
    request to some nodes and waits until the callback has been called for each
    of them: [answers] has the node and the payload of every call, in the order
    of the calls.  That each callback is called at most once is shown in
    [ConnsProps]. *)
From S2P Require Import Prelude Codec Database Topology SbacStore SbacTypes Sbac Checker SbacService SbacApi Base64.
From S2P Require Import SbacApiProps SbacExample.

(** The answers of the nodes, each one once. *)
Definition answered (nodes : list uint64) (answers : list (uint64 * bytes)) : Prop := fst <$> answers ≡ₚ nodes.

(** A callback that decodes its message with [proto.Unmarshal] and gives up on an
    error; [f] is its effect on the variables it shares. *)
Definition on_answer {A R} `{Proto A} (f : uint64 -> A -> R -> R) (acc : R) (answer : uint64 * bytes) : go R :=
  match Unmarshal answer.2 with
  | Ret res => Ret (f answer.1 res acc)
  | Fail _ => Ret acc
  | Crash => Crash
  end.

Fixpoint gather {A R} `{Proto A} (f : uint64 -> A -> R -> R) (acc : R) (answers : list (uint64 * bytes)) : go R :=
  match answers with
  | [] => Ret acc
  | a :: answers => acc ← on_answer f acc a; gather f acc answers
  end.

(** ** The client of the checkers *)

Section checker_client.
Context `{NT : NetTopology Topo} {PQ : Proto CheckRequest} {PP : Proto CheckResponse} (top : Topo).

Fixpoint tx_shards (ts : list Trace) (shardIDs : gset uint64) : go (gset uint64) :=
  match ts with
  | [] => Ret shardIDs
  | trace :: ts =>
      shardIDs ← shards_of top (InputObjectVersionIDs trace) shardIDs;
      shardIDs ← shards_of top (InputReferenceVersionIDs trace) shardIDs;
      tx_shards ts shardIDs
  end.

Fixpoint shard_members (shards : list uint64) : go (list uint64) :=
  match shards with
  | [] => Ret []
  | k :: shards => ns ← NodesInShard k top; rest ← shard_members shards; Ret (ns ++ rest)
  end.

Definition nodesForTx (t : Transaction) : go (list uint64) :=
  shardIDs ← tx_shards (Traces t) ∅; shard_members (elements shardIDs).

(** The request, and what the answers make of it. *)
Definition check_request (t : Transaction) : go Checker.Message :=
  txbytes ← Marshal (MkCheckRequest (Some t)); Ret (Checker.MkMessage 0 Opcode_CHECK txbytes).

Definition clt_check (t : Transaction) (answers : list (uint64 * bytes)) : go (gmap uint64 bytes) :=
  _ ← check_request t;
  gather (fun n res evidences => if cp_Ok res then <[n := cp_Signature res]> evidences else evidences) ∅ answers.

Definition clt_Check (tx : Transaction) (answers : list (uint64 * bytes)) : go (gmap uint64 bytes) :=
  nodes ← nodesForTx tx;
  evidences ← clt_check tx answers;
  if decide (size evidences = length nodes) then Ret evidences
  else Fail "not enough evidences returned by nodes".
End checker_client.

(** ** The client of the transaction service *)

Section sbac_client.
Context `{NT : NetTopology Topo} (top : Topo) (sha512_256 : bytes -> bytes).
Context {PAR : Proto AddTransactionRequest} {PAS : Proto AddTransactionResponse}.
Context {PQ : Proto QueryObjectRequest} {PQR : Proto QueryObjectResponse}.
Context {PCR : Proto CreateObjectRequest} {PCS : Proto CreateObjectResponse}.
Context {PCRs : Proto CreateObjectsRequest} {PCSs : Proto CreateObjectsResponse}.
Context {PSR : Proto StatesReportResponse}.

(** The objects of the last answer. *)
Definition clt_AddTransaction (t : Transaction) (evidences : gmap uint64 bytes) (answers : list (uint64 * bytes))
    : go (list Object) :=
  _ ← Marshal (MkAddTransactionRequest (Some t) evidences);
  gather (fun _ res _ => as_Objects res) [] answers.

(** The nodes of a request about the object with a version ID. *)
Definition nodesFor (vid : bytes) : go (list uint64) :=
  sh ← ShardForVersionID vid top; NodesInShard sh top.

Definition Query (vid : bytes) (answers : list (uint64 * bytes)) : go (list Object) :=
  _ ← nodesFor vid;
  _ ← Marshal (MkQueryObjectRequest (Some vid));
  gather (fun _ res objs => match qr_Object res with Some o => objs ++ [o] | None => objs end) [] answers.

(** The error in a response is not looked at. *)
Definition Create (obj : bytes) (answers : list (uint64 * bytes)) : go (list bytes) :=
  let key := sha512_256 obj in
  nodes ← nodesFor key;
  _ ← Marshal (MkCreateObjectRequest obj);
  objs ← gather (fun _ res objs => objs ++ [cs_ID res]) [] answers;
  if decide (length objs <> length nodes) then Fail "object not created in all nodes" else Ret objs.

(** All nodes of the network. *)
Definition all_nodes : list uint64 := (fun i => u64 (Z.of_nat i + 1)) <$> seq 0 (Z.to_nat (TotalNodes top)).

Definition CreateObjects (objs : list bytes) (answers : list (uint64 * bytes)) : go (list (list bytes)) :=
  _ ← Marshal (MkCreateObjectsRequest objs);
  gather (fun _ res ids => ids ++ [cs_IDs res]) [] answers.

(** [States] does not wait for the answer: [early] is what has arrived when it
    returns. *)
Definition clt_States (early : option bytes) : go StatesReportResponse :=
  match early with
  | Some payload =>
      match Unmarshal payload with Ret res => Ret res | Fail _ => Ret (MkStatesReportResponse [] 0) | Crash => Crash end
  | None => Ret (MkStatesReportResponse [] 0)
  end.
End sbac_client.

(** * Evidences, objects and the services behind the clients

    The clients composed with the services that answer them. *)

(** ** The nodes that check a transaction *)

Section nodes.
Context `{NT : NetTopology Topo, !NetTopologyOk Topo valid shards} (top : Topo) (Hvalid : valid top).

Lemma tx_shards_collects ts : collects top (ts ≫= versions) (tx_shards top ts).
Proof using All.
  induction ts as [|t ts IH]; [apply collects_nil|].
  pose proof (collects_app top _ _ _ _ (shards_of_collects top Hvalid (InputObjectVersionIDs t))
                (collects_app top _ _ _ _ (shards_of_collects top Hvalid (InputReferenceVersionIDs t)) IH)) as Hc.
  eapply collects_ext; [|done|exact Hc]. intros v. rewrite bind_cons. unfold versions at 2.
  rewrite !elem_of_app. tauto.
Qed.

Lemma shard_in_range vids s : shard_in top vids s -> 1 <= s <= shards top.
Proof using All.
  intros (v & _ & Hv). destruct (key_shard top v Hvalid) as (s' & Hs & Hr). rewrite Hv in Hs. by injection Hs as ->.
Qed.

Lemma shard_members_ok ss : NoDup ss -> Forall (fun s => 1 <= s <= shards top) ss ->
  exists ns, shard_members top ss = Ret ns /\ NoDup ns /\
    forall n, n ∈ ns <-> 1 <= n <= TotalNodes top /\ exists s, s ∈ ss /\ ShardForNode n top = Ret s.
Proof using All.
  intros Hn Hr. induction Hr as [|s ss Hs Hr IH].
  { exists []. split; [done|]. split; [constructor|]. set_solver. }
  apply NoDup_cons in Hn as [Hnew Hn]. destruct (IH Hn) as (ns & Hns & Hnd & Hin).
  destruct (shard_nodes top s Hvalid Hs) as (ms & Hms & Hmd & _ & Hmin).
  exists (ms ++ ns). cbn [shard_members]. rewrite Hms. cbn [mbind go_bind]. rewrite Hns. split; [done|]. split.
  - apply NoDup_app. split_and!; [done| |done]. intros n Hnm (_ & s' & Hs' & Hsf)%Hin. apply Hmin in Hnm as [_ Hsn].
    rewrite Hsn in Hsf. injection Hsf as <-. done.
  - intros n. rewrite elem_of_app, Hmin, Hin. split.
    + intros [[Hr' Hs']|(Hr' & s' & Hs' & Hsf)]; (split; [done|]); eexists; (split; [|done]); set_solver.
    + intros (Hr' & s' & [->|Hs']%elem_of_cons & Hsf); [by left|right; eauto].
Qed.

Lemma nodesForTx_ok tx : exists ns, nodesForTx top tx = Ret ns /\ NoDup ns /\
  forall n, n ∈ ns <-> 1 <= n <= TotalNodes top /\
    exists s, ShardForNode n top = Ret s /\ shard_in top (Traces tx ≫= versions) s.
Proof using All.
  destruct (tx_shards_collects (Traces tx) ∅) as (ids & Hids & Hin).
  destruct (shard_members_ok (elements ids)) as (ns & Hns & Hnd & Hn); [apply NoDup_elements| |].
  { apply Forall_forall. intros s [Hs|Hs]%elem_of_elements%Hin; [set_solver|by eapply shard_in_range]. }
  exists ns. unfold nodesForTx. rewrite Hids. cbn [mbind go_bind]. split; [done|]. split; [done|]. intros n. rewrite Hn.
  split; intros (Hr & s & H1 & H2); (split; [done|]); exists s.
  - apply elem_of_elements, Hin in H1 as [H1|H1]; [set_solver|done].
  - split; [|done]. apply elem_of_elements, Hin. by right.
Qed.
End nodes.

(** ** Evidences *)

Lemma gather_evidences `{PP : Proto CheckResponse} (ok : uint64 -> bool) (sig : uint64 -> bytes) answers ev :
  NoDup answers.*1 -> (forall a, a ∈ answers -> ev !! a.1 = None) ->
  (forall a, a ∈ answers -> Unmarshal a.2 = Ret (MkCheckResponse (ok a.1) (sig a.1))) ->
  exists ev', gather (fun n res (ev : gmap uint64 bytes) => if cp_Ok res then <[n := cp_Signature res]> ev else ev) ev answers
      = Ret ev' /\
    size ev' = (size ev + length (filter (fun n => ok n = true) answers.*1))%nat /\
    forall n, ev' !! n = if decide (n ∈ answers.*1 /\ ok n = true) then Some (sig n) else ev !! n.
Proof.
  revert ev. induction answers as [|[n b] answers IH]; intros ev Hnd Hnew Hun; cbn [gather].
  { exists ev. split; [done|]. cbn. split; [lia|]. intros n. by rewrite decide_False by set_solver. }
  unfold on_answer. rewrite (Hun (n, b)) by left. cbn [fst snd cp_Ok cp_Signature mbind go_bind].
  cbn in Hnd. apply NoDup_cons in Hnd as [Hn Hnd]. pose proof (Hnew (n, b) ltac:(left)) as Hen. cbn in Hen.
  destruct (IH (if ok n then <[n := sig n]> ev else ev)) as (ev' & Hg & Hs & Hl); [done| | |].
  { intros a Ha. assert (a.1 <> n) as Hne by (intros <-; by apply Hn, list_elem_of_fmap_2).
    destruct (ok n); rewrite ?lookup_insert_ne by done; apply Hnew; by right. }
  { intros a Ha. apply Hun. by right. }
  exists ev'. split; [done|]. cbn [fmap list_fmap fst]. split.
  - rewrite Hs, filter_cons. destruct (ok n) eqn:Eo.
    + rewrite map_size_insert_None by done. rewrite decide_True by done. cbn. lia.
    + rewrite decide_False by done. done.
  - intros m. rewrite Hl. destruct (decide (m = n)) as [->|Hne].
    + rewrite decide_False by tauto. destruct (ok n) eqn:Eo; [rewrite lookup_insert_eq|].
      * rewrite decide_True; [done|]. split; [left|done].
      * rewrite decide_False; [done|]. by intros [_ ?].
    + destruct (ok n); rewrite ?lookup_insert_ne by done;
        (destruct (decide (m ∈ answers.*1 /\ ok m = true)) as [Hd|Hd];
         [rewrite decide_True by (rewrite elem_of_cons; tauto)
         |rewrite decide_False by (rewrite elem_of_cons; tauto)]); done.
Qed.

Lemma all_accepted (ok : uint64 -> bool) (ns : list uint64) :
  length (filter (fun n => ok n = true) ns) = length ns <-> forall n, n ∈ ns -> ok n = true.
Proof.
  induction ns as [|n ns IH]; [set_solver|]. rewrite filter_cons. pose proof (length_filter (fun n => ok n = true) ns).
  destruct (ok n) eqn:Eo.
  - rewrite decide_True by done. cbn. split.
    + intros Hl m [->|Hm]%elem_of_cons; [done|]. apply IH; [lia|done].
    + intros Hall. f_equal. apply IH. set_solver.
  - rewrite decide_False by done. cbn. split; [lia|]. intros Hall. by rewrite (Hall n) in Eo by left.
Qed.

Section evidence.
Context `{NT : NetTopology Topo, !NetTopologyOk Topo valid shards} (top : Topo) (Hvalid : valid top).
Context {PT : Proto Transaction} {PQ : Proto CheckRequest} {PP : Proto CheckResponse}.
Context `{!ProtoOk CheckRequest, !ProtoOk CheckResponse}.
(** The checkers and the key of every node. *)
Context (checkers : uint64 -> checkersMap) (Sign : uint64 -> bytes -> bytes).

(** What the checker service of the node replies to the request. *)
Definition replies (tx : Transaction) (answer : uint64 * bytes) : Prop :=
  exists req id resp, check_request tx = Ret req /\
    Checker.Handle (checkers answer.1) (Sign answer.1) (Checker.MkMessage id (Checker.m_Opcode req) (Checker.m_Payload req))
      = Ret resp /\ answer.2 = Checker.m_Payload resp.

Lemma replies_response tx answer : replies tx answer -> exists ok b,
  Check (checkers answer.1) tx = Ret ok /\ Marshal tx = Ret b /\
  Unmarshal answer.2 = Ret (MkCheckResponse ok (Sign answer.1 b)).
Proof using All.
  intros (req & id & resp & Hreq & Hh & ->). unfold check_request in Hreq.
  apply go_bind_Ret in Hreq as (txb & Hm & [= <-]). unfold Checker.Handle in Hh.
  cbn [Checker.m_Opcode Checker.m_Payload Checker.m_ID] in Hh. rewrite Z.eqb_refl in Hh. unfold Checker.check in Hh.
  rewrite (unmarshal_marshal _ _ Hm) in Hh. cbn [mbind go_bind cq_Tx or_crash] in Hh.
  apply go_bind_Ret in Hh as (ok & Hok & Hh). apply go_bind_Ret in Hh as (b & Hb & Hh).
  apply go_bind_Ret in Hh as (r & Hr & [= <-]). exists ok, b. split; [done|]. split; [done|].
  cbn [Checker.m_Payload]. by apply unmarshal_marshal.
Qed.

Lemma answers_functions tx b answers : NoDup answers.*1 -> Forall (replies tx) answers -> Marshal tx = Ret b ->
  exists ok : uint64 -> bool, forall a, a ∈ answers -> Check (checkers a.1) tx = Ret (ok a.1) /\
    Unmarshal a.2 = Ret (MkCheckResponse (ok a.1) (Sign a.1 b)).
Proof using All.
  intros _ Hr Hb. exists (fun n => match Check (checkers n) tx with Ret x => x | _ => false end).
  intros a Ha. rewrite Forall_forall in Hr. destruct (replies_response _ _ (Hr a Ha)) as (ok & b' & Hc & Hb' & Hu).
  rewrite Hc. split; [done|]. rewrite Hb in Hb'. by injection Hb' as ->.
Qed.

Lemma clt_Check_spec tx req b ns answers : check_request tx = Ret req -> Marshal tx = Ret b ->
  nodesForTx top tx = Ret ns -> NoDup ns -> answered ns answers -> Forall (replies tx) answers ->
  match clt_Check top tx answers with
  | Ret ev => (forall n, n ∈ ns -> Check (checkers n) tx = Ret true) /\
      forall n, ev !! n = if decide (n ∈ ns) then Some (Sign n b) else None
  | Fail _ => exists n, n ∈ ns /\ Check (checkers n) tx = Ret false
  | Crash => False
  end.
Proof using All.
  intros Hreq Hb Hns Hnd Ha Hr. assert (NoDup answers.*1) as Hnd' by (by rewrite Ha).
  destruct (answers_functions tx b answers Hnd' Hr Hb) as (ok & Hok).
  assert (forall n, n ∈ ns -> Check (checkers n) tx = Ret (ok n)) as Hchk.
  { intros n Hn. rewrite <-Ha in Hn. apply list_elem_of_fmap in Hn as (a & -> & Ha'). by apply Hok. }
  destruct (gather_evidences ok (fun n => Sign n b) answers ∅) as (ev & Hg & Hs & Hl); [done..|by intros; apply Hok|].
  unfold clt_Check, clt_check. rewrite Hns, Hreq. cbn [mbind go_bind]. rewrite Hg. cbn [mbind go_bind].
  rewrite map_size_empty, Nat.add_0_l, Ha in Hs. rewrite Hs. case_decide as Hd.
  - rewrite all_accepted in Hd. split; [intros n Hn; by rewrite Hchk, Hd|]. intros n. rewrite Hl, lookup_empty.
    assert (n ∈ answers.*1 <-> n ∈ ns) as Hm by (by rewrite Ha).
    destruct (decide (n ∈ ns)) as [Hn|Hn];
      [rewrite decide_True by (split; [by apply Hm|by apply Hd])|rewrite decide_False by tauto]; done.
  - destruct (decide (Exists (fun n => ok n = false) ns)) as [He|He].
    + apply Exists_exists in He as (n & Hn & Eo). exists n. split; [done|]. by rewrite Hchk, Eo.
    + exfalso. apply Hd, all_accepted. intros n Hn. destruct (ok n) eqn:Eo; [done|].
      exfalso. apply He, Exists_exists. eauto.
Qed.

(** C35. The evidences of a transaction: when the checker services of all nodes of
    the shards of its inputs and references have answered, the client returns
    evidences exactly when every one of them has checked the transaction
    successfully; they are the signatures of exactly these nodes. *)
Theorem evidence_from_all_checkers tx req b answers :
  check_request tx = Ret req -> Marshal tx = Ret b ->
  (forall ns, nodesForTx top tx = Ret ns -> answered ns answers) -> Forall (replies tx) answers ->
  exists ns, nodesForTx top tx = Ret ns /\
  (forall n, n ∈ ns <-> 1 <= n <= TotalNodes top /\
    exists s, ShardForNode n top = Ret s /\ shard_in top (Traces tx ≫= versions) s) /\
  match clt_Check top tx answers with
  | Ret ev => (forall n, n ∈ ns -> Check (checkers n) tx = Ret true) /\
      forall n, ev !! n = if decide (n ∈ ns) then Some (Sign n b) else None
  | Fail _ => exists n, n ∈ ns /\ Check (checkers n) tx = Ret false
  | Crash => False
  end.
Proof using All.
  intros Hreq Hb Ha Hr. destruct (nodesForTx_ok top Hvalid tx) as (ns & Hns & Hnd & Hin).
  exists ns. split; [done|]. split; [done|]. eapply clt_Check_spec; eauto.
Qed.
End evidence.

(** ** Shards that are involved through dependencies only *)

Section dependencies.
Context `{NT : NetTopology Topo, !NetTopologyOk Topo valid shards}.
Context {T : Type} {PT : Proto Transaction} {PC : Proto ConsensusTransaction}.
Context {PQ : Proto CheckRequest} {PP : Proto CheckResponse} `{!ProtoOk CheckRequest, !ProtoOk CheckResponse}.
Context (sha512_256 : bytes -> bytes) (Verify : bytes -> bytes -> bytes -> bool).
Context (checkers : uint64 -> checkersMap) (Sign : uint64 -> bytes -> bytes).

(** A shard whose objects only the dependencies of a transaction use: the HTTP
    interface sends the transaction to it, but the client of the checkers does
    not ask its nodes, so every one of them refuses the transaction for lack of
    evidence, whatever the other shards do with it. *)
Theorem dependency_shard_refuses (s : Config Topo) tx req b answers ev sh (w : World T) :
  valid (c_top s) -> check_request tx = Ret req -> Marshal tx = Ret b ->
  (forall ns, nodesForTx (c_top s) tx = Ret ns -> answered ns answers) ->
  Forall (replies checkers Sign tx) answers -> clt_Check (c_top s) tx answers = Ret ev ->
  ShardForNode (c_nodeID s) (c_top s) = Ret sh ->
  shard_in (c_top s) (all_traces tx ≫= versions) sh -> ~ shard_in (c_top s) (Traces tx ≫= versions) sh ->
  (exists l, shardsForTx (c_top s) tx = Ret l /\ sh ∈ l) /\
  sb_AddTransaction sha512_256 Verify s (Some tx) ev w = Errored "sbac: invalid evidences from nodes" w.
Proof using All.
  intros Hv Hreq Hb Ha Hr Hc Hsh Hall Hnot. split.
  { destruct (shardsForTx_ok (c_top s) Hv tx) as (l & Hl & _ & Hin). exists l. split; [done|]. by apply Hin. }
  destruct (nodesForTx_ok (c_top s) Hv tx) as (ns & Hns & Hnd & Hin).
  pose proof (clt_Check_spec (c_top s) Hv checkers Sign tx req b ns answers Hreq Hb Hns Hnd (Ha ns Hns) Hr) as Hspec.
  rewrite Hc in Hspec. destruct Hspec as [_ Hev]. specialize (Hev (c_nodeID s)).
  rewrite decide_False in Hev.
  2: { intros (_ & s' & Hs' & Hin')%Hin. rewrite Hsh in Hs'. by injection Hs' as <-. }
  unfold sb_AddTransaction, verifyEvidenceSignature. rewrite Hev. done.
Qed.
End dependencies.

(** ** Creating objects *)

Section create.
Context `{NT : NetTopology Topo, !NetTopologyOk Topo valid shards} (top : Topo) (Hvalid : valid top).
Context {PCR : Proto CreateObjectRequest} {PCS : Proto CreateObjectResponse}.
Context (sha512_256 : bytes -> bytes).

Lemma gather_ids (ids : list bytes) (answers : list (uint64 * bytes)) acc :
  Forall2 (fun a id => exists e, Unmarshal a.2 = Ret (MkCreateObjectResponse id e)) answers ids ->
  gather (fun _ res objs => objs ++ [cs_ID res]) acc answers = Ret (acc ++ ids).
Proof using Type.
  intros H. revert acc. induction H as [|a id answers ids [e Ha] _ IH]; intros acc; cbn [gather].
  { by rewrite app_nil_r. }
  unfold on_answer. rewrite Ha. cbn [mbind go_bind cs_ID]. by rewrite IH, <-app_assoc.
Qed.

Lemma nodesFor_ok vid : exists ns, nodesFor top vid = Ret ns /\ Z.of_nat (length ns) = ShardSize top.
Proof using All.
  unfold nodesFor. destruct (key_shard top vid Hvalid) as (sh & -> & Hr). cbn [mbind go_bind].
  destruct (shard_nodes top sh Hvalid Hr) as (ns & -> & _ & Hl & _). eauto.
Qed.

(** Creating an object through the HTTP interface: with answers of all nodes
    of its shard the result is the common identifier with status 200, or status
    500 when the identifiers differ.  The errors that the nodes report are not
    looked at: when every node refuses to create the object, the result is the
    empty identifier with status 200. *)
Theorem create_object_spec obj req ids answers : 0 < ShardSize top ->
  Marshal (MkCreateObjectRequest obj) = Ret req ->
  (forall ns, nodesFor top (sha512_256 obj) = Ret ns -> answered ns answers) ->
  Forall2 (fun a id => exists e, Unmarshal a.2 = Ret (MkCreateObjectResponse id e)) answers ids ->
  let result := CreateObject (Ret obj) (fun b => Create top sha512_256 b answers) in
  (forall id, Forall (eq id) ids -> result = Ret (EncodeToString id, StatusOK, false)) /\
  ((exists x y, x ∈ ids /\ y ∈ ids /\ x <> y) -> result = Ret ([], StatusInternalServerError, false)).
Proof using All.
  intros Hsz Hreq Ha Hf. cbv zeta. destruct (nodesFor_ok (sha512_256 obj)) as (ns & Hns & Hlen).
  assert (length ids = length ns) as Hl.
  { rewrite <-(Forall2_length _ _ _ Hf), <-(length_fmap fst). apply Permutation_length. by apply Ha. }
  unfold CreateObject, Create. cbv zeta. rewrite Hns, Hreq. cbn [mbind go_bind]. rewrite (gather_ids ids answers [] Hf).
  cbn [app mbind go_bind]. rewrite decide_False by lia. destruct ids as [|id0 ids]; [simpl in Hl; lia|].
  destruct (forallb _ (id0 :: ids)) eqn:E.
  - rewrite forallb_forall in E. split.
    + intros id Hid. apply Forall_cons in Hid as [-> _]. done.
    + intros (x & y & Hx & Hy & Hne). destruct Hne. apply list_elem_of_In in Hx, Hy.
      pose proof (E x Hx) as Ex. pose proof (E y Hy) as Ey. apply bool_decide_eq_true in Ex, Ey. congruence.
  - split; [|done]. intros id Hid. exfalso. apply not_true_iff_false in E. apply E, forallb_forall.
    intros v Hv. apply list_elem_of_In in Hv. apply Forall_cons in Hid as [<- Hid]. apply bool_decide_eq_true.
    apply elem_of_cons in Hv as [->|Hv]; [done|]. rewrite Forall_forall in Hid. symmetry. by apply Hid.
Qed.
End create.

(** * Concrete requests to other nodes

    The topology of [SbacExample], checkers that accept everything, and
    serialisers that know a few values. *)

#[export] Instance OutputObject_eq_dec : EqDecision OutputObject.
Proof. solve_decision. Defined.
#[export] Instance Trace_eq_dec : EqDecision Trace.
Proof.
  refine (fix go (t1 t2 : Trace) : Decision (t1 = t2) :=
    let _ : EqDecision Trace := @go in
    match t1, t2 with
    | MkTrace a1 b1 c1 d1 e1 f1 g1 h1 i1 j1, MkTrace a2 b2 c2 d2 e2 f2 g2 h2 i2 j2 =>
        cast_if_and3 (decide ((a1, b1, c1, d1) = (a2, b2, c2, d2))) (decide ((e1, f1, g1) = (e2, f2, g2)))
          (decide ((h1, i1, j1) = (h2, i2, j2)))
    end); congruence.
Defined.
#[export] Instance Transaction_eq_dec : EqDecision Transaction.
Proof. solve_decision. Defined.
#[export] Instance CheckRequest_eq_dec : EqDecision CheckRequest.
Proof. solve_decision. Defined.
#[export] Instance CheckResponse_eq_dec : EqDecision CheckResponse.
Proof. solve_decision. Defined.
#[export] Instance CreateObjectRequest_eq_dec : EqDecision CreateObjectRequest.
Proof. solve_decision. Defined.
#[export] Instance CreateObjectResponse_eq_dec : EqDecision CreateObjectResponse.
Proof. solve_decision. Defined.

(** A serialiser of some values. *)
Definition table_Marshal {A} `{EqDecision A} (xs : list A) (x : A) : go bytes :=
  match list_find (fun y => y = x) xs with Some (i, _) => Ret [Z.of_nat i] | None => Fail "unknown" end.
Definition table_Unmarshal {A} (xs : list A) (b : bytes) : go A :=
  match b with
  | [i] => match xs !! Z.to_nat i with Some x => Ret x | None => Fail "unknown" end
  | _ => Fail "unknown"
  end.

Lemma table_ok {A} `{EqDecision A} (xs : list A) x b : table_Marshal xs x = Ret b -> table_Unmarshal xs b = Ret x.
Proof.
  unfold table_Marshal. destruct (list_find _ xs) as [[i y]|] eqn:E; [|done].
  apply list_find_Some in E as (Hi & -> & _). intros [= <-]. cbn. by rewrite Nat2Z.id, Hi.
Qed.

(** A trace on an object of shard 1 that depends on one on an object of shard 2. *)
Definition dep_tx : Transaction :=
  MkTransaction [MkTrace [1] [2] [obj1] [] [MkOutputObject [] [4]] [] [] [ex_trace [obj2]] [[3]] []].

Definition acceptAll : checkersMap := {[ [1] := {[ [2] := MkChecker [1] [2] (fun _ _ _ _ _ _ => true) ]} ]}.
Definition all_checkers (_ : uint64) : checkersMap := acceptAll.
Definition node_sign (n : uint64) (_ : bytes) : bytes := [n].

#[export] Instance Request_Proto : Proto CheckRequest := {|
  Marshal := table_Marshal [MkCheckRequest (Some dep_tx)];
  Unmarshal := table_Unmarshal [MkCheckRequest (Some dep_tx)] |}.
#[export] Instance Request_ProtoOk : ProtoOk CheckRequest.
Proof. intros x b. apply table_ok. Qed.

Definition responses : list CheckResponse := (fun n => MkCheckResponse true [n]) <$> [1; 3; 5; 7].
#[export] Instance Response_Proto : Proto CheckResponse := {|
  Marshal := table_Marshal responses; Unmarshal := table_Unmarshal responses |}.
#[export] Instance Response_ProtoOk : ProtoOk CheckResponse.
Proof. intros x b. apply table_ok. Qed.

Definition dep_answers : list (uint64 * bytes) := [(1, [0]); (3, [1]); (5, [2]); (7, [3])].

Lemma dep_replies : Forall (replies all_checkers node_sign dep_tx) dep_answers.
Proof.
  repeat (constructor; [eexists _, 9, _; split; [vm_compute; reflexivity|]; split; vm_compute; reflexivity|]).
  constructor.
Qed.

Lemma dep_answered ns : nodesForTx ex_top dep_tx = Ret ns -> answered ns dep_answers.
Proof. vm_compute. intros [= <-]. reflexivity. Qed.

Definition dep_evidences : gmap uint64 bytes := list_to_map [(1, [1]); (3, [3]); (5, [5]); (7, [7])].
Lemma dep_checked : clt_Check ex_top dep_tx dep_answers = Ret dep_evidences.
Proof. vm_compute. reflexivity. Qed.

Lemma ex_valid : topology_ok ex_top.
Proof. split_and!; simpl; lia. Qed.

Lemma evidence_from_all_checkers_witness : exists ns, nodesForTx ex_top dep_tx = Ret ns /\
  forall n, dep_evidences !! n = if decide (n ∈ ns) then Some (node_sign n [1]) else None.
Proof.
  destruct (evidence_from_all_checkers (NT := ex_nt) (NetTopologyOk0 := Topology_ok ex_sum) ex_top ex_valid all_checkers node_sign
    dep_tx (Checker.MkMessage 0 Opcode_CHECK [0]) [1] dep_answers) as (ns & Hns & _ & H);
    [reflexivity|reflexivity|apply dep_answered|apply dep_replies|].
  exists ns. split; [exact Hns|]. rewrite dep_checked in H. apply H.
Defined.

(** Node 2 belongs to shard 2, which only the dependency uses. *)
Definition node2 : Config Topology := MkConfig 2 2 4 ex_top.

Lemma dependency_shard_refuses_witness :
  sb_AddTransaction (PT := ex_proto _) ex_sha ex_verify node2 (Some dep_tx) dep_evidences (ex_world ACTIVE) =
  Errored "sbac: invalid evidences from nodes" (ex_world ACTIVE).
Proof.
  destruct (dependency_shard_refuses (NT := ex_nt) (NetTopologyOk0 := Topology_ok ex_sum) ex_sha ex_verify all_checkers node_sign node2
    dep_tx (Checker.MkMessage 0 Opcode_CHECK [0]) [1] dep_answers dep_evidences 2 (ex_world ACTIVE)) as [_ H];
    [apply ex_valid|reflexivity|reflexivity|apply dep_answered|apply dep_replies|apply dep_checked|reflexivity| | |exact H].
  - exists obj2. split; [|reflexivity]. vm_compute. left.
  - intros (v & Hv & Hs). vm_compute in Hv. apply list_elem_of_singleton in Hv as ->. vm_compute in Hs. discriminate Hs.
Defined.

(** Four nodes that have the object already. *)
Definition create_answers : list (uint64 * bytes) := (fun n => (n, [0])) <$> [1; 3; 5; 7].
#[export] Instance Create_Proto : Proto CreateObjectResponse := {|
  Marshal := table_Marshal [MkCreateObjectResponse [] "object already exists"];
  Unmarshal := table_Unmarshal [MkCreateObjectResponse [] "object already exists"] |}.

Lemma create_object_spec_witness :
  CreateObject (Ret [9]) (fun b => Create ex_top ex_sha b create_answers) = Ret ([], StatusOK, false).
Proof.
  destruct (create_object_spec (NT := ex_nt) (NetTopologyOk0 := Topology_ok ex_sum) ex_top ex_valid ex_sha [9] [1]
    (replicate 4 []) create_answers) as [H _]; [reflexivity|reflexivity| | |].
  - intros ns. vm_compute. intros [= <-]. reflexivity.
  - repeat (constructor; [by eexists|]). constructor.
  - apply (H []). repeat constructor.
Defined.
