(* ===== verification/Traced.v ===== *)
(** * Traced: computations that record the calls they make

    A computation of a Go function whose interaction with other packages and
    systems matters: the calls in the order in which they are made, and the
    result. *)
From S2P Require Import Prelude.

Definition traced (C A : Type) : Type := list C * go A.
Definition rn_ret {C A} (x : A) : traced C A := ([], Ret x).
Definition rn_bind {C A B} (m : traced C A) (f : A -> traced C B) : traced C B :=
  match m with
  | (tr, Ret x) => let '(tr', r) := f x in (tr ++ tr', r)
  | (tr, Fail e) => (tr, Fail e)
  | (tr, Crash) => (tr, Crash)
  end.
Notation "'let*' x ':=' m 'in' f" := (rn_bind m (fun x => f)) (at level 200, x pattern, right associativity).

(** A computation without calls, and a call that always succeeds. *)
Definition pure {C A} (m : go A) : traced C A := ([], m).
Definition log_call {C} (c : C) : traced C () := ([c], Ret tt).
Definition when {C} (b : bool) (m : traced C ()) : traced C () := if b then m else rn_ret tt.

Lemma rn_bind_Ret {C A B} (m : traced C A) (f : A -> traced C B) tr y : rn_bind m f = (tr, Ret y) ->
  exists tr1 tr2 x, m = (tr1, Ret x) /\ f x = (tr2, Ret y) /\ tr = tr1 ++ tr2.
Proof.
  destruct m as [tr1 [x|e|]]; cbn; [|done..]. destruct (f x) as [tr2 r] eqn:E. intros [= <- ->].
  by exists tr1, tr2, x.
Qed.

Lemma rn_bind_Fail {C A B} (m : traced C A) (f : A -> traced C B) tr e : rn_bind m f = (tr, Fail e) ->
  m = (tr, Fail e) \/ exists tr1 tr2 x, m = (tr1, Ret x) /\ f x = (tr2, Fail e) /\ tr = tr1 ++ tr2.
Proof.
  destruct m as [tr1 [x|e'|]]; cbn; [|naive_solver..]. destruct (f x) as [tr2 r] eqn:E. intros [= <- ->].
  right. by exists tr1, tr2, x.
Qed.

(** The computation returns [x]. *)
Definition returns {C A} (m : traced C A) (x : A) : Prop := exists tr, m = (tr, Ret x).

Lemma traced_bind {C A B} (m : traced C A) (f : A -> traced C B) x y : returns m x -> returns (f x) y -> returns (rn_bind m f) y.
Proof. intros [tr ->] [tr' Hf]. eexists. cbn. by rewrite Hf. Qed.
Lemma returns_ret {C A} (x : A) : returns (C := C) (rn_ret x) x.
Proof. by eexists. Qed.
Lemma returns_pure {C A} (m : go A) x : m = Ret x -> returns (C := C) (pure m) x.
Proof. intros ->. by eexists. Qed.
Lemma returns_log {C} (c : C) : returns (log_call c) tt.
Proof. by eexists. Qed.
Lemma returns_when {C} b (m : traced C ()) : (b = true -> returns m tt) -> returns (when b m) tt.
Proof. destruct b; [auto|]. intros _. by eexists. Qed.

Create HintDb returns discriminated.
#[export] Hint Resolve returns_ret returns_log returns_when : returns.

(** The computation makes only calls with the property [Q], if it returns or
    fails. *)
Definition emits {C A} (Q : C -> Prop) (m : traced C A) : Prop := Forall Q m.1.
Lemma emits_bind {C A B} Q (m : traced C A) (f : A -> traced C B) : emits Q m -> (forall x, emits Q (f x)) -> emits Q (rn_bind m f).
Proof.
  unfold emits. destruct m as [tr [x|e|]]; cbn; [|done..]. intros Hm Hf. specialize (Hf x). destruct (f x). cbn in *.
  by apply Forall_app.
Qed.
Lemma emits_when {C} Q b (m : traced C ()) : emits Q m -> emits Q (when b m).
Proof. destruct b; [done|]. constructor. Qed.
