(* ===== verification/Settings.v ===== *)
(** * Settings: the configuration files

    Model of the structs of [src/config/config.go] and of the functions that
    read and write them as YAML files.  The YAML library is a [Proto] of each
    type.  A pointer that may be nil is an [option]; durations are in
    nanoseconds. *)
From Stdlib Require Import Floats.SpecFloat.
From S2P Require Import Prelude Database Config Topology LogFields.

Abbreviation float64 := spec_float (only parsing).
Abbreviation Duration := Z (only parsing).

Record Announce := MkAnnounce { an_MDNS : bool; an_Registry : bool }.
Record Bootstrap := MkBootstrap {
  bo_File : bytes; bo_MDNS : bool; bo_Registry : bool; bo_Static : option (gmap uint64 bytes) }.
Record Broadcast := MkBroadcast { InitialBackoff : Duration; MaxBackoff : Duration }.
Record Connections := MkConnections { ReadTimeout : Duration; WriteTimeout : Duration }.
Record NodeContracts := MkNodeContracts { nc_Docker : bool; nc_Manage : bool }.
Record HTTP := MkHTTP { ht_Enabled : bool; ht_Port : goint }.
Record Key := MkKey { k_Type : bytes; k_Public : bytes; k_Private : bytes }.
Record Keys := MkKeys { SigningKey : Key; TransportCert : Key }.
Record Logging := MkLogging {
  ConsoleLevel : Z; FileLevel : Z; FilePath : bytes;
  ServerHost : bytes; ServerLevel : Z; ServerToken : bytes }.
Record NetConsensus := MkNetConsensus {
  BlockReferencesSizeLimit : uint64; BlockTransactionsSizeLimit : uint64;
  NonceExpiration : Duration; RoundInterval : Duration; ViewTimeout : goint }.
Record Shard := MkShard { sh_Count : goint; sh_Size : goint }.
Record Network := MkNetwork {
  nw_ID : bytes; nw_Consensus : option NetConsensus; nw_MaxPayload : uint64;
  nw_SeedNodes : gmap uint64 Peer; nw_Shard : Shard }.
Record RateLimit := MkRateLimit { InitialRate : goint; RateDecrease : float64; RateIncrease : goint }.
Record NodeConsensus := MkNodeConsensus {
  DriftTolerance : Duration; InitialWorkDuration : Duration; rateLimit : RateLimit }.
Record PubsubCfg := MkPubsubCfg { pu_Enabled : bool; pu_Port : option goint }.
Record Registry := MkRegistry { r_Host : bytes; r_Token : bytes }.
Record NodeCfg := MkNodeCfg {
  no_Announce : Announce; no_Bootstrap : Bootstrap; no_Broadcast : Broadcast; no_Connections : Connections;
  no_Consensus : NodeConsensus; no_Contracts : NodeContracts; no_DisableSBAC : bool; no_HTTP : HTTP;
  no_Logging : Logging; no_Pubsub : PubsubCfg; no_Registries : list Registry; no_Storage : option bytes }.
Record DockerContract := MkDockerContract {
  dc_Name : bytes; dc_Procedures : list bytes; dc_Image : bytes; dc_Addr : bytes;
  dc_Port : bytes; dc_HostPort : bytes; dc_HealthCheckURL : bytes }.
Record Contract := MkContract {
  co_Name : bytes; co_Procedures : list bytes; co_Addr : bytes; co_HealthCheckURL : bytes }.
Record ContractsCfg := MkContractsCfg {
  DockerContracts : list DockerContract; Contracts : list Contract; DockerMinimalVersion : bytes }.

(** ** Files *)

(** The directories and files of the disk. *)
Record disk := MkDisk { dk_dirs : gset (list Z); dk_files : gmap (list Z) bytes }.

Definition ReadFile (path : bytes) (d : disk) : go bytes :=
  match dk_files d !! path with Some b => Ret b | None => Fail "no such file or directory" end.

(** [LoadContracts], [LoadKeys] and [LoadNetwork] are this function at their
    type. *)
Definition Load {A} `{Proto A} (path : bytes) (d : disk) : go A :=
  data ← ReadFile path d; Unmarshal data.
Definition LoadContracts `{Proto ContractsCfg} : bytes -> disk -> go ContractsCfg := Load.
Definition LoadKeys `{Proto Keys} : bytes -> disk -> go Keys := Load.
Definition LoadNetwork `{Proto Network} : bytes -> disk -> go Network := Load.
Definition LoadNode `{Proto NodeCfg} (path : bytes) (d : disk) : go NodeCfg :=
  cfg ← Load path d;
  Ret (MkNodeCfg (no_Announce cfg) (no_Bootstrap cfg) (no_Broadcast cfg) (no_Connections cfg) (no_Consensus cfg)
         (no_Contracts cfg) (no_DisableSBAC cfg) (no_HTTP cfg) (no_Logging cfg) (no_Pubsub cfg) (no_Registries cfg)
         (Some (defaultStorage (no_Storage cfg)))).

(** [Hash]: of the nodes and the shards only. *)
Definition Hash `{Proto Network} (sha512_256 : bytes -> bytes) (n : Network) : go bytes :=
  data ← Marshal (MkNetwork [] None 0 (nw_SeedNodes n) (nw_Shard n));
  Ret (sha512_256 data).
