(* ===== verification/Init.v ===== *)
(** * Init: the creation of a network

    Model of [src/cmd/chainspace/init.go], of [genKeys] in [genkeys.go], of the
    helpers of [common.go] and of [src/internal/crypto/transport].  The options
    are those that the command line gives; a call of [log.Fatal] is an error.
    Random numbers, certificates and the PEM format come from libraries and are
    parameters, and so is whether the system lets a file or directory be
    created. *)
From Stdlib Require Import Floats.SpecFloat.
From S2P Require Import Prelude Database Config Topology LogFields Base32 Signature Paths Settings.

(** ** [transport.go] *)

Definition ECDSA : Z := 1.
Definition certType_String (c : Z) : bytes := if decide (c = ECDSA) then str "ecdsa" else [].
Record Cert := MkCert { ce_Private : bytes; ce_Public : bytes; ce_Type : Z }.

(** The fields of [x509.Certificate] that are set. *)
Record Certificate := MkCertificate {
  BasicConstraintsValid : bool; ExtKeyUsage : list Z; IsCA : bool; KeyUsage : Z; NotAfter : Z; NotBefore : Z;
  SerialNumber : Z; SignatureAlgorithm : Z; CommonName : bytes }.
Definition ExtKeyUsageServerAuth : Z := 1.
Definition ExtKeyUsageClientAuth : Z := 2.
Definition KeyUsageDigitalSignature : Z := 1.
Definition KeyUsageKeyEncipherment : Z := 4.
Definition KeyUsageCertSign : Z := 32.
Definition ECDSAWithSHA512 : Z := 12.
Definition hour : Z := 3600 * 1000000000.

(** The libraries that make certificates, for one certificate. *)
Record certTools := MkCertTools {
  ct_GenerateKey : go bytes;
  ct_MarshalECPrivateKey : bytes -> go bytes;
  ct_CreateCertificate : Certificate -> bytes -> go bytes;
  ct_pem : bytes -> bytes -> go bytes;
  ct_now : Z }.

Definition template (now : Z) (networkID : bytes) (nodeID : uint64) : Certificate :=
  MkCertificate true [ExtKeyUsageClientAuth; ExtKeyUsageServerAuth] true
    (Z.lor (Z.lor KeyUsageCertSign KeyUsageDigitalSignature) KeyUsageKeyEncipherment)
    (now + hour * 24 * 365 * 100) now 1 ECDSAWithSHA512
    (str "node-" ++ fmt_d nodeID ++ str ".net-" ++ networkID ++ str ".chainspace").

Definition GenCert (ct : certTools) (t : Z) (networkID : bytes) (nodeID : uint64) : go Cert :=
  if decide (t = ECDSA) then
    key ← ct_GenerateKey ct;
    der ← ct_MarshalECPrivateKey ct key;
    cert ← ct_CreateCertificate ct (template (ct_now ct) networkID nodeID) key;
    private ← ct_pem ct (str "EC PRIVATE KEY") der;
    public ← ct_pem ct (str "CERTIFICATE") cert;
    Ret (MkCert private public ECDSA)
  else Fail "transport: unknown cert type: %s".

(** ** [common.go] *)

Section files.
(** Whether the system creates the file or directory. *)
Context (creatable : bytes -> bool).

Definition path_exists (path : bytes) (d : disk) : bool :=
  bool_decide (path ∈ dk_dirs d \/ is_Some (dk_files d !! path)).
Definition Mkdir (path : bytes) (d : disk) : go disk :=
  if creatable path && negb (path_exists path d) then Ret (MkDisk ({[path]} ∪ dk_dirs d) (dk_files d))
  else Fail "mkdir".
Definition createUnlessExists (path : bytes) (d : disk) : go disk :=
  if path_exists path d then Fail "Directory already exists"
  else match Mkdir path d with Ret d => Ret d | _ => Fail "Could not create directory" end.
Definition ensureDir (path : bytes) (d : disk) : go disk := if path_exists path d then Ret d else Mkdir path d.

(** [os.Create] and the encoder. *)
Definition write_encoded {A} `{Proto A} (path : bytes) (v : A) (d : disk) : go disk :=
  if creatable path && bool_decide (path ∉ dk_dirs d) then
    b ← Marshal v; Ret (MkDisk (dk_dirs d) (<[path := b]> (dk_files d)))
  else Fail "open".
Definition writeYAML {A} `{Proto A} : bytes -> A -> disk -> go disk := write_encoded.

(** ** [genkeys.go] *)

Definition keys_config (signingKey : KeyPair) (cert : Cert) : Keys :=
  MkKeys (MkKey (algorithm_String Ed25519) (b32_Encode (kp_pub signingKey)) (b32_Encode (kp_priv signingKey)))
         (MkKey (certType_String (ce_Type cert)) (ce_Public cert) (ce_Private cert)).

Definition genKeys `{Proto Keys} (GenerateKey : go (bytes * bytes)) (ct : certTools)
    (path networkID : bytes) (nodeID : uint64) (d : disk) : go (KeyPair * Cert * disk) :=
  signingKey ← match GenKeyPair GenerateKey Ed25519 with Ret k => Ret k | _ => Fail "could not generate signing key: %s" end;
  cert ← match GenCert ct ECDSA networkID nodeID with Ret c => Ret c | _ => Fail "could not generate transport cert: %s" end;
  d ← write_encoded path (keys_config signingKey cert) d;
  Ret (signingKey, cert, d).

(** ** [init.go] *)

Record initOpts := MkInitOpts {
  configRoot : bytes; registry : bytes; o_shardCount : goint; o_shardSize : goint; httpPort : goint; disableSBAC : bool;
  manageContracts : bool; enablePubsub : bool; pubsubPort : goint; roundInterval : goint }.

Definition millisecond : Z := 1000000.
Definition sec : Z := 1000 * millisecond.
(** [hex.EncodeToString]. *)
Definition hexLower : bytes := str "0123456789abcdef".
Definition hex_EncodeToString (v : bytes) : bytes :=
  v ≫= fun c => [nth (Z.to_nat (c / 16)) hexLower 0; nth (Z.to_nat (c mod 16)) hexLower 0].

Definition registries_of (o : initOpts) (token : go bytes) : go (list Registry) :=
  if decide (registry o = []) then Ret []
  else match token with
       | Ret t => Ret [MkRegistry (registry o) (hex_EncodeToString t)]
       | _ => Fail "Unable to generate random token for use with the network registry"
       end.

Definition net_consensus (o : initOpts) : NetConsensus :=
  MkNetConsensus (10 * MB) (100 * MB) (30 * sec)
    (if decide (roundInterval o <> 0) then to_int (u64 (roundInterval o * millisecond)) else sec) 15.

(** The float constant 0.8. *)
Definition zero_point_eight : float64 := S754_finite false 7205759403792794 (-53).

Definition node_config (o : initOpts) (regs : list Registry) (i : goint) : NodeCfg :=
  MkNodeCfg
    (MkAnnounce (bool_decide (registry o = [])) (bool_decide (registry o <> [])))
    (MkBootstrap [] (bool_decide (registry o = [])) (bool_decide (registry o <> [])) None)
    (MkBroadcast sec (2 * sec))
    (MkConnections (10 * sec) (10 * sec))
    (MkNodeConsensus (10 * millisecond) (100 * millisecond) (MkRateLimit 10000 zero_point_eight 1000))
    (MkNodeContracts true (manageContracts o))
    (disableSBAC o)
    (MkHTTP true (if decide (httpPort o <> 0) then httpPort o else 8000 + i))
    (MkLogging DebugLevel ErrorLevel (str "log/chainspace.log") [] 0 [])
    (MkPubsubCfg (enablePubsub o) (if decide (pubsubPort o <> 0) then Some (pubsubPort o) else None))
    regs
    (Some (str "badger")).

Definition default_contracts : ContractsCfg :=
  MkContractsCfg
    [ MkDockerContract (str "dummy") [str "dummy_ok"; str "dummy_ko"]
        (str "gcr.io/acoustic-atom-211511/chainspace.io/contract-dummy:latest")
        (str "http://0.0.0.0") (str "8080") (str "1789") (str "/healthcheck");
      MkDockerContract (str "cs-coin") [str "create-wallet"; str "add-funds"; str "transfer-funds"]
        (str "chainspace.io/cs-coin:latest")
        (str "http://0.0.0.0") (str "1789") (str "1492") (str "/healthcheck") ]
    [] (str "1.30").

Definition peer_config (signingKey : KeyPair) (cert : Cert) : Peer :=
  MkPeer (algorithm_String Ed25519) (b32_Encode (kp_pub signingKey)) (certType_String (ce_Type cert)) (ce_Public cert).

Definition node_dir (netDir : bytes) (i : goint) : bytes := Join [netDir; str "node-" ++ fmt_d i].

Section init.
Context `{Proto Keys, Proto NodeCfg, Proto Network, Proto ContractsCfg}.
(** What the random source and the libraries give for each node. *)
Context (GenerateKey : uint64 -> go (bytes * bytes)) (certs : uint64 -> certTools) (sha512_256 : bytes -> bytes).

Definition init_node (o : initOpts) (regs : list Registry) (networkName netDir : bytes) (i : goint)
    (d : disk) (peers : gmap uint64 Peer) : go (disk * gmap uint64 Peer) :=
  let nodeDir := node_dir netDir i in
  d ← createUnlessExists nodeDir d;
  '(signingKey, cert, d) ←
    match genKeys (GenerateKey (u64 i)) (certs (u64 i)) (Join [nodeDir; str "keys.yaml"]) networkName (u64 i) d with
    | Ret r => Ret r
    | _ => Fail "Could not generate keys"
    end;
  d ← match writeYAML (Join [nodeDir; str "node.yaml"]) (node_config o regs i) d with
      | Ret d => Ret d
      | _ => Fail "Could not write to node.yaml"
      end;
  Ret (d, <[u64 i := peer_config signingKey cert]> peers).

Fixpoint init_nodes (o : initOpts) (regs : list Registry) (networkName netDir : bytes) (js : list goint)
    (d : disk) (peers : gmap uint64 Peer) : go (disk * gmap uint64 Peer) :=
  match js with
  | [] => Ret (d, peers)
  | i :: js =>
      '(d, peers) ← init_node o regs networkName netDir i d peers;
      init_nodes o regs networkName netDir js d peers
  end.

(** [for i := 1; i <= totalNodes; i++]. *)
Definition totalNodes (o : initOpts) : goint := to_int (u64 (o_shardCount o * o_shardSize o)).

Definition cmdInit (o : initOpts) (networkName : bytes) (token : go bytes) (d : disk) : go disk :=
  d ← match ensureDir (configRoot o) d with Ret d => Ret d | _ => Fail "Could not ensure the existence of the root directory" end;
  let netDir := Join [configRoot o; networkName] in
  d ← createUnlessExists netDir d;
  regs ← registries_of o token;
  '(d, peers) ← init_nodes o regs networkName netDir (seqZ 1 (totalNodes o)) d ∅;
  let network := MkNetwork [] (Some (net_consensus o)) (128 * MB) peers (MkShard (o_shardCount o) (o_shardSize o)) in
  networkID ← match Hash sha512_256 network with Ret h => Ret h | _ => Fail "Could not generate the Network ID" end;
  let network := MkNetwork (b32_Encode networkID) (nw_Consensus network) (nw_MaxPayload network)
                   (nw_SeedNodes network) (nw_Shard network) in
  d ← match writeYAML (Join [netDir; str "network.yaml"]) network d with Ret d => Ret d | _ => Fail "Could not write to network.yaml" end;
  match writeYAML (Join [netDir; str "contracts.yaml"]) default_contracts d with
  | Ret d => Ret d
  | _ => Fail "Could not write to contracts.yaml"
  end.
End init.
End files.
