(* ===== verification/NodeRun.v ===== *)
(** * NodeRun: the start of a node

    Model of [Run] and [createDir] in [src/node/node.go].  What the operating
    system, the discovery of addresses and the constructors of the services
    answer is given by an environment; the calls are recorded in the order in
    which they are made.  [log.Fatal] ends the process. *)
From Stdlib Require Import Floats.SpecFloat.
From S2P Require Import Prelude Traced Database Config Topology LogFields Node Base32 Signature Paths Settings.

Record RunConfig := MkRunConfig {
  rc_Directory : bytes; rc_Keys : Keys; rc_Network : Network; rc_NetworkName : bytes; rc_NodeID : uint64;
  rc_Node : NodeCfg; rc_Contracts : ContractsCfg; rc_CheckerOnly : bool; rc_SBACOnly : bool }.

Record BroadcastConfig := MkBroadcastConfig {
  bc_Broadcast : Broadcast; bc_Connections : Connections; bc_Directory : bytes; bc_Key : KeyPair;
  bc_Keys : gmap uint64 bytes; bc_MaxPayload : goint; bc_NetConsensus : option NetConsensus;
  bc_NodeConsensus : NodeConsensus; bc_NodeID : uint64; bc_Peers : list uint64 }.

(** The calls of other packages. *)
Inductive call :=
  | Stat (path : bytes)
  | MkdirAll (path : bytes)
  | ProcessInit (dir : bytes)
  | LogToFile (path : bytes) (level : Z)
  | ContractsNew
  | ContractsStart
  | ContractsEnsureUp
  | BootstrapFile (file : bytes)
  | BootstrapMDNS
  | BootstrapRegistries (registries : list Registry)
  | FreePort
  | X509KeyPair (public private : bytes)
  | BroadcastNew (cfg : BroadcastConfig)
  | KvNew (dir : bytes)
  | PubsubNew (port : option goint) (networkID : bytes) (nodeID : uint64)
  | SbacNew (dir : bytes) (key : KeyPair) (signingKey : Key) (maxPayload : goint) (nodeID : uint64)
            (count size : uint64) (pubsub : bool)
  | CheckerNew (contracts : ContractsCfg) (signingKey : Key)
  | RestNew (port : goint) (key : KeyPair) (maxPayload : goint) (nodeID : uint64) (checkerOnly sbacOnly : bool)
  | Listen (port : goint)
  | Serve
  | AnnounceMDNS (networkID : bytes) (nodeID : uint64) (port : goint)
  | AnnounceRegistry (registries : list Registry) (networkID : bytes) (nodeID : uint64) (port : goint)
  | Cancel
  | Exit.

(** What they answer: an error, or success. *)
Record env := MkEnv {
  en_ok : call -> bool;
  en_exists : bytes -> option bool;  (* [os.Stat]: [None] is an error other than a missing file *)
  en_abs : bytes -> go bytes;        (* [filepath.Abs] of a relative path *)
  en_port : nat -> goint             (* the ports that [freeport.TCP] finds *)
}.

Abbreviation rn := (traced call) (only parsing).
(** An error is returned. *)
Definition try (E : env) (c : call) (e : string) : rn () := ([c], guard_fail (en_ok E c) e).
(** An error cancels the context and is returned. *)
Definition try_cancel (E : env) (c : call) (e : string) : rn () :=
  if en_ok E c then ([c], Ret tt) else ([c; Cancel], Fail e).
(** An error ends the process. *)
Definition try_fatal (E : env) (c : call) (e : string) : rn () :=
  if en_ok E c then ([c], Ret tt) else ([c; Exit], Fail e).
Definition createDir (E : env) (path : bytes) : rn () :=
  let* _ := log_call (Stat path) in
  match en_exists E path with
  | Some true => rn_ret tt
  | Some false => try E (MkdirAll path) "mkdir"
  | None => pure (Fail "stat")
  end.

(** [filepath.Dir]: all but the last element, cleaned. *)
Fixpoint from_slash (rev : bytes) : bytes :=
  match rev with [] => [] | c :: rest => if c =? slash then rev else from_slash rest end.
Definition Dir (path : bytes) : bytes := Clean (reverse (from_slash (reverse path))).

Definition load_signing_key (k : Key) : go KeyPair :=
  if decide (k_Type k = str "ed25519") then
    pubkey ← match b32_Decode (k_Public k) with
             | Ret b => Ret b | _ => Fail "node: could not decode the base32-encoded public signing.key from config: %s" end;
    privkey ← match b32_Decode (k_Private k) with
              | Ret b => Ret b | _ => Fail "node: could not decode the base32-encoded private signing.key from config: %s" end;
    match LoadKeyPair Ed25519 (pubkey ++ privkey) with
    | Ret key => Ret key | _ => Fail "node: unable to load the signing.key from config: %s" end
  else Fail "node: unknown type of signing.key found in config: %q".

(** [peers[idx] = peer; idx++] for a slice with [room] places left. *)
Fixpoint fill_peers (self : uint64) (nodes : list uint64) (room : nat) : go (list uint64) :=
  match nodes with
  | [] => Ret (replicate room 0)
  | peer :: nodes =>
      if decide (peer <> self) then
        match room with
        | O => Crash
        | S room => peers ← fill_peers self nodes room; Ret (peer :: peers)
        end
      else fill_peers self nodes room
  end.

Section run.
Context `{Proto Network} (sha512_256 : bytes -> bytes) (AppendCertsFromPEM : bytes -> bool).

(** [network.New] for the settings of a network. *)
Definition new_topology (name : bytes) (n : Network) : go Topology :=
  New AppendCertsFromPEM b32_Decode (LoadPublicKey Ed25519) (fun _ => Hash sha512_256 n) name
    (MkNetworkCfg (nw_ID n) (nw_SeedNodes n) (u64 (sh_Count (nw_Shard n))) (u64 (sh_Size (nw_Shard n)))).

Definition runtime_dir (E : env) (cfg : RunConfig) : rn bytes :=
  if decide (rc_Directory cfg = []) then pure (Fail "node: config is missing a value for Directory")
  else
    let* dir := pure (if is_rooted (rc_Directory cfg) then Ret (rc_Directory cfg) else en_abs E (rc_Directory cfg)) in
    let* _ := createDir E dir in
    let* _ := try E (ProcessInit dir) "process" in
    rn_ret dir.

Definition file_logging (E : env) (cfg : RunConfig) (dir : bytes) : rn () :=
  let lg := no_Logging (rc_Node cfg) in
  when (bool_decide (DebugLevel <= FileLevel lg) && bool_decide (FilePath lg <> []))
    (let logfile := Join [dir; FilePath lg] in
     let* _ := createDir E (Dir logfile) in
     try_fatal E (LogToFile logfile (FileLevel lg)) "Could not initialise the file logger").

Definition start_contracts (E : env) (cfg : RunConfig) : rn () :=
  when (negb (no_DisableSBAC (rc_Node cfg)) && negb (rc_SBACOnly cfg))
    (let* _ := try_fatal E ContractsNew "unable to instantiate contacts" in
     let* _ := when (nc_Manage (no_Contracts (rc_Node cfg))) (try_fatal E ContractsStart "unable to start contracts") in
     try_fatal E ContractsEnsureUp "some contracts are unavailable, run `chainspace contracts <yournetworkname> create`").

Definition bootstrap (E : env) (cfg : RunConfig) (top : Topology) : rn Topology :=
  let b := no_Bootstrap (rc_Node cfg) in
  (* [Topology.BootstrapFile] always returns an error. *)
  let* _ := if decide (bo_File b <> []) then
              let* _ := log_call (BootstrapFile (bo_File b)) in
              pure (A := unit) (Fail "network: bootstrapping from a static map is not supported yet")
            else rn_ret tt in
  let* _ := when (bo_MDNS b) (log_call BootstrapMDNS) in
  let* _ := when (bo_Registry b) (log_call (BootstrapRegistries (no_Registries (rc_Node cfg)))) in
  rn_ret (match bo_Static b with Some m => BootstrapStatic m top | None => top end).

(** The parts of the node that [Run] starts. *)
Definition start_services (E : env) (cfg : RunConfig) (dir : bytes) (key : KeyPair) (maxPayload : goint) : rn () :=
  let n := rc_Node cfg in
  let* _ := try_cancel E (KvNew dir) "node: unable to instantiate the kv service: %v" in
  let* _ := when (negb (no_DisableSBAC n))
    (let* _ := when (pu_Enabled (no_Pubsub n))
       (try_cancel E (PubsubNew (pu_Port (no_Pubsub n)) (rc_NetworkName cfg) (rc_NodeID cfg))
          "node: unable to instantiate the pubsub server %v") in
     try_cancel E (SbacNew dir key (SigningKey (rc_Keys cfg)) maxPayload (rc_NodeID cfg)
                     (u64 (sh_Count (nw_Shard (rc_Network cfg)))) (u64 (sh_Size (nw_Shard (rc_Network cfg))))
                     (pu_Enabled (no_Pubsub n)))
       "node: unable to instantiate the sbac service: %s") in
  let* _ := when (negb (no_DisableSBAC n) && negb (rc_SBACOnly cfg))
    (try_cancel E (CheckerNew (rc_Contracts cfg) (SigningKey (rc_Keys cfg))) "node unable to instantiate checker service: %v") in
  when (ht_Enabled (no_HTTP n))
    (log_call (RestNew (1000 + if decide (0 < ht_Port (no_HTTP n)) then ht_Port (no_HTTP n) else en_port E 1)
                 key maxPayload (rc_NodeID cfg) (rc_CheckerOnly cfg) (rc_SBACOnly cfg))).

Definition announce (E : env) (cfg : RunConfig) (port : goint) : rn () :=
  let n := rc_Node cfg in
  let id := nw_ID (rc_Network cfg) in
  let* _ := when (an_MDNS (no_Announce n)) (try E (AnnounceMDNS id (rc_NodeID cfg) port) "zeroconf") in
  when (an_Registry (no_Announce n))
    (try E (AnnounceRegistry (no_Registries n) id (rc_NodeID cfg) port) "node: error calling registry: %v").

(** The signing key, the topology and the configuration of the broadcast
    service, before anything of the node runs. *)
Definition prepare (cfg : RunConfig) (dir : bytes) (top : Topology) : go (KeyPair * goint * BroadcastConfig) :=
  key ← load_signing_key (SigningKey (rc_Keys cfg));
  let keys := SeedPublicKeys top in
  shardID ← shardForNode (rc_NodeID cfg) top;
  nodes ← nodesInShard shardID top;
  _ ← guard_fail (bool_decide (nodes <> [])) "node: got no peers for the node %d";
  peers ← fill_peers (rc_NodeID cfg) nodes (length nodes - 1);
  maxPayload ← Int (nw_MaxPayload (rc_Network cfg));
  Ret (key, maxPayload,
       MkBroadcastConfig (no_Broadcast (rc_Node cfg)) (no_Connections (rc_Node cfg)) dir key keys maxPayload
         (nw_Consensus (rc_Network cfg)) (no_Consensus (rc_Node cfg)) (rc_NodeID cfg) peers).

(** [Run] up to the creation of the context. *)
Definition boot (E : env) (cfg : RunConfig) : rn (bytes * Topology * (KeyPair * goint * BroadcastConfig)) :=
  let* dir := runtime_dir E cfg in
  let* _ := file_logging E cfg dir in
  let* _ := start_contracts E cfg in
  let* top := pure (new_topology (rc_NetworkName cfg) (rc_Network cfg)) in
  let* top := bootstrap E cfg top in
  let* _ := try E FreePort "freeport" in
  let* _ := try E (X509KeyPair (k_Public (TransportCert (rc_Keys cfg))) (k_Private (TransportCert (rc_Keys cfg))))
              "node: could not load the X.509 transport.cert from config: %s" in
  let* prepared := pure (prepare cfg dir top) in
  rn_ret (dir, top, prepared).

(** [Run] up to the listener. *)
Definition start (E : env) (cfg : RunConfig) (dir : bytes) (prepared : KeyPair * goint * BroadcastConfig) : rn Server :=
  let '(key, maxPayload, bcfg) := prepared in
  let* _ := try_cancel E (BroadcastNew bcfg) "node: unable to instantiate the broadcast service: %s" in
  let* _ := start_services E cfg dir key maxPayload in
  let* consensus := pure (or_crash (nw_Consensus (rc_Network cfg))) in
  let node := MkServer (rc_NodeID cfg) (bc_Keys bcfg) (NonceExpiration consensus) ∅ in
  let* _ := try_cancel E (Listen (en_port E 0)) "node: unable to listen on port %d: %s" in
  rn_ret node.

Definition Run (E : env) (cfg : RunConfig) : rn (Server * KeyPair * Topology) :=
  let* booted := boot E cfg in
  let '(dir, top, prepared) := booted in
  let* node := start E cfg dir prepared in
  let* _ := log_call Serve in
  let* _ := announce E cfg (en_port E 0) in
  rn_ret (node, prepared.1.1, top).
End run.
