(* ===== verification/NodeRunProps.v ===== *)
(** * NodeRunProps: what a node that starts, or fails to start, looks like *)
From Stdlib Require Import Floats.SpecFloat.
From S2P Require Import Prelude Traced Database Config Topology LogFields Node Base32 Signature Paths Settings NodeRun.

(** An environment in which every call succeeds. *)
Definition permissive (E : env) : Prop :=
  (forall c, en_ok E c = true) /\ (forall p, en_exists E p <> None) /\ (forall p, exists q, en_abs E p = Ret q).

Section permissive.
Context (E : env) (HE : permissive E).

Lemma returns_try c e : returns (try E c e) tt.
Proof using HE. unfold try. rewrite (proj1 HE). by eexists. Qed.
Lemma returns_try_cancel c e : returns (try_cancel E c e) tt.
Proof using HE. unfold try_cancel. rewrite (proj1 HE). by eexists. Qed.
Lemma returns_try_fatal c e : returns (try_fatal E c e) tt.
Proof using HE. unfold try_fatal. rewrite (proj1 HE). by eexists. Qed.
Lemma returns_createDir p : returns (createDir E p) tt.
Proof using HE.
  unfold createDir. eapply traced_bind; [apply returns_log|]. destruct (en_exists E p) as [[]|] eqn:Hp.
  - apply returns_ret.
  - apply returns_try.
  - by destruct (proj1 (proj2 HE) p).
Qed.
End permissive.

#[export] Hint Resolve returns_try returns_try_cancel returns_try_fatal returns_createDir : returns.

(** ** The peers of a node *)

Lemma fill_peers_ok self nodes room : NoDup nodes ->
  (if decide (self ∈ nodes) then length nodes = S room else length nodes = room) ->
  fill_peers self nodes room = Ret (filter (fun p => p <> self) nodes).
Proof.
  intros Hnd. revert room. induction Hnd as [|p nodes Hp Hnd IH]; intros room Hl; cbn [fill_peers].
  { rewrite decide_False in Hl by apply not_elem_of_nil. cbn in Hl. by subst. }
  rewrite filter_cons. destruct (decide (p = self)) as [->|Hne].
  - rewrite decide_False by naive_solver. rewrite decide_False by naive_solver. apply IH.
    rewrite decide_False by done. rewrite decide_True in Hl by (by left). cbn in Hl. lia.
  - rewrite !decide_True by done. destruct room as [|room].
    { exfalso. case_decide as Hd; cbn in Hl; [|done]. destruct nodes; [|done].
      apply list_elem_of_singleton in Hd. naive_solver. }
    rewrite IH; [done|]. destruct (decide (self ∈ nodes)) as [Hs|Hs].
    + rewrite decide_True in Hl by (by right). cbn in Hl. lia.
    + rewrite decide_False in Hl by (rewrite elem_of_cons; naive_solver). cbn in Hl. lia.
Qed.

Lemma fill_peers_crash self nodes room : self ∉ nodes -> (room < length nodes)%nat -> fill_peers self nodes room = Crash.
Proof.
  revert room. induction nodes as [|p nodes IH]; intros room Hs Hl; cbn in *; [lia|].
  rewrite not_elem_of_cons in Hs. rewrite decide_True by naive_solver. destruct room; [done|].
  rewrite IH by (naive_solver lia). done.
Qed.

Section run.
Context `{Proto Network} (sha512_256 : bytes -> bytes) (AppendCertsFromPEM : bytes -> bool).

(** What [Run] prepares for a node of the network: its key, and as peers the
    other nodes of its shard. *)
Lemma prepare_ok cfg dir top key maxPayload : topology_ok top -> 1 <= rc_NodeID cfg <= total_nodes top ->
  load_signing_key (SigningKey (rc_Keys cfg)) = Ret key -> Int (nw_MaxPayload (rc_Network cfg)) = Ret maxPayload ->
  exists s ns, shardForNode (rc_NodeID cfg) top = Ret s /\ nodesInShard s top = Ret ns /\
  prepare cfg dir top = Ret (key, maxPayload,
       MkBroadcastConfig (no_Broadcast (rc_Node cfg)) (no_Connections (rc_Node cfg)) dir key (SeedPublicKeys top) maxPayload
         (nw_Consensus (rc_Network cfg)) (no_Consensus (rc_Node cfg)) (rc_NodeID cfg)
         (filter (fun p => p <> rc_NodeID cfg) ns)).
Proof using Type.
  intros Hok Hid Hk Hm. destruct (Topology_ok (fun _ _ => 0)) as [H1 H2 _].
  destruct (H2 top _ Hok Hid) as (s & Hs & Hrange). destruct (H1 top s Hok Hrange) as (ns & Hns & Hnd & Hlen & Hin).
  cbn in Hs, Hns, Hin. exists s, ns. split; [done|]. split; [done|].
  assert (rc_NodeID cfg ∈ ns) as Hself by (by apply Hin).
  unfold prepare. rewrite Hk. cbn [mbind go_bind]. rewrite Hs. cbn [mbind go_bind]. rewrite Hns. cbn [mbind go_bind].
  rewrite bool_decide_true by (intros ->; by apply not_elem_of_nil in Hself). cbn [guard_fail mbind go_bind].
  rewrite fill_peers_ok; [cbn [mbind go_bind]; by rewrite Hm|done|].
  rewrite decide_True by done. destruct ns; [by apply not_elem_of_nil in Hself|]. cbn. lia.
Qed.

(** A node that is not one of the network panics while it collects its peers. *)
Lemma unknown_node_run cfg dir top key : topology_ok top -> total_nodes top < rc_NodeID cfg < 2 ^ 64 ->
  load_signing_key (SigningKey (rc_Keys cfg)) = Ret key -> prepare cfg dir top = Crash.
Proof using Type.
  intros Hok Hid Hk. pose proof Hok as (Hc & Hsz & Hlt). unfold prepare. rewrite Hk. cbn [mbind go_bind].
  pose proof (total_nodes_eq _ Hok) as Ht.
  unfold shardForNode. rewrite decide_False by lia. rewrite (wrap_small 64 (_ - 1)) by (split; nia).
  pose proof (Z.mod_pos_bound (rc_NodeID cfg - 1) (shardCount top) Hc) as Hm.
  rewrite wrap_small by (split; nia). cbn [mbind go_bind].
  destruct (Topology_ok (fun _ _ => 0)) as [H1 _ _].
  destruct (H1 top ((rc_NodeID cfg - 1) `mod` shardCount top + 1) Hok ltac:(lia)) as (ns & Hns & _ & Hlen & Hin).
  cbn in Hns, Hlen. rewrite Hns. cbn [mbind go_bind].
  rewrite bool_decide_true by (intros ->; cbn in Hlen; lia). cbn [guard_fail mbind go_bind].
  rewrite fill_peers_crash; [done|intros [Hr _]%Hin; cbn in Hr; lia|lia].
Qed.

Lemma bootstrap_nodes E cfg top tr top' : bootstrap E cfg top = (tr, Ret top') ->
  nodes top' = nodes top /\ shardCount top' = shardCount top /\ shardSize top' = shardSize top.
Proof using Type.
  unfold bootstrap. intros Hb. repeat (apply rn_bind_Ret in Hb as (? & ? & ? & _ & Hb & _)).
  injection Hb as _ <-. by destruct (bo_Static _).
Qed.

(** A node that has started: it knows the public keys of the network and its own
    key pair. *)
Lemma Run_inv E cfg tr srv key top : Run sha512_256 AppendCertsFromPEM E cfg = (tr, Ret (srv, key, top)) ->
  exists top0 consensus, new_topology sha512_256 AppendCertsFromPEM (rc_NetworkName cfg) (rc_Network cfg) = Ret top0 /\
    nodes top = nodes top0 /\ load_signing_key (SigningKey (rc_Keys cfg)) = Ret key /\
    nw_Consensus (rc_Network cfg) = Some consensus /\
    srv = MkServer (rc_NodeID cfg) (SeedPublicKeys top) (NonceExpiration consensus) ∅.
Proof using Type.
  unfold Run. intros Hr. apply rn_bind_Ret in Hr as (? & ? & [[dir top1] [[key' mp] bcfg]] & Hboot & Hr & _).
  apply rn_bind_Ret in Hr as (? & ? & node & Hs & Hr & _).
  do 2 (apply rn_bind_Ret in Hr as (? & ? & ? & _ & Hr & _)). injection Hr as _ <- <- <-.
  unfold boot in Hboot. do 3 (apply rn_bind_Ret in Hboot as (? & ? & ? & _ & Hboot & _)).
  apply rn_bind_Ret in Hboot as (? & ? & top0 & Htop & Hboot & _). injection Htop as _ Htop.
  apply rn_bind_Ret in Hboot as (? & ? & top2 & Hb%bootstrap_nodes & Hboot & _).
  do 2 (apply rn_bind_Ret in Hboot as (? & ? & ? & _ & Hboot & _)).
  apply rn_bind_Ret in Hboot as (? & ? & prepared & Hp & Hboot & _). injection Hp as _ Hp. injection Hboot as _ <- <- ->.
  unfold start in Hs. do 2 (apply rn_bind_Ret in Hs as (? & ? & ? & _ & Hs & _)).
  apply rn_bind_Ret in Hs as (? & ? & c & Hc & Hs & _). injection Hc as _ Hc.
  apply rn_bind_Ret in Hs as (? & ? & ? & _ & Hs & _). injection Hs as _ <-. unfold prepare in Hp.
  apply go_bind_Ret in Hp as (key1 & Hk & Hp). repeat (apply go_bind_Ret in Hp as (? & _ & Hp)).
  injection Hp as <- <- <-. exists top0, c. split_and!; [done|tauto|done| |done].
  by destruct (nw_Consensus _); [injection Hc as <-|].
Qed.

(** In an environment where every call succeeds, a node of the network starts. *)
Lemma Run_returns E cfg top0 key maxPayload consensus : permissive E -> rc_Directory cfg <> [] ->
  bo_File (no_Bootstrap (rc_Node cfg)) = [] ->
  new_topology sha512_256 AppendCertsFromPEM (rc_NetworkName cfg) (rc_Network cfg) = Ret top0 ->
  topology_ok top0 -> 1 <= rc_NodeID cfg <= total_nodes top0 ->
  load_signing_key (SigningKey (rc_Keys cfg)) = Ret key -> Int (nw_MaxPayload (rc_Network cfg)) = Ret maxPayload ->
  nw_Consensus (rc_Network cfg) = Some consensus ->
  exists res, returns (Run sha512_256 AppendCertsFromPEM E cfg) res.
Proof using Type.
  intros HE Hdir Hfile Htop Hok Hid Hk Hm Hc.
  assert (exists dir, returns (runtime_dir E cfg) dir) as [dir Hd].
  { unfold runtime_dir. rewrite decide_False by done.
    assert (exists p, (if is_rooted (rc_Directory cfg) then Ret (rc_Directory cfg) else en_abs E (rc_Directory cfg)) = Ret p)
      as [p Hp] by (destruct (is_rooted _); [eauto|apply HE]).
    exists p. eapply traced_bind; [by apply returns_pure|]. repeat (eapply traced_bind; [by auto with returns|]). by auto with returns. }
  assert (exists top, returns (bootstrap E cfg top0) top) as [top Hb].
  { unfold bootstrap. rewrite decide_False by tauto. eexists. repeat (eapply traced_bind; [by auto with returns|]). by auto with returns. }
  assert (topology_ok top /\ total_nodes top = total_nodes top0) as [Hok' Ht'].
  { destruct Hb as [tr (_ & H1 & H2)%bootstrap_nodes]. unfold topology_ok, total_nodes. by rewrite H1, H2. }
  destruct (prepare_ok cfg dir top key maxPayload Hok' ltac:(by rewrite Ht') Hk Hm) as (sh & ns & _ & _ & Hp).
  eexists. unfold Run. eapply (traced_bind _ _ (dir, top, _)).
  { unfold boot. eapply traced_bind; [exact Hd|]. eapply traced_bind.
    { apply returns_when. intros _. eapply traced_bind; by auto with returns. }
    eapply traced_bind.
    { apply returns_when. intros _. repeat (eapply traced_bind; [by auto 6 with returns|]). by auto with returns. }
    eapply traced_bind; [by apply returns_pure|]. eapply traced_bind; [exact Hb|].
    do 2 (eapply traced_bind; [by auto with returns|]). eapply traced_bind; [by apply returns_pure|]. apply returns_ret. }
  cbv beta iota. eapply traced_bind.
  { unfold start. eapply traced_bind; [by auto with returns|]. eapply traced_bind.
    { unfold start_services. eapply traced_bind; [by auto with returns|]. eapply traced_bind.
      { apply returns_when. intros _. eapply traced_bind; by auto with returns. }
      eapply traced_bind; by auto 6 with returns. }
    eapply traced_bind; [apply returns_pure; by rewrite Hc|]. eapply traced_bind; [by auto with returns|]. apply returns_ret. }
  eapply traced_bind; [by auto with returns|].
  eapply traced_bind; [|apply returns_ret]. unfold announce. eapply traced_bind; by auto 6 with returns.
Qed.

(** ** A start that fails *)

(** Neither the broadcast service nor a cancelled context. *)
Definition quiet (c : call) : Prop := match c with BroadcastNew _ | Cancel => False | _ => True end.

Lemma boot_quiet E cfg : emits quiet (boot sha512_256 AppendCertsFromPEM E cfg).
Proof using Type.
  assert (forall p, emits quiet (createDir E p)) as Hcd.
  { intros p. unfold createDir. apply emits_bind; [by repeat constructor|]. intros _.
    destruct (en_exists E p) as [[]|]; by repeat constructor. }
  assert (forall c e, quiet c -> emits quiet (try E c e)) as Htry by (by repeat constructor).
  assert (forall c e, quiet c -> emits quiet (try_fatal E c e)) as Hfatal.
  { intros c e Hc. unfold emits, try_fatal. destruct (en_ok E c); by repeat constructor. }
  assert (forall c, quiet c -> emits quiet (log_call c)) as Hlog by (by repeat constructor).
  assert (forall A (m : go A), emits quiet (pure m)) as Hpure by constructor.
  unfold boot, runtime_dir, file_logging, start_contracts, bootstrap. destruct (decide (rc_Directory cfg = [])).
  { constructor. }
  repeat (apply Hcd || (apply emits_bind; [|intros ?]) || apply emits_when || (apply Htry; exact I) ||
          (apply Hfatal; exact I) || (apply Hlog; exact I) || apply Hpure || case_decide || constructor).
Qed.

(** If the computation fails, its last call cancels the context; if it returns,
    it has not cancelled it. *)
Definition cancels {A} (m : rn A) : Prop :=
  (forall tr e, m = (tr, Fail e) -> last tr = Some Cancel) /\ (forall tr x, m = (tr, Ret x) -> Cancel ∉ tr).
Lemma cancels_bind {A B} (m : rn A) (f : A -> rn B) : cancels m -> (forall x, cancels (f x)) -> cancels (rn_bind m f).
Proof using Type.
  intros [Hm1 Hm2] Hf. split.
  - intros tr e [Hr|(tr1 & tr2 & x & _ & Hr & ->)]%rn_bind_Fail; [by eapply Hm1|].
    apply (Hf x) in Hr. rewrite last_app, Hr. done.
  - intros tr y (tr1 & tr2 & x & Hr1 & Hr2 & ->)%rn_bind_Ret. apply Hm2 in Hr1. apply (Hf x) in Hr2. set_solver.
Qed.
Lemma cancels_when b m : cancels m -> cancels (when b m).
Proof using Type. destruct b; [done|]. intros _. split; [done|]. intros tr x [= <- _]. apply not_elem_of_nil. Qed.
Lemma cancels_try E c e : c <> Cancel -> cancels (try_cancel E c e).
Proof using Type.
  intros Hc. unfold try_cancel. destruct (en_ok E c); (split; [intros tr e' [= <- <-]|intros tr x [= <- _]]); try done.
  rewrite list_elem_of_singleton. naive_solver.
Qed.
Lemma cancels_log c : c <> Cancel -> cancels (log_call c).
Proof using Type.
  intros Hc. split; [done|]. intros tr x [= <- _]. rewrite list_elem_of_singleton. naive_solver.
Qed.

Definition announces (c : call) : Prop := match c with AnnounceMDNS _ _ _ | AnnounceRegistry _ _ _ _ => True | _ => False end.

Lemma announce_fails E cfg port tr e : announce E cfg port = (tr, Fail e) ->
  Cancel ∉ tr /\ exists c, last tr = Some c /\ announces c.
Proof using Type.
  assert (forall b c e', announces c -> (forall tr e, when b (try E c e') = (tr, Fail e) -> tr = [c]) /\
            (forall tr x, when b (try E c e') = (tr, Ret x) -> Cancel ∉ tr)) as Ht.
  { intros b c e' Hc. destruct b; cbn; unfold try; [|split; [done|]; intros ? ? [= <- _]; apply not_elem_of_nil].
    split; intros tr0 x [= <- _]; [done|]. rewrite list_elem_of_singleton. by intros <-. }
  unfold announce. intros [Hr|(tr1 & tr2 & [] & Hr1 & Hr2 & ->)]%rn_bind_Fail.
  - apply Ht in Hr as ->; [|done]. split; [by rewrite list_elem_of_singleton|]. by eexists.
  - apply Ht in Hr1; [|done]. apply Ht in Hr2 as ->; [|done]. split; [set_solver|].
    rewrite last_app. by eexists.
Qed.

(** A start that fails after the broadcast service was started cancels the
    context of the node as its last step, so that what runs is stopped.  The
    only exception is a failing announcement: the node is already serving then,
    and goes on although an error is returned. *)
Theorem failed_run_is_cancelled E cfg tr e : Run sha512_256 AppendCertsFromPEM E cfg = (tr, Fail e) ->
  (exists b, BroadcastNew b ∈ tr) ->
  (last tr = Some Cancel) \/ (Serve ∈ tr /\ Cancel ∉ tr /\ exists c, last tr = Some c /\ announces c).
Proof using Type.
  intros Hr [b Hb]. pose proof (boot_quiet E cfg) as Hq. unfold emits in Hq. unfold Run in Hr.
  apply rn_bind_Fail in Hr as [Hr|(tr1 & tr2 & [[dir top] [[key mp] bcfg]] & Hboot & Hr & ->)].
  { rewrite Hr in Hq. cbn in Hq. rewrite Forall_forall in Hq. by apply Hq in Hb. }
  rewrite Hboot in Hq. cbn in Hq. rewrite Forall_forall in Hq.
  assert (cancels (start E cfg dir (key, mp, bcfg))) as [Hs1 Hs2].
  { unfold start, start_services.
    repeat (apply cancels_bind; [|intros ?] || apply cancels_when || (apply cancels_try; done) || (apply cancels_log; done)).
    - destruct (nw_Consensus _); split; try done. intros ? ? [= <- _]. apply not_elem_of_nil.
    - split; [done|]. intros ? ? [= <- _]. apply not_elem_of_nil. }
  apply rn_bind_Fail in Hr as [Hr|(tr3 & tr4 & node & Hs & Hr & ->)].
  { left. apply Hs1 in Hr. by rewrite last_app, Hr. }
  apply rn_bind_Fail in Hr as [Hr|(tr5 & tr6 & [] & Hsv & Hr & ->)]; [done|]. injection Hsv as <-.
  apply rn_bind_Fail in Hr as [Hr|(tr7 & tr8 & [] & _ & Hr & _)]; [|done].
  right. apply announce_fails in Hr as (Hnc & c & Hl & Hc). apply Hs2 in Hs.
  split_and!; [set_solver| |exists c; by rewrite !last_app, Hl].
  rewrite !elem_of_app, list_elem_of_singleton. intros [H1|[H1|[H1|H1]]]; try done. by apply Hq in H1.
Qed.
End run.
