(* ===== verification/InitProps.v ===== *)
(** * InitProps: the nodes of an initialised network work together

    The files that [cmdInit] writes are loaded by [Run] as they were meant: the
    network is accepted, every node finds its own key pair, its peers and the
    public keys of all nodes, and admits the hellos that the others sign. *)
From Stdlib Require Import Floats.SpecFloat.
From S2P Require Import Prelude Traced Database Config Topology LogFields Codec Conn Node Base32 Signature Paths Settings Init NodeRun NodeRunProps.

(** ** Names of directories *)

Lemma fmt_d_plain (p : bytes) i : Forall (fun c => c <> slash) p -> (2 < length p)%nat -> plain (p ++ fmt_d i).
Proof.
  intros Hp Hl. unfold plain. split_and!.
  - by destruct p; cbn in Hl; [lia|].
  - intros He. apply (f_equal length) in He. rewrite length_app in He. cbn in He. lia.
  - intros He. apply (f_equal length) in He. rewrite length_app in He. cbn in He. lia.
  - rewrite elem_of_app. intros [H|H].
    + rewrite Forall_forall in Hp. by apply (Hp _ H).
    + pose proof (fmt_d_digits i) as Hd. rewrite Forall_forall in Hd. specialize (Hd _ H). done.
Qed.

Lemma node_name_plain i : plain (str "node-" ++ fmt_d i).
Proof. apply fmt_d_plain; [by repeat constructor|cbn; lia]. Qed.

Lemma fmt_d_inj i j : is_u64 i -> is_u64 j -> fmt_d i = fmt_d j -> i = j.
Proof. intros Hi Hj He. apply ParseUint_fmt_d in Hi, Hj. rewrite He in Hi. congruence. Qed.

Section paths.
Context (netDir : bytes) (Hnet : netDir <> []).

Lemma node_dir_nonempty i : node_dir netDir i <> [].
Proof using Hnet. apply Join_nonempty; [done|apply node_name_plain]. Qed.

Lemma node_dir_cleaned i : is_rooted (node_dir netDir i) = is_rooted netDir /\
  cleaned (node_dir netDir i) = cleaned netDir ++ [str "node-" ++ fmt_d i].
Proof using Hnet. by destruct (Join_child netDir _ Hnet (node_name_plain i)). Qed.

(** The files of the nodes are different from each other and from those of the
    network. *)
Lemma node_file_inj i j a b : is_u64 i -> is_u64 j -> plain a -> plain b ->
  Join [node_dir netDir i; a] = Join [node_dir netDir j; b] -> i = j /\ a = b.
Proof using Hnet.
  intros Hi Hj Ha Hb He. apply Join_inj in He as [[_ Hc] ->]; auto using node_dir_nonempty. split; [|done].
  rewrite !(proj2 (node_dir_cleaned _)) in Hc. apply app_inj_tail in Hc as [_ Hc].
  apply app_inv_head in Hc. by apply fmt_d_inj.
Qed.

Lemma net_file_ne i a b : plain a -> plain b -> a <> b -> Join [node_dir netDir i; a] <> Join [netDir; b].
Proof using Hnet. intros Ha Hb Hab He. apply Join_inj in He as [_ He]; auto using node_dir_nonempty. Qed.
End paths.

Lemma file_plain (s : bytes) : bool_decide (plain s) = true -> plain s.
Proof. by rewrite bool_decide_eq_true. Qed.

(** ** The keys of the topology *)

Section load.
Context (AppendCertsFromPEM : bytes -> bool).

Lemma newNodes_spec seeds ns : NoDup seeds.*1 ->
  (forall i p, (i, p) ∈ seeds -> exists k, newNode AppendCertsFromPEM b32_Decode (LoadPublicKey Ed25519) i p = Ret k) ->
  exists m, newNodes AppendCertsFromPEM b32_Decode (LoadPublicKey Ed25519) seeds ns = Ret m /\
    (forall i p k, (i, p) ∈ seeds -> newNode AppendCertsFromPEM b32_Decode (LoadPublicKey Ed25519) i p = Ret k -> m !! i = Some k) /\
    (forall i, i ∉ seeds.*1 -> m !! i = ns !! i).
Proof using Type.
  revert ns. induction seeds as [|[i p] seeds IH]; intros ns Hnd Hk; cbn [newNodes].
  { exists ns. split_and!; [done|by intros i p k Hi%not_elem_of_nil|done]. }
  cbn [fmap list_fmap fst] in Hnd. apply NoDup_cons in Hnd as [Hi Hnd].
  destruct (Hk i p ltac:(by left)) as [k Hk1]. rewrite Hk1. cbn [mbind go_bind].
  destruct (IH (<[i := k]> ns) Hnd ltac:(intros j q Hj; apply Hk; by right)) as (m & Hm & Hin & Hout).
  exists m. split_and!; [done| |].
  - intros j q k' [[= -> ->]|Hj]%elem_of_cons Hk'; [|by eapply Hin].
    rewrite Hout by done. rewrite lookup_insert_eq. congruence.
  - intros j Hj. cbn [fmap list_fmap fst] in Hj. rewrite not_elem_of_cons in Hj. rewrite Hout by tauto.
    apply lookup_insert_ne. naive_solver.
Qed.
End load.

(** ** What the loop over the nodes writes *)

Section init.
Context `{ProtoOk Keys, ProtoOk NodeCfg, ProtoOk Network, ProtoOk ContractsCfg}.
Context (creatable : bytes -> bool).
Context (GenerateKey : uint64 -> go (bytes * bytes)) (certs : uint64 -> certTools).

Lemma write_encoded_inv {A} `{Proto A} path (v : A) d d' : write_encoded creatable path v d = Ret d' ->
  exists b, Marshal v = Ret b /\ dk_files d' = <[path := b]> (dk_files d).
Proof using Type.
  unfold write_encoded. destruct (_ && _); [|done]. intros (b & Hb & [= <-])%go_bind_Ret. by exists b.
Qed.

Lemma Mkdir_inv path d d' : Mkdir creatable path d = Ret d' -> dk_files d' = dk_files d.
Proof using Type. unfold Mkdir. destruct (_ && _); [|done]. by intros [= <-]. Qed.

Lemma createUnlessExists_inv path d d' : createUnlessExists creatable path d = Ret d' -> dk_files d' = dk_files d.
Proof using Type.
  unfold createUnlessExists. destruct (path_exists path d); [done|].
  destruct (Mkdir creatable path d) eqn:E; [|done..]. intros [= <-]. by apply Mkdir_inv in E.
Qed.

Lemma or_fail_inv {A} (m : go A) e x : match m with Ret y => Ret y | _ => Fail e end = Ret x -> m = Ret x.
Proof using Type. by destruct m. Qed.

(** What is known of the node [i] afterwards. *)
Definition initialised (o : initOpts) (regs : list Registry) (name netDir : bytes) (i : uint64)
    (files : gmap (list Z) bytes) (peers : gmap uint64 Peer) : Prop :=
  exists pub priv cert b c, GenerateKey i = Ret (pub, priv) /\ GenCert (certs i) ECDSA name i = Ret cert /\
    Marshal (keys_config (MkKeyPair pub priv) cert) = Ret b /\ Marshal (node_config o regs i) = Ret c /\
    files !! Join [node_dir netDir i; str "keys.yaml"] = Some b /\
    files !! Join [node_dir netDir i; str "node.yaml"] = Some c /\
    peers !! i = Some (peer_config (MkKeyPair pub priv) cert).

Lemma init_node_spec o regs name netDir i d peers d' peers' : is_u64 i -> netDir <> [] ->
  init_node creatable GenerateKey certs o regs name netDir i d peers = Ret (d', peers') ->
  initialised o regs name netDir i (dk_files d') peers' /\
  (forall j, j <> i -> peers' !! j = peers !! j) /\
  (forall f, f <> Join [node_dir netDir i; str "keys.yaml"] -> f <> Join [node_dir netDir i; str "node.yaml"] ->
     dk_files d' !! f = dk_files d !! f).
Proof using Type.
  intros Hi Hn. unfold init_node. rewrite (wrap_small 64 i) by done.
  intros (d1 & Hd1%createUnlessExists_inv & Hr)%go_bind_Ret.
  apply go_bind_Ret in Hr as ([[kp cert] d2] & Hk%or_fail_inv & Hr).
  apply go_bind_Ret in Hr as (d3 & Hw%or_fail_inv & [= <- <-]).
  apply write_encoded_inv in Hw as (c & Hc & Hw).
  apply go_bind_Ret in Hk as (kp' & Hkp%or_fail_inv & Hk).
  apply go_bind_Ret in Hk as (cert' & Hcert%or_fail_inv & Hk).
  apply go_bind_Ret in Hk as (d2' & Hk & Heq). injection Heq as -> -> ->.
  apply write_encoded_inv in Hk as (b & Hb & Hk).
  unfold GenKeyPair in Hkp. rewrite decide_True in Hkp by done.
  apply go_bind_Ret in Hkp as ([pub priv] & Hg & [= <-]).
  assert (Join [node_dir netDir i; str "keys.yaml"] <> Join [node_dir netDir i; str "node.yaml"]) as Hne.
  { intros He. apply (node_file_inj netDir Hn) in He as [_ He]; try done; by apply file_plain. }
  split_and!.
  - exists pub, priv, cert, b, c. split_and!; try done.
    + by rewrite Hw, lookup_insert_ne, Hk, lookup_insert_eq.
    + by rewrite Hw, lookup_insert_eq.
    + by rewrite lookup_insert_eq.
  - intros j Hj. by rewrite lookup_insert_ne.
  - intros f Hf1 Hf2. by rewrite Hw, lookup_insert_ne, Hk, lookup_insert_ne, Hd1.
Qed.

Lemma initialised_frame o regs name netDir i files files' peers peers' :
  initialised o regs name netDir i files peers -> peers' !! i = peers !! i ->
  files' !! Join [node_dir netDir i; str "keys.yaml"] = files !! Join [node_dir netDir i; str "keys.yaml"] ->
  files' !! Join [node_dir netDir i; str "node.yaml"] = files !! Join [node_dir netDir i; str "node.yaml"] ->
  initialised o regs name netDir i files' peers'.
Proof using Type.
  intros (pub & priv & cert & b & c & ? & ? & ? & ? & ? & ? & ?) Hp Hk Hn. exists pub, priv, cert, b, c.
  by rewrite Hk, Hn, Hp.
Qed.

Lemma init_nodes_spec o regs name netDir js d peers d' peers' :
  NoDup js -> Forall (fun i => is_u64 i) js -> netDir <> [] ->
  init_nodes creatable GenerateKey certs o regs name netDir js d peers = Ret (d', peers') ->
  (forall i, i ∈ js -> initialised o regs name netDir i (dk_files d') peers') /\
  (forall j, j ∉ js -> peers' !! j = peers !! j) /\
  (forall f, (forall i a, i ∈ js -> (a = str "keys.yaml" \/ a = str "node.yaml") -> f <> Join [node_dir netDir i; a]) ->
     dk_files d' !! f = dk_files d !! f).
Proof using Type.
  intros Hnd Hu Hn. revert d peers. induction js as [|i js IH]; intros d peers; cbn [init_nodes].
  { intros [= <- <-]. split_and!; [by intros i Hi%not_elem_of_nil|done..]. }
  intros ([d1 peers1] & Hone & Hrest)%go_bind_Ret. apply NoDup_cons in Hnd as [Hni Hnd]. apply Forall_cons in Hu as [Hi Hu].
  pose proof Hu as Hu'. rewrite Forall_forall in Hu'.
  apply init_node_spec in Hone as (Hini & Hp1 & Hf1); [|done..].
  destruct (IH Hnd Hu d1 peers1 Hrest) as (Hin & Hp & Hf). split_and!.
  - intros k [->|Hk]%elem_of_cons; [|by apply Hin].
    eapply initialised_frame; [exact Hini|by apply Hp|..]; apply Hf; intros j a Hj Ha He;
      (apply (node_file_inj netDir Hn) in He as [-> _]; [done|done|by apply Hu'|by apply file_plain|]);
      destruct Ha as [->| ->]; by apply file_plain.
  - intros j Hj. rewrite not_elem_of_cons in Hj. rewrite Hp by tauto. apply Hp1; tauto.
  - intros f Hne. rewrite Hf by (intros k a Hk; apply Hne; by right).
    apply Hf1; apply Hne; auto; by left.
Qed.

(** ** The whole command *)

Context (sha512_256 : bytes -> bytes).

(** The network that is written. *)
Definition the_network (o : initOpts) (peers : gmap uint64 Peer) (id : bytes) : Network :=
  MkNetwork (b32_Encode id) (Some (net_consensus o)) (128 * MB) peers (MkShard (o_shardCount o) (o_shardSize o)).

Lemma cmdInit_inv o name token d d' :
  cmdInit creatable GenerateKey certs sha512_256 o name token d = Ret d' ->
  plain name -> configRoot o <> [] ->
  1 <= o_shardCount o -> 1 <= o_shardSize o -> o_shardCount o * o_shardSize o < 2 ^ 63 ->
  let netDir := Join [configRoot o; name] in
  netDir <> [] /\ exists regs peers id b,
    registries_of o token = Ret regs /\
    Hash sha512_256 (the_network o peers id) = Ret id /\ Marshal (the_network o peers id) = Ret b /\
    dk_files d' !! Join [netDir; str "network.yaml"] = Some b /\
    (forall i, 1 <= i <= o_shardCount o * o_shardSize o -> initialised o regs name netDir i (dk_files d') peers) /\
    (forall i, ~ 1 <= i <= o_shardCount o * o_shardSize o -> peers !! i = None).
Proof using Type.
  intros Hc Hname Hroot Hs1 Hs2 Hlt netDir.
  assert (netDir <> []) as Hn by (by apply Join_nonempty). split; [done|].
  unfold cmdInit in Hc. fold netDir in Hc.
  apply go_bind_Ret in Hc as (d0 & _ & Hc). apply go_bind_Ret in Hc as (d1 & Hd1%createUnlessExists_inv & Hc).
  apply go_bind_Ret in Hc as (regs & Hregs & Hc).
  apply go_bind_Ret in Hc as ([d2 peers] & Hinit & Hc). cbv zeta in Hc.
  apply go_bind_Ret in Hc as (id & Hid%or_fail_inv & Hc).
  apply go_bind_Ret in Hc as (d3 & Hw%or_fail_inv & Hc%or_fail_inv).
  apply write_encoded_inv in Hw as (b & Hb & Hw). apply write_encoded_inv in Hc as (c & _ & Hc').
  assert (totalNodes o = o_shardCount o * o_shardSize o) as Ht.
  { unfold totalNodes. rewrite wrap_small by (split; nia). apply to_int_small. nia. }
  rewrite Ht in Hinit. apply init_nodes_spec in Hinit as (Hin & Hp & _);
    [|apply NoDup_seqZ|apply Forall_forall; intros i Hi%elem_of_seqZ; split; lia|done].
  exists regs, peers, id, b. split_and!; try done.
  - rewrite Hc', lookup_insert_ne, Hw, lookup_insert_eq; [done|].
    intros He. apply Join_inj in He as [_ He]; try done; by apply file_plain.
  - intros i Hi. eapply initialised_frame; [apply Hin, elem_of_seqZ; lia|done|..];
      rewrite Hc', Hw, !lookup_insert_ne; try done; apply not_eq_sym, net_file_ne; try done; by apply file_plain.
  - intros i Hi. rewrite Hp; [apply lookup_empty|]. rewrite elem_of_seqZ. lia.
Qed.

(** ** Loading the network *)

Context (AppendCertsFromPEM : bytes -> bool) (ed_Sign : bytes -> bytes -> bytes) (ed_Verify : bytes -> bytes -> bytes -> bool).

(** What is documented of the libraries: keys of the right sizes whose signatures
    are valid, certificates that can be parsed, and hashes made of bytes. *)
Record libraries_ok (name : bytes) : Prop := {
  lo_keys i pub priv : GenerateKey i = Ret (pub, priv) ->
    well_sized (MkKeyPair pub priv) /\ Forall is_byte pub /\ Forall is_byte priv /\
    forall d, ed_Verify pub d (ed_Sign priv d) = true;
  lo_certs i cert : GenCert (certs i) ECDSA name i = Ret cert -> AppendCertsFromPEM (ce_Public cert) = true;
  lo_hash d : Forall is_byte (sha512_256 d)
}.

Lemma GenCert_type i name cert : GenCert (certs i) ECDSA name i = Ret cert -> ce_Type cert = ECDSA.
Proof using Type.
  unfold GenCert. rewrite decide_True by done. intros Hc. repeat (apply go_bind_Ret in Hc as (? & _ & Hc)).
  by injection Hc as <-.
Qed.

Lemma newNode_peer name i pub priv cert : libraries_ok name -> i <> 0 ->
  GenerateKey i = Ret (pub, priv) -> GenCert (certs i) ECDSA name i = Ret cert ->
  newNode AppendCertsFromPEM b32_Decode (LoadPublicKey Ed25519) i (peer_config (MkKeyPair pub priv) cert) = Ret pub.
Proof using Type.
  intros Hok Hi Hk Hc. destruct (lo_keys _ Hok _ _ _ Hk) as ([Hlen _] & Hb & _). cbn in Hlen.
  unfold newNode, peer_config. cbn [tc_Type tc_Value sk_Type sk_Value kp_pub]. rewrite (GenCert_type _ _ _ Hc).
  rewrite (lo_certs _ Hok _ _ Hc). rewrite bool_decide_true by done. cbn [guard_fail mbind go_bind].
  rewrite !bool_decide_true by done. cbn [guard_fail mbind go_bind].
  rewrite base32_roundtrip by done. cbn [mbind go_bind]. unfold LoadPublicKey. by rewrite decide_True, Hlen by done.
Qed.

End init.

(** ** The nodes of the network *)

Section network.
Context `{ProtoOk Keys, ProtoOk NodeCfg, ProtoOk Network} {PC : Proto ContractsCfg}.
Context (creatable : bytes -> bool).
Context (GenerateKey : uint64 -> go (bytes * bytes)) (certs : uint64 -> certTools) (sha512_256 : bytes -> bytes).
Context (AppendCertsFromPEM : bytes -> bool) (ed_Sign : bytes -> bytes -> bytes) (ed_Verify : bytes -> bytes -> bytes -> bool).

(** The sizes for which node IDs fit. *)
Definition sizes_ok (o : initOpts) : Prop :=
  1 <= o_shardCount o /\ 1 <= o_shardSize o /\ o_shardCount o * (o_shardSize o + 1) < 2 ^ 63.

Abbreviation ok := (libraries_ok GenerateKey certs sha512_256 AppendCertsFromPEM ed_Sign ed_Verify).
Abbreviation init := (cmdInit creatable GenerateKey certs sha512_256).
Abbreviation netDir o name := (Join [configRoot o; name]).

Lemma Load_inv {A} `{ProtoOk A} path d (v : A) b : dk_files d !! path = Some b -> Marshal v = Ret b -> Load path d = Ret v.
Proof using Type. intros Hf Hm. unfold Load, ReadFile. rewrite Hf. cbn. by apply unmarshal_marshal. Qed.

Lemma load_signing_key_config name i pub priv cert : ok name -> GenerateKey i = Ret (pub, priv) ->
  load_signing_key (SigningKey (keys_config (MkKeyPair pub priv) cert)) = Ret (MkKeyPair pub priv).
Proof using Type.
  intros Hok Hk. destruct (lo_keys _ _ _ _ _ _ _ Hok _ _ _ Hk) as (Hw & Hb1 & Hb2 & _).
  unfold load_signing_key, keys_config. cbn [SigningKey k_Type k_Public k_Private kp_pub kp_priv].
  rewrite decide_True by done. rewrite !base32_roundtrip by done. cbn [mbind go_bind].
  destruct keypair_roundtrip as [Hl _]. specialize (Hl _ Hw). rewrite kp_Value_eq in Hl by done. cbn [kp_pub kp_priv] in Hl. by rewrite Hl.
Qed.

(** What is loaded from the files of the network. *)
Lemma network_loads o name token d d' : init o name token d = Ret d' -> ok name -> plain name -> configRoot o <> [] ->
  sizes_ok o ->
  exists net top regs, LoadNetwork (Join [netDir o name; str "network.yaml"]) d' = Ret net /\
    nw_Consensus net = Some (net_consensus o) /\ nw_MaxPayload net = 128 * MB /\
    (forall name', exists t, new_topology sha512_256 AppendCertsFromPEM name' net = Ret t /\ nodes t = nodes top /\
       topology_ok t /\ total_nodes t = o_shardCount o * o_shardSize o) /\
    (forall i, 1 <= i <= o_shardCount o * o_shardSize o -> exists pub priv cert,
       LoadKeys (Join [node_dir (netDir o name) i; str "keys.yaml"]) d' = Ret (keys_config (MkKeyPair pub priv) cert) /\
       LoadNode (Join [node_dir (netDir o name) i; str "node.yaml"]) d' = Ret (node_config o regs i) /\
       GenerateKey i = Ret (pub, priv) /\ nodes top !! i = Some pub) /\
    (forall i, ~ 1 <= i <= o_shardCount o * o_shardSize o -> nodes top !! i = None).
Proof using All.
  intros Hinit Hok Hname Hroot (Hs1 & Hs2 & Hlt).
  destruct (cmdInit_inv _ _ _ _ _ _ _ _ _ Hinit Hname Hroot Hs1 Hs2 ltac:(nia)) as (Hn & regs & peers & id & b & _ & Hid & Hb & Hf & Hin & Hout).
  pose proof (Load_inv _ _ _ _ Hf Hb) as Hload.
  assert (Forall is_byte id) as Hidb.
  { unfold Hash in Hid. apply go_bind_Ret in Hid as (data & _ & [= <-]). apply (lo_hash _ _ _ _ _ _ _ Hok). }
  assert (forall i p, peers !! i = Some p -> exists pub priv cert, 1 <= i <= o_shardCount o * o_shardSize o /\
    GenerateKey i = Ret (pub, priv) /\ p = peer_config (MkKeyPair pub priv) cert /\
    newNode AppendCertsFromPEM b32_Decode (LoadPublicKey Ed25519) i p = Ret pub) as Hpeer.
  { intros i p Hi. destruct (decide (1 <= i <= o_shardCount o * o_shardSize o)) as [Hr|Hr]; [|by rewrite Hout in Hi].
    destruct (Hin i Hr) as (pub & priv & cert & _ & _ & Hg & Hc & _ & _ & _ & _ & Hp). rewrite Hi in Hp. injection Hp as ->.
    exists pub, priv, cert. do 3 (split; [done|]). eapply newNode_peer; [exact Hok|lia|done|done]. }
  destruct (newNodes_spec AppendCertsFromPEM (map_to_list peers) ∅) as (m & Hm & Hm1 & Hm2).
  { apply NoDup_fst_map_to_list. }
  { intros i p (pub & ? & ? & _ & _ & _ & ?)%elem_of_map_to_list%Hpeer. eauto. }
  exists (the_network o peers id), (MkTopology ∅ [] [] m [] 0 0), regs. split_and!; [exact Hload|done..| | |].
  - intros name'. exists (MkTopology ∅ (b32_Encode id) name' m id (o_shardCount o) (o_shardSize o)).
    split_and!; [|done|split_and!; cbn; nia|unfold total_nodes; cbn; apply wrap_small; split; nia].
    unfold new_topology, New. cbn [SeedNodes n_ID the_network nw_ID nw_SeedNodes Shard_Count Shard_Size nw_Shard sh_Count sh_Size].
    rewrite Hm. cbn [mbind go_bind]. rewrite base32_roundtrip by done. cbn [mbind go_bind]. rewrite Hid. cbn [mbind go_bind].
    rewrite bool_decide_true by done. cbn [guard_fail mbind go_bind]. rewrite !wrap_small by (split; nia). done.
  - intros i Hi. destruct (Hin i Hi) as (pub & priv & cert & bk & bc & Hg & Hc & Hbk & Hbc & Hfk & Hfn & Hp).
    exists pub, priv, cert. split_and!; [by eapply Load_inv| |done|].
    + unfold LoadNode. by rewrite (Load_inv _ _ _ _ Hfn Hbc).
    + cbn. eapply Hm1; [by apply elem_of_map_to_list|]. eapply newNode_peer; [exact Hok|lia|done|done].
  - intros i Hi. cbn. rewrite Hm2; [apply lookup_empty|]. intros ([j p] & -> & Hj)%list_elem_of_fmap.
    apply elem_of_map_to_list in Hj. cbn in Hi. by rewrite Hout in Hj.
Qed.

(** The files that [cmdInit] writes make a network: they are loaded again,
    the topology is accepted and has the given shards, the key file of each node
    holds the key pair that was generated for it, the topology knows exactly the
    public keys of these nodes, and each node starts with its files, with this
    key pair, whenever the services it depends on do. *)
Theorem initialised_network_starts o name token d d' : init o name token d = Ret d' -> ok name -> plain name ->
  configRoot o <> [] -> sizes_ok o ->
  exists net top, LoadNetwork (Join [netDir o name; str "network.yaml"]) d' = Ret net /\
    new_topology sha512_256 AppendCertsFromPEM name net = Ret top /\
    topology_ok top /\ total_nodes top = o_shardCount o * o_shardSize o /\
    (forall i, ~ 1 <= i <= total_nodes top -> SeedPublicKeys top !! i = None) /\
    forall i, 1 <= i <= total_nodes top -> exists keys ncfg kp,
      LoadKeys (Join [node_dir (netDir o name) i; str "keys.yaml"]) d' = Ret keys /\
      LoadNode (Join [node_dir (netDir o name) i; str "node.yaml"]) d' = Ret ncfg /\
      GenerateKey i = Ret (kp_pub kp, kp_priv kp) /\ SeedPublicKeys top !! i = Some (kp_pub kp) /\
      forall E dir contracts co so, permissive E -> dir <> [] -> exists srv top',
        returns (Run sha512_256 AppendCertsFromPEM E (MkRunConfig dir keys net name i ncfg contracts co so)) (srv, kp, top').
Proof using All.
  intros Hinit Hok Hname Hroot Hs.
  destruct (network_loads o name token d d' Hinit Hok Hname Hroot Hs) as (net & top & regs & Hnet & Hcons & Hmax & Htop & Hin & Hout).
  destruct (Htop name) as (t & Ht & Hnodes & Htok & Htot). exists net, t. split_and!; try done.
  { intros i Hi. unfold SeedPublicKeys. rewrite Hnodes. apply Hout. lia. }
  intros i Hi. destruct (Hin i ltac:(lia)) as (pub & priv & cert & Hk & Hn & Hg & Hp).
  exists (keys_config (MkKeyPair pub priv) cert), (node_config o regs i), (MkKeyPair pub priv).
  split_and!; try done; [unfold SeedPublicKeys; by rewrite Hnodes|].
  intros E dir contracts co so HE Hdir.
  pose proof (load_signing_key_config name i pub priv cert Hok Hg) as Hl.
  destruct (Run_returns sha512_256 AppendCertsFromPEM E (MkRunConfig dir (keys_config (MkKeyPair pub priv) cert) net name i
    (node_config o regs i) contracts co so) t (MkKeyPair pub priv) (128 * MB) (net_consensus o)) as ([[srv key] top'] & tr & Hr);
    cbn [rc_Directory rc_Node rc_NetworkName rc_Network rc_NodeID rc_Keys]; try done.
  { by rewrite Hmax. }
  pose proof (Run_inv _ _ _ _ _ _ _ _ Hr) as (_ & _ & _ & _ & Hl' & _). cbn [rc_Keys] in Hl'. rewrite Hl in Hl'.
  injection Hl' as <-. exists srv, top'. by exists tr.
Qed.

(** C37. Every node of an initialised network admits the hellos that any other
    one signs for it with the key that it loaded, as long as their clocks differ
    by at most thirty seconds. *)
Theorem initialised_nodes_admit_each_other `{ProtoOk HelloInfo} o name token d d' net i j ki ci cj Ei Ej ri rj si sj keyi keyj
    topi topj nonce ts now type hello :
  init o name token d = Ret d' -> ok name -> plain name -> configRoot o <> [] -> sizes_ok o ->
  1 <= i <= o_shardCount o * o_shardSize o -> 1 <= j <= o_shardCount o * o_shardSize o ->
  LoadNetwork (Join [netDir o name; str "network.yaml"]) d' = Ret net ->
  LoadKeys (Join [node_dir (netDir o name) i; str "keys.yaml"]) d' = Ret ki ->
  rc_Network ci = net -> rc_Keys ci = ki -> rc_NodeID ci = i ->
  rc_Network cj = net -> rc_NodeID cj = j ->
  Run sha512_256 AppendCertsFromPEM Ei ci = (ri, Ret (si, keyi, topi)) ->
  Run sha512_256 AppendCertsFromPEM Ej cj = (rj, Ret (sj, keyj, topj)) ->
  SignHello (ed_Sign (kp_priv keyi)) nonce ts i j type = Ret hello -> he_Payload hello <> [] ->
  Z.abs (now - ts) <= 30 * sec -> verifyPeerID ed_Verify now hello sj = Ret i.
Proof using All.
  intros Hinit Hok Hname Hroot Hs Hi Hj Hnet Hki Hci1 Hci2 Hci3 Hcj1 Hcj3 Hri Hrj Hsig Hp Ht.
  destruct (network_loads o name token d d' Hinit Hok Hname Hroot Hs) as (net' & top & regs & Hnet' & Hcons & Hmax & Htop & Hin & Hout).
  rewrite Hnet in Hnet'. injection Hnet' as <-.
  destruct (Hin i Hi) as (pub & priv & cert & Hk & _ & Hg & Hpi). rewrite Hki in Hk. injection Hk as ->.
  apply Run_inv in Hri as (_ & _ & _ & _ & Hli & _). rewrite Hci2, (load_signing_key_config name i _ _ _ Hok Hg) in Hli.
  injection Hli as <-.
  apply Run_inv in Hrj as (t & c & Htj & Hnj & _ & Hcj & ->). rewrite Hcj1 in Htj, Hcj. rewrite Hcons in Hcj. injection Hcj as <-.
  destruct (Htop (rc_NetworkName cj)) as (t' & Ht' & Hnodes & _). rewrite Ht' in Htj. injection Htj as <-.
  eapply hello_accepted; cbn [se_id se_keys se_nonceExpiration se_nonceMap]; try done.
  - by rewrite Hcj3.
  - exists pub. unfold SeedPublicKeys. rewrite Hnj, Hnodes. split; [done|].
    by destruct (lo_keys _ _ _ _ _ _ _ Hok _ _ _ Hg) as (_ & _ & _ & Hv).
Qed.
End network.
