(* ===== verification/InitRun.v ===== *)
(** * InitRun: a network of two nodes

    A run of [cmdInit] and the start of its nodes, as instances of the theorems
    about them. *)
From Stdlib Require Import Floats.SpecFloat.
From S2P Require Import Prelude Traced Database Config Topology LogFields Codec Conn Node Base32 Signature Paths Settings Init NodeRun NodeRunProps InitProps.

#[local] Instance spec_float_eq_dec : EqDecision spec_float.
Proof. solve_decision. Defined.
#[local] Instance Peer_eq_dec : EqDecision Peer.
Proof. solve_decision. Defined.
#[local] Instance Keys_eq_dec : EqDecision Keys.
Proof. unfold EqDecision. assert (EqDecision Key) by solve_decision. solve_decision. Defined.
#[local] Instance NetConsensus_eq_dec : EqDecision NetConsensus.
Proof. solve_decision. Defined.
#[local] Instance Shard_eq_dec : EqDecision Shard.
Proof. solve_decision. Defined.
#[local] Instance Network_eq_dec : EqDecision Network.
Proof. solve_decision. Defined.
#[local] Instance Announce_eq_dec : EqDecision Announce.
Proof. solve_decision. Defined.
#[local] Instance Bootstrap_eq_dec : EqDecision Bootstrap.
Proof. solve_decision. Defined.
#[local] Instance SBroadcast_eq_dec : EqDecision Broadcast.
Proof. solve_decision. Defined.
#[local] Instance SConnections_eq_dec : EqDecision Connections.
Proof. solve_decision. Defined.
#[local] Instance RateLimit_eq_dec : EqDecision RateLimit.
Proof. solve_decision. Defined.
#[local] Instance NodeConsensus_eq_dec : EqDecision NodeConsensus.
Proof. solve_decision. Defined.
#[local] Instance NodeContracts_eq_dec : EqDecision NodeContracts.
Proof. solve_decision. Defined.
#[local] Instance HTTP_eq_dec : EqDecision HTTP.
Proof. solve_decision. Defined.
#[local] Instance SLogging_eq_dec : EqDecision Logging.
Proof. solve_decision. Defined.
#[local] Instance PubsubCfg_eq_dec : EqDecision PubsubCfg.
Proof. solve_decision. Defined.
#[local] Instance Registry_eq_dec : EqDecision Registry.
Proof. solve_decision. Defined.
#[local] Instance NodeCfg_eq_dec : EqDecision NodeCfg.
Proof. solve_decision. Defined.
#[local] Instance DockerContract_eq_dec : EqDecision DockerContract.
Proof. solve_decision. Defined.
#[local] Instance Contract_eq_dec : EqDecision Contract.
Proof. solve_decision. Defined.
#[local] Instance ContractsCfg_eq_dec : EqDecision ContractsCfg.
Proof. solve_decision. Defined.
#[local] Instance HelloInfo_eq_dec : EqDecision HelloInfo.
Proof. solve_decision. Defined.

(** A serialiser of the values of a list, by their position. *)
Fixpoint position {A} `{EqDecision A} (v : A) (l : list A) : option nat :=
  match l with [] => None | x :: l => if decide (v = x) then Some 0%nat else S <$> position v l end.
Definition table_proto {A} `{EqDecision A} (l : list A) : Proto A := {|
  Marshal v := match position v l with Some i => Ret [Z.of_nat i] | None => Fail "unknown" end;
  Unmarshal b := match b with [i] => match l !! Z.to_nat i with Some v => Ret v | None => Fail "unknown" end | _ => Fail "unknown" end
|}.

Lemma position_lookup {A} `{EqDecision A} (v : A) l i : position v l = Some i -> l !! i = Some v.
Proof.
  revert i. induction l as [|x l IH]; intros i; cbn; [done|]. case_decide as Hx; [intros [= <-]; by subst|].
  destruct (position v l) as [j|]; [|done]. intros [= <-]. cbn. by apply IH.
Qed.
Lemma table_proto_ok {A} `{EqDecision A} (l : list A) : @ProtoOk A (table_proto l).
Proof.
  intros v b. cbn. destruct (position v l) as [i|] eqn:Hp; [|done]. intros [= <-].
  rewrite Nat2Z.id. by rewrite (position_lookup _ _ _ Hp).
Qed.

(** The libraries: a key is repeated bytes, and a signature is its first one. *)
Definition ex_GenerateKey (i : uint64) : go (bytes * bytes) := Ret (replicate 32 (i mod 256), replicate 64 (i mod 256)).
Definition ex_certs (i : uint64) : certTools :=
  MkCertTools (Ret [i]) (fun k => Ret k) (fun _ k => Ret k) (fun t b => Ret (t ++ b)) 0.
Definition ex_sha (d : bytes) : bytes := [7].
Definition ex_Append (b : bytes) : bool := true.
Definition ex_Sign (priv d : bytes) : bytes := take 1 priv.
Definition ex_Verify (pub d sig : bytes) : bool := bool_decide (take 1 pub = sig).
Definition ex_creatable (p : bytes) : bool := true.

Definition ex_opts : initOpts := MkInitOpts (str "/root/.chainspace") [] 1 2 0 true false false 0 0.
Definition ex_name : bytes := str "testnet".
Definition ex_keys (i : uint64) : Keys := default (MkKeys (MkKey [] [] []) (MkKey [] [] []))
  (match ex_GenerateKey i, GenCert (ex_certs i) ECDSA ex_name i with
   | Ret (pub, priv), Ret c => Some (keys_config (MkKeyPair pub priv) c) | _, _ => None end).
Definition ex_peer (i : uint64) : Peer := default (MkPeer [] [] [] [])
  (match ex_GenerateKey i, GenCert (ex_certs i) ECDSA ex_name i with
   | Ret (pub, priv), Ret c => Some (peer_config (MkKeyPair pub priv) c) | _, _ => None end).
Definition ex_peers : gmap uint64 Peer := <[2 := ex_peer 2]> (<[1 := ex_peer 1]> ∅).
Definition ex_network : Network := the_network ex_opts ex_peers [7].
Definition ex_hello_info : HelloInfo := MkHelloInfo 1 [5] 2 1000.

#[local] Instance ex_keys_proto : Proto Keys := table_proto [ex_keys 1; ex_keys 2].
#[local] Instance ex_keys_ok : ProtoOk Keys := table_proto_ok _.
#[local] Instance ex_node_proto : Proto NodeCfg := table_proto [node_config ex_opts [] 1; node_config ex_opts [] 2].
#[local] Instance ex_node_ok : ProtoOk NodeCfg := table_proto_ok _.
#[local] Instance ex_network_proto : Proto Network :=
  table_proto [ex_network; MkNetwork [] None 0 ex_peers (MkShard 1 2)].
#[local] Instance ex_network_ok : ProtoOk Network := table_proto_ok _.
#[local] Instance ex_contracts_proto : Proto ContractsCfg := table_proto [default_contracts].
#[local] Instance ex_contracts_ok : ProtoOk ContractsCfg := table_proto_ok _.
#[local] Instance ex_hello_proto : Proto HelloInfo := table_proto [ex_hello_info].
#[local] Instance ex_hello_ok : ProtoOk HelloInfo := table_proto_ok _.

Definition is_ret {A} (m : go A) : bool := match m with Ret _ => true | _ => false end.

Definition ex_disk : disk := default (MkDisk ∅ ∅)
  (match cmdInit ex_creatable ex_GenerateKey ex_certs ex_sha ex_opts ex_name (Ret []) (MkDisk ∅ ∅) with
   | Ret d => Some d | _ => None end).

Lemma ex_init : cmdInit ex_creatable ex_GenerateKey ex_certs ex_sha ex_opts ex_name (Ret []) (MkDisk ∅ ∅) = Ret ex_disk.
Proof.
  assert (is_ret (cmdInit ex_creatable ex_GenerateKey ex_certs ex_sha ex_opts ex_name (Ret []) (MkDisk ∅ ∅)) = true)
    as H by (vm_compute; reflexivity).
  unfold ex_disk. by destruct (cmdInit _ _ _ _ _ _ _ _).
Qed.

Lemma ex_libraries : libraries_ok ex_GenerateKey ex_certs ex_sha ex_Append ex_Sign ex_Verify ex_name.
Proof.
  split.
  - intros i pub priv Hk. unfold ex_GenerateKey in Hk.
    assert (forall n, Forall is_byte (replicate n (i mod 256))) as Hb.
    { intros n. apply Forall_replicate. apply (Z.mod_pos_bound i 256). lia. }
    assert (pub = replicate 32 (i mod 256) /\ priv = replicate 64 (i mod 256)) as [-> ->] by (by injection Hk).
    split_and!; [done|apply Hb|apply Hb|]. intros d. by apply bool_decide_true.
  - done.
  - intros d. constructor; [unfold in_width; lia|constructor].
Qed.

Lemma ex_sizes : sizes_ok ex_opts.
Proof. unfold sizes_ok. cbn. lia. Qed.
Lemma ex_plain : plain ex_name.
Proof. by apply file_plain. Qed.

Definition ex_env : env := MkEnv (fun _ => true) (fun _ => Some true) (fun p => Ret p) (fun _ => 9000).
Lemma ex_permissive : permissive ex_env.
Proof. split_and!; [done|done|]. intros p. by exists p. Qed.
Definition ex_cfg (i : uint64) : RunConfig :=
  MkRunConfig (str "/run/node") (ex_keys i) ex_network ex_name i (node_config ex_opts [] i) default_contracts false false.

(** Two nodes start from their files. *)
Lemma initialised_network_starts_witness : exists net keys srv kp top,
  LoadNetwork (str "/root/.chainspace/testnet/network.yaml") ex_disk = Ret net /\
  LoadKeys (str "/root/.chainspace/testnet/node-2/keys.yaml") ex_disk = Ret keys /\
  returns (Run ex_sha ex_Append ex_env (MkRunConfig (str "/run/node") keys net ex_name 2 (node_config ex_opts [] 2)
             default_contracts false false)) (srv, kp, top) /\ kp_pub kp = replicate 32 2.
Proof.
  destruct (initialised_network_starts ex_creatable ex_GenerateKey ex_certs ex_sha ex_Append ex_Sign ex_Verify ex_opts ex_name
              (Ret []) (MkDisk ∅ ∅) ex_disk ex_init ex_libraries ex_plain ltac:(done) ex_sizes)
    as (net & top & Hnet & _ & _ & Htot & _ & Hin).
  destruct (Hin 2 ltac:(rewrite Htot; cbn; lia)) as (keys & ncfg & kp & Hk & Hn & Hg & _ & Hrun).
  assert (LoadNode (Join [node_dir (Join [configRoot ex_opts; ex_name]) 2; str "node.yaml"]) ex_disk =
          Ret (node_config ex_opts [] 2)) as Hn' by (by vm_compute).
  rewrite Hn in Hn'. injection Hn' as ->.
  destruct (Hrun ex_env (str "/run/node") default_contracts false false ex_permissive ltac:(done)) as (srv & top' & Hr).
  exists net, keys, srv, kp, top'. split; [exact Hnet|]. split; [exact Hk|]. split; [exact Hr|]. by injection Hg as <- _.
Defined.

Definition ex_started (i : uint64) : list call * go (Server * KeyPair * Topology) := Run ex_sha ex_Append ex_env (ex_cfg i).
Definition ex_node (i : uint64) : Server * KeyPair * Topology :=
  match (ex_started i).2 with Ret r => r | _ => (MkServer 0 ∅ 0 ∅, MkKeyPair [] [], MkTopology ∅ [] [] ∅ [] 0 0) end.
Definition ex_hello : Hello := match SignHello (ex_Sign (kp_priv (ex_node 1).1.2)) (Some [5]) 1000 1 2 CONNECTION_SBAC with
  Ret h => h | _ => MkHello [] [] [] 0 end.

(** The second node admits the first one. *)
Lemma initialised_nodes_admit_each_other_witness : verifyPeerID ex_Verify 2000 ex_hello (ex_node 2).1.1 = Ret 1.
Proof.
  apply (initialised_nodes_admit_each_other ex_creatable ex_GenerateKey ex_certs ex_sha ex_Append ex_Sign ex_Verify ex_opts ex_name
    (Ret []) (MkDisk ∅ ∅) ex_disk ex_network 1 2 (ex_keys 1) (ex_cfg 1) (ex_cfg 2) ex_env ex_env (ex_started 1).1 (ex_started 2).1
    (ex_node 1).1.1 (ex_node 2).1.1 (ex_node 1).1.2 (ex_node 2).1.2 (ex_node 1).2 (ex_node 2).2 (Some [5]) 1000 2000
    CONNECTION_SBAC ex_hello); first [exact ex_init | exact ex_libraries | exact ex_plain | exact ex_sizes | by vm_compute].
Defined.

(** The database cannot be opened: the context is cancelled. *)
Definition ex_no_kv : env := MkEnv (fun c => match c with KvNew _ => false | _ => true end) (fun _ => Some true) (fun p => Ret p) (fun _ => 9000).
Lemma failed_run_is_cancelled_witness : last (Run ex_sha ex_Append ex_no_kv (ex_cfg 1)).1 = Some Cancel.
Proof.
  destruct (failed_run_is_cancelled ex_sha ex_Append ex_no_kv (ex_cfg 1) (Run ex_sha ex_Append ex_no_kv (ex_cfg 1)).1
              "node: unable to instantiate the kv service: %v") as [H|(H & _)].
  - by vm_compute.
  - eexists. apply (list_elem_of_lookup_2 _ 7). vm_compute. reflexivity.
  - exact H.
  - exfalso. revert H. assert (Forall (fun c => c <> Serve) (Run ex_sha ex_Append ex_no_kv (ex_cfg 1)).1) as Hf.
    { vm_compute. repeat constructor; done. }
    rewrite Forall_forall in Hf. intros H. by apply Hf in H.
Defined.
