(* ===== verification/Contracts.v ===== *)
(** * Contracts: the checkers of the contracts and their containers

    Model of [src/contracts].  The clients of HTTP and of the Docker daemon, the
    parsing of URLs and of JSON are parameters; the calls of the daemon are
    recorded in order. *)
From Stdlib Require Import Floats.SpecFloat.
From S2P Require Import Prelude Traced Codec Database Config Topology LogFields SbacStore SbacTypes Checker.
From S2P Require Import CheckerProps Base64 Paths Settings.

(** ** [checker.go] *)

Record ContractChecker := MkContractChecker { iD : bytes; procedureName : bytes; addr : bytes }.
#[export] Instance ContractChecker_eq_dec : EqDecision ContractChecker.
Proof. solve_decision. Defined.

(** The body of a request. *)
Inductive trace := MkTraceBody
  (Dependencies : list trace)
  (Inputs : list bytes)
  (Outputs : list OutputObject)
  (Parameters ReferenceInputs Returns : list bytes).

Definition encodeToStrings (ls : list bytes) : list bytes := EncodeToString <$> ls.
Definition toStringSlice (s : list bytes) : list bytes := s.

Fixpoint makeTrace_dep (t : Trace) : trace :=
  let 'MkTrace _ _ _ _ outs params rets deps ins refs := t in
  MkTraceBody (map makeTrace_dep deps) (toStringSlice ins) outs (toStringSlice params) (toStringSlice refs) (toStringSlice rets).
Definition makeTrace (inputs refInputs parameters : list bytes) (outputs : list OutputObject) (returns : list bytes)
    (traces : list Trace) : trace :=
  MkTraceBody (makeTrace_dep <$> traces) (toStringSlice inputs) outputs (toStringSlice parameters)
    (toStringSlice refInputs) (toStringSlice returns).

Fixpoint unmarshalIfaceSlice {V} (unmarshal : bytes -> go V) (ls : list bytes) : go (list V) :=
  match ls with
  | [] => Ret []
  | v :: ls =>
      match unmarshal v with
      | Ret val => out ← unmarshalIfaceSlice unmarshal ls; Ret (val :: out)
      | _ => Fail "unable to Unmarshal slice"
      end
  end.

Record URL := MkURL { u_Scheme : bytes; u_Host : bytes; u_Path : bytes }.
Definition set_Path (u : URL) (p : bytes) : URL := MkURL (u_Scheme u) (u_Host u) p.

Section contracts.
(** A POST request with the JSON of the body, within a second, and the field
    [success] of the JSON of its response. *)
Context (post : bytes -> trace -> go bytes) (parse_success : bytes -> go bool).
(** [http.Get] and the field [ok]. *)
Context (get : bytes -> go bytes) (parse_ok : bytes -> go bool).
Context (url_Parse : bytes -> option URL) (url_String : URL -> bytes).

Definition contract_Check (c : ContractChecker) (inputs refInputs parameters : list bytes) (outputs : list OutputObject)
    (returns : list bytes) (dependencies : list Trace) : bool :=
  let body := makeTrace inputs refInputs parameters outputs returns dependencies in
  match post (addr c) body with
  | Ret bresp => match parse_success bresp with Ret success => success | _ => false end
  | _ => false
  end.

(** The interface that [checker] asks for. *)
Definition as_Checker (c : ContractChecker) : Checker := MkChecker (iD c) (procedureName c) (contract_Check c).

(** An URL that cannot be parsed is a nil pointer. *)
Fixpoint NewCheckers_loop (name u : bytes) (procedures : list bytes) : go (list ContractChecker) :=
  match procedures with
  | [] => Ret []
  | v :: procedures =>
      _u ← or_crash (url_Parse (Join [u; v]));
      checkers ← NewCheckers_loop name u procedures;
      Ret (MkContractChecker name v (url_String _u) :: checkers)
  end.
Definition NewCheckers (cfg : Contract) : go (list ContractChecker) :=
  NewCheckers_loop (co_Name cfg) (Join [co_Addr cfg; co_Name cfg]) (co_Procedures cfg).

Definition NewDockerCheckers (cfg : DockerContract) : go (list ContractChecker) :=
  u ← or_crash (url_Parse (str "http://0.0.0.0:" ++ dc_HostPort cfg));
  let u := set_Path u (Join [u_Path u; dc_Name cfg]) in
  Ret ((fun v => MkContractChecker (dc_Name cfg) v (url_String (set_Path u (Join [u_Path u; v])))) <$> dc_Procedures cfg).

(** ** [contracts.go] *)

Fixpoint collect {A B} (f : A -> go (list B)) (l : list A) : go (list B) :=
  match l with
  | [] => Ret []
  | x :: l => ys ← f x; zs ← collect f l; Ret (ys ++ zs)
  end.
Definition GetCheckers (cfg : ContractsCfg) : go (list ContractChecker) :=
  docker ← collect NewDockerCheckers (DockerContracts cfg);
  others ← collect NewCheckers (Contracts cfg);
  Ret (docker ++ others).

Definition callHealthCheck (address : bytes) : go () :=
  b ← get address;
  ok ← match parse_ok b with Ret ok => Ret ok | _ => Fail "unable to unmarshal response from healthcheck: %v" end;
  guard_fail ok "invalid healthcheck response".

(** The address of a health check; an URL that cannot be parsed ends the
    process. *)
Definition health_address (fatal : string) (base path : bytes) : go bytes :=
  match url_Parse base with
  | Some u => Ret (url_String (set_Path u (Join [u_Path u; path])))
  | None => Fail fatal
  end.
Fixpoint check_all (fatal unavailable : string) (l : list (bytes * bytes)) : go () :=
  match l with
  | [] => Ret tt
  | (base, path) :: l =>
      address ← health_address fatal base path;
      _ ← match callHealthCheck address with Ret _ => Ret tt | Crash => Crash | Fail _ => Fail unavailable end;
      check_all fatal unavailable l
  end.
Definition EnsureUp (cfg : ContractsCfg) : go () :=
  _ ← check_all "unable to parse docker contract url" "docker contract '%v' is unavailable, %v"
        ((fun c => (str "http://0.0.0.0:" ++ dc_HostPort c, dc_HealthCheckURL c)) <$> DockerContracts cfg);
  check_all "unable to parse contract url" "contract '%v' is unavailable, %v"
    ((fun c => (co_Addr c, co_HealthCheckURL c)) <$> Contracts cfg).
End contracts.

(** *** Containers *)

Record Container := MkContainer { cn_ID : bytes; cn_Names : list bytes; cn_State : bytes }.
Abbreviation ImageSummary := (list bytes) (only parsing).  (* the tags *)

Inductive docker_call :=
  | ImageList
  | ContainerList
  | ContainerCreate (name image port hostIP hostPort : bytes)
  | ContainerStart (id : bytes)
  | ContainerStop (id : bytes)
  | ContainerRemove (id : bytes).

(** What the daemon answers. *)
Record daemon := MkDaemon {
  da_images : go (list ImageSummary);
  da_containers : go (list Container);
  da_create : bytes -> go bytes;
  da_stop : bytes -> bool }.

Section docker.
Context (D : daemon).
Abbreviation dk := (traced docker_call) (only parsing).

Definition container_name (cfg : DockerContract) : bytes := str "/chainspace-" ++ dc_Name cfg.

Definition containerExists (cfg : DockerContract) (containers : list Container) : option (bytes * bytes) :=
  c ← list_find (fun c => container_name cfg ∈ cn_Names c) containers;
  Some (cn_ID c.2, cn_State c.2).

Definition createContainer (cfg : DockerContract) : dk bytes :=
  let name := str "chainspace-" ++ dc_Name cfg in
  let* _ := log_call (ContainerCreate name (dc_Image cfg) (dc_Port cfg ++ str "/tcp") (str "0.0.0.0") (dc_HostPort cfg)) in
  pure (match da_create D name with Ret id => Ret id | _ => Fail "unable to create container, %v" end).

Definition ensureImageExists (cfg : DockerContract) (images : list ImageSummary) : go () :=
  guard_fail (existsb (fun tags => existsb (fun tag => bool_decide (dc_Image cfg = tag)) tags) images)
    "unable to find the docker image '%v', please pull the image then restart the chainspace node".

(** The error of [ContainerStart] is dropped. *)
Definition startContainer (cfg : DockerContract) (images : list ImageSummary) (containers : list Container) : dk () :=
  let* _ := pure (ensureImageExists cfg images) in
  let* c := match containerExists cfg containers with
            | Some c => rn_ret c
            | None => let* id := createContainer cfg in rn_ret (id, [])
            end in
  let '(containerID, state) := c in
  when (bool_decide (state <> str "running")) (log_call (ContainerStart containerID)).

Definition stopContainer (cfg : DockerContract) (containers : list Container) : dk () :=
  match list_find (fun c => container_name cfg ∈ cn_Names c) containers with
  | Some (_, c) =>
      let* _ := log_call (ContainerStop (cn_ID c)) in
      when (da_stop D (cn_ID c)) (log_call (ContainerRemove (cn_ID c)))
  | None => rn_ret tt
  end.

Fixpoint start_all (cfgs : list DockerContract) (images : list ImageSummary) (containers : list Container) : dk () :=
  match cfgs with
  | [] => rn_ret tt
  | v :: cfgs => let* _ := startContainer v images containers in start_all cfgs images containers
  end.
Definition ct_Start (cfg : ContractsCfg) : dk () :=
  let* _ := log_call ImageList in
  let* images := pure (match da_images D with Ret l => Ret l | _ => Fail "unable to load docker image list, %v" end) in
  let* _ := log_call ContainerList in
  let* containers := pure (match da_containers D with Ret l => Ret l | _ => Fail "unable to load docker containers lists, %v" end) in
  start_all (DockerContracts cfg) images containers.

Fixpoint stop_all (cfgs : list DockerContract) (containers : list Container) : dk () :=
  match cfgs with
  | [] => rn_ret tt
  | v :: cfgs => let* _ := stopContainer v containers in stop_all cfgs containers
  end.
Definition ct_Stop (cfg : ContractsCfg) : dk () :=
  let* _ := log_call ContainerList in
  let* containers := pure (match da_containers D with Ret l => Ret l | _ => Fail "unable to load docker containers lists, %v" end) in
  stop_all (DockerContracts cfg) containers.
End docker.

(** * Which checker decides, and which containers run *)

(** ** The checker of a trace *)

(** The checkers of a contract and procedure. *)
Definition matches (id name : bytes) (c : Checker) : Prop := ck_ContractID c = id /\ ck_Name c = name.
#[export] Instance matches_dec id name c : Decision (matches id name c) := _.

(** The last one that is configured is used. *)
Lemma newCheckers_lookup cs m id name :
  (newCheckers cs m !! id) ≫= (fun mm => mm !! name) =
  match last (filter (matches id name) cs) with Some c => Some c | None => (m !! id) ≫= (fun mm => mm !! name) end.
Proof.
  revert m. induction cs as [|c cs IH]; intros m; cbn [newCheckers]; [done|].
  rewrite IH, filter_cons. destruct (decide (matches id name c)) as [Hm|Hm].
  - rewrite last_cons. destruct (last _) as [c'|]; [done|]. destruct Hm as [<- <-].
    destruct (m !! ck_ContractID c); rewrite lookup_insert_eq; cbn; by simplify_map_eq.
  - destruct (last _) as [c'|]; [done|]. unfold matches in Hm.
    destruct (m !! ck_ContractID c) as [mm|] eqn:Em; destruct (decide (ck_ContractID c = id)) as [<-|Hid].
    + rewrite lookup_insert_eq, Em. cbn. apply lookup_insert_ne. tauto.
    + by rewrite lookup_insert_ne.
    + rewrite lookup_insert_eq, Em. cbn. rewrite lookup_singleton_ne by tauto. done.
    + by rewrite lookup_insert_ne.
Qed.

Section checkers.
Context (post : bytes -> trace -> go bytes) (parse_success : bytes -> go bool).
Context (url_Parse : bytes -> option URL) (url_String : URL -> bytes).

(** The contract at this address accepts the trace. *)
Definition accepts (address : bytes) (t : Trace) : Prop :=
  exists resp, post address (makeTrace (InputObjects t) (InputReferences t) (Parameters t) (OutputObjects t) (Returns t) (Dependencies t)) = Ret resp /\
    parse_success resp = Ret true.

Lemma as_Checker_filter id name (cs : list ContractChecker) :
  filter (matches id name) (as_Checker post parse_success <$> cs) =
  as_Checker post parse_success <$> filter (fun c => iD c = id /\ procedureName c = name) cs.
Proof using Type.
  induction cs as [|c cs IH]; [done|]. cbn [fmap list_fmap]. rewrite !filter_cons.
  destruct (decide (iD c = id /\ procedureName c = name)) as [H|H].
  - rewrite decide_True by exact H. cbn. by f_equal.
  - rewrite decide_False by exact H. done.
Qed.

(** The address of a configured procedure. *)
Definition configured (cfg : ContractsCfg) (c : ContractChecker) : Prop :=
  (exists d u, d ∈ DockerContracts cfg /\ iD c = dc_Name d /\ procedureName c ∈ dc_Procedures d /\
     url_Parse (str "http://0.0.0.0:" ++ dc_HostPort d) = Some u /\
     addr c = url_String (set_Path u (Join [Join [u_Path u; dc_Name d]; procedureName c]))) \/
  (exists d u, d ∈ Contracts cfg /\ iD c = co_Name d /\ procedureName c ∈ co_Procedures d /\
     url_Parse (Join [Join [co_Addr d; co_Name d]; procedureName c]) = Some u /\ addr c = url_String u).

Lemma collect_elem {A B} (f : A -> go (list B)) l ys y : collect f l = Ret ys -> y ∈ ys ->
  exists x zs, x ∈ l /\ f x = Ret zs /\ y ∈ zs.
Proof using Type.
  revert ys. induction l as [|x l IH]; intros ys; cbn; [intros [= <-] Hy; by apply not_elem_of_nil in Hy|].
  intros (zs & Hf & (zs' & Hc & [= <-])%go_bind_Ret)%go_bind_Ret Hy. apply elem_of_app in Hy as [Hy|Hy].
  - exists x, zs. split; [by left|done].
  - destruct (IH zs' Hc Hy) as (x' & zs2 & ? & ? & ?). exists x', zs2. split; [by right|done].
Qed.

Lemma NewCheckers_elem name u ps cs c : NewCheckers_loop url_Parse url_String name u ps = Ret cs -> c ∈ cs ->
  iD c = name /\ procedureName c ∈ ps /\ exists _u, url_Parse (Join [u; procedureName c]) = Some _u /\ addr c = url_String _u.
Proof using Type.
  revert cs. induction ps as [|v ps IH]; intros cs; cbn [NewCheckers_loop]; [intros [= <-] Hc; by apply not_elem_of_nil in Hc|].
  intros (_u & Hu & (cs' & Hr & [= <-])%go_bind_Ret)%go_bind_Ret Hc. destruct (url_Parse (Join [u; v])) as [w|] eqn:Ew; [|done].
  injection Hu as ->. apply elem_of_cons in Hc as [->|Hc]; cbn [iD procedureName addr].
  - split; [done|]. split; [by left|]. by exists _u.
  - destruct (IH cs' Hr Hc) as (H1 & H2 & H3). split; [done|]. split; [by right|done].
Qed.

Lemma GetCheckers_configured cfg cs c : GetCheckers url_Parse url_String cfg = Ret cs -> c ∈ cs -> configured cfg c.
Proof using Type.
  intros (docker & Hd & (others & Ho & [= <-])%go_bind_Ret)%go_bind_Ret Hc. apply elem_of_app in Hc as [Hc|Hc].
  - left. destruct (collect_elem _ _ _ _ Hd Hc) as (d & zs & Hin & Hn & Hz). apply go_bind_Ret in Hn as (u & Hu & [= <-]).
    apply list_elem_of_fmap in Hz as (v & -> & Hv). exists d, u. cbn.
    destruct (url_Parse _) eqn:E; [|done]. injection Hu as ->. done.
  - right. destruct (collect_elem _ _ _ _ Ho Hc) as (d & zs & Hin & Hn & Hz).
    destruct (NewCheckers_elem _ _ _ _ _ Hn Hz) as (H1 & H2 & u & H3 & H4). by exists d, u.
Qed.

(** A trace passes the checks of a node exactly when the contract decides
    so: of the checkers that are configured for its contract and procedure the
    last one is asked, at the address that the configuration gives, and answers
    with success; the request carries the objects, references, parameters,
    outputs and results of the trace. *)
Theorem contract_decides cfg cs t : GetCheckers url_Parse url_String cfg = Ret cs ->
  passes (newCheckers (as_Checker post parse_success <$> cs) ∅) t <->
  exists c, last (filter (fun c => iD c = ContractID t /\ procedureName c = Procedure t) cs) = Some c /\
    configured cfg c /\ accepts (addr c) t.
Proof using Type.
  intros Hcs. unfold passes, find_checker.
  rewrite (newCheckers_lookup (as_Checker post parse_success <$> cs) ∅ (ContractID t) (Procedure t)).
  rewrite as_Checker_filter, fmap_last, lookup_empty. cbn.
  assert (forall c, run_check (as_Checker post parse_success c, t) = true <-> accepts (addr c) t) as Ha.
  { intros c. unfold run_check, accepts. cbn. unfold contract_Check. split.
    - destruct (post _ _) as [b|e|]; try done. destruct (parse_success b) as [[]|e|] eqn:E; try done. eauto.
    - by intros (b & -> & ->). }
  destruct (last (filter _ cs)) as [c|] eqn:El; cbn; [|naive_solver].
  assert (configured cfg c) as Hc.
  { eapply GetCheckers_configured; [exact Hcs|]. apply last_Some_elem_of, list_elem_of_filter in El. tauto. }
  split.
  - intros (k & [= <-] & Hr). apply Ha in Hr. by exists c.
  - intros (k & [= <-] & _ & Hr). apply Ha in Hr. eauto.
Qed.
End checkers.

(** ** Containers *)

Section docker.
Context (D : daemon).

(** The container of a contract runs, or was told to, after these calls. *)
Definition started (containers : list Container) (v : DockerContract) (tr : list docker_call) : Prop :=
  match containerExists v containers with
  | Some (id, state) => state = str "running" \/ ContainerStart id ∈ tr
  | None => exists id, da_create D (str "chainspace-" ++ dc_Name v) = Ret id /\
      ContainerCreate (str "chainspace-" ++ dc_Name v) (dc_Image v) (dc_Port v ++ str "/tcp") (str "0.0.0.0") (dc_HostPort v) ∈ tr /\
      ContainerStart id ∈ tr
  end.
Lemma started_mono containers v tr1 tr2 : (forall c, c ∈ tr1 -> c ∈ tr2) -> started containers v tr1 -> started containers v tr2.
Proof using Type. unfold started. intros Hs. destruct (containerExists v containers) as [[id st]|]; naive_solver. Qed.

(** A contract that can be started. *)
Definition startable (images : list ImageSummary) (containers : list Container) (v : DockerContract) : Prop :=
  (exists tags, tags ∈ images /\ dc_Image v ∈ tags) /\
  (containerExists v containers = None -> exists id, da_create D (str "chainspace-" ++ dc_Name v) = Ret id).

Lemma ensureImageExists_spec v images :
  (ensureImageExists v images = Ret tt /\ exists tags, tags ∈ images /\ dc_Image v ∈ tags) \/
  ((exists e, ensureImageExists v images = Fail e) /\ ~ exists tags, tags ∈ images /\ dc_Image v ∈ tags).
Proof using Type.
  unfold ensureImageExists. destruct (existsb _ images) eqn:E; cbn; [left|right; split; [by eexists|]].
  - split; [done|]. apply existsb_exists in E as (tags & Ht & (tag & Hg & He%bool_decide_eq_true)%existsb_exists).
    exists tags. apply list_elem_of_In in Ht, Hg. by rewrite He.
  - intros (tags & Ht & Hg). rewrite <-not_true_iff_false in E. apply E. apply existsb_exists.
    exists tags. split; [by apply list_elem_of_In|]. apply existsb_exists. exists (dc_Image v).
    split; [by apply list_elem_of_In|]. by apply bool_decide_eq_true.
Qed.

Lemma startContainer_spec v images containers :
  (startable images containers v /\ exists tr, startContainer D v images containers = (tr, Ret tt) /\ started containers v tr) \/
  (~ startable images containers v /\ exists tr e, startContainer D v images containers = (tr, Fail e)).
Proof using Type.
  unfold startContainer, startable, started. destruct (ensureImageExists_spec v images) as [[-> Hi]|[[e ->] Hi]].
  2: { right. split; [tauto|]. by eexists [], e. }
  cbn [rn_bind pure]. destruct (containerExists v containers) as [[id st]|]; cbn.
  - left. split; [split; [done|]; naive_solver|]. destruct (decide (st = str "running")) as [->|Hst].
    + eexists. split; [done|]. by left.
    + rewrite bool_decide_true by done. eexists. split; [done|]. right. cbn. set_solver.
  - destruct (da_create D _) as [id|e|] eqn:Ec; cbn.
    + left. split; [split; [done|]; eauto|]. eexists. split; [done|]. exists id. split; [done|]. set_solver.
    + right. split; [|by eexists _, _]. intros [_ H]. by destruct (H eq_refl).
    + right. split; [|by eexists _, _]. intros [_ H]. by destruct (H eq_refl).
Qed.

Lemma start_all_spec cfgs images containers :
  (Forall (startable images containers) cfgs /\
     exists tr, start_all D cfgs images containers = (tr, Ret tt) /\ Forall (fun v => started containers v tr) cfgs) \/
  (~ Forall (startable images containers) cfgs /\ exists tr e, start_all D cfgs images containers = (tr, Fail e)).
Proof using Type.
  induction cfgs as [|v cfgs IH]; cbn [start_all]; [left; split; [done|]; by eexists|].
  destruct (startContainer_spec v images containers) as [(Hs & tr & -> & Ht)|(Hs & tr & e & ->)]; cbn [rn_bind].
  2: { right. split; [by intros [? _]%Forall_cons|]. by eexists _, _. }
  destruct IH as [(Ha & tr' & -> & Ht')|(Ha & tr' & e & ->)].
  - left. split; [by constructor|]. eexists. split; [done|]. constructor.
    + eapply started_mono; [|done]. set_solver.
    + eapply Forall_impl; [exact Ht'|]. intros x. apply started_mono. set_solver.
  - right. split; [by intros [_ ?]%Forall_cons|]. by eexists _, _.
Qed.

(** Starting the contracts succeeds exactly when the daemon lists its images
    and containers, the image of every contract is among them, and the missing
    containers can be created; then the container of every contract runs or was
    told to start, and otherwise it is an error.  Whether the start of a
    container succeeds makes no difference. *)
Theorem contracts_start_spec cfg :
  match ct_Start D cfg with
  | (tr, Ret _) => exists images containers, da_images D = Ret images /\ da_containers D = Ret containers /\
      Forall (startable images containers) (DockerContracts cfg) /\
      Forall (fun v => started containers v tr) (DockerContracts cfg)
  | (tr, Fail _) => ~ exists images containers, da_images D = Ret images /\ da_containers D = Ret containers /\
      Forall (startable images containers) (DockerContracts cfg)
  | (tr, Crash) => False
  end.
Proof using Type.
  unfold ct_Start. cbn. destruct (da_images D) as [images|e|]; cbn; [|naive_solver..].
  destruct (da_containers D) as [containers|e|]; cbn; [|naive_solver..].
  destruct (start_all_spec (DockerContracts cfg) images containers) as [(Hs & tr & -> & Ht)|(Hs & tr & e & ->)]; cbn.
  - exists images, containers. split_and!; try done. eapply Forall_impl; [exact Ht|].
    intros v. apply started_mono. set_solver.
  - intros (i & c & [= <-] & [= <-] & H). done.
Qed.
End docker.

(** ** The addresses of contracts that do not run in a container *)

(** A joined path has no empty element, so that the two slashes after the scheme
    of an address are lost. *)
Lemma contract_address_without_host :
  Join [Join [str "http://10.0.0.7:8080"; str "coin"]; str "transfer"] = str "http:/10.0.0.7:8080/coin/transfer".
Proof. by vm_compute. Qed.

(** ** Example *)

Definition ex_url_Parse (s : bytes) : option URL := Some (MkURL (str "http") s []).
Definition ex_url_String (u : URL) : bytes := u_Host u ++ str "/" ++ u_Path u.
Definition ex_contracts : ContractsCfg :=
  MkContractsCfg [MkDockerContract (str "coin") [str "pay"; str "mint"] (str "coin:latest") [] (str "80") (str "1492") (str "/ok")]
    [] (str "1.30").
Definition ex_ct_checkers : list ContractChecker :=
  match GetCheckers ex_url_Parse ex_url_String ex_contracts with Ret cs => cs | _ => [] end.
Definition ex_post (a : bytes) (b : trace) : go bytes :=
  if decide (a = str "http://0.0.0.0:1492/coin/pay") then Ret [1] else Ret [0].
Definition ex_success (b : bytes) : go bool := Ret (bool_decide (b = [1])).
Definition ex_trace (p : string) : Trace := MkTrace (str "coin") (str p) [] [] [] [] [] [] [] [].

Lemma contract_decides_witness :
  passes (newCheckers (as_Checker ex_post ex_success <$> ex_ct_checkers) ∅) (ex_trace "pay") /\
  ~ passes (newCheckers (as_Checker ex_post ex_success <$> ex_ct_checkers) ∅) (ex_trace "mint").
Proof.
  assert (GetCheckers ex_url_Parse ex_url_String ex_contracts = Ret ex_ct_checkers) as Hc by (by vm_compute).
  split.
  - apply (contract_decides ex_post ex_success ex_url_Parse ex_url_String ex_contracts _ _ Hc).
    eexists. split; [vm_compute; reflexivity|]. split.
    + left. eexists _, _. split; [left|]. split; [done|]. split; [left|]. split; [vm_compute; reflexivity|]. by vm_compute.
    + eexists. split; by vm_compute.
  - rewrite (contract_decides ex_post ex_success ex_url_Parse ex_url_String ex_contracts _ _ Hc).
    intros (c & Hl & _ & resp & Hp & Hs). vm_compute in Hl. injection Hl as <-. vm_compute in Hp. injection Hp as <-.
    vm_compute in Hs. done.
Defined.
