(* ===== verification/Registry.v ===== *)
(** * Registry: how nodes find each other

    Model of the registry server [src/registry/main.go], of the announcements of
    [src/node/announce.go] and of the discovery in [src/network/network.go].
    The datastore is a map with faults; the parsing of JSON, HTTP and multicast
    DNS are parameters or inputs.  The server holds node IDs as [int64], the nodes
    as [uint64]; a number that does not fit its field is an error of the decoder. *)
From Stdlib Require Import Floats.SpecFloat.
From S2P Require Import Prelude Database Config Topology LogFields Settings.

(** ** [registry/main.go] *)

Record auth := MkAuth { au_NetworkID : bytes; au_Token : bytes }.
Record nodeConfig := MkNodeConfig { nf_Addr : bytes; nf_NodeID : Z; nf_Port : goint }.
Abbreviation Entity := (list nodeConfig) (only parsing).
Abbreviation datastore := (gmap (list Z) (list nodeConfig)) (only parsing).

(** The keys are strings; network and token are not separated. *)
Definition entity_key (a : auth) : bytes := au_NetworkID a ++ au_Token a.

Fixpoint updateIfExists (e : Entity) (nc : nodeConfig) : bool * Entity :=
  match e with
  | [] => (false, [])
  | c :: e =>
      if decide (nf_NodeID c = nf_NodeID nc) then (true, MkNodeConfig (nf_Addr nc) (nf_NodeID c) (nf_Port nc) :: e)
      else let '(ok, e) := updateIfExists e nc in (ok, c :: e)
  end.

Record request := MkRequest { rq_ContentType : bytes; rq_Method : bytes; rq_Body : go bytes; rq_RemoteAddr : bytes }.
(** [strings.EqualFold] for text in ASCII. *)
Definition EqualFold (a b : bytes) : bool := bool_decide (ToLower a = ToLower b).

Definition StatusOK : Z := 200.
Definition StatusNoContent : Z := 204.
Definition StatusBadRequest : Z := 400.
Definition StatusMethodNotAllowed : Z := 405.
Definition StatusInternalServerError : Z := 500.

(** The numbers of a request fit the fields of the server. *)
Definition is_int64 (n : Z) : Prop := - 2 ^ 63 <= n < 2 ^ 63.
Definition config_fits (c : nodeConfig) : Prop := is_int64 (nf_NodeID c) /\ is_int64 (nf_Port c).
#[export] Instance config_fits_dec c : Decision (config_fits c).
Proof. unfold config_fits, is_int64. apply _. Defined.

Section server.
(** The texts of a body, the numbers being those that it writes. *)
Context (parse_set : bytes -> go (auth * nodeConfig)) (parse_list : bytes -> go auth).

(** What the transaction does to the entity of its key. *)
Definition set_entity (e : option Entity) (config : nodeConfig) : Entity :=
  let e := default [] e in
  let '(ok, e') := updateIfExists e config in
  if ok then e' else e ++ [config].

(** [fails]: whether the datastore reports an error, and then nothing is
    written. *)
Definition handleContactsSet (r : request) (fails : bool) (db : datastore) : Z * datastore :=
  if negb (EqualFold (rq_ContentType r) (str "application/json")) then (StatusBadRequest, db)
  else if negb (EqualFold (rq_Method r) (str "POST")) then (StatusMethodNotAllowed, db)
  else
    match rq_Body r with
    | Ret body =>
        match parse_set body with
        | Ret (a, config) =>
            if decide (~ config_fits config) then (StatusBadRequest, db)
            else if fails then (StatusInternalServerError, db)
            else
              let config := MkNodeConfig (rq_RemoteAddr r) (nf_NodeID config) (nf_Port config) in
              (StatusNoContent, <[entity_key a := set_entity (db !! entity_key a) config]> db)
        | _ => (StatusBadRequest, db)
        end
    | _ => (StatusBadRequest, db)
    end.

(** The response is the JSON of the list. *)
Definition handleContactsList (r : request) (fails : bool) (db : datastore) : Z * option Entity :=
  if negb (EqualFold (rq_ContentType r) (str "application/json")) then (StatusBadRequest, None)
  else
    match rq_Body r with
    | Ret body =>
        match parse_list body with
        | Ret a =>
            match (if fails then None else db !! entity_key a) with
            | Some e => (StatusOK, Some e)
            | None => (StatusInternalServerError, None)
            end
        | _ => (StatusBadRequest, None)
        end
    | _ => (StatusBadRequest, None)
    end.
End server.

(** ** [announce.go] *)

(** The instance and the service that multicast DNS is told. *)
Definition announceMDNS (networkID : bytes) (nodeID : uint64) : bytes * bytes :=
  (str "_" ++ fmt_d nodeID, str "_" ++ ToLower networkID ++ str "._chainspace").

Definition quote : bytes := [34].
Definition announce_payload (networkID token : bytes) (nodeID : uint64) (port : goint) : bytes :=
  str "{" ++ quote ++ str "auth" ++ quote ++ str ": {" ++ quote ++ str "networkId" ++ quote ++ str ": " ++ quote ++ networkID ++ quote ++
  str ", " ++ quote ++ str "token" ++ quote ++ str ": " ++ quote ++ token ++ quote ++ str "}, " ++
  quote ++ str "config" ++ quote ++ str ": {" ++ quote ++ str "nodeId" ++ quote ++ str ": " ++ fmt_d nodeID ++
  str ", " ++ quote ++ str "port" ++ quote ++ str ": " ++ fmt_d port ++ str "}}".

(** [send endpoint payload]: the status of the response. *)
Fixpoint announceRegistry (send : bytes -> bytes -> go Z) (registries : list Registry) (networkID : bytes) (nodeID : uint64)
    (port : goint) : go () :=
  match registries with
  | [] => Ret tt
  | v :: registries =>
      match send (URL (r_Host v) ++ str "contacts.set") (announce_payload networkID (r_Token v) nodeID port) with
      | Ret status =>
          if decide (status <> StatusNoContent) then Fail "node: registry answered with unexpected http status: %v"
          else announceRegistry send registries networkID nodeID port
      | _ => Fail "node: error calling registry: %v"
      end
  end.

(** ** [network.go] *)

(** [if oldAddr != addr { t.contacts.set(nodeID, addr) }]. *)
Definition found (nodeID : uint64) (address : bytes) (t : Topology) : Topology :=
  if decide (Lookup nodeID t <> address) then contacts_set nodeID address t else t.

Record ServiceEntry := MkServiceEntry { se_Instance : bytes; se_AddrIPv4 : list bytes; se_Port : goint }.

(** The handling of an entry of multicast DNS. *)
Definition bootstrapMDNS (entry : ServiceEntry) (t : Topology) : Topology :=
  if negb (HasPrefix (se_Instance entry) (str "_")) then t
  else
    match ParseUint (drop 1 (se_Instance entry)) with
    | Ret nodeID =>
        match se_AddrIPv4 entry with
        | ip :: _ => if decide (0 < se_Port entry) then found nodeID (ip ++ str ":" ++ fmt_d (se_Port entry)) t else t
        | [] => t
        end
    | _ => t
    end.

(** The response of a registry is decoded into unsigned node IDs; a number that
    does not fit fails the whole list. *)
Definition decode_list (res : list nodeConfig) : go (list nodeConfig) :=
  if decide (Forall (fun v => is_u64 (nf_NodeID v)) res) then Ret res
  else Fail "unable to unmarshal registry response, %v: %v".

Fixpoint update_contacts (res : list nodeConfig) (t : Topology) : Topology :=
  match res with
  | [] => t
  | v :: res => update_contacts res (found (nf_NodeID v) (nf_Addr v ++ str ":" ++ fmt_d (nf_Port v)) t)
  end.
Definition bootstrapRegistries (response : go (list nodeConfig)) (t : Topology) : go Topology :=
  match response with
  | Ret res => res ← decode_list res; Ret (update_contacts res t)
  | _ => Fail "error calling registry: %v"
  end.
Definition BootstrapFile_error : string := "network: bootstrapping from a static map is not supported yet".

(** [BootstrapRegistries]: the request that each goroutine repeats. *)
Definition list_payload (networkID token : bytes) : bytes :=
  str "{" ++ quote ++ str "auth" ++ quote ++ str ": {" ++ quote ++ str "networkId" ++ quote ++ str ": " ++ quote ++ networkID ++ quote ++
  str ", " ++ quote ++ str "token" ++ quote ++ str ": " ++ quote ++ token ++ quote ++ str "}}".
Definition list_request (t : Topology) (registry : Registry) : bytes * bytes :=
  (URL (r_Host registry) ++ str "contacts.list", list_payload (t_id t) (r_Token registry)).

(** The goroutines of [BootstrapRegistries] and [BootstrapMDNS] as the sequence of
    what they receive: an error is logged and the loop goes on. *)
Inductive discovery :=
  | FromRegistry (response : go (list nodeConfig))
  | FromMDNS (entry : ServiceEntry).
Definition discover (d : discovery) (t : Topology) : Topology :=
  match d with
  | FromRegistry response => match bootstrapRegistries response t with Ret t => t | _ => t end
  | FromMDNS entry => bootstrapMDNS entry t
  end.

(** [Dial]: [dial] opens the TLS connection. *)
Definition Dial {C} (dial : bytes -> go C) (nodeID : uint64) (t : Topology) : go C :=
  addr ← Dial_address nodeID t;
  match dial addr with Ret c => Ret c | Fail _ => Fail "network: could not connect to node %d: %s" | Crash => Crash end.

(** ** The registry keeps the last address of every node *)







(** ** Discovery *)

Lemma Lookup_found id nodeID address t : Lookup id (found nodeID address t) = if decide (id = nodeID) then address else Lookup id t.
Proof.
  unfold found, Lookup, contacts_set, set_contacts. case_decide as H; cbn [contacts].
  - destruct (decide (id = nodeID)) as [->|]; [by rewrite lookup_insert_eq|by rewrite lookup_insert_ne].
  - by destruct (decide (id = nodeID)) as [->|].
Qed.



Section discovery.
Context (parse_set : bytes -> go (auth * nodeConfig)) (parse_list : bytes -> go auth).

(** A history of announcements, some of which fail. *)
Definition announcements (ops : list (request * bool)) (db : datastore) : datastore :=
  foldl (fun db op => (handleContactsSet parse_set op.1 op.2 db).2) db ops.









End discovery.

(** What a node announces by multicast DNS is understood. *)
Lemma mdns_discovery networkID nodeID ip ips port t id : is_u64 nodeID -> 0 < port ->
  Lookup id (bootstrapMDNS (MkServiceEntry (announceMDNS networkID nodeID).1 (ip :: ips) port) t) =
  if decide (id = nodeID) then ip ++ str ":" ++ fmt_d port else Lookup id t.
Proof.
  intros Hn Hp. unfold bootstrapMDNS, announceMDNS. cbn [se_Instance se_AddrIPv4 se_Port fst].
  assert (HasPrefix (str "_" ++ fmt_d nodeID) (str "_") = true) as ->.
  { unfold HasPrefix. apply bool_decide_eq_true. by rewrite take_app_length. }
  cbn [negb]. change (drop 1 (str "_" ++ fmt_d nodeID)) with (fmt_d nodeID). rewrite ParseUint_fmt_d by done.
  rewrite decide_True by done. apply Lookup_found.
Qed.

(** The last address that a message gives for a node. *)
Fixpoint listed (id : uint64) (res : list nodeConfig) : option bytes :=
  match res with
  | [] => None
  | v :: res =>
      match listed id res with
      | Some a => Some a
      | None => if decide (nf_NodeID v = id) then Some (nf_Addr v ++ str ":" ++ fmt_d (nf_Port v)) else None
      end
  end.
Definition says (id : uint64) (d : discovery) : option bytes :=
  match d with
  | FromRegistry (Ret res) => match decode_list res with Ret res => listed id res | _ => None end
  | FromRegistry _ => None
  | FromMDNS (MkServiceEntry inst (ip :: _) port) =>
      match ParseUint (drop 1 inst) with
      | Ret n => if decide (HasPrefix inst (str "_") = true /\ n = id /\ 0 < port)
                 then Some (ip ++ str ":" ++ fmt_d port) else None
      | _ => None
      end
  | FromMDNS _ => None
  end.
Definition latest (id : uint64) (ds : list discovery) : option bytes := last (omap (says id) ds).

Lemma update_contacts_listed id res t : Lookup id (update_contacts res t) = default (Lookup id t) (listed id res).
Proof.
  revert t. induction res as [|v res IH]; intros t; [done|]. cbn [update_contacts listed]. rewrite IH.
  destruct (listed id res); [done|]. cbn. rewrite Lookup_found. destruct (decide (id = nf_NodeID v)) as [->|Hne].
  - by rewrite decide_True.
  - by rewrite decide_False.
Qed.

Lemma discover_spec id d t : Lookup id (discover d t) = default (Lookup id t) (says id d) /\ nodes (discover d t) = nodes t.
Proof.
  assert (forall n a t, nodes (found n a t) = nodes t) as Hf by (intros n a u; unfold found; by case_decide).
  destruct d as [[res|e|]|[inst [|ip ips] port]]; cbn [discover bootstrapRegistries says]; try done.
  - unfold decode_list. case_decide as Hall; cbn [mbind go_bind]; [|done]. clear Hall.
    split; [apply update_contacts_listed|]. revert t. induction res as [|v res IH]; intros t; [done|]. cbn. by rewrite IH, Hf.
  - unfold bootstrapMDNS. cbn [se_Instance se_AddrIPv4].
    by destruct (negb (HasPrefix inst (str "_"))), (ParseUint (drop 1 inst)).
  - unfold bootstrapMDNS. cbn [se_Instance se_AddrIPv4 se_Port].
    destruct (ParseUint (drop 1 inst)) as [n|e|]; [|by destruct (negb (HasPrefix inst (str "_")))..].
    destruct (HasPrefix inst (str "_")); cbn [negb]; [|rewrite decide_False by naive_solver; done].
    destruct (decide (0 < port)) as [Hp|Hp]; [|rewrite decide_False by naive_solver; done].
    rewrite Hf, Lookup_found. split; [|done]. destruct (decide (id = n)) as [->|Hne].
    + by rewrite decide_True.
    + by rewrite decide_False by naive_solver.
Qed.

(** Whatever the registries and multicast DNS say, in whatever order and with
    whatever failures in between, a node is dialed at the address that was heard
    of last, and otherwise at the one known before; only configured nodes are
    dialed. *)
Theorem discovered_nodes_dialed {C} (dial : bytes -> go C) ds id t c :
  Dial dial id (foldl (flip discover) t ds) = Ret c <->
  is_Some (nodes t !! id) /\ default (Lookup id t) (latest id ds) <> [] /\ dial (default (Lookup id t) (latest id ds)) = Ret c.
Proof.
  assert (nodes (foldl (flip discover) t ds) = nodes t /\
    Lookup id (foldl (flip discover) t ds) = default (Lookup id t) (latest id ds)) as [Hn Hl].
  { unfold latest. induction ds as [|d ds IH] using rev_ind; [done|]. rewrite foldl_app. cbn.
    destruct (discover_spec id d (foldl (flip discover) t ds)) as [-> ->]. destruct IH as [-> ->]. split; [done|].
    rewrite omap_app. cbn. destruct (says id d); cbn; [by rewrite last_snoc|by rewrite app_nil_r]. }
  unfold Dial, Dial_address. rewrite Hn. cbv zeta. rewrite Hl. generalize (default (Lookup id t) (latest id ds)) as a. intros a.
  destruct (bool_decide_reflect (is_Some (nodes t !! id))) as [Hs|Hs]; cbn [guard_fail mbind go_bind]; [|naive_solver].
  destruct (bool_decide_reflect (a <> [])) as [Ha|Ha]; cbn [guard_fail mbind go_bind]; [|naive_solver].
  destruct (dial a); naive_solver.
Qed.

(** The entity of a network and a token is that of any other pair with the same
    concatenation. *)
Lemma registry_key_collides : entity_key (MkAuth (str "NET") (str "1234")) = entity_key (MkAuth (str "NET12") (str "34")).
Proof. done. Qed.

(** ** Example *)

Definition ex_parse_set (b : bytes) : go (auth * nodeConfig) :=
  match b with [id; port] => Ret (MkAuth (str "net") (str "t"), MkNodeConfig [] id port) | _ => Fail "json" end.
Definition ex_parse_list (b : bytes) : go auth := Ret (MkAuth (str "net") (str "t")).
Definition ex_request (ip : string) (b : bytes) : request := MkRequest (str "Application/JSON") (str "POST") (Ret b) (str ip).
Definition ex_ops : list (request * bool) :=
  [(ex_request "10.0.0.1" [1; 80], false); (ex_request "10.0.0.2" [2; 81], false);
   (ex_request "10.0.0.3" [1; 82], true); (ex_request "10.0.0.4" [1; 83], false); (ex_request "10.0.0.5" [9], false)].


(** Someone announces the node -1 and nobody finds anybody any more. *)
Lemma negative_id_blocks_discovery :
  exists e err, handleContactsList ex_parse_list (ex_request "10.0.0.9" []) false
    (announcements ex_parse_set (ex_ops ++ [(ex_request "10.0.0.6" [-1; 80], false)]) ∅) = (StatusOK, Some e) /\
  bootstrapRegistries (Ret e) (MkTopology ∅ [] [] ∅ [] 1 4) = Fail err.
Proof. eexists _, _. split; [vm_compute; reflexivity|]. vm_compute. reflexivity. Qed.
