(* ===== verification/PubsubDiscovery.v ===== *)
(** * PubsubDiscovery: how subscribers find publishers

    Model of [New], [announceMDNS] and [listen] of [src/pubsub/pubsub.go], of
    [src/pubsub/client/bootstrap.go] and [New] of [client.go], and of
    [src/cmd/pubsublistener/main.go].  Multicast DNS is what is registered with
    it: browsing for a service gives the entries with its name. *)
From S2P Require Import Prelude Traced Codec Database Config Topology Settings Base64 Pubsub Registry.

(** ** The server *)

Record PubsubConfig := MkPubsubConfig { pb_Port : option goint; pb_NetworkID : bytes; pb_NodeID : uint64 }.

Inductive ps_call :=
  | FreeTCP
  | ListenTCP (port : goint)
  | RegisterService (instance service : bytes) (port : goint)
  | ServeListener.

(** The answers: a free port, if there is one, and whether the calls succeed. *)
Record ps_env := MkPsEnv { pv_free : option goint; pv_listen : goint -> bool; pv_register : bool }.

Definition pubsub_service (networkID : bytes) : bytes := str "_" ++ ToLower networkID ++ str "_pubsub._chainspace".

Definition ps_announceMDNS (E : ps_env) (networkID : bytes) (nodeID : uint64) (port : goint) : traced ps_call () :=
  let* _ := log_call (RegisterService (str "_" ++ fmt_d nodeID) (pubsub_service networkID) port) in
  if pv_register E then rn_ret tt else pure (Fail "zeroconf").

(** The port and the server. *)
Definition pubsub_New (E : ps_env) (cfg : PubsubConfig) : traced ps_call (goint * server) :=
  let mdns := match pb_Port cfg with None => true | Some p => bool_decide (p = 0) end in
  let* port := if mdns then
                 let* _ := log_call FreeTCP in
                 pure (match pv_free E with Some p => Ret p | None => Fail "freeport" end)
               else pure (or_crash (pb_Port cfg)) in
  let* _ := log_call (ListenTCP port) in
  let* _ := if pv_listen E port then rn_ret tt else pure (A := unit) (Fail "listen") in
  let* _ := when mdns (ps_announceMDNS E (pb_NetworkID cfg) (pb_NodeID cfg) port) in
  let* _ := log_call ServeListener in
  rn_ret (port, MkServer (pb_NodeID cfg) ∅ [] []).

(** One round of [listen]: an error is logged, and the missing connection is
    handled all the same. *)
Definition listen_step (accepted : option (bytes * PConn)) (s : server) : go server :=
  '(addr, conn) ← or_crash accepted; Ret (ps_handleConnection addr conn s).

Definition ps_Close (s : server) : server :=
  MkServer (ps_nodeID s) (pc_close <$> ps_conns s) (ps_notifiers s) (ps_notified s).

(** ** The client *)

(** What multicast DNS knows: services and their entries. *)
Abbreviation mdns := (list (bytes * ServiceEntry)) (only parsing).
Definition Browse (service : bytes) (dns : mdns) : list ServiceEntry := (filter (fun x => x.1 = service) dns).*2.

Section client.
(** The connection that [net.Dial] makes to an address. *)
Context (dial : bytes -> option PConn).

(** The goroutine of [bootstrapMDNS], for one entry. *)
Definition cl_entry (entry : ServiceEntry) (c : Client) : Client :=
  if negb (HasPrefix (se_Instance entry) (str "_")) then c
  else
    match ParseUint (drop 1 (se_Instance entry)) with
    | Ret nodeID =>
        match se_AddrIPv4 entry with
        | ip :: _ =>
            if decide (0 < se_Port entry) then
              let addr := ip ++ str ":" ++ fmt_d (se_Port entry) in cl_cb (dial addr) nodeID addr c
            else c
        | [] => c
        end
    | _ => c
    end.

(** One round of [BootstrapMDNS]. *)
Definition cl_bootstrap (network : bytes) (dns : mdns) (c : Client) : Client :=
  foldl (fun c e => cl_entry e c) c (Browse (pubsub_service network) dns).

(** [New]: with [true] when nodes are looked for by multicast DNS. *)
Definition cl_New (nodeAddrs : gmap uint64 bytes) : Client * bool :=
  if decide (size nodeAddrs = 0%nat) then (MkClient ∅ ∅, true)
  else (foldl (fun c '(nodeID, addr) => (cl_run (dial addr) nodeID c).2) (MkClient nodeAddrs ∅) (map_to_list nodeAddrs), false).

(** ** Who announces is found *)

(** A server that was started without a port: its configuration, the address of
    its machine and the port that was free. *)
Record started := MkStarted { sd_cfg : PubsubConfig; sd_ips : list bytes; sd_port : goint }.
Definition announced_by (s : started) : bytes * ServiceEntry :=
  (pubsub_service (pb_NetworkID (sd_cfg s)), MkServiceEntry (str "_" ++ fmt_d (pb_NodeID (sd_cfg s))) (sd_ips s) (sd_port s)).
Definition reachable_server (s : started) : Prop := is_u64 (pb_NodeID (sd_cfg s)) /\ sd_ips s <> [] /\ 0 < sd_port s.
Definition address (s : started) : bytes := default [] (head (sd_ips s)) ++ str ":" ++ fmt_d (sd_port s).

(** The servers of a network, up to the case of its name, and the address under
    which a client knows a node: that of the last of its servers. *)
Definition same_network (network : bytes) (ss : list started) : list started :=
  filter (fun s => ToLower (pb_NetworkID (sd_cfg s)) = ToLower network) ss.
Definition known_address (network : bytes) (ss : list started) (id : uint64) : option bytes :=
  last (address <$> filter (fun s => pb_NodeID (sd_cfg s) = id) (same_network network ss)).

(** Every node that is known is connected to under its address. *)
Definition connected (c : Client) : Prop := forall id addr, cl_nodes c !! id = Some addr -> cl_conns c !! id = dial addr.

Lemma pubsub_service_inj a b : pubsub_service a = pubsub_service b <-> ToLower a = ToLower b.
Proof using Type.
  split; [|by unfold pubsub_service; intros ->]. unfold pubsub_service. intros H%(inj (str "_" ++.)). by apply app_inv_tail in H.
Qed.

Lemma cl_entry_announced s c : reachable_server s ->
  cl_entry (announced_by s).2 c = cl_cb (dial (address s)) (pb_NodeID (sd_cfg s)) (address s) c.
Proof using Type.
  intros (Hn & Hi & Hp). unfold cl_entry, announced_by, address. cbn [snd se_Instance se_AddrIPv4 se_Port].
  assert (HasPrefix (str "_" ++ fmt_d (pb_NodeID (sd_cfg s))) (str "_") = true) as ->.
  { unfold HasPrefix. apply bool_decide_eq_true. by rewrite take_app_length. }
  cbn [negb]. change (drop 1 (str "_" ++ ?x)) with x. rewrite ParseUint_fmt_d by done.
  destruct (sd_ips s) as [|ip ips]; [done|]. by rewrite decide_True.
Qed.

Lemma cl_cb_nodes d id addr c j : cl_nodes (cl_cb d id addr c) !! j = if decide (j = id) then Some addr else cl_nodes c !! j.
Proof using Type.
  unfold cl_cb. case_decide as H; [case_decide; by subst|].
  unfold cl_run. destruct d; cbn; (case_decide; [subst; by rewrite lookup_insert_eq|by rewrite lookup_insert_ne]).
Qed.
Lemma cl_cb_connected id addr c : is_Some (dial addr) -> connected c -> connected (cl_cb (dial addr) id addr c).
Proof using Type.
  intros [conn Hd] Hc j a. unfold cl_cb. case_decide; [apply Hc|]. rewrite Hd. cbn.
  destruct (decide (j = id)) as [->|Hne].
  - rewrite !lookup_insert_eq. by intros [= <-].
  - rewrite !lookup_insert_ne by done. apply Hc.
Qed.

Lemma Browse_announced network ss :
  Browse (pubsub_service network) (announced_by <$> ss) = (fun s => (announced_by s).2) <$> same_network network ss.
Proof using Type.
  unfold Browse, same_network. induction ss as [|s ss IH]; [done|]. rewrite fmap_cons, !filter_cons.
  destruct (decide (ToLower (pb_NetworkID (sd_cfg s)) = ToLower network)) as [He|He].
  - rewrite decide_True by by apply pubsub_service_inj. cbn. f_equal. exact IH.
  - rewrite decide_False by by intros ?%pubsub_service_inj. exact IH.
Qed.

(** The goroutine on the entries of servers. *)
Definition cl_entries (ss : list started) (c : Client) : Client := foldl (fun c s => cl_entry (announced_by s).2 c) c ss.
Lemma cl_bootstrap_eq network ss c : cl_bootstrap network (announced_by <$> ss) c = cl_entries (same_network network ss) c.
Proof using Type.
  unfold cl_bootstrap, cl_entries. rewrite Browse_announced. generalize (same_network network ss). intros l. revert c.
  induction l as [|s l IH]; intros c; cbn; [done|apply IH].
Qed.

Lemma cl_entries_spec ss c : Forall reachable_server ss -> (forall s, s ∈ ss -> is_Some (dial (address s))) -> connected c ->
  (forall id, cl_nodes (cl_entries ss c) !! id =
     match last (address <$> filter (fun s => pb_NodeID (sd_cfg s) = id) ss) with Some a => Some a | None => cl_nodes c !! id end) /\
  connected (cl_entries ss c).
Proof using Type.
  intros Hr Hd Hc. induction ss as [|s ss IH] using rev_ind; [done|].
  apply Forall_app in Hr as [Hr Hs]. apply Forall_inv in Hs. destruct (IH Hr ltac:(set_solver)) as [IH1 IH2].
  unfold cl_entries in *. rewrite foldl_app. cbn [foldl]. rewrite cl_entry_announced by done.
  split; [|apply cl_cb_connected; [apply Hd; set_solver|done]].
  intros id. rewrite cl_cb_nodes, IH1, filter_app, filter_cons. destruct (decide (id = pb_NodeID (sd_cfg s))) as [->|Hne].
  - rewrite decide_True, filter_nil, fmap_app by done. cbn [fmap list_fmap]. by rewrite last_snoc.
  - rewrite (decide_False (P := pb_NodeID (sd_cfg s) = id)) by done. rewrite filter_nil, app_nil_r. done.
Qed.

Lemma cl_entries_again ss c : Forall reachable_server ss -> (forall s, s ∈ ss -> cl_nodes c !! pb_NodeID (sd_cfg s) = Some (address s)) ->
  cl_entries ss c = c.
Proof using Type.
  unfold cl_entries. induction 1 as [|s ss Hs _ IH]; intros Hk; [done|]; cbn [foldl]. rewrite cl_entry_announced by done.
  unfold cl_cb. rewrite decide_True by (apply Hk; left). apply IH. intros. apply Hk. by right.
Qed.

Lemma last_of_NoDup ss s : NoDup ((fun s => pb_NodeID (sd_cfg s)) <$> ss) -> s ∈ ss ->
  filter (fun x => pb_NodeID (sd_cfg x) = pb_NodeID (sd_cfg s)) ss = [s].
Proof using Type.
  induction ss as [|x ss IH]; [by intros _ ?%not_elem_of_nil|]. rewrite fmap_cons, NoDup_cons. intros [Hx Hnd] Hin.
  rewrite filter_cons. apply elem_of_cons in Hin as [<-|Hin].
  - rewrite decide_True by done. f_equal. clear IH Hnd. induction ss as [|y ss IH]; [done|]. rewrite filter_cons.
    rewrite fmap_cons, not_elem_of_cons in Hx. destruct Hx as [Hne Hx]. rewrite decide_False by congruence. by apply IH.
  - rewrite decide_False; [by apply IH|]. intros E. apply Hx. rewrite E. by apply list_elem_of_fmap_2 with (f := fun s => pb_NodeID (sd_cfg s)).
Qed.

(** A client finds exactly the servers of its network, up to the case of the
    name: it knows each node under the last address that it has announced, and,
    while the nodes accept connections, it is connected to all of them, once; a
    second look changes nothing unless a node has moved. *)
Theorem subscribers_find_publishers network ss c :
  Forall reachable_server ss -> (forall s, s ∈ ss -> is_Some (dial (address s))) -> connected c ->
  let c' := cl_bootstrap network (announced_by <$> ss) c in
  (forall id, cl_nodes c' !! id = match known_address network ss id with Some a => Some a | None => cl_nodes c !! id end) /\
  connected c' /\
  (NoDup ((fun s => pb_NodeID (sd_cfg s)) <$> ss) -> cl_bootstrap network (announced_by <$> ss) c' = c').
Proof using Type.
  intros Hr Hd Hc. cbv zeta. rewrite !cl_bootstrap_eq.
  assert (same_network network ss `sublist_of` ss) as Hsub by apply sublist_filter.
  assert (Forall reachable_server (same_network network ss)) as Hr'.
  { rewrite Forall_forall in Hr |- *. intros s Hs. apply Hr. by eapply elem_of_sublist. }
  destruct (cl_entries_spec (same_network network ss) c Hr') as [H1 H2]; [|done|].
  { intros s Hs. apply Hd. by eapply elem_of_sublist. }
  split; [exact H1|]. split; [done|]. intros Hnd. apply cl_entries_again; [done|]. intros s Hs.
  rewrite H1, last_of_NoDup; [done| |done]. eapply sublist_NoDup; [exact Hnd|]. by apply (fmap_sublist (fun s => pb_NodeID (sd_cfg s))).
Qed.
End client.

(** ** Starting the server *)

(** A server that starts without a port in its configuration listens on the port
    that was free and announces this port, under the instance and the service
    that clients of the network look for; with a port it announces nothing. *)
Lemma pubsub_New_announces E cfg tr port srv : pubsub_New E cfg = (tr, Ret (port, srv)) ->
  srv = MkServer (pb_NodeID cfg) ∅ [] [] /\
  match pb_Port cfg with
  | Some p => if decide (p = 0) then pv_free E = Some port else port = p
  | None => pv_free E = Some port
  end /\
  ListenTCP port ∈ tr /\ pv_listen E port = true /\
  (forall instance service q, RegisterService instance service q ∈ tr <->
     (pb_Port cfg = None \/ pb_Port cfg = Some 0) /\ q = port /\
     (service, instance) = (pubsub_service (pb_NetworkID cfg), str "_" ++ fmt_d (pb_NodeID cfg))).
Proof.
  unfold pubsub_New, ps_announceMDNS. generalize (str "_" ++ fmt_d (pb_NodeID cfg)), (pubsub_service (pb_NetworkID cfg)).
  intros inst serv. destruct (pb_Port cfg) as [p|].
  1: destruct (decide (p = 0)) as [->|Hp]; [rewrite bool_decide_true by done|rewrite bool_decide_false by done].
  all: cbn [rn_bind log_call pure rn_ret when or_crash app]; try (destruct (pv_free E) as [q|]; [|done]);
    cbn [rn_bind log_call pure rn_ret app].
  all: match goal with |- context [pv_listen ?e ?x] => destruct (pv_listen e x) eqn:Hl end; cbn [rn_bind log_call pure rn_ret app]; [|done].
  all: try (destruct (pv_register E); cbn [rn_bind log_call pure rn_ret app]; [|done]).
  all: intros [= <- <- <-]; (split; [done|]); (split; [done|]); (split; [by repeat first [left|right]|]); (split; [done|]).
  all: intros instance service q'; rewrite !elem_of_cons, elem_of_nil; naive_solver.
Qed.

(** An error of [Accept] panics the node. *)
Lemma accept_error_panics s : listen_step None s = Crash.
Proof. done. Qed.

(** With addresses in the configuration, a client is connected to exactly the
    nodes that accept its first attempt, and never looks for others. *)
Lemma configured_client dial nodeAddrs : nodeAddrs <> ∅ ->
  (cl_New dial nodeAddrs).2 = false /\ cl_nodes (cl_New dial nodeAddrs).1 = nodeAddrs /\
  forall id, cl_conns (cl_New dial nodeAddrs).1 !! id = nodeAddrs !! id ≫= dial.
Proof.
  intros Hne. unfold cl_New. rewrite decide_False by by rewrite map_size_empty_iff. split; [done|]. cbn [fst].
  assert (forall l c, NoDup l.*1 -> (forall id, id ∈ l.*1 -> cl_conns c !! id = None) ->
    let c' := foldl (fun c '(nodeID, addr) => (cl_run (dial addr) nodeID c).2) c l in
    cl_nodes c' = cl_nodes c /\ (forall id addr, (id, addr) ∈ l -> cl_conns c' !! id = dial addr) /\
    (forall id, id ∉ l.*1 -> cl_conns c' !! id = cl_conns c !! id)) as Hl.
  { induction l as [|[i a] l IH]; intros c Hnd Hno; cbn -[cl_run]; [set_solver|].
    rewrite fmap_cons, NoDup_cons in Hnd. destruct Hnd as [Hi Hnd].
    destruct (IH (cl_run (dial a) i c).2 Hnd) as (H1 & H2 & H3).
    { intros id Hid. unfold cl_run. destruct (dial a); cbn; [rewrite lookup_insert_ne by set_solver|]; apply Hno; set_solver. }
    split; [rewrite H1; unfold cl_run; by destruct (dial a)|]. split.
    - intros id addr [[= -> ->]|Hin]%elem_of_cons; [|by apply H2]. rewrite (H3 i Hi). unfold cl_run.
      destruct (dial a) eqn:Hd; cbn; [by rewrite lookup_insert_eq|]. apply Hno. left.
    - intros id Hid. cbn [fst fmap] in Hid. apply not_elem_of_cons in Hid as [Hne' Hid]. rewrite (H3 id Hid). unfold cl_run.
      destruct (dial a); cbn; [by rewrite lookup_insert_ne|done]. }
  destruct (Hl (map_to_list nodeAddrs) (MkClient nodeAddrs ∅)) as (H1 & H2 & H3); [apply NoDup_fst_map_to_list|done|].
  split; [exact H1|]. intros id. destruct (nodeAddrs !! id) as [addr|] eqn:Ha; cbn.
  - apply H2. by apply elem_of_map_to_list.
  - rewrite H3; [done|]. intros ([i a] & -> & Hin)%list_elem_of_fmap. apply elem_of_map_to_list in Hin. cbn in Ha. congruence.
Qed.

(** ** [pubsublistener] *)

(** [strings.Split] with a separator of one byte. *)
Fixpoint Split (sep : Z) (s : bytes) : list bytes :=
  match s with
  | [] => [[]]
  | c :: s =>
      if c =? sep then [] :: Split sep s
      else match Split sep s with x :: l => (c :: x) :: l | [] => [[c]] end
  end.

(** The encodings of the characters that [strings.TrimSpace] removes. *)
Definition spaces : list bytes :=
  [[9]; [10]; [11]; [12]; [13]; [32]; [194; 133]; [194; 160]; [225; 154; 128]; [226; 128; 168]; [226; 128; 169];
   [226; 128; 175]; [226; 129; 159]; [227; 128; 128]] ++ ((fun i => [226; 128; 128 + Z.of_nat i]) <$> seq 0 11).
Fixpoint trimLeft (fuel : nat) (sps : list bytes) (s : bytes) : bytes :=
  match fuel with
  | O => s
  | S fuel =>
      match List.find (fun sp => bool_decide (take (length sp) s = sp)) sps with
      | Some sp => trimLeft fuel sps (drop (length sp) s)
      | None => s
      end
  end.
Definition TrimSpace (s : bytes) : bytes :=
  let s := trimLeft (length s) spaces s in
  rev (trimLeft (length s) (@rev Z <$> spaces) (rev s)).

(** [strconv.Atoi]: a sign is allowed, and the value is an int. *)
Definition Atoi (s : bytes) : go goint :=
  let '(neg, digits) := match s with 45 :: s => (true, s) | 43 :: s => (false, s) | _ => (false, s) end in
  match ParseUint digits with
  | Ret n =>
      if neg : bool then (if decide (n <= 2 ^ 63) then Ret (- n) else Fail "value out of range")
      else (if decide (n < 2 ^ 63) then Ret n else Fail "value out of range")
  | Fail e => Fail e
  | Crash => Crash
  end.

(** An entry without a number ends the process; one without an equals sign
    panics. *)
Definition splitAddress (v : bytes) (out : gmap uint64 bytes) : go (gmap uint64 bytes) :=
  let sp := Split 61 v in
  x0 ← or_crash (sp !! 0%nat);
  match Atoi x0 with
  | Ret i => x1 ← or_crash (sp !! 1%nat); Ret (<[u64 i := TrimSpace x1]> out)
  | Fail _ => Fail "error, unable to strconv nodeid: %v"
  | Crash => Crash
  end.
Fixpoint splitAddresses_loop (split : list bytes) (out : gmap uint64 bytes) : go (gmap uint64 bytes) :=
  match split with [] => Ret out | v :: split => out ← splitAddress v out; splitAddresses_loop split out end.
Definition splitAddresses (s : bytes) : go (gmap uint64 bytes) := splitAddresses_loop (Split 44 s) ∅.

(** The nodes that [main] subscribes to; none are looked up by multicast DNS. *)
Definition listener_nodes (mdns gcp : bool) (addrs : bytes) (port nodeCount : goint) : go (gmap uint64 bytes) :=
  if mdns then Ret ∅
  else if decide (addrs <> []) then splitAddresses addrs
  else if bool_decide (0 < port) && negb gcp then
    Ret (foldl (fun m i => <[u64 i := str "0.0.0.0:" ++ fmt_d (port + i)]> m) ∅ (seqZ 1 nodeCount))
  else Ret ∅.

Lemma Split_nil sep s : sep ∉ s -> Split sep s = [s].
Proof.
  induction s as [|c s IH]; [done|]. rewrite not_elem_of_cons. intros [Hc Hs]. cbn.
  rewrite (proj2 (Z.eqb_neq c sep)) by done. by rewrite IH.
Qed.
Lemma Split_app sep s rest : sep ∉ s -> Split sep (s ++ sep :: rest) = s :: Split sep rest.
Proof.
  induction s as [|c s IH]; cbn; [by rewrite Z.eqb_refl|]. rewrite not_elem_of_cons. intros [Hc Hs].
  rewrite (proj2 (Z.eqb_neq c sep)) by done. by rewrite IH.
Qed.

(** The flag that names the nodes [l]. *)
Fixpoint addrs_flag (l : list (uint64 * bytes)) : bytes :=
  match l with
  | [] => []
  | [(i, a)] => fmt_d i ++ [61] ++ a
  | (i, a) :: l => fmt_d i ++ [61] ++ a ++ [44] ++ addrs_flag l
  end.

Definition plain_address (a : bytes) : Prop := 44 ∉ a /\ 61 ∉ a /\ TrimSpace a = a.

Lemma Atoi_fmt_d i : 0 <= i < 2 ^ 63 -> Atoi (fmt_d i) = Ret i.
Proof.
  intros Hi. pose proof (ParseUint_fmt_d i ltac:(unfold in_width; lia)) as Hp. pose proof (fmt_d_digits i) as Hd.
  unfold Atoi. destruct (fmt_d i) as [|c s]; [done|]. apply Forall_inv in Hd. unfold is_digit in Hd.
  assert (c <> 45 /\ c <> 43) as [H1 H2] by (split; intros ->; done).
  assert (match c :: s with 45 :: s => (true, s) | 43 :: s => (false, s) | _ => (false, c :: s) end = (false, c :: s)) as ->.
  { destruct c as [|q|q]; try done. do 6 (destruct q as [q|q|]; try done). }
  rewrite Hp. by rewrite decide_True by lia.
Qed.
Lemma fmt_d_no c i : is_digit c = false -> c ∉ fmt_d i.
Proof. intros Hc Hin. pose proof (fmt_d_digits i) as Hd. rewrite Forall_forall in Hd. specialize (Hd c Hin). congruence. Qed.

Lemma splitAddress_ok i a m : 0 <= i < 2 ^ 63 -> plain_address a -> splitAddress (fmt_d i ++ [61] ++ a) m = Ret (<[i := a]> m).
Proof.
  intros Hi (_ & Ha & Ht). unfold splitAddress. cbn [app]. rewrite Split_app by by apply fmt_d_no. rewrite Split_nil by done.
  cbn [lookup list_lookup or_crash mbind go_bind]. rewrite Atoi_fmt_d by done. cbn [mbind go_bind]. rewrite Ht.
  by rewrite wrap_small by (unfold in_width; lia).
Qed.

(** The flag of [pubsublistener] is understood: any nodes with addresses that
    have no commas, equals signs or spaces around them come out of it. *)
Lemma listener_addresses_roundtrip l m : l <> [] ->
  Forall (fun '(i, a) => 0 <= i < 2 ^ 63 /\ plain_address a) l ->
  splitAddresses_loop (Split 44 (addrs_flag l)) m = Ret (foldl (fun m '(i, a) => <[i := a]> m) m l).
Proof.
  revert m. induction l as [|[i a] l IH]; intros m Hne Hl; [done|]. apply Forall_cons in Hl as [[Hi Ha] Hl].
  assert (44 ∉ fmt_d i ++ [61] ++ a) as Hno.
  { rewrite !not_elem_of_app, list_elem_of_singleton. split_and!; [by apply fmt_d_no|done|apply Ha]. }
  destruct l as [|y l].
  - cbn [addrs_flag]. rewrite Split_nil by done. cbn [splitAddresses_loop]. by rewrite splitAddress_ok.
  - change (addrs_flag ((i, a) :: y :: l)) with (fmt_d i ++ [61] ++ a ++ [44] ++ addrs_flag (y :: l)).
    replace (fmt_d i ++ [61] ++ a ++ [44] ++ addrs_flag (y :: l)) with ((fmt_d i ++ [61] ++ a) ++ 44 :: addrs_flag (y :: l))
      by by rewrite <-!app_assoc.
    rewrite Split_app by done.
    cbn [splitAddresses_loop]. rewrite splitAddress_ok by done. cbn [mbind go_bind foldl]. by apply IH.
Qed.

Example listener_run : splitAddresses (str "1=10.0.0.1:7001, 2= 10.0.0.2:7002 ") = Fail "error, unable to strconv nodeid: %v" /\
  splitAddresses (str "1=10.0.0.1:7001,2= 10.0.0.2:7002 ") = Ret {[1 := str "10.0.0.1:7001"; 2 := str "10.0.0.2:7002"]} /\
  splitAddresses (str "1") = Crash.
Proof. split_and!; by vm_compute. Qed.

(** ** Example *)

Definition ex_server (id : uint64) (ip : string) (port : goint) : started :=
  MkStarted (MkPubsubConfig None (str "TestNet") id) [str ip] port.
Definition ex_servers : list started := [ex_server 1 "10.0.0.1" 7001; ex_server 2 "10.0.0.2" 7002].
Definition ex_dial (addr : bytes) : option PConn := Some (pc_New [] []).

Lemma subscribers_find_publishers_witness :
  let c := cl_bootstrap ex_dial (str "testnet") (announced_by <$> ex_servers) (MkClient ∅ ∅) in
  cl_nodes c !! 2 = Some (str "10.0.0.2:7002") /\ cl_nodes c !! 3 = None /\ connected ex_dial c /\
  cl_bootstrap ex_dial (str "testnet") (announced_by <$> ex_servers) c = c.
Proof.
  destruct (subscribers_find_publishers ex_dial (str "testnet") ex_servers (MkClient ∅ ∅)) as (H1 & H2 & H3).
  - repeat constructor; cbn; try done; unfold in_width; lia.
  - intros s _. by eexists.
  - done.
  - split; [rewrite H1; by vm_compute|]. split; [rewrite H1; by vm_compute|]. split; [done|]. apply H3.
    apply (bool_decide_unpack _). by vm_compute.
Defined.
