(* ===== verification/Coin.v ===== *)
(** * Coin: the example contract

    Model of [src/examples/cs-coin]: the service that builds transactions, the
    checkers that the nodes ask, and the handlers of the HTTP interface.  A
    [float64] is the value of the IEEE 754 specification of the standard
    library.  The JSON form of a wallet is a [Proto]; [strconv.ParseFloat] and
    Ed25519 are parameters. *)
From Stdlib Require Import Floats.SpecFloat.
From S2P Require Import Prelude Codec Database Config Base64 SbacStore SbacTypes SbacApi Paths Settings.

Abbreviation float64 := spec_float (only parsing).
Definition fadd : float64 -> float64 -> float64 := SFadd 53 1024.
Definition fsub : float64 -> float64 -> float64 := SFsub 53 1024.
Definition f_zero : float64 := S754_zero false.

(** ** [strconv.FormatFloat(f, 'f', 6, 64)] *)

(** The nearest integer to [n / d], the even one of two. *)
Definition round_half_even (n d : Z) : Z :=
  let q := n / d in
  match Z.compare (2 * (n mod d)) d with
  | Lt => q
  | Gt => q + 1
  | Eq => if Z.even q then q else q + 1
  end.
Definition micros (m : positive) (e : Z) : Z :=
  if decide (0 <= e) then Zpos m * 2 ^ e * 1000000 else round_half_even (Zpos m * 1000000) (2 ^ (- e)).
Definition six_digits (n : Z) : bytes :=
  (fun i => 48 + (n / 10 ^ i) mod 10) <$> [5; 4; 3; 2; 1; 0].
Definition fixed (sign : bool) (n : Z) : bytes :=
  (if sign then str "-" else []) ++ fmt_d (n / 1000000) ++ str "." ++ six_digits (n mod 1000000).
Definition FormatFloat (f : float64) : bytes :=
  match f with
  | S754_zero s => fixed s 0
  | S754_infinity s => if s then str "-Inf" else str "+Inf"
  | S754_nan => str "NaN"
  | S754_finite s m e => fixed s (micros m e)
  end.

(** ** [service.go] *)

Record Wallet := MkWallet { w_Address : bytes; w_Balance : float64; w_PubKey : bytes }.
Definition set_Balance (b : float64) (w : Wallet) : Wallet := MkWallet (w_Address w) b (w_PubKey w).

Definition coin_ContractID : bytes := str "cs-coin".
Definition wallet_label (address : bytes) : bytes := str "cs-coin:wallet:" ++ address.
Definition coin_Init (address : bytes) : bytes := wallet_label address.

Definition ErrInsufficientFunds : string := "unsufficient funds in the wallet".
Definition ErrInvalidSignature : string := "invalid signature".
Definition ErrInvalidSignatureFormat : string := "invalid signature format".
Definition ErrInvalidPubKeyFormat : string := "invalid public key format".

(** The input of the checkers. *)
Inductive CheckerTrace := MkCheckerTrace
  (Dependencies : list CheckerTrace)
  (Inputs : list bytes)
  (Outputs : list OutputObject)
  (Parameters ReferenceInputs Returns : list bytes).

Section coin.
Context {PW : Proto Wallet} (ParseFloat : bytes -> go float64).
Context (ed_Verify : bytes -> bytes -> bytes -> bool).

(** [ed25519.Verify], which panics for a public key that is not of 32 bytes. *)
Definition ed25519_Verify (publicKey data sig : bytes) : go bool :=
  if decide (length publicKey = 32%nat) then Ret (ed_Verify publicKey data sig) else Crash.

(** Decoding of base64 that fails with the error [e]. *)
Definition decode_or (e : string) (s : bytes) : go bytes :=
  let '(b, err) := DecodeString s in if err : bool then Fail e else Ret b.

Definition coin_trace (procedure : string) (ins : list bytes) (outs : list OutputObject) (params : list bytes) : Api.Trace :=
  Api.MkTrace coin_ContractID [] ins [] outs params (str procedure) [].
Definition wallet_output (address object : bytes) : OutputObject := MkOutputObject [wallet_label address] object.

Definition CreateWallet (address pubkey initobjID : bytes) (mappings : gmap (list Z) bytes) : go Api.Transaction :=
  walletBytes ← Marshal (MkWallet address f_zero pubkey);
  Ret (Api.MkTransaction mappings ∅ [coin_trace "create-wallet" [initobjID] [wallet_output address walletBytes] [address]]).

Definition AddFunds (wallet : Wallet) (amount : float64) (sig : bytes) (mappings : gmap (list Z) bytes) (walletID : bytes)
    : go Api.Transaction :=
  sigbytes ← decode_or ErrInvalidSignatureFormat sig;
  pubkeybytes ← decode_or ErrInvalidPubKeyFormat (w_PubKey wallet);
  let data := w_Address wallet ++ FormatFloat amount in
  ok ← ed25519_Verify pubkeybytes data sigbytes;
  _ ← guard_fail ok ErrInvalidSignature;
  newWalletBytes ← Marshal (set_Balance (fadd (w_Balance wallet) amount) wallet);
  Ret (Api.MkTransaction mappings ∅
         [coin_trace "add-funds" [walletID] [wallet_output (w_Address wallet) newWalletBytes] [FormatFloat amount; sig]]).

Definition TransferFunds (fromWallet toWallet : Wallet) (amount : float64) (sig : bytes) (mappings : gmap (list Z) bytes)
    (fromWalletID toWalletID : bytes) : go Api.Transaction :=
  sigbytes ← decode_or ErrInvalidSignatureFormat sig;
  pubkeybytes ← decode_or ErrInvalidPubKeyFormat (w_PubKey fromWallet);
  let data := w_Address fromWallet ++ w_Address toWallet ++ FormatFloat amount in
  ok ← ed25519_Verify pubkeybytes data sigbytes;
  _ ← guard_fail ok ErrInvalidSignature;
  _ ← guard_fail (negb (SFltb (fsub (w_Balance fromWallet) amount) f_zero)) ErrInsufficientFunds;
  newFromWalletBytes ← Marshal (set_Balance (fsub (w_Balance fromWallet) amount) fromWallet);
  newToWalletBytes ← Marshal (set_Balance (fadd (w_Balance toWallet) amount) toWallet);
  Ret (Api.MkTransaction mappings ∅
         [coin_trace "transfer-funds" [fromWalletID; toWalletID]
            [wallet_output (w_Address fromWallet) newFromWalletBytes; wallet_output (w_Address toWallet) newToWalletBytes]
            [FormatFloat amount; sig]]).

(** ** [checkers.go] *)

Definition CreateWalletChecker (tr : CheckerTrace) : bool :=
  let 'MkCheckerTrace _ ins outs params _ _ := tr in
  (length ins =? length outs)%nat && (length ins =? 1)%nat && (length params =? 1)%nat.

(** A failed step makes the checker answer [false]. *)
Definition or_false {A} (m : go A) (k : A -> go bool) : go bool :=
  match m with Ret x => k x | Fail _ => Ret false | Crash => Crash end.
Definition require (b : bool) (k : go bool) : go bool := if b then k else Ret false.

Definition AddFundsChecker (tr : CheckerTrace) : go bool :=
  let 'MkCheckerTrace _ ins outs params _ _ := tr in
  require (length ins =? length outs)%nat (require (length ins =? 1)%nat (require (length params =? 2)%nat (
  match ins, outs, params with
  | oldWalletStr :: _, out :: _, amountStr :: sig :: _ =>
      or_false (Unmarshal oldWalletStr) (fun oldWallet : Wallet =>
      or_false (Unmarshal (oo_Object out)) (fun newWallet : Wallet =>
      or_false (ParseFloat amountStr) (fun amount =>
      require (SFeqb (fadd (w_Balance oldWallet) amount) (w_Balance newWallet)) (
      or_false (decode_or "" sig) (fun sigbytes =>
      let data := w_Address oldWallet ++ FormatFloat amount in
      ed25519_Verify (w_PubKey oldWallet) data sigbytes)))))
  | _, _, _ => Crash
  end))).

Definition TransferFundsChecker (tr : CheckerTrace) : go bool :=
  let 'MkCheckerTrace _ ins outs params _ _ := tr in
  require (length ins =? length outs)%nat (require (length ins =? 2)%nat (require (length params =? 2)%nat (
  match ins, outs, params with
  | fromStr :: toStr :: _, out0 :: out1 :: _, amountStr :: sig :: _ =>
      or_false (Unmarshal fromStr) (fun fromWallet : Wallet =>
      or_false (Unmarshal (oo_Object out0)) (fun newFromWallet : Wallet =>
      or_false (Unmarshal toStr) (fun toWallet : Wallet =>
      or_false (Unmarshal (oo_Object out1)) (fun newToWallet : Wallet =>
      or_false (ParseFloat amountStr) (fun amount =>
      require (negb (SFltb (fsub (w_Balance fromWallet) amount) f_zero)) (
      require (SFeqb (fsub (w_Balance fromWallet) amount) (w_Balance newFromWallet)) (
      require (SFeqb (fadd (w_Balance toWallet) amount) (w_Balance newToWallet)) (
      or_false (decode_or "" sig) (fun sigbytes =>
      let data := w_Address fromWallet ++ w_Address toWallet ++ FormatFloat amount in
      ed25519_Verify (w_PubKey fromWallet) data sigbytes)))))))))
  | _, _, _ => Crash
  end))).

(** ** [api.go] *)

Record CreateWalletRequest := MkCreateWalletRequest {
  cw_Address : bytes; cw_PubKey : bytes; cw_InitObject : bytes; cw_Mappings : gmap (list Z) bytes }.
Record AddFundsRequest := MkAddFundsRequest {
  af_Wallet : bytes; af_Amount : float64; af_Signature : bytes; af_Mappings : gmap (list Z) bytes }.
Record TransferFundsRequest := MkTransferFundsRequest {
  tf_FromWallet : bytes; tf_ToWallet : bytes; tf_Amount : float64; tf_Signature : bytes; tf_Mappings : gmap (list Z) bytes }.

(** The status and the body of a response, from the parsed request. *)
Definition respond (failure : Z) (m : go Api.Transaction) : go (Z * option Api.Transaction) :=
  match m with
  | Ret tx => Ret (StatusOK, Some tx)
  | Fail _ => Ret (failure, None)
  | Crash => Crash
  end.

Definition api_createWallet (req : go CreateWalletRequest) : go (Z * option Api.Transaction) :=
  match req with
  | Ret r => respond StatusBadRequest (CreateWallet (cw_Address r) (cw_PubKey r) (cw_InitObject r) (cw_Mappings r))
  | _ => Ret (StatusBadRequest, None)
  end.

(** A wallet of the mappings. *)
Definition mapped_wallet (mappings : gmap (list Z) bytes) (id : bytes) : option Wallet :=
  w ← mappings !! id;
  match Unmarshal w with Ret x => Some x | _ => None end.

Definition api_addFunds (req : go AddFundsRequest) : go (Z * option Api.Transaction) :=
  match req with
  | Ret r =>
      match mapped_wallet (af_Mappings r) (af_Wallet r) with
      | Some w => respond StatusBadRequest (AddFunds w (af_Amount r) (af_Signature r) (af_Mappings r) (af_Wallet r))
      | None => Ret (StatusBadRequest, None)
      end
  | _ => Ret (StatusBadRequest, None)
  end.

Definition api_transferFunds (req : go TransferFundsRequest) : go (Z * option Api.Transaction) :=
  match req with
  | Ret r =>
      match mapped_wallet (tf_Mappings r) (tf_FromWallet r), mapped_wallet (tf_Mappings r) (tf_ToWallet r) with
      | Some f, Some t => respond StatusInternalServerError
          (TransferFunds f t (tf_Amount r) (tf_Signature r) (tf_Mappings r) (tf_FromWallet r) (tf_ToWallet r))
      | _, _ => Ret (StatusBadRequest, None)
      end
  | _ => Ret (StatusBadRequest, None)
  end.

Definition checker_response (req : go CheckerTrace) (check : CheckerTrace -> go bool) : go (Z * option bool) :=
  match req with
  | Ret tr => ok ← check tr; Ret (StatusOK, Some ok)
  | _ => Ret (StatusBadRequest, None)
  end.

(** The routes of [New] in order: method, path, and the handler. *)
Inductive handler :=
  | H_swagger | H_init | H_createWallet | H_addFunds | H_transferFunds
  | H_createWalletChecker | H_addFundsChecker | H_TransferFundsChecker | H_healthcheck.
Definition routes : list (bytes * bytes * handler) :=
  [ (str "GET", str "/swagger/*any", H_swagger);
    (str "GET", str "/api/cs-coin/wallet/init/:address", H_createWallet);
    (str "POST", str "/api/cs-coin/wallet", H_createWallet);
    (str "POST", str "/api/cs-coin/wallet/add-funds", H_addFunds);
    (str "POST", str "/api/cs-coin/wallet/transfer-funds", H_transferFunds);
    (str "POST", str "/cs-coin/create-wallet", H_createWalletChecker);
    (str "POST", str "/cs-coin/add-funds", H_addFundsChecker);
    (str "POST", str "/cs-coin/transfer-funds", H_TransferFundsChecker);
    (str "GET", str "/healthcheck", H_healthcheck) ].
End coin.

(** * What the checkers of the example contract accept *)

(** ** The length of decoded data *)

Lemma skip_newlines_length s : (length (skip_newlines s) <= length s)%nat.
Proof. induction s as [|c s IH]; cbn; [lia|]. destruct (newline c); cbn; lia. Qed.

Lemma undigits_length ds : (length (undigits ds) <= pred (length ds))%nat.
Proof. destruct ds as [|a [|b [|c [|d [|e ds]]]]]; cbn; lia. Qed.

Lemma decodeQuantum_length ds s : (length ds <= 3)%nat ->
  let '(b, r, _) := decodeQuantum ds s in (4 * length b + 3 * length r <= 3 * (length ds + length s))%nat.
Proof.
  revert ds. induction s as [|c s IH]; intros ds Hl; cbn [decodeQuantum]; [cbn; lia|]. cbn [length].
  destruct (dec64 c) as [d|].
  - case_decide as H4.
    + pose proof (undigits_length (ds ++ [d])). rewrite length_app in *. cbn in *. lia.
    + specialize (IH (ds ++ [d])). rewrite length_app in *. cbn in *.
      destruct (decodeQuantum (ds ++ [d]) s) as [[b r] err]. lia.
  - destruct (newline c).
    { specialize (IH ds Hl). destruct (decodeQuantum ds s) as [[b r] err]. lia. }
    destruct (negb _); [cbn; lia|]. case_decide; [cbn; lia|]. pose proof (skip_newlines_length s). case_decide as H2.
    + destruct (skip_newlines s) as [|c' r] eqn:E; [cbn; lia|]. cbn in *. destruct (c' =? pad); [|cbn; lia].
      pose proof (skip_newlines_length r). pose proof (undigits_length ds). lia.
    + pose proof (undigits_length ds). lia.
Qed.

Lemma decode_loop_length fuel s out :
  (4 * length (decode_loop fuel s out).1 <= 4 * length out + 3 * length s)%nat.
Proof.
  revert s out. induction fuel as [|fuel IH]; intros s out; cbn [decode_loop]; [cbn; lia|].
  destruct s as [|c s]; [cbn; lia|]. pose proof (decodeQuantum_length [] (c :: s) ltac:(cbn; lia)) as H.
  destruct (decodeQuantum [] (c :: s)) as [[b r] []]; cbn [fst].
  - rewrite length_app. cbn in *. lia.
  - specialize (IH r (out ++ b)). rewrite length_app in IH. cbn [length] in *. lia.
Qed.

(** Base64 data is longer than what it encodes. *)
Lemma DecodeString_length s : (4 * length (DecodeString s).1 <= 3 * length s)%nat.
Proof. pose proof (decode_loop_length (length s) s []). unfold DecodeString. cbn in *. lia. Qed.

Section coin.
Context {PW : Proto Wallet} (ParseFloat : bytes -> go float64) (ed_Verify : bytes -> bytes -> bytes -> bool).

(** ** What is accepted *)

(** A transfer is accepted exactly when it has two wallets as inputs and two
    as outputs, an amount that the first wallet can pay, the balances of the
    outputs are those of the inputs less and plus the amount, and the owner of
    the first wallet has signed both addresses and the amount; a public key that
    is not of 32 bytes makes the checker panic. *)
Theorem transfer_checker_spec deps ins outs params refs rets :
  TransferFundsChecker ParseFloat ed_Verify (MkCheckerTrace deps ins outs params refs rets) = Ret true <->
  exists fromStr toStr out0 out1 amountStr sig from to from' to' amount,
    ins = [fromStr; toStr] /\ outs = [out0; out1] /\ params = [amountStr; sig] /\
    Unmarshal fromStr = Ret from /\ Unmarshal toStr = Ret to /\
    Unmarshal (oo_Object out0) = Ret from' /\ Unmarshal (oo_Object out1) = Ret to' /\
    ParseFloat amountStr = Ret amount /\
    SFltb (fsub (w_Balance from) amount) f_zero = false /\
    SFeqb (fsub (w_Balance from) amount) (w_Balance from') = true /\
    SFeqb (fadd (w_Balance to) amount) (w_Balance to') = true /\
    (DecodeString sig).2 = false /\ length (w_PubKey from) = 32%nat /\
    ed_Verify (w_PubKey from) (w_Address from ++ w_Address to ++ FormatFloat amount) (DecodeString sig).1 = true.
Proof using Type.
  cbn [TransferFundsChecker]. split.
  - unfold require. destruct (Nat.eqb_spec (length ins) (length outs)) as [Hl|]; [|done].
    destruct (Nat.eqb_spec (length ins) 2) as [H2|]; [|done]. destruct (Nat.eqb_spec (length params) 2) as [Hp|]; [|done].
    destruct ins as [|i0 [|i1 [|]]]; try done. destruct outs as [|o0 [|o1 [|]]]; try done.
    destruct params as [|p0 [|p1 [|]]]; try done. unfold or_false, ed25519_Verify, decode_or.
    destruct (Unmarshal i0) as [from|e|] eqn:E1; try done. destruct (Unmarshal (oo_Object o0)) as [from'|e|] eqn:E2; try done.
    destruct (Unmarshal i1) as [to|e|] eqn:E3; try done. destruct (Unmarshal (oo_Object o1)) as [to'|e|] eqn:E4; try done.
    destruct (ParseFloat p0) as [amount|e|] eqn:E5; try done.
    destruct (SFltb _ _) eqn:E6; try done. cbn [negb]. destruct (SFeqb _ (w_Balance from')) eqn:E7; try done.
    destruct (SFeqb _ (w_Balance to')) eqn:E8; try done. destruct (DecodeString p1) as [b []] eqn:E9; try done.
    case_decide as E10; try done. intros [= E11].
    exists i0, i1, o0, o1, p0, p1, from, to, from', to', amount. rewrite E9. by split_and!.
  - intros (i0 & i1 & o0 & o1 & p0 & p1 & from & to & from' & to' & amount & -> & -> & -> & E1 & E3 & E2 & E4 & E5 & E6 & E7 & E8 & E9 & E10 & E11).
    cbn [length Nat.eqb require]. rewrite E1. cbn [or_false]. rewrite E2. cbn [or_false]. rewrite E3. cbn [or_false].
    rewrite E4. cbn [or_false]. rewrite E5. cbn [or_false]. rewrite E6, E7, E8. cbn [negb require].
    unfold decode_or. destruct (DecodeString p1) as [b err]. cbn in E9, E11. subst err. cbn [or_false].
    unfold ed25519_Verify. rewrite decide_True by done. by rewrite E11.
Qed.

(** ** What the service builds *)

(** A key that the service accepts is longer than 32 bytes in its text form. *)
Lemma accepted_key e key data sig ok : (pubkeybytes ← decode_or e key; ed25519_Verify ed_Verify pubkeybytes data sig) = Ret ok ->
  length key <> 32%nat.
Proof using Type.
  intros (b & Hd & Hv)%go_bind_Ret Hl. unfold decode_or in Hd. pose proof (DecodeString_length key) as Hlen.
  destruct (DecodeString key) as [b' []]; [done|]. injection Hd as ->. unfold ed25519_Verify in Hv.
  case_decide as H32; [|done]. cbn in Hlen. lia.
Qed.

Lemma verify_text_key key data sig : length key <> 32%nat -> ed25519_Verify ed_Verify key data sig = Crash.
Proof using Type. intros Hl. unfold ed25519_Verify. by rewrite decide_False. Qed.

(** A continuation that panics never accepts. *)
Lemma or_false_not_true {A} (m : go A) k : (forall x, m = Ret x -> k x <> Ret true) -> or_false m k <> Ret true.
Proof using Type. destruct m; cbn; auto. Qed.
Lemma require_not_true b k : k <> Ret true -> require b k <> Ret true.
Proof using Type. by destruct b. Qed.

(** When the service has built a transaction for a wallet, the checkers accept
    no transaction that spends this wallet, whatever its other parts: the service
    verifies signatures with the decoded public key of the wallet, the checkers
    with its base64 text, for which the verification panics. *)
Theorem built_transactions_not_accepted :
  (forall wallet amount sig mappings walletID tx deps ins outs params refs rets,
     AddFunds ed_Verify wallet amount sig mappings walletID = Ret tx ->
     (forall i w, i ∈ ins -> Unmarshal i = Ret w -> w_PubKey w = w_PubKey wallet) ->
     AddFundsChecker ParseFloat ed_Verify (MkCheckerTrace deps ins outs params refs rets) <> Ret true) /\
  (forall from to amount sig mappings fromID toID tx deps fromStr ins outs params refs rets,
     TransferFunds ed_Verify from to amount sig mappings fromID toID = Ret tx ->
     (forall w, Unmarshal fromStr = Ret w -> w_PubKey w = w_PubKey from) ->
     TransferFundsChecker ParseFloat ed_Verify (MkCheckerTrace deps (fromStr :: ins) outs params refs rets) <> Ret true).
Proof using Type.
  split.
  - intros wallet amount sig mappings walletID tx deps ins outs params refs rets Hb Hin.
    unfold AddFunds in Hb. apply go_bind_Ret in Hb as (sigb & _ & Hb). apply go_bind_Ret in Hb as (key & Hk & Hb).
    cbv zeta in Hb. apply go_bind_Ret in Hb as (ok & Hv & _).
    assert (length (w_PubKey wallet) <> 32%nat) as Hl.
    { eapply (accepted_key ErrInvalidPubKeyFormat). rewrite Hk. cbn. exact Hv. }
    cbn [AddFundsChecker]. do 3 apply require_not_true. destruct ins as [|i ins]; [done|]. destruct outs as [|o outs]; [done|].
    destruct params as [|p [|s params]]; try done.
    apply or_false_not_true. intros w Hw. apply or_false_not_true. intros w' _. apply or_false_not_true. intros a _.
    apply require_not_true. apply or_false_not_true. intros sb _. cbv zeta. rewrite verify_text_key; [done|].
    by rewrite (Hin i w ltac:(left) Hw).
  - intros from to amount sig mappings fromID toID tx deps fromStr ins outs params refs rets Hb Hin.
    unfold TransferFunds in Hb. apply go_bind_Ret in Hb as (sigb & _ & Hb). apply go_bind_Ret in Hb as (key & Hk & Hb).
    cbv zeta in Hb. apply go_bind_Ret in Hb as (ok & Hv & _).
    assert (length (w_PubKey from) <> 32%nat) as Hl.
    { eapply (accepted_key ErrInvalidPubKeyFormat). rewrite Hk. cbn. exact Hv. }
    cbn [TransferFundsChecker]. do 3 apply require_not_true. destruct ins as [|i ins]; [done|]. destruct outs as [|o [|o' outs]]; try done.
    destruct params as [|p [|s params]]; try done.
    apply or_false_not_true. intros w Hw. do 4 (apply or_false_not_true; intros ? _). do 3 apply require_not_true.
    apply or_false_not_true. intros sb _. cbv zeta. rewrite verify_text_key; [done|]. by rewrite (Hin w Hw).
Qed.
End coin.

(** ** Examples *)

(** Amounts with six decimals. *)
Example format_ex : FormatFloat (S754_finite false 5629499534213120 (-50)) = str "5.000000" /\
  FormatFloat (S754_finite true 7205759403792794 (-53)) = str "-0.800000" /\ FormatFloat (S754_finite false 1 (-40)) = str "0.000000".
Proof. by vm_compute. Qed.

(** Wallets in JSON, here as a list of bytes: the balance in coins, and the
    address. *)
Definition coins (n : Z) : float64 := SFadd 53 1024 (S754_zero false) (binary_normalize 53 1024 n 0 false).
Definition key32 : bytes := replicate 32 7.
Definition ex_text_key : bytes := EncodeToString key32.
Definition ex_wallet (key : bytes) (address : bytes) (n : Z) : Wallet := MkWallet address (coins n) key.
Definition json_wallet (key : bytes) (b : bytes) : go Wallet :=
  match b with [n; a] => Ret (ex_wallet key [a] n) | _ => Fail "json" end.
Definition ex_ParseFloat (s : bytes) : go float64 :=
  if decide (s = str "-5.000000") then Ret (coins (-5)) else Fail "float".
Definition ex_ed_Verify (key data sig : bytes) : bool := bool_decide (key = key32 /\ sig = [1]).

(** The amount may be negative: with the signature of the first owner alone, five
    coins are taken from the second wallet. *)
Lemma negative_transfer_accepted :
  @TransferFundsChecker {| Marshal _ := Ret []; Unmarshal := json_wallet key32 |} ex_ParseFloat ex_ed_Verify
    (MkCheckerTrace [] [[10; 1]; [20; 2]] [MkOutputObject [] [15; 1]; MkOutputObject [] [15; 2]]
       [str "-5.000000"; EncodeToString [1]] [] []) = Ret true.
Proof. by vm_compute. Qed.

(** The address that should serve the seed object of a wallet has the handler
    that creates wallets; no address has the other one. *)
Lemma init_not_routed : Forall (fun r => r.2 <> H_init) routes.
Proof. repeat constructor; done. Qed.

#[local] Instance ex_wallet_proto : Proto Wallet := {| Marshal _ := Ret [0]; Unmarshal := json_wallet ex_text_key |}.

Lemma built_transactions_not_accepted_witness :
  (exists tx, TransferFunds ex_ed_Verify (ex_wallet ex_text_key [1] 10) (ex_wallet ex_text_key [2] 20) (coins 3) (EncodeToString [1]) ∅ [5] [6] = Ret tx) /\
  TransferFundsChecker ex_ParseFloat ex_ed_Verify
    (MkCheckerTrace [] [[10; 1]; [20; 2]] [MkOutputObject [] [7; 1]; MkOutputObject [] [23; 2]] [str "3.000000"; EncodeToString [1]] [] [])
  <> Ret true.
Proof.
  assert (exists tx, TransferFunds ex_ed_Verify (ex_wallet ex_text_key [1] 10) (ex_wallet ex_text_key [2] 20) (coins 3)
            (EncodeToString [1]) ∅ [5] [6] = Ret tx) as [tx Htx] by (eexists; vm_compute; reflexivity).
  split; [by exists tx|].
  refine (proj2 (built_transactions_not_accepted ex_ParseFloat ex_ed_Verify) _ _ _ _ _ _ _ _ _ _ _ _ _ _ _ Htx _).
  intros w Hw. by injection Hw as <-.
Defined.

(** * The keys of the example contract

    Model of [src/examples/cs-coin/cmd/cs-coin]: the program generates signing
    keys and signs with them; what it prints is accepted by the service of [Coin].
    Ed25519 is a parameter; [log.Fatalf] ends the process, which is an error. *)

(** [log.Printf] of one line. *)
Definition line := bytes.

Section keys.
Context (writable : bytes -> bool) (ed_Sign : bytes -> bytes -> bytes).

(** [os.Stat] of what is no directory. *)
Definition checkPath (path : bytes) (d : disk) : go () :=
  if decide (path ∈ dk_dirs d) then Ret tt
  else if decide (is_Some (dk_files d !! path)) then Fail "`%v` is not a directory"
  else Fail "directory `%v` does not exist".

Definition WriteFile (path data : bytes) (d : disk) : go disk :=
  if writable path then Ret (MkDisk (dk_dirs d) (<[path := data]> (dk_files d))) else Fail "cannot write".

Definition or_fatal {A} (m : go A) (e : string) : go A :=
  match m with Ret x => Ret x | Fail _ => Fail e | Crash => Crash end.

Definition makeKeys (generated : go (bytes * bytes)) (path : bytes) (d : disk) : go disk :=
  _ ← (if decide (path <> []) then checkPath path d else Ret tt);
  '(pub, priv) ← or_fatal generated "unable to generate signing key, %v";
  d ← or_fatal (WriteFile (Join [path; str "key.pub"]) (EncodeToString pub) d) "unable to write public key, %v";
  or_fatal (WriteFile (Join [path; str "key.priv"]) (EncodeToString priv) d) "unable to write private key, %v".

Definition fileExists (path : bytes) (d : disk) : go () :=
  if decide (path ∈ dk_dirs d) then Fail "`%v` is not a file"
  else if decide (is_Some (dk_files d !! path)) then Ret tt
  else Fail "could not find private key `%v`".

(** [ed25519.Sign] panics for a key that is not of 64 bytes. *)
Definition ed25519_Sign (privkey payload : bytes) : go bytes :=
  if decide (length privkey = 64%nat) then Ret (ed_Sign privkey payload) else Crash.

(** The signature that is printed. *)
Definition signPayload (payload path : bytes) (d : disk) : go line :=
  let fp := Join [path; str "key.priv"] in
  _ ← fileExists fp d;
  privfile ← or_fatal (ReadFile fp d) "unable to read private key, %v";
  let '(privkey, failed) := DecodeString privfile in
  if failed : bool then Fail "unable to load private key, invalid base64 value, %v"
  else sig ← ed25519_Sign privkey payload; Ret (EncodeToString sig).

(** [main] before the server is started. *)
Inductive coin_outcome := KeysMade (d : disk) | Signed (out : line) | Serving.
Definition coin_main (genkeys : bool) (sign : bytes) (generated : go (bytes * bytes)) (keysPath : bytes) (d : disk) : go coin_outcome :=
  if genkeys && bool_decide (sign <> []) then Fail "cannot invoke genkeys and sign command at the same time"
  else if genkeys then d ← makeKeys generated keysPath d; Ret (KeysMade d)
  else if decide (sign <> []) then out ← signPayload sign keysPath d; Ret (Signed out)
  else Ret Serving.

(** Keys that the program has generated sign: the signature it prints, taken
    back from base64, and the public key in its file are accepted by the
    verification of the service, for every payload. *)
Lemma generated_keys_sign (ed_Verify : bytes -> bytes -> bytes -> bool) pub priv path d d' payload :
  length pub = 32%nat -> length priv = 64%nat -> Forall is_byte pub -> Forall is_byte priv ->
  Forall is_byte (ed_Sign priv payload) -> ed_Verify pub payload (ed_Sign priv payload) = true ->
  Join [path; str "key.priv"] ∉ dk_dirs d -> Join [path; str "key.pub"] <> Join [path; str "key.priv"] -> payload <> [] ->
  coin_main true [] (Ret (pub, priv)) path d = Ret (KeysMade d') ->
  exists out, coin_main false payload (Ret (pub, priv)) path d' = Ret (Signed out) /\
    (pubfile ← ReadFile (Join [path; str "key.pub"]) d';
     ed25519_Verify ed_Verify (DecodeString pubfile).1 payload (DecodeString out).1) = Ret true.
Proof using Type.
  intros Hl1 Hl2 Hb1 Hb2 Hb3 Hv Hdir Hne Hp Hm. unfold coin_main in *. cbn [andb negb] in Hm. rewrite bool_decide_false in Hm by (intros H; by apply H).
  apply go_bind_Ret in Hm as (d1 & Hm & [= ->]). unfold makeKeys in Hm. apply go_bind_Ret in Hm as ([] & _ & Hm).
  cbn [or_fatal mbind go_bind] in Hm. unfold WriteFile in Hm. destruct (writable (Join [path; str "key.pub"])); [|done].
  cbn [or_fatal mbind go_bind] in Hm. destruct (writable (Join [path; str "key.priv"])); [|done]. cbn [or_fatal] in Hm.
  injection Hm as <-. cbn [andb]. rewrite decide_True by done. unfold signPayload, fileExists, ReadFile. cbn [dk_dirs dk_files].
  rewrite (decide_False (P := _ ∈ _)) by done. rewrite lookup_insert_eq, decide_True by by eexists. cbn [mbind go_bind or_fatal].
  rewrite base64_roundtrip by done. unfold ed25519_Sign. rewrite decide_True by done. cbn [mbind go_bind].
  eexists. split; [done|]. rewrite lookup_insert_ne, lookup_insert_eq by done. cbn [mbind go_bind].
  rewrite !base64_roundtrip by done. cbn [fst]. unfold ed25519_Verify. by rewrite decide_True, Hv.
Qed.

(** A key file that is cut short panics. *)
Lemma short_key_panics payload path d b : dk_files d !! Join [path; str "key.priv"] = Some (EncodeToString b) ->
  Join [path; str "key.priv"] ∉ dk_dirs d -> Forall is_byte b -> length b <> 64%nat -> signPayload payload path d = Crash.
Proof using Type.
  intros Hf Hd Hb Hl. unfold signPayload, fileExists, ReadFile. rewrite (decide_False (P := _ ∈ _)) by done. rewrite Hf, decide_True by by eexists.
  cbn [mbind go_bind or_fatal]. rewrite base64_roundtrip by done. unfold ed25519_Sign. by rewrite decide_False.
Qed.
End keys.
