(* ===== verification/Deployed.v ===== *)
(** * Deployed: the contracts of an initialised network at work

    The dummy contract of [src/dummycontract/main.go], and the composition of the
    parts that decide about a trace: the contracts that [chainspace init]
    configures, the checkers that a node makes of them, and the two contracts that
    answer.  URLs and JSON are parameters. *)
From Stdlib Require Import Floats.SpecFloat.
From S2P Require Import Prelude Codec Database Config SbacStore SbacTypes SbacApi Paths Settings Base64 Checker CheckerProps Contracts Coin Init.

(** ** Checkers with different names *)

Section passes.
Context (post : bytes -> trace -> go bytes) (parse_success : bytes -> go bool).

Lemma last_unique {A B} (f : A -> B) (k : B) (P : A -> Prop) `{!forall x, Decision (P x)} (l : list A) c :
  (forall x, P x -> f x = k) -> NoDup (f <$> l) -> c ∈ l -> P c -> last (filter P l) = Some c.
Proof using Type.
  intros HP. induction l as [|x l IH]; [intros _ Hc; by apply not_elem_of_nil in Hc|].
  rewrite fmap_cons. intros [Hx Hnd]%NoDup_cons Hc Hk. rewrite filter_cons. apply elem_of_cons in Hc as [->|Hc].
  - rewrite decide_True by done. destruct (filter P l) as [|y l'] eqn:El; [done|].
    assert (y ∈ filter P l) as [Hy Hyl]%list_elem_of_filter by (rewrite El; left). destruct Hx. rewrite (HP x), <-(HP y) by done. by apply list_elem_of_fmap_2.
  - case_decide as Hpx; [|by apply IH]. destruct Hx. rewrite (HP x), <-(HP c) by done. by apply list_elem_of_fmap_2.
Qed.

(** When no two checkers have the same contract and procedure, a trace passes
    exactly when one is for it and accepts it. *)
Lemma passes_distinct cs t : NoDup ((fun c => (iD c, procedureName c)) <$> cs) ->
  passes (newCheckers (as_Checker post parse_success <$> cs) ∅) t <->
  exists c, c ∈ cs /\ iD c = ContractID t /\ procedureName c = Procedure t /\ run_check (as_Checker post parse_success c, t) = true.
Proof using Type.
  intros Hnd. unfold passes, find_checker.
  rewrite (newCheckers_lookup (as_Checker post parse_success <$> cs) ∅ (ContractID t) (Procedure t)).
  rewrite as_Checker_filter, fmap_last, lookup_empty. split.
  - destruct (last _) as [c|] eqn:El; [|naive_solver]. intros (k & [= <-] & Hr).
    apply last_Some_elem_of, list_elem_of_filter in El as [[? ?] ?]. by exists c.
  - intros (c & Hc & Hi & Hp & Hr). rewrite (last_unique (fun c => (iD c, procedureName c)) (ContractID t, Procedure t) _ cs c);
      [|by intros x [-> ->]|done..]. by eexists.
Qed.
End passes.

(** ** The dummy contract *)

(** The three handlers of [main], for every method; [http.ServeMux] answers other
    paths with an error text. *)
Definition not_found : bytes := str "404 page not found".
Definition quoted (s : string) : bytes := [34] ++ str s ++ [34].
Definition dummy_success (b : bool) : bytes :=
  str "{" ++ quoted "success" ++ str ": " ++ (if b then str "true" else str "false") ++ str "}".
Definition dummy_healthy : bytes := str "{" ++ quoted "ok" ++ str ": true}".
Definition dummy_main (path : bytes) : bytes :=
  if decide (path = str "/dummy/dummy_ok") then dummy_success true
  else if decide (path = str "/dummy/dummy_ko") then dummy_success false
  else if decide (path = str "/healthcheck") then dummy_healthy
  else not_found.
Definition dummy_port : bytes := str "8080".

(** ** What a contract receives *)

(** The structs of the node and of the contract have the same JSON fields. *)
Fixpoint to_CheckerTrace (t : trace) : CheckerTrace :=
  let 'MkTraceBody deps ins outs params refs rets := t in
  MkCheckerTrace (map to_CheckerTrace deps) ins outs params refs rets.

Definition body_of (t : Trace) : trace :=
  makeTrace (InputObjects t) (InputReferences t) (Parameters t) (OutputObjects t) (Returns t) (Dependencies t).

Section deployed.
Context {PW : Proto Wallet} (ParseFloat : bytes -> go spec_float) (ed_Verify : bytes -> bytes -> bytes -> bool).
(** [json.Marshal] of the body and [BindJSON] of what was sent. *)
Context (BindJSON : trace -> go CheckerTrace).
(** The JSON of [CheckerResponse], of [Response], which has no field [success], and
    of the health of the example contract. *)
Context (json_success : bool -> bytes) (json_response json_healthy : bytes).
Context (url_Parse : bytes -> option URL) (url_String : URL -> bytes).
Context (parse_success parse_ok : bytes -> go bool).

Definition coin_checker (h : handler) (tr : CheckerTrace) : go bool :=
  match h with
  | H_createWalletChecker => Ret (CreateWalletChecker tr)
  | H_addFundsChecker => AddFundsChecker ParseFloat ed_Verify tr
  | H_TransferFundsChecker => TransferFundsChecker ParseFloat ed_Verify tr
  | _ => Ret false
  end.

Definition coin_route (method path : bytes) : option handler :=
  r ← list_find (fun r => r.1 = (method, path)) routes; Some r.2.2.

(** A panic of a handler is answered with the status 500 and no body. *)
Definition coin_post (path : bytes) (body : trace) : bytes :=
  match coin_route (str "POST") path with
  | Some (H_createWalletChecker | H_addFundsChecker | H_TransferFundsChecker) as h =>
      match checker_response (BindJSON body) (coin_checker (default H_swagger h)) with
      | Ret (_, Some ok) => json_success ok
      | Ret (_, None) => json_response
      | _ => []
      end
  | Some _ => json_response
  | None => not_found
  end.
Definition coin_get (path : bytes) : bytes :=
  match coin_route (str "GET") path with Some H_healthcheck => json_healthy | _ => not_found end.
Definition coin_port : bytes := str "1789".

(** ** The containers *)

Inductive server := SrvDummy | SrvCoin.
(** What listens at a port of a container of an image. *)
Definition image_server (image port : bytes) : option server :=
  if decide (image = str "gcr.io/acoustic-atom-211511/chainspace.io/contract-dummy:latest" /\ port = dummy_port) then Some SrvDummy
  else if decide (image = str "chainspace.io/cs-coin:latest" /\ port = coin_port) then Some SrvCoin
  else None.
(** The containers publish their ports as [createContainer] asks the daemon to. *)
Definition server_at (cfg : ContractsCfg) (host : bytes) : option server :=
  c ← list_find (fun c => host = str "0.0.0.0:" ++ dc_HostPort c) (DockerContracts cfg);
  image_server (dc_Image c.2) (dc_Port c.2).

Definition at_server (cfg : ContractsCfg) (address : bytes) (k : server -> bytes -> bytes) : go bytes :=
  match url_Parse address with
  | Some u => match server_at cfg (u_Host u) with Some s => Ret (k s (u_Path u)) | None => Fail "connection refused" end
  | None => Fail "invalid URL"
  end.
Definition deployed_post (cfg : ContractsCfg) (address : bytes) (body : trace) : go bytes :=
  at_server cfg address (fun s path => match s with SrvDummy => dummy_main path | SrvCoin => coin_post path body end).
Definition deployed_get (cfg : ContractsCfg) (address : bytes) : go bytes :=
  at_server cfg address (fun s path => match s with SrvDummy => dummy_main path | SrvCoin => coin_get path end).

(** ** Which traces pass *)

Definition local_url (port path : bytes) : URL := MkURL (str "http") (str "0.0.0.0:" ++ port) path.
(** [URL.String] puts a slash between the host and a relative path. *)
Definition slashed (path : bytes) : bytes :=
  match path with c :: _ => if decide (c = 47) then path else 47 :: path | [] => [] end.

(** What is documented of URLs and of JSON, for the addresses and the responses at
    hand. *)
Record libraries_ok : Prop := MkLibrariesOk {
  parse_local port : url_Parse (str "http://0.0.0.0:" ++ fmt_d port) = Some (local_url (fmt_d port) []);
  string_local port path : url_Parse (url_String (local_url (fmt_d port) path)) = Some (local_url (fmt_d port) (slashed path));
  parse_dummy b : parse_success (dummy_success b) = Ret b;
  parse_coin b : parse_success (json_success b) = Ret b;
  parse_response : parse_success json_response = Ret false;
  parse_text : parse_success [] <> Ret true;
  parse_dummy_health : parse_ok dummy_healthy = Ret true;
  parse_coin_health : parse_ok json_healthy = Ret true }.

(** The checkers of an initialised network. *)
Definition deployed_checker (id port procedure : string) : ContractChecker :=
  MkContractChecker (str id) (str procedure) (url_String (local_url (str port) (str id ++ str "/" ++ str procedure))).
Definition deployed_checkers : list ContractChecker :=
  [ deployed_checker "dummy" "1789" "dummy_ok"; deployed_checker "dummy" "1789" "dummy_ko";
    deployed_checker "cs-coin" "1492" "create-wallet"; deployed_checker "cs-coin" "1492" "add-funds";
    deployed_checker "cs-coin" "1492" "transfer-funds" ].

Context (Hok : libraries_ok).

Lemma parse_url port x path : str port = fmt_d x ->
  url_Parse (url_String (local_url (str port) path)) = Some (local_url (str port) (slashed path)).
Proof using Hok. intros ->. apply (string_local Hok). Qed.

Lemma parse_port port x : str port = fmt_d x ->
  url_Parse (str "http://0.0.0.0:" ++ str port) = Some (local_url (str port) []).
Proof using Hok. intros ->. apply (parse_local Hok). Qed.

Lemma deployed_GetCheckers : GetCheckers url_Parse url_String default_contracts = Ret deployed_checkers.
Proof using Hok.
  unfold GetCheckers, default_contracts. cbn [DockerContracts Contracts collect].
  unfold NewDockerCheckers. cbn [dc_HostPort dc_Name dc_Procedures].
  rewrite (parse_port "1789" 1789), (parse_port "1492" 1492) by by vm_compute. by vm_compute.
Qed.

Lemma at_server_local cfg port x path k : str port = fmt_d x ->
  at_server cfg (url_String (local_url (str port) path)) k =
  match server_at cfg (str "0.0.0.0:" ++ str port) with Some s => Ret (k s (slashed path)) | None => Fail "connection refused" end.
Proof using Hok. intros Hx. unfold at_server. by rewrite (parse_url port x). Qed.

Lemma deployed_health port x : str port = fmt_d x -> server_at default_contracts (str "0.0.0.0:" ++ str port) <> None ->
  callHealthCheck (deployed_get default_contracts) parse_ok (url_String (local_url (str port) (str "/healthcheck"))) = Ret tt.
Proof using Hok.
  intros Hx Hs. unfold callHealthCheck, deployed_get. rewrite (at_server_local _ _ x) by done.
  destruct (server_at _ _) as [[]|]; [| |done]; cbn [mbind go_bind].
  - change (dummy_main _) with dummy_healthy. by rewrite (parse_dummy_health Hok).
  - change (coin_get _) with json_healthy. by rewrite (parse_coin_health Hok).
Qed.

(** Both contracts are up. *)
Lemma deployed_EnsureUp : EnsureUp (deployed_get default_contracts) parse_ok url_Parse url_String default_contracts = Ret tt.
Proof using Hok.
  unfold EnsureUp. pose proof deployed_health as Hh. set (g := deployed_get default_contracts) in *.
  unfold default_contracts at 1 2. cbn [DockerContracts Contracts fmap list_fmap dc_HostPort dc_HealthCheckURL check_all].
  unfold health_address. rewrite (parse_port "1789" 1789), (parse_port "1492" 1492) by by vm_compute.
  cbn [mbind go_bind].
  change (set_Path (local_url ?p []) (Join [u_Path (local_url ?p []); str "/healthcheck"])) with (local_url p (str "/healthcheck")).
  rewrite (Hh "1789" 1789), (Hh "1492" 1492) by by vm_compute. done.
Qed.

Definition coin_accepts (t : Trace) : Prop :=
  let tr := to_CheckerTrace (body_of t) in
  (Procedure t = str "create-wallet" /\ CreateWalletChecker tr = true) \/
  (Procedure t = str "add-funds" /\ AddFundsChecker ParseFloat ed_Verify tr = Ret true) \/
  (Procedure t = str "transfer-funds" /\ TransferFundsChecker ParseFloat ed_Verify tr = Ret true).

(** The answer of the contract decides. *)
Lemma run_check_true post c t : run_check (as_Checker post parse_success c, t) = true <->
  exists resp, post (addr c) (body_of t) = Ret resp /\ parse_success resp = Ret true.
Proof using Type.
  unfold run_check, as_Checker. cbn [ck_Check fst snd]. unfold contract_Check.
  change (makeTrace _ _ _ _ _ _) with (body_of t). split.
  - destruct (post (addr c) (body_of t)) as [b|e|]; [|done..].
    destruct (parse_success b) as [[]|e|] eqn:E; [|done..]. by exists b.
  - by intros (b & -> & ->).
Qed.

Lemma deployed_run id port x proc t s : str port = fmt_d x ->
  server_at default_contracts (str "0.0.0.0:" ++ str port) = Some s ->
  run_check (as_Checker (deployed_post default_contracts) parse_success (deployed_checker id port proc), t) = true <->
  parse_success (match s with SrvDummy => dummy_main | SrvCoin => fun path => coin_post path (body_of t) end
    (slashed (str id ++ str "/" ++ str proc))) = Ret true.
Proof using Hok.
  intros Hx Hs. rewrite run_check_true. unfold deployed_post, deployed_checker. cbn [addr].
  rewrite (at_server_local _ _ x) by done. rewrite Hs.
  destruct s; (split; [by intros (? & [= <-] & ?)|by eexists]).
Qed.

Lemma coin_run h path t : coin_route (str "POST") path = Some h ->
  h = H_createWalletChecker \/ h = H_addFundsChecker \/ h = H_TransferFundsChecker ->
  BindJSON (body_of t) = Ret (to_CheckerTrace (body_of t)) ->
  parse_success (coin_post path (body_of t)) = Ret true <-> coin_checker h (to_CheckerTrace (body_of t)) = Ret true.
Proof using Hok.
  intros Hr Hh Hb. unfold coin_post. rewrite Hr, Hb. cbn [checker_response default].
  assert (parse_success (match (ok ← coin_checker h (to_CheckerTrace (body_of t)); Ret (StatusOK, Some ok)) with
     | Ret (_, Some ok) => json_success ok | Ret (_, None) => json_response | _ => [] end) = Ret true <->
     coin_checker h (to_CheckerTrace (body_of t)) = Ret true) as Hc.
  { destruct (coin_checker _ _) as [ok|e|]; cbn [mbind go_bind].
    - rewrite (parse_coin Hok). done.
    - split; [intros H; by destruct (parse_text Hok)|done].
    - split; [intros H; by destruct (parse_text Hok)|done]. }
  by destruct Hh as [->|[->| ->]].
Qed.

Abbreviation accepted_by c t := (run_check (as_Checker (deployed_post default_contracts) parse_success c, t) = true).

Lemma dummy_answers proc b t : dummy_main (slashed (str "dummy" ++ str "/" ++ str proc)) = dummy_success b ->
  accepted_by (deployed_checker "dummy" "1789" proc) t <-> b = true.
Proof using Hok.
  intros Hm. rewrite (deployed_run _ _ 1789 _ _ SrvDummy) by by vm_compute.
  rewrite Hm, (parse_dummy Hok). split; [by intros [= ->]|by intros ->].
Qed.

Lemma coin_answers proc h t : coin_route (str "POST") (slashed (str "cs-coin" ++ str "/" ++ str proc)) = Some h ->
  h = H_createWalletChecker \/ h = H_addFundsChecker \/ h = H_TransferFundsChecker ->
  BindJSON (body_of t) = Ret (to_CheckerTrace (body_of t)) ->
  accepted_by (deployed_checker "cs-coin" "1492" proc) t <-> coin_checker h (to_CheckerTrace (body_of t)) = Ret true.
Proof using Hok.
  intros Hr Hh Hb. rewrite (deployed_run _ _ 1492 _ _ SrvCoin) by by vm_compute. by apply coin_run.
Qed.

(** C39. With the contracts that [chainspace init] configures and the images they name,
    a node starts, and a trace passes its checks exactly when it is of the dummy
    contract's [dummy_ok], or of a procedure of the example contract whose checker
    accepts it.  A checker that panics refuses. *)
Theorem deployed_contracts_decide :
  exists cs, GetCheckers url_Parse url_String default_contracts = Ret cs /\
    EnsureUp (deployed_get default_contracts) parse_ok url_Parse url_String default_contracts = Ret tt /\
    forall t, BindJSON (body_of t) = Ret (to_CheckerTrace (body_of t)) ->
      passes (newCheckers (as_Checker (deployed_post default_contracts) parse_success <$> cs) ∅) t <->
      (ContractID t = str "dummy" /\ Procedure t = str "dummy_ok") \/ (ContractID t = coin_ContractID /\ coin_accepts t).
Proof using Hok.
  exists deployed_checkers. split; [apply deployed_GetCheckers|]. split; [apply deployed_EnsureUp|]. intros t Hb.
  rewrite passes_distinct by (apply (bool_decide_unpack _); by vm_compute).
  assert (accepted_by (deployed_checker "dummy" "1789" "dummy_ok") t) as H1 by (by apply (dummy_answers _ true)).
  assert (~ accepted_by (deployed_checker "dummy" "1789" "dummy_ko") t) as H2 by (by rewrite (dummy_answers _ false)).
  pose proof (coin_answers "create-wallet" H_createWalletChecker t ltac:(by vm_compute) ltac:(by left) Hb) as H3.
  pose proof (coin_answers "add-funds" H_addFundsChecker t ltac:(by vm_compute) ltac:(by right; left) Hb) as H4.
  pose proof (coin_answers "transfer-funds" H_TransferFundsChecker t ltac:(by vm_compute) ltac:(by right; right) Hb) as H5.
  unfold deployed_checkers, coin_accepts. cbn [coin_checker] in H3, H4, H5. split.
  - intros (c & Hc & <- & <- & Hr). repeat (apply elem_of_cons in Hc as [->|Hc]); [..|by apply not_elem_of_nil in Hc].
    + by left.
    + done.
    + apply H3 in Hr. injection Hr as Hr. right. split; [done|]. by left.
    + apply H4 in Hr. right. split; [done|]. right. by left.
    + apply H5 in Hr. right. split; [done|]. right. by right.
  - intros [[Hi Hp]|[Hi [[Hp Hr]|[[Hp Hr]|[Hp Hr]]]]]; rewrite Hi, Hp.
    + exists (deployed_checker "dummy" "1789" "dummy_ok"). split; [by apply (list_elem_of_lookup_2 _ 0%nat)|done].
    + exists (deployed_checker "cs-coin" "1492" "create-wallet"). split; [by apply (list_elem_of_lookup_2 _ 2%nat)|]. split_and!; [done..|]. apply H3. by rewrite Hr.
    + exists (deployed_checker "cs-coin" "1492" "add-funds"). split; [by apply (list_elem_of_lookup_2 _ 3%nat)|]. split_and!; [done..|]. by apply H4.
    + exists (deployed_checker "cs-coin" "1492" "transfer-funds"). split; [by apply (list_elem_of_lookup_2 _ 4%nat)|]. split_and!; [done..|]. by apply H5.
Qed.
End deployed.

(** ** Example *)

Fixpoint ex_host_path (s : bytes) : bytes * bytes :=
  match s with
  | [] => ([], [])
  | c :: s' => if decide (c = 47) then ([], s) else let '(h, p) := ex_host_path s' in (c :: h, p)
  end.
Definition ex_parse (s : bytes) : option URL :=
  if decide (take 7 s = str "http://") then let '(h, p) := ex_host_path (drop 7 s) in Some (MkURL (str "http") h p) else None.
Definition ex_string (u : URL) : bytes := str "http://" ++ u_Host u ++ slashed (u_Path u).
Definition ex_json_success (s : bytes) : go bool :=
  if decide (s = dummy_success true) then Ret true
  else if decide (s = dummy_success false \/ s = str "{}") then Ret false else Fail "json".
Definition ex_json_ok (s : bytes) : go bool := if decide (s = dummy_healthy) then Ret true else Fail "json".

Lemma ex_host_path_app h p : 47 ∉ h -> slashed p = p -> ex_host_path (h ++ p) = (h, p).
Proof.
  intros Hh Hp. induction h as [|c h IH].
  - destruct p as [|c p]; [done|]. cbn in *. case_decide; [done|]. by apply (f_equal length) in Hp; cbn in Hp; lia.
  - apply not_elem_of_cons in Hh as [Hc Hh]. cbn [app ex_host_path]. rewrite decide_False by congruence. by rewrite IH.
Qed.

Lemma ex_libraries_ok : libraries_ok dummy_success (str "{}") dummy_healthy ex_parse ex_string ex_json_success ex_json_ok.
Proof.
  assert (forall port p, slashed p = p -> ex_parse (str "http://" ++ (str "0.0.0.0:" ++ fmt_d port) ++ p) = Some (local_url (fmt_d port) p)) as Hparse.
  { intros port p Hp. unfold ex_parse. rewrite take_app_length', drop_app_length' by done. rewrite decide_True by done.
    rewrite ex_host_path_app; [done| |done]. apply not_elem_of_app. split; [by vm_compute; set_solver|].
    intros Hs. pose proof (fmt_d_digits port) as Hd. rewrite Forall_forall in Hd. by specialize (Hd _ Hs). }
  split; try by vm_compute.
  - intros port. specialize (Hparse port [] eq_refl). by rewrite app_nil_r in Hparse.
  - intros port path. apply Hparse. destruct path as [|c path]; [done|]. cbn. case_decide; cbn; [by rewrite decide_True|done].
  - by intros [].
  - by intros [].
Qed.

(** The two procedures of the dummy contract, and a transfer of the example
    contract. *)
Lemma deployed_contracts_decide_witness :
  let PW := {| Marshal _ := Ret []; Unmarshal := json_wallet key32 |} : Proto Wallet in
  let post := deployed_post ex_ParseFloat ex_ed_Verify (fun t => Ret (to_CheckerTrace t)) dummy_success (str "{}") ex_parse default_contracts in
  let dummy proc := MkTrace (str "dummy") (str proc) [] [] [] [] [] [] [] [] in
  let transfer sig := MkTrace coin_ContractID (str "transfer-funds") [] [] [MkOutputObject [] [15; 1]; MkOutputObject [] [15; 2]]
    [str "-5.000000"; sig] [] [] [[10; 1]; [20; 2]] [] in
  exists cs, GetCheckers ex_parse ex_string default_contracts = Ret cs /\
    let m := newCheckers (as_Checker post ex_json_success <$> cs) ∅ in
    passes m (dummy "dummy_ok") /\ ~ passes m (dummy "dummy_ko") /\
    passes m (transfer (EncodeToString [1])) /\ ~ passes m (transfer (EncodeToString [2])).
Proof.
  intros PW post dummy transfer.
  destruct (@deployed_contracts_decide PW ex_ParseFloat ex_ed_Verify (fun t => Ret (to_CheckerTrace t)) dummy_success (str "{}")
    dummy_healthy ex_parse ex_string ex_json_success ex_json_ok ex_libraries_ok) as (cs & Hcs & _ & Hp).
  exists cs. split; [done|]. split_and!; first [apply Hp; [done|] | intros H; apply Hp in H; [|done]].
  - by left.
  - destruct H as [[_ H]|[H _]]; by vm_compute in H.
  - right. split; [done|]. right. right. split; [done|]. by vm_compute.
  - destruct H as [[H _]|[_ [[H _]|[[H _]|[_ H]]]]]; by vm_compute in H.
Defined.
