(* ===== verification/GenLoad.v ===== *)
(** * GenLoad: the load generators

    Model of [src/cmd/chainspace/genload.go] and of the same parts of
    [src/cmd/blockmaniatest/main.go]: transactions that carry the time at which
    they were made, the counters that are fed by the delivered blocks, and the
    rate at which transactions are generated.  A time is a number of
    nanoseconds; what the clock reads is an argument, and the format of times is
    a parameter.  The bytes behind the data of a block in memory are one too,
    because a slice expression may reach up to the capacity. *)
From Stdlib Require Import Floats.SpecFloat.
From S2P Require Import Prelude Messages Graph Codec Database BroadcastStore Depgraph Broadcast BroadcastStoreData.
From S2P Require Import BroadcastProps BroadcastRun.

(** [int64] arithmetic. *)
Definition i64 (x : Z) : Z := to_int (u64 x).
(** [Time.Sub] saturates. *)
Definition saturate (x : Z) : Z := Z.max (- 2 ^ 63) (Z.min (2 ^ 63 - 1) x).
Definition Second : Z := 1000000000.
Definition Hour : Z := 3600 * Second.

(** ** Generated transactions *)

(** The slice [tx] and the buffer over [tx[8:]]: [ge_own] is its array once it
    has been grown, which is no longer a part of [tx]. *)
Record generator := MkGenerator { ge_tx : bytes; ge_own : option bytes }.

(** [unsafe.Sizeof] of a [uint32]. *)
Definition usize : nat := 4.

Definition newGenerator (nodeID : uint64) (txSize : goint) : go generator :=
  if decide (txSize < 0) then Crash else
  tx ← overwrite (replicate (Z.to_nat txSize) 0) 0 (PutUint32 (u32 nodeID));
  _ ← slice_from tx (usize + usize);
  Ret (MkGenerator tx None).

(** [w.Reset()] and [w.Write(p)]; a buffer of capacity [c] that is too small is
    replaced by one of capacity [2*c + len(p)]. *)
Definition w_Write (p : bytes) (g : generator) : go generator :=
  match ge_own g with
  | None =>
      let c := (length (ge_tx g) - (usize + usize))%nat in
      if decide (length p <= c)%nat then
        tx ← overwrite (ge_tx g) (usize + usize) p; Ret (MkGenerator tx None)
      else Ret (MkGenerator (ge_tx g) (Some (p ++ replicate (2 * c) 0)))
  | Some b =>
      if decide (length p <= length b)%nat then Ret (MkGenerator (ge_tx g) (Some (p ++ drop (length p) b)))
      else Ret (MkGenerator (ge_tx g) (Some (p ++ replicate (2 * length b) 0)))
  end.

(** The time is put into the transaction, its length first. *)
Definition stamp (now : bytes) (g : generator) : go generator :=
  tx ← overwrite (ge_tx g) usize (PutUint32 (u32 (Z.of_nat (length now))));
  w_Write now (MkGenerator tx (ge_own g)).

(** One round of the loops of [genLoad]; the error of [AddTransaction] is
    ignored, [None] waits for the next block. *)
Definition genTx (now : bytes) (g : generator) (s : Service) : go (generator * option Service) :=
  g ← stamp now g;
  match AddTransaction (ge_tx g) 0 s with
  | Ret o => Ret (g, o)
  | Fail _ => Ret (g, Some s)
  | Crash => Crash
  end.

(** The transactions that are generated between two blocks. *)
Fixpoint genBatch (nows : list bytes) (g : generator) (s : Service) : go (generator * option Service) :=
  match nows with
  | [] => Ret (g, Some s)
  | now :: nows =>
      '(g, o) ← genTx now g s;
      match o with Some s => genBatch nows g s | None => Ret (g, None) end
  end.

(** ** The times of delivered transactions *)

Record txTimeTracker := MkTxTimeTracker {
  tt_lasttx : Z; tt_tot : Z; tt_txc : Z; tt_curGen : uint64 }.

Record loadTracker := MkLoadTracker { lt_total : uint64; lt_txtt : txTimeTracker }.

Section deliver.
Context `{PB : Proto Block} (Parse : bytes -> go Z) (spare : bytes -> bytes).

(** [it.TxData[8 : 8+wsize]], which may go beyond the transaction. *)
Definition timeOf (it : TxIterator) : go bytes :=
  a ← subslice (TxData it) usize (usize + usize);
  wsize ← Uint32 a;
  subslice (drop (ti_idx it - length (TxData it)) (ti_data it) ++ spare (ti_data it))
    (usize + usize) (Z.to_nat (u32 (8 + wsize))).

(** The first transaction of a block. *)
Definition blockTime (block : Block) : go (option Z) :=
  txs ← or_crash (b_Transactions block);
  let it := Iter txs in
  if tx_Valid it then
    it ← Next it;
    s ← timeOf it;
    ti ← fatal (Parse s);
    Ret (Some ti)
  else Ret None.

Definition trackTime (now ti : Z) (t : txTimeTracker) (minDuration : Z) : txTimeTracker * Z :=
  let since := saturate (now - ti) in
  let '(lasttx, minDuration) :=
    if decide (minDuration > since) then (since, since) else (tt_lasttx t, minDuration) in
  (MkTxTimeTracker lasttx (i64 (tt_tot t + since)) (i64 (tt_txc t + 1)) (tt_curGen t), minDuration).

Fixpoint trackBlocks (now : Z) (blocks : list SignedData) (t : txTimeTracker) (minDuration : Z)
    : go (txTimeTracker * Z) :=
  match blocks with
  | [] => Ret (t, minDuration)
  | signed :: blocks =>
      block ← fatal (Unmarshal (Data signed) : go Block);
      o ← blockTime block;
      let '(t, minDuration) :=
        match o with Some ti => trackTime now ti t minDuration | None => (t, minDuration) end in
      trackBlocks now blocks t minDuration
  end.

(** With what is logged: the least and the average duration. *)
Definition handleTxTime (now : Z) (blocks : list SignedData) (t : txTimeTracker)
    : go (txTimeTracker * option (Z * Z)) :=
  '(t, minDuration) ← trackBlocks now blocks t Hour;
  Ret (t, if decide (tt_txc t > 0) then Some (minDuration, Z.quot (tt_tot t) (tt_txc t)) else None).

Fixpoint countTransactions (blocks : list SignedData) (total : uint64) : go uint64 :=
  match blocks with
  | [] => Ret total
  | signed :: blocks =>
      block ← fatal (Unmarshal (Data signed) : go Block);
      txs ← or_crash (b_Transactions block);
      countTransactions blocks (u64 (total + Count txs))
  end.

(** The callback of the broadcast service, which is acknowledged. *)
Definition handleDeliver (F : Faults) (now : Z) (round : uint64) (blocks : list SignedData)
    (l : loadTracker) (s : Service) : go (loadTracker * Service) :=
  total ← countTransactions blocks (lt_total l);
  '(t, _) ← handleTxTime now blocks (lt_txtt l);
  Ret (MkLoadTracker total t, Acknowledge F round s).
End deliver.

(** ** Counters *)

Definition readCounter (l : loadTracker) : uint64 * loadTracker :=
  (lt_total l, MkLoadTracker 0 (lt_txtt l)).
Definition getTotal (l : loadTracker) : uint64 := lt_total l.
Definition readCounterMore (l : loadTracker) : uint64 * Z * Z * uint64 * loadTracker :=
  let t := lt_txtt l in
  (lt_total l, if decide (tt_txc t <> 0) then Z.quot (tt_tot t) (tt_txc t) else 0,
   tt_lasttx t, tt_curGen t, MkLoadTracker 0 t).

(** What [logTPS] and [logMore] keep; the moving average over ten seconds that
    they also compute is never used. *)
Record tps := MkTps { ts_highest : uint64; ts_maxCount : uint64; ts_maxTotal : uint64 }.

(** One tick with the count of the last second: the new state and the average. *)
Definition tick (total : uint64) (st : tps) : tps * uint64 :=
  let highest := if decide (total > ts_highest st) then total else ts_highest st in
  let maxCount := u64 (ts_maxCount st + 1) in
  let maxTotal := u64 (ts_maxTotal st + total) in
  (MkTps highest maxCount maxTotal, maxTotal `div` maxCount).

Definition logTPS_tick (l : loadTracker) (st : tps) : loadTracker * tps * uint64 :=
  let '(total, l) := readCounter l in
  let '(st, avg) := tick total st in (l, st, avg).

(** A row of the results; the time that has passed is left out. *)
Record csvRow := MkCsvRow {
  cr_current : uint64; cr_highest : uint64; cr_avg : uint64; cr_latAvg : Z; cr_latCurrent : Z; cr_gen : uint64 }.

Definition logMore_tick (l : loadTracker) (st : tps) : loadTracker * tps * csvRow :=
  let '(total, avgLatency, curLatency, curGen, l) := readCounterMore l in
  let '(st, avg) := tick total st in
  (l, st, MkCsvRow total (ts_highest st) avg avgLatency curLatency curGen).

(** ** The rate *)

Abbreviation float64 := spec_float (only parsing).
Definition of_int (n : Z) : float64 := binary_normalize 53 1024 n 0 false.
(** [int(x)] truncates; what is out of range, or not a number, is the least
    integer, as on amd64. *)
Definition trunc (x : float64) : Z :=
  match x with
  | S754_zero _ => 0
  | S754_finite s m e =>
      let n := if decide (0 <= e) then Z.pos m * 2 ^ e else Z.pos m `div` 2 ^ (- e) in
      let n := if s : bool then - n else n in
      if decide (- 2 ^ 63 <= n < 2 ^ 63) then n else - 2 ^ 63
  | _ => - 2 ^ 63
  end.
(** [Duration.Seconds]. *)
Definition Seconds (d : Z) : float64 :=
  SFadd 53 1024 (of_int (Z.quot d Second)) (SFdiv 53 1024 (of_int (Z.rem d Second)) (of_int Second)).

Record rate := MkRate { ra_hot : bool; ra_rate : goint; ra_count : Z; ra_latency : Z }.

(** How many transactions the next second gets. *)
Definition rateToDo (r : rate) : goint := if ra_hot r || bool_decide (ra_rate r = 0) then 1 else ra_rate r.

(** The new rate, given the latency; at first the generator warms up. *)
Definition adjust (incRate : goint) (decRate expectedLatency : float64) (latency : Z) (r : rate) : rate :=
  let count := if decide (ra_latency r = latency) then ra_count r + 1 else 0 in
  let slower := trunc (SFmul 53 1024 (of_int (ra_rate r)) decRate) in
  if decide (count >= 4) then MkRate (ra_hot r) slower count latency
  else if bool_decide (latency > 0) && SFltb (Seconds latency) expectedLatency then
    if ra_hot r then MkRate false (ra_rate r) count latency
    else MkRate false (i64 (ra_rate r + incRate)) count latency
  else if SFltb expectedLatency (Seconds latency) && negb (ra_hot r) then MkRate (ra_hot r) slower count latency
  else MkRate (ra_hot r) (ra_rate r) count latency.

(** One round of [genLoadWithExpectedLatency]: as many transactions as the rate
    says, made at the times [nows], then the rate after the latency that is known
    at the end; [None] waits for the next block. *)
Definition genLoadRound (incRate : goint) (decRate expectedLatency : float64) (nows : list bytes)
    (g : generator) (s : Service) (l : loadTracker) (r : rate)
    : go (option (generator * Service * loadTracker * rate)) :=
  '(g, o) ← genBatch (take (Z.to_nat (rateToDo r)) nows) g s;
  match o with
  | None => Ret None
  | Some s =>
      let t := lt_txtt l in
      let l := MkLoadTracker (lt_total l) (MkTxTimeTracker (tt_lasttx t) (tt_tot t) (tt_txc t) (u64 (rateToDo r))) in
      Ret (Some (g, s, l, adjust incRate decRate expectedLatency (tt_lasttx t) r))
  end.

(** * What the load generators measure

    The times that generated transactions carry are read back from the
    delivered blocks, provided that the transactions are large enough to hold
    them; the size that the command line accepts is not. *)

(** ** Arithmetic of [int64] *)

Lemma i64_mod x : i64 x mod 2 ^ 64 = x mod 2 ^ 64.
Proof.
  unfold i64, to_int, wrap. case_decide; [by rewrite Z.mod_mod|].
  rewrite Zminus_mod, Z.mod_same, Z.sub_0_r, !Z.mod_mod by done. done.
Qed.
Lemma i64_ext x y : x mod 2 ^ 64 = y mod 2 ^ 64 -> i64 x = i64 y.
Proof. unfold i64, wrap. by intros ->. Qed.
Lemma i64_add x y : i64 (i64 x + y) = i64 (x + y).
Proof. apply i64_ext. rewrite Zplus_mod, i64_mod, <-Zplus_mod. done. Qed.
Lemma i64_idem x : i64 (i64 x) = i64 x.
Proof. apply i64_ext, i64_mod. Qed.

(** ** Stamped transactions *)

(** The buffer still is a part of the transaction. *)
Definition gen_ok (n : nat) (g : generator) : Prop := ge_own g = None /\ length (ge_tx g) = n.

(** The transaction carries the time [now]. *)
Definition carries (n : nat) (now : bytes) (t : TransactionData) : Prop :=
  td_Fee t = 0 /\ length (td_Data t) = n /\
  exists pre post, length pre = usize /\
    td_Data t = pre ++ PutUint32 (u32 (Z.of_nat (length now))) ++ now ++ post.

Lemma overwrite_eq buf lo bs : (lo + length bs <= length buf)%nat ->
  overwrite buf lo bs = Ret (take lo buf ++ bs ++ drop (lo + length bs) buf).
Proof. intros ?. unfold overwrite. by rewrite decide_True. Qed.

Lemma newGenerator_ok nodeID n : (8 <= n)%nat ->
  exists g, newGenerator nodeID (Z.of_nat n) = Ret g /\ gen_ok n g.
Proof.
  intros Hn. unfold newGenerator. rewrite decide_False by lia. rewrite Nat2Z.id.
  rewrite overwrite_eq by (rewrite length_replicate, length_PutUint; lia). cbn [mbind go_bind].
  unfold slice_from. rewrite decide_True; [eexists; split; [done|]; split; [done|]|]; cbn [ge_tx];
    rewrite !length_app, length_take, length_drop, length_replicate, length_PutUint; unfold usize; lia.
Qed.

Lemma stamp_ok n now g : gen_ok n g -> (8 + length now <= n)%nat ->
  exists g', stamp now g = Ret g' /\ gen_ok n g' /\ carries n now (MkTransactionData (ge_tx g') 0).
Proof.
  intros [Ho Hl] Hn. unfold stamp. rewrite overwrite_eq by (rewrite length_PutUint; unfold usize; lia).
  cbn [mbind go_bind]. rewrite length_PutUint.
  set (tx := _ ++ _ ++ _). assert (length tx = n) as Htx.
  { unfold tx. rewrite !length_app, length_take, length_drop, length_PutUint. unfold usize. lia. }
  unfold w_Write. cbn [ge_own ge_tx]. rewrite Ho, Htx, decide_True by (unfold usize; lia).
  rewrite overwrite_eq by (unfold usize; lia). cbn [mbind go_bind]. eexists. split; [done|].
  assert (take (usize + usize) tx = take usize (ge_tx g) ++ PutUint32 (u32 (Z.of_nat (length now)))) as Ht.
  { unfold tx. rewrite app_assoc. apply take_app_length'.
    rewrite length_app, length_take, length_PutUint. unfold usize. lia. }
  assert (length (take (usize + usize) tx ++ now ++ drop (usize + usize + length now) tx) = n) as Hlen.
  { rewrite !length_app, length_take, length_drop. unfold usize. lia. }
  split; [by split|]. split; [done|]. split; [exact Hlen|]. exists (take usize (ge_tx g)).
  eexists. split; [rewrite length_take; unfold usize; lia|]. cbn [td_Data ge_tx]. by rewrite Ht, <-app_assoc.
Qed.

Lemma AddTransaction_Fail txdata fee s e : AddTransaction txdata fee s = Fail e ->
  Z.of_nat (length txdata) >= 2 ^ 32 \/ Z.of_nat (length txdata) > sv_txSizeLimit s.
Proof. unfold AddTransaction, overwrite. intros H. repeat (case_decide; cbn [mbind go_bind] in H; try done). Qed.

(** Between two blocks, every transaction gets into the buffer with its time. *)
Lemma genBatch_ok n nows g s g' s' txs0 : gen_ok n g -> buffer_ok s txs0 ->
  Z.of_nat n < 2 ^ 32 -> Z.of_nat n <= sv_txSizeLimit s -> Forall (fun now => 8 + length now <= n)%nat nows ->
  genBatch nows g s = Ret (g', Some s') ->
  gen_ok n g' /\ exists txs, buffer_ok s' (txs0 ++ txs) /\ Forall2 (carries n) nows txs.
Proof.
  intros Hg Hs H32 Hlim Hn. revert g s txs0 Hg Hs Hlim.
  induction Hn as [|now nows Hnow _ IH]; intros g s txs0 Hg Hs Hlim H; cbn [genBatch] in H.
  { injection H as <- <-. split; [done|]. exists []. rewrite app_nil_r. by split. }
  unfold genTx in H. destruct (stamp_ok n now g Hg Hnow) as (g1 & E1 & Hg1 & Hc). rewrite E1 in H.
  cbn [mbind go_bind] in H. assert (length (ge_tx g1) = n) as Hl by apply Hg1.
  destruct (AddTransaction_ok (ge_tx g1) 0 s txs0 Hs) as [(s1 & E & Hok & Hsz & _)|[E|E]].
  - rewrite E in H. cbn [mbind go_bind] in H. rewrite <-Hsz in Hlim.
    destruct (IH _ _ _ Hg1 Hok Hlim H) as (Hg' & txs & Hb & Hf). split; [done|].
    exists (MkTransactionData (ge_tx g1) 0 :: txs). rewrite <-app_assoc in Hb. split; [exact Hb|]. by constructor.
  - rewrite E in H. by cbn in H.
  - apply AddTransaction_Fail in E. lia.
Qed.

(** ** Delivered blocks *)

Section deliver.
Context `{PB : Proto Block} (Format : Z -> bytes) (Parse : bytes -> go Z) (spare : bytes -> bytes).
Context (n : nat).

(** The block [signed] has the transactions that were generated at [times]. *)
Definition generated (times : list Z) (signed : SignedData) : Prop :=
  exists block g s g' s', Unmarshal (Data signed) = Ret block /\ gen_ok n g /\ buffer_ok s [] /\
    Z.of_nat n <= sv_txSizeLimit s /\ genBatch (Format <$> times) g s = Ret (g', Some s') /\
    b_Transactions block = Some (blockTransactions s').

(** The times fit into the transactions and are read back. *)
Definition readable (times : list Z) : Prop :=
  Z.of_nat n < 2 ^ 32 /\ Z.of_nat (length times) < 2 ^ 64 /\
  Forall (fun t => (8 + length (Format t) <= n)%nat /\ Parse (Format t) = Ret t) times.

Lemma timeOf_ok now t pre post tot cur : carries n now t -> Z.of_nat n < 2 ^ 32 -> (8 + length now <= n)%nat ->
  timeOf spare (MkTxIterator cur (pre ++ td_Data t ++ post) (length (pre ++ td_Data t)) tot (td_Data t) 0) = Ret now.
Proof.
  intros (_ & Hl & p & q & Hp & Ht) H32 Hn. unfold timeOf. cbn [TxData ti_idx ti_data].
  assert (u32 (Z.of_nat (length now)) = Z.of_nat (length now)) as Hw by (apply wrap_small; split; lia).
  rewrite Hw in Ht. rewrite Ht at 1. rewrite read_field_bind by (rewrite ?Hp; unfold usize; simpl; lia).
  rewrite length_app, Nat.add_sub, drop_app_length, Ht by done.
  rewrite (wrap_small 32) by (split; lia).
  replace (usize + usize)%nat with (length (p ++ PutUint32 (Z.of_nat (length now))))
    by (rewrite length_app, length_PutUint, Hp; done).
  replace (Z.to_nat (8 + Z.of_nat (length now))) with (length (p ++ PutUint32 (Z.of_nat (length now))) + length now)%nat
    by (rewrite length_app, length_PutUint, Hp; unfold usize; lia).
  rewrite <-!app_assoc. rewrite (app_assoc p). apply subslice_app.
Qed.

(** What a generated block tells the counters. *)
Lemma generated_block times signed : generated times signed -> readable times ->
  exists block txs, Unmarshal (Data signed) = Ret block /\ b_Transactions block = Some txs /\
    Count txs = Z.of_nat (length times) /\ blockTime Parse spare block = Ret (head times).
Proof.
  intros (block & g & s & g' & s' & Hu & Hg & Hs & Hlim & Hb & Htx) (H32 & H64 & Hf).
  assert (Forall (fun now => 8 + length now <= n)%nat (Format <$> times)) as Hfits.
  { apply Forall_fmap. eapply Forall_impl; [exact Hf|]. by intros ? [??]. }
  destruct (genBatch_ok n _ _ _ _ _ [] Hg Hs H32 Hlim Hfits Hb) as (_ & txs & [Hsz Hi Hc Hd] & Hcar).
  assert (length txs = length times) as Hlen by (apply Forall2_length in Hcar; by rewrite length_fmap in Hcar).
  exists block, (blockTransactions s'). split; [done|]. split; [done|].
  assert (u64 (sv_txCount s') = Z.of_nat (length times)) as Hcount.
  { rewrite Hc, app_nil_l, Hlen. apply wrap_small. split; lia. }
  split; [done|]. unfold blockTime. rewrite Htx. cbn [or_crash mbind go_bind].
  unfold tx_Valid. cbn [ti_cur ti_total Iter Count blockTransactions]. rewrite Hcount.
  destruct times as [|t times], txs as [|tx txs]; try done.
  rewrite (proj2 (Z.ltb_lt _ _)) by (simpl; lia).
  apply Forall_cons in Hf as [[Hfit Hp] _]. rewrite fmap_cons in Hcar. apply Forall2_cons in Hcar as [Hc1 _].
  rewrite app_nil_l, bind_cons in Hd. pose proof Hc1 as (Hfee & Hl & _).
  rewrite (Next_spec tx [] (txs ≫= encodeTx)); [|rewrite Hfee; split; lia|lia|exact Hd|done].
  cbn [mbind go_bind ti_data Iter blockTransactions tx_Data app]. rewrite Hd, Hfee. unfold encodeTx at 1 2.
  rewrite (app_assoc (PutUint64 _)), <-(app_assoc (_ ++ _)).
  rewrite timeOf_ok with (now := Format t) by done. cbn [mbind go_bind]. by rewrite Hp.
Qed.

(** The durations that are measured: of the first transaction of each block. *)
Definition durations (now : Z) (timess : list (list Z)) : list Z :=
  (fun t => saturate (now - t)) <$> omap head timess.
Definition sum (l : list Z) : Z := foldr Z.add 0 l.
(** The tracker after durations [ds], [m] being the least one before them. *)
Definition track (ds : list Z) (m : Z) (t : txTimeTracker) : txTimeTracker :=
  let m' := foldl Z.min m ds in
  MkTxTimeTracker (if decide (m' < m) then m' else tt_lasttx t) (i64 (tt_tot t + sum ds))
    (i64 (tt_txc t + Z.of_nat (length ds))) (tt_curGen t).

Lemma foldl_min_le ds m : foldl Z.min m ds <= m.
Proof. revert m. induction ds as [|d ds IH]; intros m; simpl; [lia|]. specialize (IH (m `min` d)). lia. Qed.

Lemma track_cons now t d m ds : d = saturate (now - t) -> forall tt,
  let '(tt', m') := trackTime now t tt m in track ds m' tt' = track (d :: ds) m tt /\ m' = m `min` d.
Proof.
  intros -> tt. unfold trackTime. set (d := saturate (now - t)). case_decide as Hd; (split; [|lia]);
    unfold track; cbn [foldl sum foldr length tt_lasttx tt_tot tt_txc tt_curGen]; rewrite !i64_add.
  - replace (m `min` d) with d by lia. pose proof (foldl_min_le ds d). f_equal; [|f_equal; unfold sum; lia..].
    repeat case_decide; lia.
  - replace (m `min` d) with m by lia. f_equal; f_equal; unfold sum; lia.
Qed.

Lemma trackBlocks_ok now timess blocks t m :
  Forall2 generated timess blocks -> Forall readable timess ->
  i64 (tt_tot t) = tt_tot t -> i64 (tt_txc t) = tt_txc t ->
  trackBlocks Parse spare now blocks t m =
    Ret (track (durations now timess) m t, foldl Z.min m (durations now timess)).
Proof.
  intros Hg. revert t m. induction Hg as [|times signed timess blocks Hb _ IH]; intros t m Hr Ht Hc.
  { unfold track, durations. cbn. rewrite decide_False, !Z.add_0_r, Ht, Hc by lia. by destruct t. }
  apply Forall_cons in Hr as [Hr1 Hr]. cbn [trackBlocks].
  destruct (generated_block _ _ Hb Hr1) as (block & txs & Hu & _ & _ & Htime). rewrite Hu. cbn [fatal mbind go_bind].
  rewrite Htime. cbn [mbind go_bind]. unfold durations. destruct times as [|ti times]; csimpl; [by apply IH|].
  pose proof (track_cons now ti _ m (durations now timess) eq_refl t) as Hk.
  unfold trackTime in *. destruct (if decide _ then _ else _) as [lt m'] eqn:E. destruct Hk as [Hk ->].
  rewrite IH; [by rewrite Hk|done|apply i64_idem..].
Qed.

Lemma countTransactions_ok timess blocks total :
  Forall2 generated timess blocks -> Forall readable timess -> is_u64 total ->
  countTransactions blocks total = Ret (u64 (total + Z.of_nat (length (concat timess)))).
Proof.
  intros Hg. revert total. induction Hg as [|times signed timess blocks Hb _ IH]; intros total Hr Ht.
  { cbn. by rewrite Z.add_0_r, wrap_small. }
  apply Forall_cons in Hr as [Hr1 Hr]. cbn [countTransactions].
  destruct (generated_block _ _ Hb Hr1) as (block & txs & Hu & Htx & Hn & _). rewrite Hu. cbn [fatal mbind go_bind].
  rewrite Htx. cbn [or_crash mbind go_bind]. rewrite IH by auto with chain lia.
  rewrite u64_add_l, Hn. cbn [concat]. rewrite length_app. do 2 f_equal. lia.
Qed.

(** The callback of a load generator counts every delivered transaction, and
    measures for each block that has any the age of its first one: the sum, the
    number and the least of the ages are what the tracker then has.  This holds
    for blocks that were filled by the generator with transactions that can hold
    the time. *)
Theorem delivered_load_is_measured F now round timess blocks l s :
  Forall2 generated timess blocks -> Forall readable timess -> is_u64 (lt_total l) ->
  i64 (tt_tot (lt_txtt l)) = tt_tot (lt_txtt l) -> i64 (tt_txc (lt_txtt l)) = tt_txc (lt_txtt l) ->
  handleDeliver Parse spare F now round blocks l s =
    Ret (MkLoadTracker (u64 (lt_total l + Z.of_nat (length (concat timess))))
           (track (durations now timess) Hour (lt_txtt l)), Acknowledge F round s).
Proof.
  intros Hg Hr Ht H1 H2. unfold handleDeliver, handleTxTime. rewrite (countTransactions_ok timess) by done.
  cbn [mbind go_bind]. by rewrite (trackBlocks_ok now timess).
Qed.
End deliver.

(** ** Transactions that are too small *)

Lemma new_stamp_short nodeID n now g : (8 < n)%nat -> (n < 8 + length now)%nat ->
  newGenerator nodeID (Z.of_nat n) = Ret g -> exists g' pre, stamp now g = Ret g' /\ length pre = usize /\
    ge_tx g' = pre ++ PutUint32 (u32 (Z.of_nat (length now))) ++ replicate (n - 8) 0.
Proof.
  intros H8 Hn H. unfold newGenerator in H. rewrite decide_False in H by lia. rewrite Nat2Z.id in H.
  rewrite overwrite_eq in H by (rewrite length_replicate, length_PutUint; lia). cbn [mbind go_bind take app] in H.
  rewrite take_0, app_nil_l, length_PutUint, Nat.add_0_l, drop_replicate in H. apply go_bind_Ret in H as (? & _ & H).
  assert (g = MkGenerator (PutUint32 (u32 nodeID) ++ replicate (n - 4) 0) None) as -> by congruence.
  eexists _, (PutUint32 (u32 nodeID)). unfold stamp. cbn [ge_tx ge_own].
  rewrite overwrite_eq by (rewrite length_app, length_replicate, !length_PutUint; unfold usize; lia).
  cbn [mbind go_bind]. rewrite take_app_length', !length_PutUint, <-drop_drop, drop_app_length' by (by rewrite length_PutUint).
  rewrite drop_replicate. unfold w_Write. cbn [ge_own ge_tx]. rewrite !length_app, !length_PutUint, length_replicate.
  rewrite decide_False by (unfold usize; lia). split; [done|]. split; [done|]. cbn [ge_tx].
  do 3 f_equal. unfold usize. lia.
Qed.

Section short.
Context `{PB : Proto Block} (Parse : bytes -> go Z) (spare : bytes -> bytes).
(** A time does not begin with a zero byte. *)
Hypothesis Parse_zero : forall b, head b = Some 0 -> exists e, Parse b = Fail e.

(** The command accepts transactions of 16 bytes, in which a time does not fit:
    the buffer moves away from the transaction, the delivered block has the
    length of a time but not the time, and the callback ends the process. *)
Lemma short_transactions_not_measured nodeID n now g s g' s' block :
  (16 <= n)%nat -> (n < 8 + length now)%nat -> Z.of_nat (8 + length now) < 2 ^ 32 ->
  newGenerator nodeID (Z.of_nat n) = Ret g -> buffer_ok s [] -> Z.of_nat n <= sv_txSizeLimit s ->
  genBatch [now] g s = Ret (g', Some s') -> b_Transactions block = Some (blockTransactions s') ->
  blockTime Parse spare block = Crash.
Proof using Parse_zero.
  intros H16 Hn H32 Hg Hs Hlim Hb Htx.
  destruct (new_stamp_short nodeID n now g ltac:(lia) Hn Hg) as (g1 & pre & E1 & Hp & Etx).
  cbn [genBatch] in Hb. unfold genTx in Hb. rewrite E1 in Hb. cbn [mbind go_bind] in Hb.
  assert (length (ge_tx g1) = n) as Hl.
  { rewrite Etx, !length_app, length_PutUint, length_replicate, Hp. unfold usize. lia. }
  destruct (AddTransaction_ok (ge_tx g1) 0 s [] Hs) as [(s1 & E & [_ _ Hc Hd] & _)|[E|E]];
    rewrite E in Hb; cbn [mbind go_bind] in Hb; [|done|apply AddTransaction_Fail in E; lia].
  injection Hb as <- <-. cbn [app] in Hc, Hd. unfold blockTime. rewrite Htx. cbn [or_crash mbind go_bind].
  unfold tx_Valid. cbn [ti_cur ti_total Iter Count blockTransactions]. rewrite Hc.
  rewrite (wrap_small 64) by (split; simpl; lia). cbn [length Z.of_nat Z.ltb Z.compare Pos.of_succ_nat].
  set (tx := MkTransactionData (ge_tx g1) 0) in *. rewrite bind_cons in Hd.
  rewrite (Next_spec tx [] ([] ≫= encodeTx)); [|split; simpl; lia|simpl; lia|exact Hd|done].
  cbn [mbind go_bind ti_data Iter blockTransactions tx_Data app]. unfold timeOf. cbn [TxData ti_idx ti_data].
  cbn [tx td_Data]. rewrite Etx at 1. rewrite (wrap_small 32 (Z.of_nat _)) in * by (split; lia).
  rewrite read_field_bind by (rewrite ?Hp; unfold usize; simpl; lia). rewrite Hd, (wrap_small 32) by (split; lia).
  assert (drop (length (encodeTx tx) - length (ge_tx g1)) (encodeTx tx ++ ([] ≫= encodeTx)) = ge_tx g1) as ->.
  { cbn [mbind list_bind]. rewrite app_nil_r. unfold encodeTx. cbn [td_Data tx]. rewrite app_assoc.
    rewrite length_app, Nat.add_sub. by rewrite drop_app_length. }
  unfold subslice, slice. case_decide; [|done]. cbn [or_crash mbind go_bind].
  match goal with |- context [Parse ?b] => destruct (Parse_zero b) as [e ->]; [|done] end.
  rewrite Etx, <-!app_assoc, (app_assoc pre), drop_app_length'
    by (rewrite length_app, length_PutUint, Hp; done).
  replace (n - 8)%nat with (S (n - 9)) by lia.
  replace (Z.to_nat (8 + Z.of_nat (length now)) - (usize + usize))%nat with (S (length now - 1)) by (unfold usize; lia).
  done.
Qed.
End short.

(** * A run of the load generators *)

(** Blocks that are their transactions; times of eight bytes. *)
#[local] Instance Load_Proto : Proto Block := {|
  Marshal b := match b_Transactions b with Some t => Ret (PutUint64 (Count t) ++ tx_Data t) | None => Fail "none" end;
  Unmarshal b := n ← Uint64 b; Ret (MkBlock 1 None [] 1 (Some (MkTransactions n (drop 8 b))))
|}.
Definition Format8 (t : Z) : bytes := PutUint64 t.
Definition Parse8 (b : bytes) : go Z := if decide (head b = Some 0) then Fail "parsing time" else Ret (le_value b).
Definition no_spare (b : bytes) : bytes := [].

Definition gen50 : generator := match newGenerator 7 50 with Ret g => g | _ => MkGenerator [] None end.
Definition filled (times : list Z) : generator * option Service :=
  match genBatch (Format8 <$> times) gen50 service with Ret r => r | _ => (gen50, None) end.
Definition filled_block (times : list Z) : SignedData :=
  match (filled times).2 with
  | Some s => MkSignedData (PutUint64 (Count (blockTransactions s)) ++ tx_Data (blockTransactions s)) []
  | None => MkSignedData [] []
  end.

Definition tracker : loadTracker := MkLoadTracker 5 (MkTxTimeTracker 0 0 0 0).

Lemma filled_generated times : match genBatch (Format8 <$> times) gen50 service, (filled times).2 with
  | Ret (g, Some s), Some s' => s = s' /\ exists block, Unmarshal (Data (filled_block times)) = Ret block /\
      b_Transactions block = Some (blockTransactions s)
  | _, _ => False end -> generated Format8 50 times (filled_block times).
Proof.
  intros H. destruct (genBatch _ _ _) as [[g [s|]]| |] eqn:E; [|done..]. destruct (filled times).2 as [s'|]; [|done].
  destruct H as (<- & block & Hu & Ht). exists block, gen50, service, g, s. split_and!; try done.
  - constructor; [by vm_compute|apply Nat.le_0_l|done|done].
Qed.

Lemma delivered_load_is_measured_witness :
  handleDeliver Parse8 no_spare noFaults 10001 3 [filled_block [1001; 2001]; filled_block []; filled_block [3001]] tracker service =
    Ret (MkLoadTracker 8 (MkTxTimeTracker 7000 16000 2 0), Acknowledge noFaults 3 service).
Proof.
  rewrite (delivered_load_is_measured Format8 Parse8 no_spare 50 noFaults 10001 3 [[1001; 2001]; []; [3001]]).
  - by vm_compute.
  - do 3 (constructor; [apply filled_generated; vm_compute; (split; [done|]); by eexists|]). constructor.
  - repeat constructor; vm_compute; try done; lia.
  - by vm_compute.
  - by vm_compute.
  - by vm_compute.
Defined.

(** Transactions of 16 bytes end the process when the time is longer than 8
    bytes; larger ones do not. *)
Definition run_size (size : Z) : option (go (option Z)) :=
  match newGenerator 7 size with
  | Ret g =>
      match genBatch [[50; 48; 50; 54; 45; 48; 49; 45; 48; 49]] g service with
      | Ret (_, Some s) => Some (blockTime (fun b => if decide (head b = Some 0) then Fail "parsing time" else Ret 1) no_spare
                                   (MkBlock 1 None [] 1 (Some (blockTransactions s))))
      | _ => None
      end
  | _ => None
  end.
Example sizes_run : run_size 16 = Some Crash /\ run_size 18 = Some (Ret (Some 1)).
Proof. by vm_compute. Qed.

(** The rate: warm up, more, less when the latency is too high, and less when it
    does not change. *)
Definition dec08 : spec_float := S754_finite false 7205759403792794 (-53).
Definition four : spec_float := of_int 4.
Definition adjusted (latencies : list Z) : goint :=
  ra_rate (foldl (fun r l => adjust 1000 dec08 four l r) (MkRate true 10000 0 0) latencies).
Example rates_run :
  adjusted [3000000000] = 10000 /\ adjusted [3000000000; 3100000000] = 11000 /\
  adjusted [3000000000; 5000000000] = 8000 /\ adjusted (repeat 3000000000 6) = 8320.
Proof. by vm_compute. Qed.

(** * The load test

    Model of [src/cmd/blockmaniatest/main.go]: a node that generates a fixed
    number of transactions per second for some time and writes the average
    latency and the average number of transactions per second.  Its generator and
    the loop over the delivered blocks are those of [GenLoad]. *)

Record bt_txTimeTracker := MkTracker { tk_base : txTimeTracker; tk_durations : list Z; tk_avgLatency : Z }.
Record testrunner := MkTestrunner { tr_total : uint64; tr_txtt : bt_txTimeTracker; tr_avgTxs : uint64 }.

Section deliver.
Context `{PB : Proto Block} (Parse : bytes -> go Z) (spare : bytes -> bytes).

Definition bt_handleTxTime (now : Z) (blocks : list SignedData) (t : bt_txTimeTracker) : go bt_txTimeTracker :=
  '(b, minDuration) ← trackBlocks Parse spare now blocks (tk_base t) Hour;
  Ret (if decide (tt_txc b > 0)
       then MkTracker b (tk_durations t ++ [minDuration]) (Z.quot (tt_tot b) (tt_txc b))
       else MkTracker b (tk_durations t) (tk_avgLatency t)).

Definition bt_handleDeliver (F : Faults) (now : Z) (round : uint64) (blocks : list SignedData)
    (tr : testrunner) (s : Service) : go (testrunner * Service) :=
  total ← countTransactions blocks (tr_total tr);
  t ← bt_handleTxTime now blocks (tr_txtt tr);
  Ret (MkTestrunner total t (tr_avgTxs tr), Acknowledge F round s).
End deliver.

Definition bt_getTotal (tr : testrunner) : uint64 := tr_total tr.
Definition bt_readCounter (tr : testrunner) : uint64 * testrunner :=
  (tr_total tr, MkTestrunner 0 (tr_txtt tr) (tr_avgTxs tr)).

(** One tick of [calcTxPerSecs], with its variables [total] and [count]. *)
Definition calc_tick (total count : uint64) (tr : testrunner) : uint64 * uint64 * testrunner :=
  let '(n, tr) := bt_readCounter tr in
  let total := u64 (total + n) in
  let count := u64 (count + 1) in
  (total, count, if decide (total <> 0) then MkTestrunner (tr_total tr) (tr_txtt tr) (total `div` count) else tr).

Record testresults := MkTestresults { AvgLatency : spec_float; AvgTxs : uint64 }.
Definition results (tr : testrunner) : testresults := MkTestresults (Seconds (tk_avgLatency (tr_txtt tr))) (tr_avgTxs tr).

(** ** The measured rate *)

(** The seconds of a test: blocks with these numbers of transactions arrive
    between the ticks. *)
Fixpoint calc_run (seconds : list (list uint64)) (total count : uint64) (tr : testrunner) : uint64 * uint64 * testrunner :=
  match seconds with
  | [] => (total, count, tr)
  | blocks :: seconds =>
      let tr := MkTestrunner (foldl (fun t n => u64 (t + n)) (tr_total tr) blocks) (tr_txtt tr) (tr_avgTxs tr) in
      let '(total, count, tr) := calc_tick total count tr in calc_run seconds total count tr
  end.

Lemma foldl_u64 ns t : is_u64 t -> foldl (fun t n => u64 (t + n)) t ns = u64 (t + sum ns).
Proof.
  revert t. induction ns as [|n ns IH]; intros t Ht; cbn; [by rewrite Z.add_0_r, wrap_small|].
  rewrite IH by auto with chain lia. rewrite u64_add_l. f_equal. unfold sum. lia.
Qed.
Lemma sum_app l k : sum (l ++ k) = sum l + sum k.
Proof. unfold sum. induction l as [|x l IH]; cbn; lia. Qed.

Lemma calc_run_spec seconds total count tr : is_u64 total -> is_u64 count -> tr_total tr = 0 ->
  tr_avgTxs tr = (if decide (total = 0) then tr_avgTxs tr else total `div` count) ->
  let '(total', count', tr') := calc_run seconds total count tr in
  total' = u64 (total + sum (concat seconds)) /\ count' = u64 (count + Z.of_nat (length seconds)) /\
  tr_total tr' = 0 /\ tr_txtt tr' = tr_txtt tr /\
  (seconds <> [] -> total' <> 0 -> tr_avgTxs tr' = total' `div` count').
Proof.
  revert total count tr. induction seconds as [|blocks seconds IH]; intros total count tr Ht Hc Hz Ha.
  { cbn. rewrite !Z.add_0_r, !wrap_small by done. done. }
  cbn [calc_run calc_tick bt_readCounter tr_total tr_txtt tr_avgTxs]. rewrite Hz, foldl_u64 by (split; lia).
  rewrite u64_add_r, Z.add_0_l.
  set (tr1 := if decide _ then _ else _).
  assert (tr_total tr1 = 0 /\ tr_txtt tr1 = tr_txtt tr /\
    (u64 (total + sum blocks) <> 0 -> tr_avgTxs tr1 = u64 (total + sum blocks) `div` u64 (count + 1))) as (H1 & H2 & H3).
  { unfold tr1. destruct (decide (u64 (total + sum blocks) <> 0)); split_and!; try done. }
  specialize (IH (u64 (total + sum blocks)) (u64 (count + 1)) tr1 ltac:(auto with chain lia) ltac:(auto with chain lia) H1).
  destruct (calc_run _ _ _ _) as [[total' count'] tr'] eqn:E.
  destruct IH as (-> & -> & IH3 & IH4 & IH5); [destruct (decide (u64 (total + sum blocks) = 0)); [done|by apply H3]|].
  assert (sum (concat (blocks :: seconds)) = sum blocks + sum (concat seconds)) as Hs by apply sum_app.
  split_and!.
  - by rewrite u64_add_l, Hs, Z.add_assoc.
  - rewrite u64_add_l. f_equal. cbn [length]. lia.
  - done.
  - congruence.
  - intros _ Hne. destruct seconds as [|b' sec]; [|by apply IH5].
    injection E as _ _ <-. change (sum (concat [])) with 0 in *. change (Z.of_nat (length (@nil (list Z)))) with 0.
    rewrite !u64_add_l, !Z.add_0_r in *. by apply H3.
Qed.

(** The average that the test reports is the number of delivered transactions
    divided by the number of seconds, from the first second with one on. *)
Theorem average_of_test seconds t avg : seconds <> [] -> u64 (sum (concat seconds)) <> 0 ->
  let '(total, count, tr) := calc_run seconds 0 0 (MkTestrunner 0 t avg) in
  results tr = MkTestresults (Seconds (tk_avgLatency t))
    (u64 (sum (concat seconds)) `div` u64 (Z.of_nat (length seconds))).
Proof.
  intros Hs Hn. pose proof (calc_run_spec seconds 0 0 (MkTestrunner 0 t avg)) as H.
  destruct (calc_run _ _ _ _) as [[total count] tr].
  destruct H as (-> & -> & _ & H4 & H5); [split; lia..|done|done|]. rewrite Z.add_0_l in H5.
  unfold results. rewrite H4. cbn [tr_txtt]. f_equal. rewrite (H5 Hs Hn). by rewrite Z.add_0_l.
Qed.

Example test_run :
  (let '(_, _, tr) := calc_run [[3; 4]; []; [5]; [1; 1]] 0 0 (MkTestrunner 0 (MkTracker (MkTxTimeTracker 0 0 0 0) [] 0) 0) in
   tr_avgTxs tr) = 3.
Proof. by vm_compute. Qed.
