(* ===== verification/SbacNew.v ===== *)
(** * SbacNew: the constructors of the services of a node

    Model of [New] in [src/checker/checker.go] and in [src/sbac/sbac.go].  The
    database of the objects is opened by a parameter; the rounds that
    [broadcaster.Register] delivers before it returns are those of
    [Broadcast.Register]. *)
From S2P Require Import Prelude Codec Database Messages Graph BroadcastStore Depgraph Broadcast BroadcastProps Topology.
From S2P Require Import Base32 Signature Settings SbacStore SbacStoreProps SbacTypes Sbac SbacProps SbacService Checker.

(** The private key of the configuration, the same in both constructors. *)
Definition load_private_key (k : Key) : go bytes :=
  algorithm ← AlgorithmFromString (k_Type k);
  privKeybytes ← b32_Decode (k_Private k);
  LoadPrivateKey algorithm privKeybytes.

(** [checker.New]: the checkers and the key. *)
Definition checker_New (cs : list Checker) (signingKey : Key) : go (checkersMap * bytes) :=
  let checkers := newCheckers cs ∅ in
  privkey ← load_private_key signingKey;
  Ret (checkers, privkey).

Section new.
Context {T : Type} {Topo : Type} {NT : NetTopology Topo} {PC : Proto ConsensusTransaction} {PB : Proto Block}.
Context {PS : Proto SignedData}.
Context (F : Faults).

(** [handleDeliver] while [s.txstates] is still nil: the scheduler is
    dereferenced for the first consensus of a transaction. *)
Definition early_checkEvent (d : ConsensusTransaction) : M (World T) () :=
  if ct_Op d =? ConsensusOp_Consensus1 then deref None else mret tt.

Definition early_deliverTx (data : TransactionData) : M (World T) () :=
  match Unmarshal (td_Data data) with
  | Ret tx => _ ← early_checkEvent tx; pe_OnEvent (ConsensusEvent tx)
  | _ => mret tt
  end.

Definition early_handleDeliver (blocks : list SignedData) : M (World T) () :=
  each (fun signed =>
          block ← call (Unmarshal (Data signed));
          match b_Transactions block with
          | Some txs => l ← call (iterate (Z.to_nat (Count txs)) (Iter txs)); each early_deliverTx l
          | None => deref None
          end) blocks.

(** [sbac.New]: the callback is registered before the scheduler is made. *)
Definition sbac_New (signingKey : Key) (open : go T) (nodeID shardSize : uint64) (top : Topo) (b : Service)
    : go (Sbac.Config Topo * bytes * World T * Service) :=
  privkey ← load_private_key signingKey;
  bstore ← open;
  shardID ← ShardForNode nodeID top;
  let s := Sbac.MkConfig nodeID shardID shardSize top in
  let w := MkWorld bstore [] [] [] [] [] [] ∅ in
  b' ← Register F b;
  let redelivered := drop (length (sv_delivered b)) (sv_delivered b') in
  match each (fun d => early_handleDeliver d.2) redelivered w with
  | Done _ w => Ret (s, privkey, w, b')
  | _ => Crash
  end.

(** ** When the service starts *)

(** A key of the right type and length. *)
Definition key_ok (k : Key) (privkey : bytes) : Prop :=
  k_Type k = algorithm_String Ed25519 /\ b32_Decode (k_Private k) = Ret privkey /\ length privkey = PrivateKeySize.

Lemma load_private_key_spec k privkey : load_private_key k = Ret privkey <-> key_ok k privkey.
Proof using Type.
  unfold load_private_key, key_ok, AlgorithmFromString, LoadPrivateKey. case_decide as Ht.
  - cbn [mbind go_bind]. destruct (b32_Decode (k_Private k)) as [p|e|] eqn:Ed; cbn [mbind go_bind];
      [|split; [done|by intros (_ & ? & _)]..].
    rewrite decide_True by done. unfold guard_fail. destruct (Nat.eqb_spec (length p) 64) as [Hl|Hl]; cbn [mbind go_bind].
    + split; [intros [= <-]; by split_and!|]. by intros (_ & [= ->] & _).
    + split; [done|]. by intros (_ & [= ->] & ?).
  - split; [done|]. by intros [? _].
Qed.

(** Every interpreted round after the acknowledged one is delivered while the
    callback is registered. *)
Lemma redeliver_contents fuel i last s s' : 0 <= i -> last < 2 ^ 64 - 1 -> fuel = Z.to_nat (last + 1 - i) ->
  redeliver F fuel i last s = Ret s' ->
  exists ds, sv_delivered s' = sv_delivered s ++ ds /\
    (forall r blocks, (r, blocks) ∈ ds <-> i <= r <= last /\ getInterpreted F r (sv_store s) = Ret blocks) /\
    (last < i -> ds = []).
Proof using Type.
  revert i s. induction fuel as [|fuel IH]; intros i s Hi Hl Hf H; cbn [redeliver] in H.
  { injection H as <-. exists []. rewrite app_nil_r. split_and!; [done| |done].
    intros r blocks. split; [by intros ?%elem_of_nil|]. intros [? _]. lia. }
  rewrite decide_True in H by lia. apply go_bind_Ret in H as (blocks & Hb & H).
  rewrite (wrap_small 64) in H by (split; lia). apply IH in H as (ds & Hd & Hin & _); [|lia..].
  exists ((i, blocks) :: ds). rewrite Hd. cbn [deliver_to sv_delivered]. rewrite <-app_assoc.
  split_and!; [done| |lia]. intros r bs. rewrite elem_of_cons, Hin. cbn [deliver_to sv_store].
  apply fatal_Ret in Hb. split.
  - intros [[= -> ->]|[? ?]]; split; try done; lia.
  - intros [Hr Hg]. destruct (decide (r = i)) as [->|]; [left; congruence|right; split; [lia|done]].
Qed.

Lemma Register_contents b b' ack : acked F b ack -> 0 <= ack -> sv_interpreted b < 2 ^ 64 - 1 ->
  Register F b = Ret b' -> exists ds, sv_delivered b' = sv_delivered b ++ ds /\
    (forall r blocks, (r, blocks) ∈ ds <-> ack < r <= sv_interpreted b /\ getInterpreted F r (sv_store b) = Ret blocks) /\
    (sv_interpreted b <= ack -> ds = []).
Proof using Type.
  intros Ha H0 Hm Hr. unfold Register in Hr. destruct (sv_cb b); [done|].
  apply go_bind_Ret in Hr as (ack' & Hk & Hr).
  assert (ack' = ack) as ->.
  { change (sv_store (set_cb true b)) with (sv_store b) in Hk.
    destruct Ha as [Ha|[Ha ->]]; rewrite Ha in Hk; [congruence|].
    by rewrite decide_True in Hk by done; injection Hk as <-. }
  change (sv_interpreted (set_cb true b)) with (sv_interpreted b) in Hr.
  destruct (decide (ack < sv_interpreted b)) as [Hlt|Hge].
  - rewrite (wrap_small 64) in Hr by (split; lia).
    apply redeliver_contents in Hr as (ds & Hd & Hin & He); [|lia..].
    exists ds. split_and!; [done| |lia]. intros r blocks. rewrite Hin. split; intros [? ?]; (split; [lia|done]).
  - replace (Z.to_nat (sv_interpreted b - ack)) with O in Hr by lia. injection Hr as <-.
    exists []. rewrite app_nil_r. split_and!; [done| |done].
    intros r blocks. split; [by intros ?%elem_of_nil|]. intros [? _]. lia.
Qed.

Lemma redeliver_cb fuel i last s s' : redeliver F fuel i last s = Ret s' -> sv_cb s' = sv_cb s.
Proof using Type.
  revert i s. induction fuel as [|fuel IH]; intros i s H; cbn [redeliver] in H; [congruence|].
  case_decide; [|congruence]. apply go_bind_Ret in H as (bs & _ & H). by apply IH in H.
Qed.
Lemma Register_cb b b' : Register F b = Ret b' -> sv_cb b' = true.
Proof using Type.
  unfold Register. destruct (sv_cb b); [done|]. intros (ack & _ & H)%go_bind_Ret. by apply redeliver_cb in H.
Qed.

(** Computations that return or panic. *)
Definition settles {S} (m : M S ()) : Prop := forall w, m w = Panicked \/ exists w', m w = Done tt w'.

Lemma each_settles {S A} (f : A -> M S ()) xs : (forall x, settles (f x)) -> settles (each f xs).
Proof using Type.
  intros Hf. induction xs as [|x xs IH]; intros w; cbn [each]; [right; by eexists|].
  unfold mbind, M_bind. destruct (Hf x w) as [->|[w' ->]]; [by left|apply IH].
Qed.
Lemma each_panics {S A} (f : A -> M S ()) xs x w : (forall x, settles (f x)) -> x ∈ xs ->
  (forall w, f x w = Panicked) -> each f xs w = Panicked.
Proof using Type.
  intros Hf Hx Hp. revert w. induction Hx as [|x y xs _ IH]; intros w; cbn [each]; unfold mbind, M_bind; [by rewrite Hp|].
  destruct (Hf y w) as [->|[w' ->]]; [done|]. by apply IH.
Qed.

Lemma early_deliverTx_settles data : settles (early_deliverTx data).
Proof using Type.
  intros w. unfold early_deliverTx. destruct (Unmarshal (td_Data data)) as [tx|e|]; [|right; by eexists..].
  unfold early_checkEvent. case_match; [by left|right; by eexists].
Qed.

(** Handling of one signed block of the early callback. *)
Lemma early_block_settles (signed : SignedData) : settles (S := World T)
  (block ← call (Unmarshal (Data signed));
   match b_Transactions block with
   | Some txs => l ← call (iterate (Z.to_nat (Count txs)) (Iter txs)); each early_deliverTx l
   | None => deref None
   end).
Proof using Type.
  intros w. unfold call, deref, mbind, M_bind, Sbac.run. destruct (Unmarshal (Data signed)) as [block|e|]; [|by left..]. cbn.
  destruct (b_Transactions block) as [txs|]; [|by left].
  destruct (iterate _ _) as [l|e|]; [|by left..]. cbn. apply (each_settles _ _ early_deliverTx_settles).
Qed.
Lemma early_handleDeliver_settles blocks : settles (early_handleDeliver blocks).
Proof using Type. apply each_settles, early_block_settles. Qed.

(** The blocks have the first consensus of a transaction. *)
Definition has_first (blocks : list SignedData) : Prop :=
  exists signed block txs l data tx, signed ∈ blocks /\ Unmarshal (Data signed) = Ret block /\
    b_Transactions block = Some txs /\ iterate (Z.to_nat (Count txs)) (Iter txs) = Ret l /\ data ∈ l /\
    Unmarshal (td_Data data) = Ret tx /\ ct_Op tx = ConsensusOp_Consensus1.

Lemma early_handleDeliver_panics blocks w : has_first blocks -> early_handleDeliver blocks w = Panicked.
Proof using Type.
  intros (signed & block & txs & l & data & tx & Hs & Hu & Ht & Hi & Hd & Hx & Ho).
  eapply (each_panics _ _ signed); [apply early_block_settles|done|]. intros w'. cbn beta.
  unfold call, deref, mbind at 1, M_bind at 1, Sbac.run. rewrite Hu. cbn. rewrite Ht. unfold mbind, M_bind.
  cbn. rewrite Hi. cbn. eapply (each_panics _ _ data); [apply early_deliverTx_settles|done|].
  intros w2. unfold early_deliverTx. rewrite Hx. unfold early_checkEvent. by rewrite Ho.
Qed.

(** A node that starts for the first time, or that has acknowledged every round,
    gets a service with an empty scheduler, the shard of the node and the private
    key; nothing else is returned unless the key is usable, the database opens
    and the node has a shard. *)
Theorem sbac_New_starts signingKey open nodeID shardSize top b b' ack privkey bstore shardID :
  key_ok signingKey privkey -> open = Ret bstore -> ShardForNode nodeID top = Ret shardID ->
  acked F b ack -> 0 <= ack -> sv_interpreted b <= ack -> sv_interpreted b < 2 ^ 64 - 1 -> Register F b = Ret b' ->
  sbac_New signingKey open nodeID shardSize top b =
    Ret (Sbac.MkConfig nodeID shardID shardSize top, privkey, MkWorld bstore [] [] [] [] [] [] ∅, b') /\
  sv_cb b' = true.
Proof using Type.
  intros Hk%load_private_key_spec Ho Hs Ha H0 Hi Hm Hr. unfold sbac_New. rewrite Hk, Ho. cbn [mbind go_bind]. rewrite Hs.
  cbn [mbind go_bind]. rewrite Hr. cbn [mbind go_bind].
  destruct (Register_contents b b' ack Ha H0 Hm Hr) as (ds & -> & _ & Hn). rewrite drop_app_length, (Hn Hi).
  split; [done|]. by eapply Register_cb.
Qed.

(** A node does not start again once a transaction has been interpreted in a
    round after the last acknowledged one: the rounds are delivered to the
    service before its scheduler exists.  The service never acknowledges rounds. *)
Lemma restart_after_transactions_panics signingKey open nodeID shardSize top b ack privkey bstore shardID r blocks :
  key_ok signingKey privkey -> open = Ret bstore -> ShardForNode nodeID top = Ret shardID ->
  acked F b ack -> 0 <= ack -> sv_interpreted b < 2 ^ 64 - 1 ->
  ack < r <= sv_interpreted b -> getInterpreted F r (sv_store b) = Ret blocks -> has_first blocks ->
  forall x, sbac_New signingKey open nodeID shardSize top b <> Ret x.
Proof using Type.
  intros Hk%load_private_key_spec Ho Hs Ha H0 Hm Hr Hg Hf x. unfold sbac_New. rewrite Hk, Ho. cbn [mbind go_bind].
  rewrite Hs. cbn [mbind go_bind]. destruct (Register F b) as [b'|e|] eqn:Hreg; [|done..]. cbn [mbind go_bind].
  destruct (Register_contents b b' ack Ha H0 Hm Hreg) as (ds & -> & Hin & _). rewrite drop_app_length.
  rewrite (each_panics _ _ (r, blocks)); [done| | |].
  - intros d. apply early_handleDeliver_settles.
  - by apply Hin.
  - intros w. by apply early_handleDeliver_panics.
Qed.
End new.
