(* ===== verification/SbacWf.v ===== *)
(** * SbacWf: the service of transactions stays well formed

    The scheduler, the machines and their queues have a shape that every
    operation keeps: deliveries, requests of other nodes and clients, the steps
    of the two kinds of queues, and the collection of finished machines. *)
From S2P Require Import Prelude Codec Database BroadcastStore Broadcast Topology.
From S2P Require Import SbacStore SbacStoreProps SbacTypes Sbac SbacProps SbacSafety SbacService SbacExample.

(** ** Computations that leave the machines alone *)

Definition quiet {T A} (m : M (World T) A) : Prop := forall w,
  match m w with
  | Done _ w' | Errored _ w' => machines w' = machines w /\ txstates w' = txstates w
  | _ => True
  end.

Section quiet.
Context {T A B : Type}.
Abbreviation M := (M (World T)).

Lemma quiet_bind (m : M A) (f : A -> M B) : quiet m -> (forall x, quiet (f x)) -> quiet (m ≫= f).
Proof.
  intros Hm Hf w. unfold mbind, M_bind. specialize (Hm w). destruct (m w) as [x w1|e w1| |]; [|done..].
  destruct Hm as [H1 H2]. specialize (Hf x w1). destruct (f x w1); by rewrite <-?H1, <-?H2.
Qed.
Lemma quiet_ret (x : A) : quiet (mret x : M A).
Proof. by intros w. Qed.
Lemma quiet_err e : quiet (err e : M A).
Proof. by intros w. Qed.
Lemma quiet_run (m : go A) : quiet (Sbac.run m : M A).
Proof. intros w. by destruct m. Qed.
Lemma quiet_deref (o : option A) : quiet (deref o : M A).
Proof. intros w. by destruct o. Qed.
Lemma quiet_call (m : go A) : quiet (call m : M A).
Proof. apply quiet_deref. Qed.
Lemma quiet_try (m : M A) : quiet m -> quiet (try m).
Proof. intros Hm w. unfold try. specialize (Hm w). by destruct (m w). Qed.
Lemma quiet_get : quiet (get : M (World T)).
Proof. by intros w. Qed.
Lemma quiet_modify (f : World T -> World T) :
  (forall w, machines (f w) = machines w /\ txstates (f w) = txstates w) -> quiet (modify f).
Proof. intros Hf w. apply Hf. Qed.
Lemma quiet_each (f : A -> M ()) xs : (forall x, quiet (f x)) -> quiet (each f xs).
Proof. intros Hf. induction xs as [|x xs IH]; simpl; [by intros w|]. intros w. unfold mbind, M_bind.
  specialize (Hf x w). destruct (f x w) as [? w1|? ?| |]; [|done..]. destruct Hf as [H1 H2].
  specialize (IH w1). destruct (each f xs w1); by rewrite <-?H1, <-?H2.
Qed.
End quiet.

#[export] Hint Resolve quiet_ret quiet_err quiet_run quiet_deref quiet_call quiet_get : sbac.
#[export] Hint Extern 1 (quiet (modify _)) => apply quiet_modify; done : sbac.

Ltac quiet_step :=
  lazymatch goal with
  | |- forall _, _ => intros ?
  | |- quiet (_ ≫= _) => apply quiet_bind
  | |- quiet (each _ _) => apply quiet_each
  | |- quiet (try _) => apply quiet_try
  | |- quiet (match ?x with _ => _ end) => destruct x
  | |- quiet (let _ := _ in _) => cbv zeta
  | |- quiet _ => solve [auto with sbac]
  end.
Ltac quieten := repeat quiet_step.

Section machine.
Context {T : Type} {ST : Store T} {Topo : Type} {NT : NetTopology Topo}.
Context {PT : Proto Transaction} {PM : Proto SBACMessage} {PC : Proto ConsensusTransaction}.
Context (sha512_256 : bytes -> bytes).
Context (Verify : bytes -> bytes -> bytes -> bool) (Sign : bytes -> bytes).
Context (s : Config Topo).
Abbreviation M := (M (World T)).

Lemma quiet_on_store f : quiet (on_store f : M ()).
Proof. unfold on_store. quieten. Qed.
#[local] Hint Resolve quiet_on_store : sbac.
Lemma quiet_inShard k : quiet (inShard s k : M bool).
Proof. unfold inShard. quieten. Qed.
#[local] Hint Resolve quiet_inShard : sbac.
Lemma quiet_partition_shard ks : quiet (partition_shard s ks : M _).
Proof. induction ks; simpl; quieten. Qed.
#[local] Hint Resolve quiet_partition_shard : sbac.
Lemma quiet_inputObjects_loop traces : quiet (inputObjects_loop s traces : M _).
Proof. induction traces; simpl; quieten. Qed.
#[local] Hint Resolve quiet_inputObjects_loop : sbac.
Lemma quiet_shardsOf ks : quiet (shardsOf s ks : M _).
Proof. induction ks; simpl; quieten. Qed.
#[local] Hint Resolve quiet_shardsOf : sbac.
Lemma quiet_inputsUsable traces : quiet (inputsUsable s traces : M _).
Proof. induction traces; simpl; unfold objectsExists; quieten. Qed.
#[local] Hint Resolve quiet_inputsUsable : sbac.
Lemma quiet_ownOutputs objs : quiet (ownOutputs s objs : M _).
Proof. induction objs; simpl; quieten. Qed.
#[local] Hint Resolve quiet_ownOutputs : sbac.
Lemma quiet_publishObjects ids b : quiet (publishObjects s ids b : M _).
Proof. unfold publishObjects. quieten. Qed.
Lemma quiet_saveLabels ids : quiet (saveLabels s ids : M _).
Proof. unfold saveLabels. quieten. Qed.
Lemma quiet_sendToShards shards msg : quiet (sendToShards s shards msg : M _).
Proof. unfold sendToShards. quieten. Qed.
Lemma quiet_inputObjectsForShard tx : quiet (inputObjectsForShard s tx : M _).
Proof. unfold inputObjectsForShard. quieten. Qed.
Lemma quiet_shardsInvolved tx : quiet (shardsInvolved s tx : M _).
Proof. unfold shardsInvolved. quieten. Qed.
Lemma quiet_signSBACMessage op d st : quiet (signSBACMessage Sign s op d st : M _).
Proof. unfold signSBACMessage, signTransaction. quieten. Qed.
#[local] Hint Resolve quiet_publishObjects quiet_saveLabels quiet_sendToShards quiet_inputObjectsForShard
  quiet_shardsInvolved quiet_signSBACMessage : sbac.

Lemma quiet_actions cur a st : actions s cur = Some a -> quiet (a st : M State).
Proof.
  destruct cur; try done; intros [= <-];
    unfold onWaitingForConsensus1, onWaitingForConsensus2, onWaitingForPhase1, onWaitingForPhase2, onWaitingForCommit,
      onWaitingForConsensusCommit, sbacState, consensusState; quieten.
Qed.

Lemma quiet_transitions cur to f st : transitions sha512_256 Sign s cur to = Some f -> quiet (f st : M State).
Proof.
  destruct cur, to; try done; intros [= <-];
    unfold toRejectPhase1Broadcasted, toAcceptPhase1Broadcasted, toRejectPhase2Broadcasted, toAcceptPhase2Broadcasted,
      broadcastDecision, sendToAllShardInvolved, shardsInvolvedWithoutSelf, toObjectLocked, toObjectDeactivated, toObjectsCreated,
      toSucceeded, toAborted, toWaitingForPhase1, toWaitingForPhase2, toConsensus2Triggered, toConsensusCommitTriggered,
      triggerConsensus, isNodeInitiatingBroadcast, toCommitObjectsBroadcasted, toWaitingForConsensus2, toWaitingForConsensusCommit;
    quieten.
Qed.

Lemma quiet_applyTransition fuel st cur to : quiet (applyTransition sha512_256 Sign s fuel st cur to : M _).
Proof.
  revert cur to. induction fuel as [|fuel IH]; intros cur to; cbn [applyTransition];
    (destruct (transitions sha512_256 Sign s cur to) as [f|] eqn:Ht; [|apply quiet_ret]); [by intros w|].
  apply quiet_bind; [by apply quiet_try; eapply quiet_transitions|]. intros [e|next]; [apply quiet_ret|apply IH].
Qed.

Lemma quiet_moveState fuel st cur : quiet (moveState sha512_256 Sign s fuel st cur : M _).
Proof.
  revert cur. induction fuel as [|fuel IH]; intros cur; cbn [moveState];
    (destruct (actions s cur) as [a|] eqn:Ha; [|apply quiet_ret]); [by intros w|].
  apply quiet_bind; [by apply quiet_try; eapply quiet_actions|]. intros [e|next]; [apply quiet_ret|].
  case_decide; [apply quiet_ret|]. destruct (transitions sha512_256 Sign s cur next); [|apply IH].
  apply quiet_bind; [apply quiet_applyTransition|]. intros [cur' _]. apply IH.
Qed.

Lemma quiet_onSBACEvent_shards shards ds b : quiet (onSBACEvent_shards s shards ds b : M _).
Proof. revert b. induction shards as [|v shards IH]; intros b; simpl; quieten; apply IH. Qed.
#[local] Hint Resolve quiet_onSBACEvent_shards : sbac.
Lemma quiet_processEvent st e : quiet (processEvent Verify s st e : M _).
Proof.
  unfold processEvent, cm_processEvent, bm_processEvent, onConsensusEvent, onSBACEvent,
    verifyEvidenceSignature, verifyTransactionSignature, shardsInvolvedWithoutSelf. quieten.
Qed.
Lemma quiet_consumeEvent fuel st cur e : quiet (consumeEvent sha512_256 Verify Sign s fuel st cur e : M _).
Proof.
  unfold consumeEvent. apply quiet_bind; [apply quiet_try, quiet_processEvent|]. intros r. cbv zeta.
  case_decide; [apply quiet_ret|]. apply quiet_bind; [apply quiet_moveState|]. intros [cur' ?]. apply quiet_ret.
Qed.
End machine.

(** ** Well-formed machines *)

Definition final (st : State) : Prop := st = StateSucceeded \/ st = StateAborted.

Record cm_wf (id : bytes) (op : ConsensusOp) (c : ConsensusStateMachine) : Prop := {
  cm_wf_phase : cm_phase c = op;
  cm_wf_waiting : cm_state c = StateConsensusWaiting <-> cm_data c = None;
  cm_wf_data d : cm_data c = Some d -> ct_TxID d = id /\ ct_Op d = op }.

(** The decisions are those of the messages, at most one for each peer. *)
Record bm_wf (id : bytes) (op : SBACOp) (c : SBACStateMachine) : Prop := {
  bm_wf_phase : bm_phase c = op;
  bm_wf_waiting : bm_msgs c = ∅ -> bm_state c = StateSBACWaiting;
  bm_wf_decisions : bm_decisions c = (fun m => MkSignedDecision (sm_Decision m) (sm_Signature m)) <$> bm_msgs c;
  bm_wf_msgs p m : bm_msgs c !! p = Some m -> sm_PeerID m = p /\ sm_Op m = op /\ sm_TxID m = id }.

Definition op3 (op : Z) : Prop := op = 0 \/ op = 1 \/ op = 2.

Record states_wf {PT : Proto Transaction} (st : States) : Prop := {
  wf_raw : RawTx (detail st) = marshal_tx' (dt_Tx (detail st));
  wf_hash : HashID (detail st) = ID (dt_ID (detail st));
  wf_cops op : is_Some (consensus st !! op) <-> op3 op;
  wf_bops op : is_Some (sbac st !! op) <-> op3 op;
  wf_cm op c : consensus st !! op = Some c -> cm_wf (dt_ID (detail st)) op c;
  wf_bm op c : sbac st !! op = Some c -> bm_wf (dt_ID (detail st)) op c }.

Record machine_wf {PT : Proto Transaction} (m : StateMachine) : Prop := {
  wf_states : states_wf (states m);
  wf_events e : e ∈ events m -> ev_TxID e = dt_ID (detail (states m)) }.

Record world_wf {PT : Proto Transaction} {T} (w : World T) : Prop := {
  wf_machines i m : machines w !! i = Some m -> machine_wf m;
  wf_txstates id i : txstates w !! id = Some i -> exists m, machines w !! i = Some m /\ dt_ID (detail (states m)) = id }.

(** What a machine keeps: its transaction, the state it has ended in, and the
    votes that are settled. *)
Record st_evolves (st st' : States) : Prop := {
  ev_detail : detail st' = detail st;
  ev_consensus op c : consensus st !! op = Some c -> cm_state c <> StateConsensusWaiting -> consensus st' !! op = Some c;
  ev_sbac op c : sbac st !! op = Some c -> bm_state c <> StateSBACWaiting -> sbac st' !! op = Some c }.

Record evolves (m m' : StateMachine) : Prop := {
  ev_states : st_evolves (states m) (states m');
  ev_final : final (state m) -> state m' = state m }.

#[export] Instance st_evolves_preorder : PreOrder st_evolves.
Proof.
  split; [by intros st; split|]. intros a b c [D1 C1 S1] [D2 C2 S2]. split; [congruence|eauto..].
Qed.
#[export] Instance evolves_preorder : PreOrder evolves.
Proof.
  split; [by intros m; split|]. intros a b c [S1 F1] [S2 F2]. split; [by etrans|]. intros Hf.
  pose proof (F1 Hf) as E. rewrite <-E in Hf |- *. by apply F2.
Qed.

Section wf.
Context {PT : Proto Transaction}.

Lemma lookup_op3 {A} (a b c : A) (op : Z) :
  is_Some ((<[2 := a]> (<[1 := b]> {[0 := c]}) : gmap Z A) !! op) <-> op3 op.
Proof.
  rewrite !lookup_insert_is_Some, lookup_singleton_is_Some. unfold op3.
  destruct (decide (op = 0)), (decide (op = 1)), (decide (op = 2)); intuition congruence.
Qed.

Lemma NewStateMachine_wf id tx evidences init : machine_wf (NewStateMachine (mkDetail id tx evidences) init).
Proof.
  split; [|by intros e ?%not_elem_of_nil]. split; [done|done|apply lookup_op3|apply lookup_op3|..]; cbn.
  all: intros op c; rewrite 3!lookup_insert_Some, lookup_empty.
  all: intros [[<- <-]|[_ [[<- <-]|[_ [[<- <-]|[_ [=]]]]]]]; split; try done.
Qed.

Lemma wf_set_consensus st op c c' : states_wf st -> consensus st !! op = Some c ->
  cm_state c = StateConsensusWaiting -> cm_wf (dt_ID (detail st)) op c' ->
  states_wf (set_consensus (<[op := c']> (consensus st)) st) /\
  st_evolves st (set_consensus (<[op := c']> (consensus st)) st).
Proof.
  intros [Hr Hh Hc Hb Hcm Hbm] Hop Hw Hc'. split; split; cbn; try done.
  - intros op'. rewrite lookup_insert_is_Some', Hc. split; [intros [<-|H]; [|done]|by right]. apply Hc; eauto.
  - intros op' d. rewrite lookup_insert_Some. intros [[<- <-]|[_ H]]; eauto.
  - intros op' d Hd Hn. rewrite lookup_insert_ne; [done|]. intros <-. congruence.
Qed.

Lemma wf_set_sbac st op c c' : states_wf st -> sbac st !! op = Some c ->
  bm_state c = StateSBACWaiting -> bm_wf (dt_ID (detail st)) op c' ->
  states_wf (set_sbac (<[op := c']> (sbac st)) st) /\
  st_evolves st (set_sbac (<[op := c']> (sbac st)) st).
Proof.
  intros [Hr Hh Hc Hb Hcm Hbm] Hop Hw Hc'. split; split; cbn; try done.
  - intros op'. rewrite lookup_insert_is_Some', Hb. split; [intros [<-|H]; [|done]|by right]. apply Hb; eauto.
  - intros op' d. rewrite lookup_insert_Some. intros [[<- <-]|[_ H]]; eauto.
  - intros op' d Hd Hn. rewrite lookup_insert_ne; [done|]. intros <-. congruence.
Qed.

Lemma bm_wf_insert id op c m x : bm_wf id op c -> sm_Op m = op -> sm_TxID m = id ->
  bm_wf id op (MkSBACStateMachine (<[sm_PeerID m := m]> (bm_msgs c))
    (<[sm_PeerID m := MkSignedDecision (sm_Decision m) (sm_Signature m)]> (bm_decisions c)) (bm_phase c) x).
Proof.
  intros [Hp Hw Hd Hm] Ho Hi. split; cbn; [done| |by rewrite Hd, fmap_insert|].
  - intros []%insert_non_empty.
  - intros p m'. rewrite lookup_insert_Some. intros [[<- <-]|[_ H]]; auto.
Qed.
End wf.

(** ** Every operation keeps the service well formed *)

(** The address of a machine stays valid, and the machine there evolves. *)
Definition grows {T} (w w' : World T) : Prop :=
  forall i m, machines w !! i = Some m -> exists m', machines w' !! i = Some m' /\ evolves m m'.
#[export] Instance grows_preorder {T} : PreOrder (grows (T := T)).
Proof.
  split; [by intros w i m Hm; exists m|]. intros a b c H1 H2 i m Hm.
  destruct (H1 i m Hm) as (m1 & Hm1 & E1). destruct (H2 i m1 Hm1) as (m2 & Hm2 & E2). exists m2. split; [done|by etrans].
Qed.

Definition sound {PT : Proto Transaction} {T A} (m : M (World T) A) : Prop := forall w, world_wf w ->
  match m w with
  | Done _ w' | Errored _ w' => world_wf w' /\ grows w w'
  | _ => True
  end.

Section sound.
Context {PT : Proto Transaction} {T A B : Type}.
Abbreviation M := (M (World T)).

Lemma sound_bind (m : M A) (f : A -> M B) : sound m -> (forall x, sound (f x)) -> sound (m ≫= f).
Proof.
  intros Hm Hf w Hw. unfold mbind, M_bind. specialize (Hm w Hw). destruct (m w) as [x w1|e w1| |]; [|done..].
  destruct Hm as [H1 H2]. specialize (Hf x w1 H1). destruct (f x w1) as [? w2|? w2| |]; [|..|done|done].
  all: destruct Hf as [Hf1 Hf2]; split; [done|by etrans].
Qed.
Lemma world_same (w w' : World T) : machines w' = machines w -> txstates w' = txstates w ->
  world_wf w -> world_wf w' /\ grows w w'.
Proof.
  intros E1 E2 [H1 H2]. split; [split; rewrite E1, ?E2; auto|]. intros i m Hm. rewrite E1. by exists m.
Qed.
Lemma sound_quiet (m : M A) : quiet m -> sound m.
Proof. intros Hq w Hw. specialize (Hq w). destruct (m w); [| |done|done]; destruct Hq; by apply world_same. Qed.
Lemma sound_each (f : A -> M ()) xs : (forall x, sound (f x)) -> sound (each f xs).
Proof. intros Hf. induction xs as [|x xs IH]; simpl; [by intros w Hw; apply world_same|].
  intros w Hw. unfold mbind, M_bind. specialize (Hf x w Hw). destruct (f x w) as [? w1|? ?| |]; [|done..].
  destruct Hf as [H1 H2]. specialize (IH w1 H1). destruct (each f xs w1); [| |done|done].
  all: destruct IH; split; [done|by etrans].
Qed.
Lemma sound_try (m : M A) : sound m -> sound (try m).
Proof. intros Hm w Hw. unfold try. specialize (Hm w Hw). by destruct (m w). Qed.
End sound.

Ltac sound_step :=
  lazymatch goal with
  | |- forall _, _ => intros ?
  | |- sound (_ ≫= _) => apply sound_bind
  | |- sound (each _ _) => apply sound_each
  | |- sound (try _) => apply sound_try
  | |- sound (match ?x with _ => _ end) => destruct x
  | |- sound (let _ := _ in _) => cbv zeta
  | |- sound _ => solve [auto with sbac | apply sound_quiet; auto with sbac]
  end.
Ltac sounds := repeat sound_step.

Section service.
Context {T : Type} {ST : Store T} {Topo : Type} {NT : NetTopology Topo}.
Context {PT : Proto Transaction} {PM : Proto SBACMessage} {PC : Proto ConsensusTransaction}.
Context {PAR : Proto AddTransactionRequest} {PAS : Proto AddTransactionResponse}.
Context {PQ : Proto QueryObjectRequest} {PQR : Proto QueryObjectResponse}.
Context {PCR : Proto CreateObjectRequest} {PCS : Proto CreateObjectResponse}.
Context {PCRs : Proto CreateObjectsRequest} {PCSs : Proto CreateObjectsResponse}.
Context {PK : Proto SBACMessageAck} {PSR : Proto StatesReportResponse} {PB : Proto Block}.
Context (sha512_256 : bytes -> bytes).
Context (Verify : bytes -> bytes -> bytes -> bool) (Sign : bytes -> bytes).
Context (s : Config Topo).
Abbreviation M := (M (World T)).

Lemma processEvent_wf st e (w : World T) st' w' : states_wf st -> processEvent Verify s st e w = Done st' w' ->
  states_wf st' /\ st_evolves st st'.
Proof.
  intros Hwf. unfold processEvent. case_decide as Hid; [done|].
  destruct e as [m|d]; unfold mbind, M_bind, deref, Sbac.run, or_crash; cbn in Hid.
  - destruct (sbac st !! sm_Op m) as [c|] eqn:Hc; [|done]. unfold try, bm_processEvent.
    case_decide as Hst; [by intros [= <- _]|]. unfold mbind, M_bind.
    destruct (onSBACEvent Verify s st _ w) as [x w1|? w1| |]; try done; [|by intros [= <- _]].
    intros [= <- _]. eapply wf_set_sbac; [done..|]. apply bm_wf_insert; [|done|done]. apply (wf_bm st Hwf _ _ Hc).
  - destruct (consensus st !! ct_Op d) as [c|] eqn:Hc; [|done]. unfold try, cm_processEvent.
    case_decide as Hst; [by intros [= <- _]|]. unfold mbind, M_bind.
    destruct (onConsensusEvent Verify s st d w) as [x w1|? w1| |] eqn:Hx; try done; [|by intros [= <- _]].
    intros [= <- _]. eapply wf_set_consensus; [done..|]. split; cbn; [apply (wf_cm st Hwf _ _ Hc)| |].
    + split; [|done]. intros ->. unfold onConsensusEvent in Hx. case_decide; [|done].
      unfold mbind, M_bind in Hx. by destruct (verifyEvidenceSignature _ _ _ _ _) as [[] ?| | |].
    + by intros ? [= <-].
Qed.

Lemma consumeEvent_wf fuel st cur e (w : World T) st' cur' w' : states_wf st ->
  consumeEvent sha512_256 Verify Sign s fuel st cur e w = Done (st', cur') w' ->
  states_wf st' /\ st_evolves st st' /\ (final cur -> cur' = cur).
Proof.
  intros Hwf. unfold consumeEvent, mbind, M_bind, try.
  destruct (processEvent Verify s st e w) as [st1 w1|? w1| |] eqn:Hp; try done.
  all: case_decide as Hf; [intros [= <- <- _]|].
  all: try (destruct (moveState _ _ _ _ _ _ _) as [[cur1 ?] w2|? ?| |]; try done; intros [= <- <- _]).
  all: (try (destruct (processEvent_wf st e w st1 w1 Hwf Hp))); split_and!; done.
Qed.

Lemma world_wf_insert i m m' (w : World T) : machines w !! i = Some m -> machine_wf m' -> evolves m m' ->
  world_wf w -> let w' := set_machines (<[i := m']> (machines w)) (txstates w) w in world_wf w' /\ grows w w'.
Proof.
  intros Hm Hm' He [H1 H2]. pose proof (lookup_lt_Some _ _ _ Hm) as Hlt. split; [split|]; cbn.
  - intros j n. rewrite list_lookup_insert_Some. intros [(-> & <- & _)|[_ Hj]]; eauto.
  - intros id j Hj. destruct (H2 id j Hj) as (n & Hn & Hid). destruct (decide (j = i)) as [->|Hne].
    + exists m'. rewrite list_lookup_insert_eq by done. split; [done|]. destruct He as [[Hd _ _] _]. simplify_eq. by rewrite Hd.
    + exists n. by rewrite list_lookup_insert_ne.
  - intros j n Hn. cbn. destruct (decide (j = i)) as [->|Hne].
    + exists m'. rewrite list_lookup_insert_eq by done. by simplify_eq.
    + exists n. by rewrite list_lookup_insert_ne.
Qed.

Lemma sound_machine_step fuel sm : sound (machine_step sha512_256 Verify Sign s fuel sm : M bool).
Proof.
  intros w Hw. unfold machine_step, mbind, M_bind, get, deref, Sbac.run, or_crash.
  destruct (machines w !! sm) as [m|] eqn:Hm; [|done].
  destruct (wf_machines w Hw _ _ Hm) as [Hst Hes]. destruct (events m) as [|e es] eqn:He; [by apply world_same|].
  pose proof (quiet_consumeEvent sha512_256 Verify Sign s fuel (states m) (state m) e w) as Hq.
  destruct (consumeEvent _ _ _ _ _ _ _ _ _) as [[st' cur'] w1|? w1| |] eqn:Hc; try done.
  2: by destruct Hq; apply world_same.
  destruct Hq as [Hq1 Hq2]. destruct (consumeEvent_wf _ _ _ _ _ _ _ _ Hst Hc) as (Hst' & He' & Hf').
  destruct (world_same w w1 Hq1 Hq2 Hw) as [Hw1 Hg1].
  destruct (world_wf_insert sm m (MkStateMachine es st' cur') w1) as [Hw2 Hg2]; [by rewrite Hq1| | |done|].
  - split; [done|]. cbn. intros e' Hin. rewrite (ev_detail _ _ He'). apply Hes. by right.
  - by split.
  - cbn. split; [done|by etrans].
Qed.

Lemma sound_newMachine id tx evidences init : sound (newMachine (mkDetail id tx evidences) init : M nat).
Proof.
  intros w [H1 H2]. cbn. split; [split|]; cbn.
  - intros i m. rewrite lookup_app_Some, list_lookup_singleton_Some. intros [Hm|(_ & _ & <-)]; [eauto|].
    apply NewStateMachine_wf.
  - intros id' i. rewrite lookup_insert_Some. intros [[<- <-]|[_ Hi]].
    + eexists. rewrite lookup_app_r, Nat.sub_diag by done. by split.
    + destruct (H2 id' i Hi) as (m & Hm & Hid). exists m. by rewrite (lookup_app_l_Some _ _ _ _ Hm).
  - intros i m Hm. exists m. cbn. by rewrite (lookup_app_l_Some _ _ _ _ Hm).
Qed.
#[local] Hint Resolve sound_newMachine : sbac.
Lemma sound_GetOrCreate id tx evidences init : sound (GetOrCreate (mkDetail id tx evidences) init : M nat).
Proof. unfold GetOrCreate, sch_Get. sounds. Qed.
#[local] Hint Resolve sound_GetOrCreate : sbac.

Lemma sound_RunGC_round : sound (RunGC_round : M ()).
Proof.
  intros w [H1 H2]. cbn. split; [split; cbn; [done|]|].
  - intros id i [Hi _]%map_lookup_filter_Some. eauto.
  - intros i m Hm. by exists m.
Qed.

Lemma quiet_pe_OnEvent e : quiet (pe_OnEvent e : M ()).
Proof. by apply quiet_modify. Qed.
#[local] Hint Resolve quiet_pe_OnEvent : sbac.
Lemma sound_checkEvent d : sound (checkEvent d : M ()).
Proof. unfold checkEvent. sounds. Qed.
#[local] Hint Resolve sound_checkEvent : sbac.
Lemma sound_deliverTx d : sound (deliverTx d : M ()).
Proof. unfold deliverTx. sounds. Qed.
#[local] Hint Resolve sound_deliverTx : sbac.
Lemma sound_handleDeliver blocks : sound (handleDeliver blocks : M ()).
Proof. unfold handleDeliver. sounds. Qed.

(** An event of the queue of the service goes to the machine of its own
    transaction. *)
Lemma sound_consumeEvents e : sound (consumeEvents e : M bool).
Proof.
  unfold consumeEvents. apply sound_bind; [sounds|]. intros w0. apply sound_bind; [sounds|]. intros [?|?]; [sounds|].
  intros w Hw. unfold sch_Get, sm_OnEvent, mbind, M_bind, get, deref, Sbac.run, or_crash. cbn.
  destruct (txstates w !! ev_TxID e) as [sm|] eqn:Hsm; [|by apply world_same].
  destruct (wf_txstates w Hw _ _ Hsm) as (m & Hm & Hid). rewrite Hm. cbn.
  apply (world_wf_insert sm m); [done| |done|done]. destruct (wf_machines w Hw _ _ Hm) as [Hst Hes].
  split; [done|]. cbn. intros e'. rewrite elem_of_app, list_elem_of_singleton. intros [Hin| ->]; auto.
Qed.
#[local] Hint Resolve sound_consumeEvents : sbac.
Lemma sound_pe_step : sound (pe_step : M bool).
Proof. unfold pe_step. sounds. Qed.

Lemma quiet_reports sms : quiet (reports sms : M _).
Proof. induction sms; simpl; unfold sm_StateReport, decisionsOf; quieten. Qed.
Lemma quiet_verifyEvidenceSignature b evidences : quiet (verifyEvidenceSignature Verify s b evidences : M _).
Proof. unfold verifyEvidenceSignature. quieten. Qed.
Lemma quiet_store_create object : quiet (store_create sha512_256 object : M _).
Proof. unfold store_create. quieten. Qed.
#[local] Hint Resolve quiet_reports quiet_verifyEvidenceSignature quiet_store_create : sbac.
Lemma quiet_createAll objects out : quiet (createAll sha512_256 objects out : M _).
Proof. revert out. induction objects; intros out; simpl; quieten. Qed.
#[local] Hint Resolve quiet_createAll : sbac.

Lemma sound_sb_AddTransaction tx evidences : sound (sb_AddTransaction sha512_256 Verify s tx evidences : M _).
Proof. unfold sb_AddTransaction, Add. sounds. Qed.
#[local] Hint Resolve sound_sb_AddTransaction : sbac.
Lemma sound_Handle peerID m : sound (Handle sha512_256 Verify s peerID m : M _).
Proof.
  unfold Handle, handleAddTransaction, handleQueryObject, handleCreateObject, handleStates, handleSBAC,
    handleCreateObjects, queryPayload, createPayload, createObjectsPayload, StatesReport. sounds.
Qed.

(** ** Runs of the service *)

(** What the goroutines of a node do to the service: a round is delivered, a
    request of a peer or a client of the node is handled, the queue of the
    service or of a machine takes one event, finished machines are collected.
    [fuel] bounds the transitions of one event. *)
Inductive sbac_op :=
  | OpDeliver (blocks : list SignedData)
  | OpRequest (peerID : uint64) (m : Message)
  | OpAddTransaction (tx : option Transaction) (evidences : gmap uint64 bytes)
  | OpQueue
  | OpMachine (fuel : nat) (sm : nat)
  | OpGC.

Definition do_op (op : sbac_op) : M () :=
  match op with
  | OpDeliver blocks => handleDeliver blocks
  | OpRequest peerID m => _ ← Handle sha512_256 Verify s peerID m; mret tt
  | OpAddTransaction tx evidences => _ ← sb_AddTransaction sha512_256 Verify s tx evidences; mret tt
  | OpQueue => _ ← pe_step; mret tt
  | OpMachine fuel sm => _ ← machine_step sha512_256 Verify Sign s fuel sm; mret tt
  | OpGC => RunGC_round
  end.

(** An error ends the operation, a panic the process. *)
Fixpoint run_ops (ops : list sbac_op) (w : World T) : option (World T) :=
  match ops with
  | [] => Some w
  | op :: ops => match do_op op w with Done _ w' | Errored _ w' => run_ops ops w' | _ => None end
  end.

Lemma sound_do_op op : sound (do_op op).
Proof.
  destruct op; cbn [do_op]; try (apply sound_bind; [|intros ?; apply sound_quiet, quiet_ret]).
  - apply sound_handleDeliver.
  - apply sound_Handle.
  - apply sound_sb_AddTransaction.
  - apply sound_pe_step.
  - apply sound_machine_step.
  - apply sound_RunGC_round.
Qed.

Lemma run_ops_sound ops w w' : world_wf w -> run_ops ops w = Some w' -> world_wf w' /\ grows w w'.
Proof.
  revert w. induction ops as [|op ops IH]; cbn; intros w Hw Hr; [simplify_eq; by apply world_same|].
  pose proof (sound_do_op op w Hw) as Hs. destruct (do_op op w) as [? w1|? w1| |]; [| |done|done].
  all: destruct Hs as [Hw1 Hg1]; destruct (IH w1 Hw1 Hr) as [Hw2 Hg2]; split; [done|by etrans].
Qed.

Lemma empty_wf (w : World T) : machines w = [] -> txstates w = ∅ -> world_wf w.
Proof. intros E1 E2. split; rewrite E1, ?E2; done. Qed.

Lemma states_report_returns m (w : World T) : machine_wf m ->
  exists r, sm_StateReport m w = Done r w /\ sr_HashID r = ID (dt_ID (detail (states m))).
Proof.
  intros [Hst _]. unfold sm_StateReport, decisionsOf, deref, Sbac.run, or_crash, mbind, M_bind.
  destruct (proj2 (wf_bops _ Hst SBACOp_Commit)) as [c1 ->]; [by right; right|].
  destruct (proj2 (wf_bops _ Hst SBACOp_Phase1)) as [c2 ->]; [by left|].
  destruct (proj2 (wf_bops _ Hst SBACOp_Phase2)) as [c3 ->]; [by right; left|].
  eexists. split; [done|]. apply (wf_hash _ Hst).
Qed.

Lemma reports_return kvs (w : World T) : world_wf w ->
  (forall id i, (id, i) ∈ kvs -> txstates w !! id = Some i) ->
  exists rs, reports kvs.*2 w = Done rs w /\ sr_HashID <$> rs = (fun kv => ID kv.1) <$> kvs.
Proof.
  intros Hw. induction kvs as [|[id i] kvs IH]; intros Hin; [by exists []|]. cbn.
  destruct (wf_txstates w Hw id i) as (m & Hm & <-); [apply Hin; left|].
  destruct (states_report_returns m w (wf_machines w Hw i m Hm)) as (r & Hr & Hh).
  destruct IH as (rs & Hrs & Hhs); [intros ???; apply Hin; by right|]. exists (r :: rs).
  unfold mbind, M_bind, get, deref, Sbac.run, or_crash. rewrite Hm, Hr, Hrs. split; [done|]. cbn. by rewrite Hh, Hhs.
Qed.

(** C11. From its start, whatever is delivered, requested or collected and in
    whatever order the queues are served, the service stays well formed: each
    known transaction has a live machine of its own, with the three consensus
    phases and the three rounds of votes, the decisions being those of the
    messages received for this transaction, phase and peer, and only its own
    events queued.  The machine at an address keeps its transaction, the votes
    that are settled and the final state, once it is in one.  So the states can
    always be reported, one report for each transaction. *)
Theorem service_stays_well_formed ops1 ops2 w w1 w2 :
  machines w = [] -> txstates w = ∅ -> run_ops ops1 w = Some w1 -> run_ops ops2 w1 = Some w2 ->
  world_wf w2 /\ grows w1 w2 /\
  exists rs, StatesReport w2 = Done rs w2 /\
    sr_HashID <$> rs = (fun kv => ID kv.1) <$> map_to_list (txstates w2).
Proof.
  intros H1 H2 Hr1 Hr2. destruct (run_ops_sound _ _ _ (empty_wf w H1 H2) Hr1) as [Hw1 _].
  destruct (run_ops_sound _ _ _ Hw1 Hr2) as [Hw2 Hg]. split_and!; [done..|].
  apply reports_return; [done|]. intros id i. apply elem_of_map_to_list.
Qed.
End service.

(** ** A run *)

Section run.
(** The blocks of the run have one transaction of three bytes. *)
Definition ex_ct : ConsensusTransaction :=
  MkConsensusTransaction (ids_TxID (MakeIDs ex_sha (ex_tx [obj1]))) (Some (ex_tx [obj1])) {[1 := [5]]} ConsensusOp_Consensus1 1.
#[local] Instance ex_pc : Proto ConsensusTransaction := {| Marshal := fun _ => Ret [1]; Unmarshal := fun _ => Ret ex_ct |}.
#[local] Instance ex_pb : Proto Block := {| Marshal := fun _ => Ret [1];
  Unmarshal := fun _ => Ret (MkBlock 1 None [] 1 (Some (MkTransactions 1 [0;0;0;0;0;0;0;0; 3;0;0;0; 7;8;9]))) |}.

Definition ex_ops1 : list sbac_op :=
  [OpAddTransaction (Some (ex_tx [obj1])) {[1 := [5]]}; OpDeliver [MkSignedData [] []]; OpQueue; OpMachine 12 0].
Definition ex_ops2 : list sbac_op := [OpRequest 2 (MkMessage 1 Opcode_STATES []); OpDeliver [MkSignedData [] []]; OpQueue; OpMachine 12 0; OpGC].

(** A transaction runs to its end; its machine is collected, and a later
    delivery of the transaction changes nothing. *)
Lemma service_stays_well_formed_witness : exists w1 w2,
  run_ops ex_sha ex_verify ex_sign ex_cfg ex_ops1 (ex_world ACTIVE) = Some w1 /\
  run_ops ex_sha ex_verify ex_sign ex_cfg ex_ops2 w1 = Some w2 /\
  state <$> machines w1 = [StateSucceeded] /\ size (txstates w1) = 1%nat /\ size (txstates w2) = 0%nat /\
  grows w1 w2.
Proof.
  assert (match run_ops ex_sha ex_verify ex_sign ex_cfg ex_ops1 (ex_world ACTIVE) with
    | Some w1 => match run_ops ex_sha ex_verify ex_sign ex_cfg ex_ops2 w1 with
        | Some w2 => bool_decide (state <$> machines w1 = [StateSucceeded] /\
            size (txstates w1) = 1%nat /\ size (txstates w2) = 0%nat)
        | None => false end
    | None => false end = true) as E by (vm_compute; reflexivity).
  destruct (run_ops ex_sha ex_verify ex_sign ex_cfg ex_ops1 (ex_world ACTIVE)) as [w1|] eqn:E1; [|discriminate E].
  destruct (run_ops ex_sha ex_verify ex_sign ex_cfg ex_ops2 w1) as [w2|] eqn:E2; [|discriminate E].
  apply bool_decide_eq_true_1 in E as (H1 & H2 & H3).
  exists w1, w2. destruct (service_stays_well_formed ex_sha ex_verify ex_sign ex_cfg ex_ops1 ex_ops2 (ex_world ACTIVE) w1 w2
    eq_refl eq_refl E1 E2) as (_ & Hg & _). by split_and!.
Defined.
End run.
