(* ===== verification/Rest.v ===== *)
(** * Rest: the HTTP interface of a node

    Model of the controllers in [src/kv/api], [src/sbac/api], [src/checker/api]
    and [src/pubsub/api], of the service in [src/checker/api], and of
    [src/rest].  Decoding a request from JSON gives a value or an error; a
    response is its status and the value that is encoded.  The router and the
    server are not code of the program: the model has the routes that are
    registered and the function behind each.  The labels of a finished transaction
    are followed from the state machine through the label store to a response. *)
From S2P Require Import Prelude Codec Database Topology SbacStore SbacTypes Sbac SbacProps SbacService Base64 Checker.
From S2P Require Import SbacSafety SbacExample CheckerProps Kv SbacApi SbacApiProps.

(** ** Responses *)

Record CheckTransactionResponse := MkCheckTransactionResponse {
  ctr_NodeID : uint64; ctr_OK : bool; ctr_Signature : bytes }.

(** The values of the responses, [Error] among them. *)
Inductive body :=
  | Error (e : string)
  | LabelledObject (o : LabelObject)
  | ListObjectsResponse (pairs : list LabelObject)
  | VersionIDResponse (versionID : bytes)
  | ListVersionIDsResponse (pairs : list LabelVersionID)
  | ObjectIDResponse (id : bytes)
  | ObjectResponse (objects : list (Api.Object bytes))
  | StatesResponse (r : StatesReportResponse)
  | CheckResponseBody (r : CheckTransactionResponse)
  | NoContent.
Definition StatusNoContent : Z := 204.

(** The end of the controllers: an error with its status, or the value. *)
Definition respond {A} (r : Z * go A) (value : A -> body) : go (Z * body) :=
  match r.2 with
  | Ret x => Ret (StatusOK, value x)
  | Fail e => Ret (r.1, Error e)
  | Crash => Crash
  end.

(** [c.BindJSON]. *)
Definition bind_json {A} (req : go A) (k : A -> go (Z * body)) : go (Z * body) :=
  match req with Ret x => k x | Fail e => Ret (StatusBadRequest, Error e) | Crash => Crash end.

(** ** [kv/api/controller.go] *)

Section kv.
Context (F : Faults) (db : contents) (QueryObjectByVersionID : bytes -> go bytes).

Definition ctl_GetByLabel (label : bytes) : go (Z * body) :=
  respond (GetByLabel F db QueryObjectByVersionID label) LabelledObject.
Definition ctl_GetByPrefix (prefix : bytes) : go (Z * body) :=
  respond (GetByPrefix F db QueryObjectByVersionID prefix) ListObjectsResponse.
Definition ctl_GetVersionIDByLabel (label : bytes) : go (Z * body) :=
  respond (GetVersionID F db label) VersionIDResponse.
Definition ctl_GetVersionIDByPrefix (prefix : bytes) : go (Z * body) :=
  respond (GetVersionIDByPrefix F db prefix) ListVersionIDsResponse.
End kv.

(** ** [sbac/api/controller.go] *)

(** [sort.Slice] by the hash. *)
Definition report_le (x y : StateReport) : Prop := sr_HashID x <= sr_HashID y.
#[export] Instance report_le_dec x y : Decision (report_le x y).
Proof. unfold report_le. apply _. Defined.

(** [service.States]. *)
Definition States (report : StatesReportResponse) : Z * go StatesReportResponse :=
  (StatusOK, Ret (MkStatesReportResponse (merge_sort report_le (srr_States report)) (EventsInQueue report))).
Definition ctl_States (report : StatesReportResponse) : go (Z * body) := respond (States report) StatesResponse.

Definition ctl_CreateObject (req : go bytes) (Create : bytes -> go (list bytes)) : go (Z * body) :=
  bind_json req (fun object =>
    '(id, status, failed) ← CreateObject (Ret object) Create;
    if failed : bool then Ret (status, Error EmptyString) else Ret (StatusOK, ObjectIDResponse id)).

Section sbac.
Context `{NT : NetTopology Topo} (top : Topo) (shardID : uint64) (RandNodeInShard : uint64 -> uint64).
Context (ask : Transaction -> go (gmap uint64 bytes)).
Context (AddTransaction : Transaction -> gmap uint64 bytes -> go (list SbacStore.Object)).
Context (clt_AddTransaction : list uint64 -> Transaction -> gmap uint64 bytes -> go (list SbacStore.Object)).

Definition ctl_AddTransaction (req : go Api.Transaction) : go (Z * body) :=
  bind_json req (fun tx =>
    respond (SbacApi.Add top shardID RandNodeInShard ask AddTransaction clt_AddTransaction tx) ObjectResponse).
Definition ctl_AddCheckedTransaction (req : go Api.Transaction) : go (Z * body) :=
  bind_json req (fun tx =>
    respond (AddChecked top shardID RandNodeInShard AddTransaction clt_AddTransaction tx) ObjectResponse).
End sbac.

(** ** [checker/api] *)

Section checker.
Context {PT : Proto Transaction} (checkers : checkersMap) (Sign : bytes -> bytes) (nodeID : uint64).

(** [service.Check]. *)
Definition api_Check (tx : Api.Transaction) : Z * go CheckTransactionResponse :=
  if decide (Api.Traces tx = []) then (StatusBadRequest, Fail "Transaction should have at least one trace") else
  status_of (ToSBAC Validate tx) StatusBadRequest (fun sbactx =>
  status_of (CheckAndSign checkers Sign sbactx) StatusInternalServerError (fun '(ok, signature) =>
  (StatusOK, Ret (MkCheckTransactionResponse nodeID ok (EncodeToString signature))))).

Definition ctl_Check (req : go Api.Transaction) : go (Z * body) :=
  bind_json req (fun tx => respond (api_Check tx) CheckResponseBody).
End checker.

(** ** [pubsub/api/controller.go] *)

(** [upgraded] is the outcome of the upgrade and [served] of the service, which
    returns when the connection ends. *)
Definition ctl_websocket (upgraded : go ()) (served : Z * go ()) : go (Z * body) :=
  match upgraded with
  | Fail e => Ret (StatusInternalServerError, Error e)
  | Crash => Crash
  | Ret _ =>
      match served.2 with
      | Fail e => Ret (served.1, Error e)
      | Crash => Crash
      | Ret _ => Ret (StatusNoContent, NoContent)
      end
  end.

(** ** [rest]: which controllers a node has *)

Inductive method := GET | POST.
#[export] Instance method_eq_dec : EqDecision method.
Proof. solve_decision. Defined.
Inductive handler :=
  | hGetByLabel | hGetVersionIDByLabel | hGetByPrefix | hGetVersionIDByPrefix
  | hCreateObject | hAddTransaction | hAddCheckedTransaction | hStates
  | hWebsocket | hCheck | hSwagger.
#[export] Instance handler_eq_dec : EqDecision handler.
Proof. solve_decision. Defined.
Inductive controller := kvController | sbacController | pubsubController | checkerController.

Definition RegisterRoutes (c : controller) : list (method * bytes * handler) :=
  match c with
  | kvController =>
      [(GET, str "/api/kv/label/:label", hGetByLabel);
       (GET, str "/api/kv/label/:label/version-id", hGetVersionIDByLabel);
       (GET, str "/api/kv/prefix/:prefix", hGetByPrefix);
       (GET, str "/api/kv/prefix/:prefix/version-id", hGetVersionIDByPrefix)]
  | sbacController =>
      [(POST, str "/api/sbac/object", hCreateObject);
       (POST, str "/api/sbac/transaction", hAddTransaction);
       (POST, str "/api/sbac/transaction-checked", hAddCheckedTransaction);
       (GET, str "/api/sbac/states", hStates)]
  | pubsubController => [(GET, str "/api/pubsub/ws", hWebsocket)]
  | checkerController => [(POST, str "/api/checker/check", hCheck)]
  end.

Definition makeRouter (controllers : list controller) : list (method * bytes * handler) :=
  (GET, str "/swagger/*any", hSwagger) :: (controllers ≫= RegisterRoutes).

(** What [New] passes on of the configuration: the shard that the sbac controller
    takes for its own is always zero. *)
Record RestConfig := MkRestConfig { rs_CheckerOnly : bool; rs_SBACOnly : bool; rs_PS : bool; rs_Port : goint }.
Record RestService := MkRestService { rt_controllers : list controller; rt_shardID : uint64; rt_port : goint }.

Definition rest_New (cfg : RestConfig) : RestService :=
  let controllers :=
    (if rs_CheckerOnly cfg then []
     else [kvController; sbacController] ++ (if rs_PS cfg then [pubsubController] else [])) ++
    (if rs_SBACOnly cfg then [] else [checkerController]) in
  MkRestService controllers 0 (rs_Port cfg).

Definition rest_router (cfg : RestConfig) : list (method * bytes * handler) := makeRouter (rt_controllers (rest_New cfg)).

(** ** Theory *)

(** No route is registered twice, which would end the process, and a node serves
    the interfaces that its role asks for. *)
Lemma rest_routes cfg : NoDup (rest_router cfg).*1 /\
  (hAddTransaction ∈ (rest_router cfg).*2 <-> rs_CheckerOnly cfg = false) /\
  (hCheck ∈ (rest_router cfg).*2 <-> rs_SBACOnly cfg = false) /\
  (hWebsocket ∈ (rest_router cfg).*2 <-> rs_CheckerOnly cfg = false /\ rs_PS cfg = true).
Proof. destruct cfg as [[] [] [] port]; apply (bool_decide_unpack _); by vm_compute. Qed.

(** The states are reported in the order of their hashes, none lost. *)
Lemma states_sorted report : exists states,
  ctl_States report = Ret (StatusOK, StatesResponse (MkStatesReportResponse states (EventsInQueue report))) /\
  states ≡ₚ srr_States report /\ StronglySorted report_le states.
Proof.
  eexists. split; [done|]. split; [apply merge_sort_Permutation|].
  apply StronglySorted_merge_sort.
  - intros x y z. unfold report_le. lia.
  - intros x y. unfold report_le. lia.
Qed.

(** A client that posts an object gets status 200 with an empty identifier when
    the nodes of the shard disagree on it. *)
Lemma disagreement_is_reported_as_success object (Create : bytes -> go (list bytes)) id0 id1 ids :
  Create object = Ret (id0 :: id1 :: ids) -> id0 <> id1 ->
  ctl_CreateObject (Ret object) Create = Ret (StatusOK, ObjectIDResponse []).
Proof.
  intros Hc Hne. unfold ctl_CreateObject, CreateObject. cbn [bind_json]. rewrite Hc. cbn [forallb].
  rewrite (bool_decide_true (id0 = id0)) by done. rewrite (bool_decide_false (id1 = id0)) by done. done.
Qed.

(** ** The own shard *)

Lemma route_other (RandNodeInShard : uint64 -> uint64) shardID ids self peers : shardID ∉ ids ->
  foldl (fun '(self, peerids) shrd =>
           if decide (shrd = shardID) then (true, peerids) else (self, peerids ++ [RandNodeInShard shrd]))
        (self, peers) ids = (self, peers ++ (RandNodeInShard <$> ids)).
Proof.
  revert peers. induction ids as [|i ids IH]; intros peers Hn; cbn; [by rewrite app_nil_r|].
  rewrite decide_False by set_solver. rewrite IH by set_solver. by rewrite <-app_assoc.
Qed.

Section own.
Context `{NT : NetTopology Topo, !NetTopologyOk Topo valid shards} (top : Topo) (Hvalid : valid top).
Context (RandNodeInShard : uint64 -> uint64).

(** Shards are counted from one, but the controller is made with shard zero: the
    transactions of a client are sent to a random node of every shard of their
    inputs, and never added to the service of the node itself. *)
Theorem rest_uses_only_clients cfg AddTransaction clt_AddTransaction tx evidences :
  exists ids, shardsForTx top tx = Ret ids /\ NoDup ids /\
    (forall s, s ∈ ids <-> shard_in top (all_traces tx ≫= versions) s) /\
    sendTransaction top (rt_shardID (rest_New cfg)) RandNodeInShard AddTransaction clt_AddTransaction tx evidences =
      (if decide (ids = []) then Ret [] else clt_AddTransaction (RandNodeInShard <$> ids) tx evidences).
Proof using Type*.
  destruct (shardsForTx_ok top Hvalid tx) as (ids & Hids & Hnd & Hin). exists ids. split_and!; [done..|].
  assert (0 ∉ ids) as H0.
  { intros (v & _ & Hs)%Hin. destruct (key_shard top v Hvalid) as (s & Hs' & Hr). rewrite Hs in Hs'. injection Hs' as <-. lia. }
  unfold sendTransaction, route. rewrite Hids. cbn [mbind go_bind rt_shardID rest_New].
  rewrite route_other by done. cbn [app]. rewrite length_fmap. by destruct ids.
Qed.
End own.

(** ** The checker interface *)

Lemma ToSBAC_valid tx :
  match ToSBAC Validate tx with
  | Ret _ => Forall (valid_trace (Api.Mappings tx)) (api_traces tx)
  | Fail _ => ~ Forall (valid_trace (Api.Mappings tx)) (api_traces tx)
  | Crash => False
  end.
Proof. unfold ToSBAC. by destruct (validate_spec tx) as [[Hv ->]|[Hv [e ->]]]. Qed.

Lemma TypeCheck_no_crash stx : TypeCheck stx <> Crash.
Proof.
  unfold TypeCheck. rewrite typeCheck_eq.
  assert (seen ∅ [] []) as Hs by (split; intros v; rewrite lookup_empty; set_solver).
  pose proof (typeCheck_flat_outcome (concat (map flatten (Traces stx))) ∅ [] [] Hs) as Ht.
  destruct (typeCheck_flat _ ∅); [done|done|]. intros _. apply Ht. split; [constructor|set_solver].
Qed.

Lemma Check_no_crash checkers stx : Check checkers stx <> Crash.
Proof.
  pose proof (TypeCheck_no_crash stx) as Ht. unfold TypeCheck in Ht. unfold Check, Checker.run.
  destruct (typeCheck ∅ (Traces stx)); [|done|done]. cbn [mbind go_bind].
  pose proof (aggregate_paired checkers (Traces stx)) as Ha. by destruct (aggregate _ _).
Qed.

Section check.
Context {PT : Proto Transaction} (checkers : checkersMap) (Sign : bytes -> bytes) (nodeID : uint64).

(** The request names at least one trace, and all versions have mappings. *)
Definition well_posed (tx : Api.Transaction) : Prop :=
  Api.Traces tx <> [] /\ Forall (valid_trace (Api.Mappings tx)) (api_traces tx).

(** C36. A posted transaction is answered with status 200 exactly when it names a
    trace, its versions have mappings, its translation is type correct, all its
    traces have checkers and it can be encoded; the answer then has the verdict of
    the checkers and, in base 64, the signature of the encoded transaction, for
    accepted and for refused ones.  A request that is not well posed is answered
    with 400, and all others with 500. *)
Theorem check_request_spec tx :
  (forall stx, Marshal (A := Transaction) stx <> Crash) ->
  exists status b, ctl_Check checkers Sign nodeID (Ret tx) = Ret (status, b) /\
    (status = StatusBadRequest <-> ~ well_posed tx) /\
    (status = StatusOK <-> well_posed tx /\ exists stx ok txbytes,
       ToSBAC Validate tx = Ret stx /\ Check checkers stx = Ret ok /\ Marshal stx = Ret txbytes /\
       b = CheckResponseBody (MkCheckTransactionResponse nodeID ok (EncodeToString (Sign txbytes)))) /\
    (status <> StatusBadRequest -> status <> StatusOK -> status = StatusInternalServerError).
Proof using Type.
  intros Hm. unfold ctl_Check. cbn [bind_json]. unfold api_Check.
  assert (StatusBadRequest <> StatusOK /\ StatusInternalServerError <> StatusOK /\ StatusInternalServerError <> StatusBadRequest)
    as (N1 & N2 & N3) by done.
  destruct (decide (Api.Traces tx = [])) as [He|He].
  { eexists _, _. split; [done|]. cbn [fst]. split_and!; [|split; [done|by intros [[? _] _]]|done].
    split; [by intros _ [? _]|done]. }
  pose proof (ToSBAC_valid tx) as Hv. destruct (ToSBAC Validate tx) as [stx|e|] eqn:Et; [| |done]; cbn [status_of].
  2: { eexists _, _. split; [done|]. cbn [fst]. split_and!; [|split; [done|by intros [[_ ?] _]]|done].
       split; [by intros _ [_ ?]|done]. }
  assert (well_posed tx) as Hw by done. unfold CheckAndSign.
  destruct (Check checkers stx) as [ok|e|] eqn:Ec; cbn [mbind go_bind status_of].
  2: { eexists _, _. split; [done|]. cbn [fst]. split_and!; [by split; [|intros []]|split; [done|]|done].
       intros (_ & ? & ok & tb & [= <-] & ? & _). congruence. }
  2: { by apply Check_no_crash in Ec. }
  destruct (Marshal stx) as [tb|e|] eqn:Em; cbn [mbind go_bind status_of].
  - eexists _, _. split; [done|]. cbn [fst]. split_and!; [by split; [|intros []]| |done].
    split; [|done]. intros _. split; [done|]. by exists stx, ok, tb.
  - eexists _, _. split; [done|]. cbn [fst]. split_and!; [by split; [|intros []]|split; [done|]|done].
    intros (_ & ? & ok' & tb & [= <-] & _ & ? & _). congruence.
  - by apply Hm in Em.
Qed.
End check.

(** ** Labels: from a finished transaction to the interface *)

(** The writes of the labels of some objects, in the order of the code. *)
Definition label_writes (objs : list SbacStore.Object) : list (bytes * bytes) :=
  objs ≫= fun o => (fun label => (label, VersionID o)) <$> Labels o.

(** The last of the objects that carries a label. *)
Definition last_labelled (label : bytes) (objs : list SbacStore.Object) : option SbacStore.Object :=
  last (filter (fun o => label ∈ Labels o) objs).

(** The database of the labels after writes whose errors are ignored. *)
Definition after_writes (ws : list (bytes * bytes)) (db : contents) : contents :=
  (label_history ((fun kv => (noFaults, kv.1, kv.2)) <$> ws) db).1.

Lemma after_writes_cons k v ws db :
  after_writes ((k, v) :: ws) db = after_writes ws (if decide (k = []) then db else <[k := v]> db).
Proof.
  unfold after_writes. cbn [fmap list_fmap fst snd label_history]. destruct k as [|c k]; [by cbn|].
  rewrite decide_False by done.
  change (kv_Set noFaults (c :: k) v db) with (Ret (A := contents) (<[c :: k := v]> db)). cbv iota beta.
  by destruct (label_history _ (<[c :: k := v]> db)).
Qed.

Lemma after_writes_lookup ws db label : label <> [] ->
  after_writes ws db !! label =
    match last (filter (fun kv => kv.1 = label) ws) with Some kv => Some kv.2 | None => db !! label end.
Proof.
  intros Hl. revert db. induction ws as [|[k v] ws IH]; intros db; [done|].
  rewrite after_writes_cons, IH, filter_cons. cbn [fst]. destruct (decide (k = label)) as [->|Hne].
  - rewrite decide_False, last_cons by done. destruct (last _); [done|]. apply lookup_insert_eq.
  - destruct (last _); [done|]. case_decide; [done|]. by apply lookup_insert_ne.
Qed.

Lemma last_writes_of_one (label v : bytes) (ls : list bytes) :
  last (filter (fun kv => kv.1 = label) ((fun l => (l, v)) <$> ls)) =
    if decide (label ∈ ls) then Some (label, v) else None.
Proof.
  induction ls as [|l ls IH]; [done|]. csimpl. rewrite filter_cons. cbn [fst].
  destruct (decide (l = label)) as [->|Hne].
  - rewrite last_cons, IH. rewrite (decide_True (P := label ∈ label :: ls)) by left. by case_decide.
  - rewrite IH. do 2 case_decide; set_solver.
Qed.

Lemma last_label_write label objs :
  last (filter (fun kv => kv.1 = label) (label_writes objs)) =
    (fun o => (label, VersionID o)) <$> last_labelled label objs.
Proof.
  unfold label_writes, last_labelled. induction objs as [|o objs IH] using rev_ind; [done|].
  rewrite bind_app, !filter_app, !last_app, IH. cbn [mbind list_bind]. rewrite app_nil_r, last_writes_of_one.
  rewrite filter_cons, filter_nil. by case_decide.
Qed.

Section labels.
Context {T : Type} {ST : Store T} {Topo : Type} {NT : NetTopology Topo}.
Context (sha512_256 : bytes -> bytes) (s : Config Topo).

Lemma each_labels {A} (f : A -> M (World T) ()) (g : A -> list (bytes * bytes)) xs :
  (forall x w r w', f x w = Done r w' -> labels w' = labels w ++ g x) ->
  forall w r w', each f xs w = Done r w' -> labels w' = labels w ++ (xs ≫= g).
Proof using Type.
  intros Hf. induction xs as [|x xs IH]; intros w r w' H; cbn [each] in H.
  - apply ret_inv in H as [_ ->]. by rewrite app_nil_r.
  - apply bind_inv in H as (u & w1 & H1%Hf & H%IH). cbn. by rewrite H, H1, <-app_assoc.
Qed.

Lemma saveLabels_labels ids (w : World T) r w' : saveLabels s ids w = Done r w' ->
  labels w' = labels w ++ label_writes (filter (fun o => own s (VersionID o)) (TraceObjectPairs ids ≫= to_OutputObjects)).
Proof using Type.
  intros H. unfold saveLabels in H.
  apply (each_labels _ (fun p => label_writes (filter (fun o => own s (VersionID o)) (to_OutputObjects p)))) in H.
  - rewrite H. f_equal. clear H. induction (TraceObjectPairs ids) as [|p ps IH]; [done|].
    csimpl. unfold label_writes in *. by rewrite filter_app, bind_app, <-IH.
  - clear. intros p w r w' H.
    apply (each_labels _ (fun o => if own s (VersionID o) then (fun label => (label, VersionID o)) <$> Labels o else [])) in H.
    + rewrite H. f_equal. clear H. induction (to_OutputObjects p) as [|o os IH]; [done|]. csimpl. rewrite IH, filter_cons.
      unfold label_writes. destruct (own s (VersionID o)); by case_decide.
    + clear. intros o w r w' H. apply bind_inv in H as (b & w1 & [-> ->]%inShard_inv & H).
      destruct (own s (VersionID o)); [|apply ret_inv in H as [_ ->]; by rewrite app_nil_r].
      apply (each_labels _ (fun l => [(l, VersionID o)])) in H; [|by intros l w1 u w2 [= <- <-]].
      by rewrite H.
Qed.

Lemma publishObjects_labels ids b (w : World T) r w' : publishObjects s ids b w = Done r w' -> labels w' = labels w.
Proof using Type.
  intros H. apply (each_labels _ (fun _ => [])) in H.
  - rewrite H. clear H. induction (TraceObjectPairs ids) as [|p ps IH]; [apply app_nil_r|done].
  - clear. intros p w r w' H. apply (each_labels _ (fun _ => [])) in H.
    + rewrite H. f_equal. clear H. by induction (to_OutputObjects p).
    + clear. intros o w r w' H. apply bind_inv in H as (b' & w1 & [-> ->]%inShard_inv & H). rewrite app_nil_r.
      destruct (own s (VersionID o)); [by injection H as <- <-|by apply ret_inv in H as [_ ->]].
Qed.

Lemma toSucceeded_labels st tx (w : World T) next w' :
  dt_Tx (detail st) = Some tx -> toSucceeded sha512_256 s st w = Done next w' ->
  labels w' = labels w ++ label_writes (own_outputs sha512_256 s tx).
Proof using Type.
  intros Htx H. apply bind_inv in H as (u & w1 & H1 & H).
  assert (labels w1 = labels w) as <- by (by apply try_on_store_inv in H1 as [(t & _ & -> & _)|[-> _]]).
  apply bind_inv in H as (tx' & w2 & [Ht ->]%deref_inv & H). assert (tx' = tx) as -> by congruence.
  apply bind_inv in H as (? & w3 & H3%saveLabels_labels & H).
  apply bind_inv in H as (? & w4 & H4%publishObjects_labels & [_ ->]%ret_inv). by rewrite H4, H3.
Qed.

Definition version_of (o : SbacStore.Object) : go (Z * body) :=
  Ret (StatusOK, VersionIDResponse (EncodeToString (VersionID o))).
Definition object_of (query : bytes -> go bytes) (label : bytes) (o : SbacStore.Object) : go (Z * body) :=
  match query (VersionID o) with
  | Ret raw => Ret (StatusOK, LabelledObject (MkLabelObject label raw (EncodeToString (VersionID o))))
  | Fail e => Ret (StatusBadRequest, Error e)
  | Crash => Crash
  end.

(** C33. When a machine finishes a transaction with success and the label store
    works, the HTTP interface of the node answers a request for a label that is
    not empty with the version, and with the object of that version, of the last
    output of this shard that carries the label; a label that no such output
    carries is answered as before. *)
Theorem finished_labels_resolve st tx (w : World T) next w' :
  dt_Tx (detail st) = Some tx -> toSucceeded sha512_256 s st w = Done next w' ->
  next = StateSucceeded /\
  exists ws, labels w' = labels w ++ ws /\
    forall db query label, label <> [] ->
      ctl_GetVersionIDByLabel noFaults (after_writes ws db) label =
        from_option version_of (ctl_GetVersionIDByLabel noFaults db label)
          (last_labelled label (own_outputs sha512_256 s tx)) /\
      ctl_GetByLabel noFaults (after_writes ws db) query label =
        from_option (object_of query label) (ctl_GetByLabel noFaults db query label)
          (last_labelled label (own_outputs sha512_256 s tx)).
Proof using Type.
  intros Htx H. split; [by do 4 (apply bind_inv in H as (? & ? & _ & H)); apply ret_inv in H as [-> _]|].
  exists (label_writes (own_outputs sha512_256 s tx)). split; [by eapply toSucceeded_labels|].
  intros db query label Hl. unfold ctl_GetVersionIDByLabel, ctl_GetByLabel, GetVersionID, GetByLabel.
  rewrite !kv_Get_ok, after_writes_lookup, last_label_write by done.
  destruct (last_labelled _ _) as [o|]; [|done]. cbn. unfold object_of. by destruct (query (VersionID o)).
Qed.
End labels.

(** A transaction with two outputs that carry the same label, and a third one
    without it. *)
Definition label_hash (d : bytes) : bytes := 0 :: d.
Definition labelled_tx : Transaction :=
  MkTransaction [MkTrace [1] [2] [obj1] [] [MkOutputObject [[97]; []] [4]; MkOutputObject [[98]; [97]] [5]; MkOutputObject [] [6]]
                   [] [] [] [[3]] []].
Definition labelled_machine : StateMachine :=
  NewStateMachine (MkDetailTx [8] [1] (Some labelled_tx) ∅ 3) StateObjectsCreated.

Lemma finished_labels_resolve_witness :
  exists w' ws, toSucceeded label_hash ex_cfg (states labelled_machine) (ex_world INACTIVE) = Done StateSucceeded w' /\
    labels w' = ws /\
    ctl_GetVersionIDByLabel noFaults (after_writes ws ∅) [97] =
      version_of (MkObject (label_hash (label_hash [1; 2; 0; 7] ++ [5] ++ [1; 0; 0; 0])) [5] ACTIVE [[98]; [97]]).
Proof.
  assert (match toSucceeded label_hash ex_cfg (states labelled_machine) (ex_world INACTIVE) with
          Done StateSucceeded _ => true | _ => false end = true) as E by by vm_compute.
  destruct (toSucceeded label_hash ex_cfg (states labelled_machine) (ex_world INACTIVE)) as [next w'| | |] eqn:Ec; try done.
  destruct (finished_labels_resolve label_hash ex_cfg (states labelled_machine) labelled_tx _ _ _ eq_refl Ec)
    as [-> (ws & Hw & Hl)].
  exists w', ws. split_and!; [done|exact Hw|]. destruct (Hl ∅ (fun _ => Crash) [97] ltac:(done)) as [-> _].
  by vm_compute.
Defined.
