(* ===== verification/HttpTest.v ===== *)
(** * HttpTest: the load test over HTTP

    Model of [src/cmd/httptest2]: workers that post transactions to the HTTP
    interface of the nodes and wait until the objects are published
    ([worker.go], [subscriber.go], [testrunner.go], [main.go]).  The workers, the
    subscriber and the loop of the test are goroutines: the test is a state with
    atomic actions, and the two mutexes and the unbuffered channel decide which
    actions can be taken.  Random strings and the JSON of an output are
    parameters; the addresses of the machines that the compute service lists are an
    input. *)
From S2P Require Import Prelude Codec Database SbacStore SbacTypes Base64 Checker CheckerProps SbacApi SbacApiProps Rest.

(** ** Addresses: [main.go] *)

(** [getAddresses]. *)
Definition getAddresses (address : bytes) (port nodeCount shardCount : goint) : list bytes :=
  (fun i => address ++ str ":" ++ fmt_d (port + i)) <$> seqZ 1 (nodeCount * shardCount).

(** [getCheckerAddresses], which is not used. *)
Definition getCheckerAddresses (address : bytes) (port nodeCount shardCount : goint) : list bytes :=
  (fun i => address ++ str ":" ++ fmt_d (port + i)) <$> seqZ 1 (nodeCount * shardCount).

(** [getAddressesFromGCP], [getCheckerAddressesFromGCP]: the first address of each
    machine in the pages of the listing; a machine without one panics.  The
    addresses of the publishers have the index in the page as the node. *)
Fixpoint gcp_addresses (port : goint) (machines : list (option bytes)) : go (list bytes) :=
  match machines with
  | [] => Ret []
  | ip :: machines => ip ← or_crash ip; l ← gcp_addresses port machines; Ret ((ip ++ str ":" ++ fmt_d port) :: l)
  end.
Definition gcp_pubsub_page (subPort : goint) (page : list (option bytes)) (m : gmap uint64 bytes) : gmap uint64 bytes :=
  foldl (fun m x => match x.2 with Some ip => <[Z.of_nat x.1 := ip ++ str ":" ++ fmt_d subPort]> m | None => m end) m
    (zip (seq 0 (length page)) page).
Definition getAddressesFromGCP (port subPort : goint) (pages : list (list (option bytes)))
    : go (list bytes * gmap uint64 bytes) :=
  addresses ← gcp_addresses port (concat pages);
  Ret (addresses, foldl (fun m page => gcp_pubsub_page subPort page m) ∅ pages).

(** The addresses of the nodes and of the checkers that [main] sets, or the end
    of the process; [gcp] and [gcpCheckers] are what the compute service lists. *)
Definition test_addresses (address : bytes) (port nodeCount shardCount : goint) (standaloneCheckers : bool)
    (gcp gcpCheckers : list bytes) : go (list bytes * list bytes) :=
  if bool_decide (address = []) && bool_decide (port <= 0) then Fail "missing address or port parameter"
  else if bool_decide (0 < port) && bool_decide (address <> []) then
    let addresses := getAddresses address port nodeCount shardCount in Ret (addresses, addresses)
  else if bool_decide (0 < port) then Ret (gcp, if standaloneCheckers then gcpCheckers else gcp)
  else Ret ([], []).

(** [getAddress], [getCheckerAddress]: a remainder by zero panics. *)
Definition getAddress (addresses : list bytes) (workerID : nat) : go bytes :=
  if decide (length addresses = 0%nat) then Crash else or_crash (addresses !! (workerID mod length addresses)%nat).

Definition makeLabels (objects : nat) (workerID : nat) : list (list bytes) :=
  (fun i => [str "label:" ++ fmt_d (Z.of_nat workerID) ++ str ":" ++ fmt_d (Z.of_nat i)]) <$> seq 0 objects.

(** [seedObjects]: the identifiers of the responses. *)
Fixpoint seedObjects (responses : list (go bytes)) : go (list bytes) :=
  match responses with
  | [] => Ret []
  | Ret id :: responses =>
      if decide (id = []) then Fail "invalid json response: missing field id"
      else out ← seedObjects responses; Ret (id :: out)
  | Fail e :: _ => Fail e
  | Crash :: _ => Crash
  end.

(** [orderResults]. *)
Definition count_le (x y : nat * nat) : Prop := (x.1 <= y.1)%nat.
#[export] Instance count_le_dec x y : Decision (count_le x y).
Proof. unfold count_le. apply _. Defined.
Definition orderResults (metrics : gmap nat (list Z)) : list (nat * nat) :=
  merge_sort count_le (map_to_list (length <$> metrics)).

(** The numbers that [main] prints: all transactions, the average duration of
    one, and the transactions per second; a division by zero panics. *)
Definition summary (metrics : gmap nat (list Z)) (duration : goint) : go (Z * Z * Z) :=
  let totaltx := foldr (fun x n => Z.of_nat x.2 + n) 0 (orderResults metrics) in
  let durations := concat (map_to_list metrics).*2 in
  let total := foldl (fun t v => u64 (t + u64 v)) 0 durations in
  if decide (length durations = 0%nat) then Crash
  else if decide (duration = 0) then Crash
  else Ret (totaltx, total `div` u64 (Z.of_nat (length durations)), Z.quot totaltx duration).

(** ** Workers: [worker.go] *)

Record worker := MkWorker {
  wk_seed : list bytes; wk_labels : list (list bytes); wk_id : nat; wk_url : bytes;
  wk_pending : gset bytes; wk_ready : bool; wk_objsdata : list bytes }.

(** The path of the URL; the host is the address. *)
Definition worker_path (standaloneCheckers : bool) : bytes :=
  if standaloneCheckers then str "/api/sbac/transaction/checked" else str "/api/sbac/transaction".

Definition NewWorker (addresses : list bytes) (standaloneCheckers : bool) (seed : list bytes) (labels : list (list bytes))
    (id : nat) : go worker :=
  addr ← getAddress addresses id;
  Ret (MkWorker seed labels id (str "http://" ++ addr ++ worker_path standaloneCheckers) ∅ true ((fun _ => []) <$> seed)).

Definition set_seed x w := MkWorker x (wk_labels w) (wk_id w) (wk_url w) (wk_pending w) (wk_ready w) (wk_objsdata w).
Definition set_pending x w := MkWorker (wk_seed w) (wk_labels w) (wk_id w) (wk_url w) x (wk_ready w) (wk_objsdata w).
Definition setReady x w := MkWorker (wk_seed w) (wk_labels w) (wk_id w) (wk_url w) (wk_pending w) x (wk_objsdata w).
Definition set_objsdata x w := MkWorker (wk_seed w) (wk_labels w) (wk_id w) (wk_url w) (wk_pending w) (wk_ready w) x.

(** [callChecker] on the status and the decoded body of a response; whether the
    checkers have accepted is not looked at. *)
Definition callChecker (response : go (Z * go CheckTransactionResponse)) : go (uint64 * bytes) :=
  '(status, body) ← response;
  if decide (status <> StatusOK) then Fail "error"
  else res ← body; Ret (ctr_NodeID res, ctr_Signature res).

(** The goroutine of one checker: it calls until it succeeds or, when the list
    ends, until the context does. *)
Fixpoint checker_loop (responses : list (go (Z * go CheckTransactionResponse))) : option (uint64 * bytes) :=
  match responses with
  | [] => None
  | r :: responses => match callChecker r with Ret x => Some x | _ => checker_loop responses end
  end.

(** [checkTransaction]: the goroutines write in the order in which they end. *)
Definition checkTransaction (answers : list (option (uint64 * bytes))) : gmap uint64 bytes :=
  foldl (fun m x => match x with Some (id, sig) => <[id := sig]> m | None => m end) ∅ answers.

Section payload.
Context (objects : nat) (random : nat -> bytes) (json_output : list bytes -> bytes -> bytes).

Fixpoint makeOutputs (idx : list nat) (labels : list (list bytes)) : go (list OutputObject) :=
  match idx with
  | [] => Ret []
  | i :: idx =>
      l ← or_crash (labels !! i);
      outs ← makeOutputs idx labels;
      Ret (MkOutputObject l (json_output l (random i)) :: outs)
  end.

Fixpoint makeMappings (i : nat) (objsdata seed : list bytes) (m : gmap (list Z) bytes) : go (gmap (list Z) bytes) :=
  match objsdata with
  | [] => Ret m
  | d :: objsdata => v ← or_crash (seed !! i); makeMappings (S i) objsdata seed (<[v := d]> m)
  end.

(** [makeTransactionPayload] with the signatures of the checkers. *)
Definition makeTransactionPayload (w : worker) (answers : list (option (uint64 * bytes))) : go Api.Transaction :=
  outputs ← makeOutputs (seq 0 objects) (wk_labels w);
  mappings ← makeMappings 0 (wk_objsdata w) (wk_seed w) ∅;
  Ret (Api.MkTransaction mappings (checkTransaction answers)
         [Api.MkTrace (str "dummy") [] (wk_seed w) [] outputs [] (str "dummy_ok") []]).
End payload.

(** [getReadyWorkers]: the positions of the workers that are taken from the pool,
    and how many new ones are made.  [out] is what the loop has found so far. *)
Fixpoint ready_loop (workers i : nat) (pool : list worker) (out : list nat) : list nat * nat :=
  match pool with
  | [] => (out, workers - length out)%nat
  | x :: pool =>
      let out := if wk_ready x then out ++ [i] else out in
      if decide (workers <= length out)%nat then (out, 0%nat) else ready_loop workers (S i) pool out
  end.
Definition getReadyWorkers (workers : nat) (pool : list worker) : list nat * nat := ready_loop workers 0 pool [].

Lemma ready_loop_spec workers i pool out : (length out < workers)%nat -> NoDup out -> (forall j, j ∈ out -> (j < i)%nat) ->
  let '(l, new) := ready_loop workers i pool out in
  (length l + new = workers)%nat /\ NoDup l /\
  (forall j, j ∈ l -> j ∈ out \/ exists x, (i <= j)%nat /\ pool !! (j - i)%nat = Some x /\ wk_ready x = true) /\
  (forall j x, (0 < new)%nat -> pool !! j = Some x -> wk_ready x = true -> (i + j)%nat ∈ l) /\
  (forall j, j ∈ out -> j ∈ l).
Proof.
  revert i out. induction pool as [|x pool IH]; intros i out Hl Hnd Hi; cbn [ready_loop].
  { split_and!; try done; [lia|auto]. }
  set (out' := if wk_ready x then out ++ [i] else out).
  assert (NoDup out' /\ (forall j, j ∈ out' -> (j < S i)%nat)) as [Hnd' Hi'].
  { unfold out'. destruct (wk_ready x); [|split; [done|]; intros j Hj; specialize (Hi j Hj); lia]. split.
    - apply NoDup_app. split_and!; [done| |apply NoDup_singleton]. intros j Hj ->%list_elem_of_singleton. specialize (Hi i Hj). lia.
    - intros j [Hj| ->%list_elem_of_singleton]%elem_of_app; [specialize (Hi j Hj)|]; lia. }
  assert (forall j, j ∈ out' -> j ∈ out \/ exists y, (i <= j)%nat /\ (x :: pool) !! (j - i)%nat = Some y /\ wk_ready y = true) as Hin.
  { unfold out'. destruct (wk_ready x) eqn:Hx; [|by left]. intros j [Hj| ->%list_elem_of_singleton]%elem_of_app; [by left|right].
    exists x. rewrite Nat.sub_diag. done. }
  assert (forall j, j ∈ out -> j ∈ out') as Hsub by (unfold out'; destruct (wk_ready x); set_solver).
  assert (length out' <= S (length out))%nat as Hlen by (unfold out'; destruct (wk_ready x); rewrite ?length_app; cbn; lia).
  case_decide as Hd; [split_and!; try done; lia|].
  specialize (IH (S i) out' ltac:(lia) Hnd' Hi'). destruct (ready_loop workers (S i) pool out') as [l new].
  destruct IH as (H1 & H2 & H3 & H4 & H5). split_and!; [done|done| | |auto].
  - intros j Hj. destruct (H3 j Hj) as [?|(y & Hle & Hy & Hr)]; [auto|]. right. exists y. split; [lia|].
    replace (j - i)%nat with (S (j - S i)) by lia. done.
  - intros [|j] y Hn Hy Hr.
    + injection Hy as ->. apply H5. unfold out'. rewrite Hr, Nat.add_0_r. set_solver.
    + rewrite <-Nat.add_succ_comm. by eapply H4.
Qed.

(** In each round as many workers are started as asked for, each once and only
    ready ones; new workers are made only when every ready one is used. *)
Lemma ready_workers_spec workers pool : (0 < workers)%nat ->
  let '(l, new) := getReadyWorkers workers pool in
  (length l + new = workers)%nat /\ NoDup l /\
  (forall j, j ∈ l -> exists x, pool !! j = Some x /\ wk_ready x = true) /\
  (forall j x, (0 < new)%nat -> pool !! j = Some x -> wk_ready x = true -> j ∈ l).
Proof.
  intros Hw. pose proof (ready_loop_spec workers 0 pool [] Hw ltac:(constructor) ltac:(set_solver)) as H.
  unfold getReadyWorkers. destruct (ready_loop workers 0 pool []) as [l new]. destruct H as (H1 & H2 & H3 & H4 & _).
  split_and!; [done|done| |done]. intros j Hj. destruct (H3 j Hj) as [?%not_elem_of_nil|(x & _ & Hx & Hr)]; [done|].
  rewrite Nat.sub_0_r in Hx. by exists x.
Qed.

(** ** The test as a system of goroutines *)

(** Where a call of [run] is: before it marks the worker as busy, waiting for the
    response, in the loop over the objects of the response, between
    [pendingIDs] and [Subscribe], waiting for the notification, or over. *)
Inductive phase :=
  | Begin
  | Posting
  | Adding (i : nat) (data : list (bytes * bytes))
  | Subscribing (i : nat) (id value : bytes) (data : list (bytes * bytes))
  | Waiting
  | Over.

(** [te_results]: how often an object was published and the worker of its
    callback.  [te_sending]: the subscriber is in the callback of this worker,
    sending into its channel, and holds its own mutex and that of the worker. *)
Record test := MkTest {
  te_workers : list worker;
  te_runs : list (nat * phase);
  te_results : gmap bytes (Z * nat);
  te_sending : option nat;
  te_metrics : gmap nat Z }.

Definition set_worker (w : nat) (x : worker) (t : test) :=
  MkTest (<[w := x]> (te_workers t)) (te_runs t) (te_results t) (te_sending t) (te_metrics t).
Definition set_phase (r w : nat) (p : phase) (t : test) :=
  MkTest (te_workers t) (<[r := (w, p)]> (te_runs t)) (te_results t) (te_sending t) (te_metrics t).
Definition set_results x (t : test) := MkTest (te_workers t) (te_runs t) x (te_sending t) (te_metrics t).
Definition set_sending x (t : test) := MkTest (te_workers t) (te_runs t) (te_results t) x (te_metrics t).
Definition measured (w : nat) (t : test) :=
  MkTest (te_workers t) (te_runs t) (te_results t) (te_sending t) (<[w := default 0 (te_metrics t !! w) + 1]> (te_metrics t)).

Inductive action :=
  | Start (w : nat)                                        (* the test finds the worker ready *)
  | Proceed (r : nat)                                      (* the next step of a call of [run] *)
  | Answer (r : nat) (response : option (list (bytes * bytes)))  (* to its request; [None] is a failure *)
  | Publish (id : bytes) (success : bool)                  (* a node publishes an object *)
  | Cancelled (r : nat).                                   (* the context ends before the request or while [run] waits *)

(** [None] when the action has to wait; [Some None] is a panic. *)
Abbreviation outcome := (option (option test)) (only parsing).
Definition locked (w : nat) (t : test) : bool := bool_decide (te_sending t = Some w).

Section step.
Context (nodeCount : Z).

(** [worker.cb]: when nothing is pending any more it sends. *)
Definition worker_cb (w : nat) (id : bytes) (t : test) : outcome :=
  x ← te_workers t !! w;
  let pending := wk_pending x ∖ {[id]} in
  Some (Some (if decide (pending = ∅) then set_sending (Some w) (set_worker w (set_pending pending x) t)
              else set_worker w (setReady true (set_pending pending x)) t)).

(** [subscriber.cb], which waits for the mutex of the subscriber. *)
Definition sub_cb (id : bytes) (success : bool) (t : test) : outcome :=
  match te_sending t with
  | Some _ => None
  | None =>
      match te_results t !! id with
      | Some (i, w) =>
          if success then
            let t := set_results (<[id := (i + 1, w)]> (te_results t)) t in
            if decide (nodeCount <= i + 1) then worker_cb w id t else Some (Some t)
          else Some (Some t)
      | None => Some (Some t)
      end
  end.

(** [subscriber.Subscribe], which waits for the same mutex. *)
Definition sub_Subscribe (id : bytes) (w : nat) (t : test) : option test :=
  match te_sending t with Some _ => None | None => Some (set_results (<[id := (0, w)]> (te_results t)) t) end.

(** The next step of the call [r] of [run] for the worker [w]. *)
Definition run_step (r w : nat) (p : phase) (x : worker) (t : test) : outcome :=
  match p with
  | Begin => if locked w t then None else Some (Some (set_phase r w Posting (set_worker w (setReady false x) t)))
  | Adding i [] => Some (Some (set_phase r w Waiting t))
  | Adding i ((id, value) :: data) =>
      if decide (i < length (wk_seed x))%nat then
        Some (Some (set_phase r w (Subscribing i id value data)
          (set_worker w (set_pending ({[id]} ∪ wk_pending x) (set_seed (<[i := id]> (wk_seed x)) x)) t)))
      else Some None
  | Subscribing i id value data =>
      t ← sub_Subscribe id w t;
      Some (Some (set_phase r w (Adding (S i) data) (set_worker w (set_objsdata (wk_objsdata x ++ [value]) x) t)))
  | Waiting =>
      if locked w t then
        Some (Some (set_phase r w Over (set_sending None (measured w (set_worker w (setReady true x) t)))))
      else None
  | _ => None
  end.

(** The response to the request of [run]; every failure makes the worker ready. *)
Definition run_answer (r w : nat) (p : phase) (x : worker) (response : option (list (bytes * bytes))) (t : test) : outcome :=
  match p, response with
  | Posting, Some data => Some (Some (set_phase r w (Adding 0 data) (set_worker w (set_objsdata [] x) t)))
  | Posting, None => if locked w t then None else Some (Some (set_phase r w Over (set_worker w (setReady true x) t)))
  | _, _ => None
  end.

Definition step (a : action) (t : test) : outcome :=
  match a with
  | Start w =>
      x ← te_workers t !! w;
      if locked w t then None
      else if wk_ready x then
        Some (Some (MkTest (te_workers t) (te_runs t ++ [(w, Begin)]) (te_results t) (te_sending t) (te_metrics t)))
      else None
  | Proceed r => '(w, p) ← te_runs t !! r; x ← te_workers t !! w; run_step r w p x t
  | Answer r response => '(w, p) ← te_runs t !! r; x ← te_workers t !! w; run_answer r w p x response t
  | Publish id success => sub_cb id success t
  | Cancelled r =>
      '(w, p) ← te_runs t !! r;
      match p with Posting | Waiting => Some (Some (set_phase r w Over t)) | _ => None end
  end.

(** A sequence of actions: [None] when one has to wait or panics. *)
Fixpoint run_test (acts : list action) (t : test) : option test :=
  match acts with
  | [] => Some t
  | a :: acts => match step a t with Some (Some t) => run_test acts t | _ => None end
  end.
End step.

(** ** The transactions of the workers are in order *)

Section valid.
Context (objects : nat) (random : nat -> bytes) (json_output : list bytes -> bytes -> bytes).

(** One seed, one value and one label for each object. *)
Definition worker_ok (w : worker) : Prop :=
  length (wk_seed w) = objects /\ length (wk_objsdata w) = objects /\ length (wk_labels w) = objects.

Lemma makeOutputs_ok labels idx : (forall i, i ∈ idx -> (i < length labels)%nat) ->
  exists outs, makeOutputs random json_output idx labels = Ret outs /\ length outs = length idx.
Proof.
  induction idx as [|i idx IH]; intros Hi; [by exists []|]. destruct (lookup_lt_is_Some_2 labels i) as [l Hl]; [apply Hi; left|].
  destruct IH as (outs & Ho & Hn); [intros; apply Hi; by right|]. cbn. rewrite Hl. cbn. rewrite Ho. eexists. split; [done|].
  cbn. by rewrite Hn.
Qed.

Lemma makeMappings_ok objsdata seed i m : (i + length objsdata <= length seed)%nat ->
  exists m', makeMappings i objsdata seed m = Ret m' /\
    forall v, is_Some (m' !! v) <-> is_Some (m !! v) \/ v ∈ take (length objsdata) (drop i seed).
Proof.
  revert i m. induction objsdata as [|d objsdata IH]; intros i m Hl; cbn [makeMappings length].
  { exists m. split; [done|]. cbn. set_solver. }
  destruct (lookup_lt_is_Some_2 seed i) as [v Hv]; [cbn in Hl; lia|]. rewrite Hv. cbn [or_crash mbind go_bind].
  destruct (IH (S i) (<[v := d]> m)) as (m' & -> & Hm'); [cbn in Hl; lia|]. exists m'. split; [done|]. intros u.
  rewrite Hm', (drop_S seed v i Hv). cbn [take]. rewrite elem_of_cons, lookup_insert_is_Some'. naive_solver.
Qed.

Lemma check_inputs_fresh contract vs ids : NoDup vs -> (forall v, v ∈ vs -> ids !! v = None) ->
  exists ids', check_inputs contract vs ids = Ret ids'.
Proof.
  revert ids. induction vs as [|v vs IH]; intros ids Hnd Hn; cbn; [by eexists|]. apply NoDup_cons in Hnd as [Hv Hnd].
  rewrite (Hn v) by left. apply IH; [done|]. intros u Hu. rewrite lookup_insert_ne by (intros ->; done). apply Hn. by right.
Qed.

(** Every transaction that a worker posts is well posed for the checkers and,
    when its inputs are different objects, type correct: the test is not refused
    for its form. *)
Lemma worker_transactions_valid w answers : worker_ok w -> objects <> 0%nat ->
  exists tx, makeTransactionPayload objects random json_output w answers = Ret tx /\ well_posed tx /\
    (NoDup (b64DecodeStrings (wk_seed w)) -> exists stx, ToSBAC Validate tx = Ret stx /\ TypeCheck stx = Ret tt).
Proof.
  intros (Hs & Hd & Hl) Ho. unfold makeTransactionPayload.
  destruct (makeOutputs_ok (wk_labels w) (seq 0 objects)) as (outs & -> & Hn); [intros i [_ Hi]%elem_of_seq; lia|].
  cbn [mbind go_bind]. destruct (makeMappings_ok (wk_objsdata w) (wk_seed w) 0 ∅) as (m & -> & Hm); [lia|]. cbn [mbind go_bind].
  rewrite drop_0, Hd, take_ge in Hm by lia. rewrite length_seq in Hn.
  assert (wk_seed w <> []) as Hne by (intros E; by rewrite E in Hs; cbn in Hs). eexists. split; [done|].
  assert (Forall (fun v => is_Some (m !! v)) (wk_seed w)) as Hf.
  { apply Forall_forall. intros v Hv. apply Hm. by right. }
  set (tx := Api.MkTransaction _ _ _).
  assert (Forall (valid_trace (Api.Mappings tx)) (api_traces tx)) as Hv.
  { constructor; [|constructor]. split; [done|]. cbn. by rewrite app_nil_r. }
  split; [by split|]. intros Hnd. unfold ToSBAC. destruct (validate_spec tx) as [[_ ->]|[Hv' _]]; [|done].
  eexists. split; [done|]. unfold TypeCheck. cbn [tx Traces Api.Traces fmap list_fmap trace_ToSBAC typeCheck typeCheck_trace map mbind go_bind].
  unfold check_trace. cbn [ContractID Procedure OutputObjects InputObjects InputObjectVersionIDs InputReferenceVersionIDs].
  rewrite !bool_decide_true by done. cbn [guard_fail mbind go_bind]. rewrite length_fmap, Hn, Hs, Nat.eqb_refl. cbn [guard_fail mbind go_bind].
  destruct (check_inputs_fresh (str "dummy") (b64DecodeStrings (wk_seed w)) ∅ Hnd) as [ids ->]; done.
Qed.

(** New workers are in order. *)
Lemma NewWorker_ok addresses standalone responses seed id w : length responses = objects ->
  seedObjects responses = Ret seed -> NewWorker addresses standalone seed (makeLabels objects id) id = Ret w -> worker_ok w.
Proof.
  intros Hr Hs Hw. unfold NewWorker in Hw. apply go_bind_Ret in Hw as (addr & _ & [= <-]). unfold worker_ok. cbn.
  assert (length seed = objects) as <-.
  { rewrite <-Hr. clear Hr. revert seed Hs. induction responses as [|[i|e|] responses IH]; cbn; intros seed Hs; [by injection Hs as <-| |done|done].
    case_decide; [done|]. apply go_bind_Ret in Hs as (out & Ho & [= <-]). cbn. by rewrite (IH out). }
  unfold makeLabels. rewrite !length_fmap, length_seq. done.
Qed.
End valid.

(** ** Where the test goes wrong *)

(** A refused transaction is signed as well, and the worker takes the signature. *)
Lemma refused_signature_taken nodeID ok sig :
  callChecker (Ret (StatusOK, Ret (MkCheckTransactionResponse nodeID ok sig))) = Ret (nodeID, sig).
Proof. done. Qed.

(** No node has a route for the path that workers use with standalone checkers. *)
Lemma standalone_path_not_routed cfg : (POST, worker_path true) ∉ (rest_router cfg).*1 /\
  ((POST, worker_path false) ∈ (rest_router cfg).*1 <-> rs_CheckerOnly cfg = false).
Proof. destruct cfg as [[] [] [] port]; apply (bool_decide_unpack _); by vm_compute. Qed.

(** With an address and no port there are no addresses, and the first worker
    panics. *)
Lemma address_without_port_panics address nodeCount shardCount standalone gcp gcpCheckers seed labels id : address <> [] ->
  exists addresses, test_addresses address 0 nodeCount shardCount standalone gcp gcpCheckers = Ret (addresses, addresses) /\
    NewWorker addresses standalone seed labels id = Crash.
Proof.
  intros Ha. exists []. split; [|done]. unfold test_addresses. rewrite (bool_decide_false (address = [])) by done. done.
Qed.

(** Two pages of machines: the publishers of the first page are overwritten. *)
Example gcp_second_page_overwrites :
  (fun r => (length r.1, map_to_list r.2)) <$> (match getAddressesFromGCP 80 81 [[Some (str "a")]; [Some (str "b")]] with Ret r => Some r | _ => None end) =
  Some (2%nat, [(0, str "b:81")]).
Proof. by vm_compute. Qed.

(** A test without a finished transaction panics at its end. *)
Lemma empty_summary_panics duration : summary ∅ duration = Crash.
Proof. done. Qed.

(** *** Deadlock *)

(** The subscriber waits for the worker, and every call of [run] of the worker
    waits for one of the mutexes that the subscriber holds, or is over. *)
Definition blocked (w : nat) (t : test) : Prop :=
  te_sending t = Some w /\
  forall r p, te_runs t !! r = Some (w, p) -> p = Begin \/ p = Over \/ exists i id value data, p = Subscribing i id value data.

Lemma blocked_phase w r w' p t : blocked w t -> w' <> w -> blocked w (set_phase r w' p t).
Proof.
  intros [Hs Hr] Hne. split; [done|]. intros r' p'. cbn. rewrite list_lookup_insert_Some.
  intros [(_ & [= ? _] & _)|[_ H]]; [congruence|eauto].
Qed.

Lemma step_blocked nodeCount w a t t' : blocked w t -> step nodeCount a t = Some (Some t') ->
  blocked w t' /\ te_metrics t' = te_metrics t.
Proof.
  intros Hb Hstep. pose proof Hb as [Hs Hr]. destruct a as [w'|r|r resp|id success|r]; cbn in Hstep.
  - destruct (te_workers t !! w') as [x|]; [|done]. cbn in Hstep. destruct (locked w' t) eqn:Hl; [done|].
    destruct (wk_ready x); [|done]. injection Hstep as <-. split; [|done]. split; [done|]. intros r p. cbn.
    rewrite lookup_app_Some, list_lookup_singleton_Some. intros [H|(_ & _ & [= -> _])]; [eauto|].
    unfold locked in Hl. by rewrite bool_decide_true in Hl.
  - destruct (te_runs t !! r) as [[w' p]|] eqn:Hrun; [|done]. cbn in Hstep.
    destruct (te_workers t !! w') as [x|]; [|done]. cbn in Hstep. unfold run_step, sub_Subscribe in Hstep.
    destruct (decide (w' = w)) as [->|Hne].
    + unfold locked in Hstep. rewrite Hs, bool_decide_true in Hstep by done.
      by destruct (Hr r p Hrun) as [->|[->|(i & id & v & data & ->)]].
    + unfold locked in Hstep. rewrite Hs, (bool_decide_false (Some w = Some w')) in Hstep by congruence.
      destruct p as [| |i [|[id v] data]|i id v data| |]; try done; try (case_decide; [|done]).
      all: injection Hstep as <-; (split; [|done]); apply blocked_phase; done.
  - destruct (te_runs t !! r) as [[w' p]|] eqn:Hrun; [|done]. cbn in Hstep.
    destruct (te_workers t !! w') as [x|]; [|done]. cbn in Hstep. unfold run_answer in Hstep. destruct p; try done. destruct (decide (w' = w)) as [->|Hne].
    { destruct (Hr r Posting Hrun) as [?|[?|(i & id & v & data & ?)]]; done. }
    destruct resp as [data|]; [|destruct (locked w' t); [done|]]; injection Hstep as <-; (split; [|done]); apply blocked_phase; done.
  - unfold sub_cb in Hstep. by rewrite Hs in Hstep.
  - destruct (te_runs t !! r) as [[w' p]|] eqn:Hrun; [|done]. cbn in Hstep.
    assert (p = Posting \/ p = Waiting) as Hp by (destruct p; auto; done).
    assert (w' <> w) as Hne.
    { intros ->. destruct (Hr r p Hrun) as [?|[?|(i & id & v & data & ?)]], Hp; congruence. }
    destruct Hp as [-> | ->]; injection Hstep as <-; (split; [|done]); by apply blocked_phase.
Qed.

Lemma deadlock_is_final nodeCount w acts t t' : blocked w t -> run_test nodeCount acts t = Some t' ->
  blocked w t' /\ te_metrics t' = te_metrics t.
Proof.
  revert t. induction acts as [|a acts IH]; intros t Hb Hr; [by injection Hr as <-|]. cbn in Hr.
  destruct (step nodeCount a t) as [[t1|]|] eqn:Hs; [|done..]. destruct (step_blocked _ _ _ _ _ Hb Hs) as [Hb1 <-]. by apply IH.
Qed.

(** A worker with two objects, four nodes, and the first object published before
    the second one is subscribed to. *)
Definition ex_worker : worker := MkWorker [[1]; [2]] [[]; []] 1 [] ∅ true [[]; []].
Definition ex_test : test := MkTest [ex_worker] [] ∅ None ∅.
Definition ex_acts : list action :=
  [Start 0; Proceed 0; Answer 0 (Some [([3], []); ([4], [])]); Proceed 0; Proceed 0] ++
  replicate 4 (Publish [3] true) ++ [Proceed 0].

(** The test can stop for ever: from the state that is reached no transaction of
    any worker is measured any more, whatever happens. *)
Theorem load_test_deadlocks : exists t, run_test 4 ex_acts ex_test = Some t /\ blocked 0 t /\
  forall acts t', run_test 4 acts t = Some t' -> te_metrics t' = te_metrics t /\ te_sending t' = Some 0%nat.
Proof.
  eexists. split; [by vm_compute|].
  match goal with |- blocked 0 ?x /\ _ => assert (blocked 0 x) as Hb end.
  { split; [done|]. intros r p Hp. cbn in Hp. destruct r as [|r]; [|done]. injection Hp as <-. right. right. by repeat eexists. }
  split; [exact Hb|]. intros acts t' Hr. destruct (deadlock_is_final _ _ _ _ _ Hb Hr) as [[? _] ?]. done.
Qed.

(** Without that overlap the same transaction is measured. *)
Example load_test_run : exists t,
  run_test 4 ([Start 0; Proceed 0; Answer 0 (Some [([3], []); ([4], [])])] ++ replicate 5 (Proceed 0) ++
    replicate 4 (Publish [3] true) ++ replicate 4 (Publish [4] true) ++ [Proceed 0]) ex_test = Some t /\
  te_metrics t !! 0%nat = Some 1 /\ te_sending t = None.
Proof. eexists. by vm_compute. Qed.

(** A worker is ready again as soon as its first object is published, while its
    transaction still waits for the second one: it is started a second time. *)
Example busy_worker_restarts : exists t,
  run_test 4 ([Start 0; Proceed 0; Answer 0 (Some [([3], []); ([4], [])])] ++ replicate 5 (Proceed 0) ++
    replicate 4 (Publish [3] true) ++ [Start 0]) ex_test = Some t /\ te_runs t = [(0%nat, Waiting); (0%nat, Begin)].
Proof. eexists. by vm_compute. Qed.

(** ** The test runner: [testrunner.go] and [main] *)

(** [tr_making]: the numbers of the workers that goroutines of [InitWorkers] are
    making.  [tr_stopped]: the context of the test has ended. *)
Record testrunner := MkRunner { tr_test : test; workercount : nat; tr_making : list nat; tr_stopped : bool }.
Definition workerspool (tr : testrunner) : list worker := te_workers (tr_test tr).

Definition NewTestRunner : testrunner := MkRunner (MkTest [] [] ∅ None ∅) 0 [] false.

Definition add_worker (w : worker) (t : test) : test :=
  MkTest (te_workers t ++ [w]) (te_runs t) (te_results t) (te_sending t) (te_metrics t).
(** [runWorkers]: a goroutine for each worker. *)
Definition runWorkers (ws : list nat) (t : test) : test :=
  MkTest (te_workers t) (te_runs t ++ ((fun w => (w, Begin)) <$> ws)) (te_results t) (te_sending t) (te_metrics t).

Section runner.
Context (nodeCount : Z) (workers objects : nat) (addresses : list bytes) (standaloneCheckers : bool).

(** [for err != nil { seeds, err = seedObjects(...) }]: the responses to the
    attempts; [None] when the next attempt is still under way. *)
Fixpoint seed_retry (attempts : list (list (go bytes))) : option (go (list bytes)) :=
  match attempts with
  | [] => None
  | responses :: attempts =>
      match seedObjects responses with Fail _ => seed_retry attempts | r => Some r end
  end.

(** [initWorker] in two steps: the number of the worker is taken under the mutex,
    and the worker is appended under the mutex. *)
Definition take_number (tr : testrunner) : testrunner :=
  MkRunner (tr_test tr) (S (workercount tr)) (tr_making tr ++ [S (workercount tr)]) (tr_stopped tr).
Definition append_worker (k : nat) (attempts : list (list (go bytes))) (tr : testrunner) : option (option testrunner) :=
  n ← tr_making tr !! k;
  match getAddress addresses n with
  | Ret _ =>
      seeds ← seed_retry attempts;
      match (seeds ← seeds; NewWorker addresses standaloneCheckers seeds (makeLabels objects n) n) with
      | Ret w => Some (Some (MkRunner (add_worker w (tr_test tr)) (workercount tr) (delete k (tr_making tr)) (tr_stopped tr)))
      | _ => Some None
      end
  | _ => Some None
  end.
Definition initWorker (attempts : list (list (go bytes))) (tr : testrunner) : option (option testrunner) :=
  append_worker (length (tr_making tr)) attempts (take_number tr).

(** The loop of [getReadyWorkers] that makes the missing workers. *)
Fixpoint init_missing (attempts : list (list (list (go bytes)))) (tr : testrunner) : option (option testrunner) :=
  match attempts with
  | [] => Some (Some tr)
  | a :: attempts =>
      match initWorker a tr with Some (Some tr) => init_missing attempts tr | r => r end
  end.

(** How many workers the first loop of [getReadyWorkers] asks whether they are
    ready. *)
Definition asked_workers (pool : list worker) : nat :=
  let '(ready, missing) := getReadyWorkers workers pool in
  if decide (missing = 0%nat) then S (default 0%nat (last ready)) else length pool.
(** One of them holds its mutex, so that [Ready] waits. *)
Definition ready_waits (t : test) : bool :=
  match te_sending t with Some w => bool_decide (w < asked_workers (te_workers t))%nat | None => false end.

(** One iteration of [Run] before the context ends: [attempts] are the seeds of the
    workers that have to be made. *)
Definition run_round (attempts : list (list (list (go bytes)))) (tr : testrunner) : option (option testrunner) :=
  if tr_stopped tr then None else
  if ready_waits (tr_test tr) then None else
  let '(ready, missing) := getReadyWorkers workers (workerspool tr) in
  if decide (length attempts = missing) then
    match init_missing attempts tr with
    | Some (Some tr') =>
        let made := seq (length (workerspool tr)) missing in
        Some (Some (MkRunner (runWorkers (ready ++ made) (tr_test tr')) (workercount tr') (tr_making tr') (tr_stopped tr')))
    | r => r
    end
  else None.

Inductive event :=
  | TakeNumber                                     (* a goroutine of [InitWorkers] starts *)
  | AppendWorker (k : nat) (attempts : list (list (go bytes)))  (* and ends *)
  | Round (attempts : list (list (list (go bytes))))
  | Act (a : action)                               (* a worker, a node or the subscriber *)
  | Stop.                                          (* the timer of [main] *)

Definition runner_step (e : event) (tr : testrunner) : option (option testrunner) :=
  match e with
  | TakeNumber => if decide (workercount tr < workers * 10)%nat then Some (Some (take_number tr)) else None
  | AppendWorker k attempts => append_worker k attempts tr
  | Round attempts =>
      (* [InitWorkers] waits for its goroutines *)
      if decide (tr_making tr = [] /\ (workers * 10 <= workercount tr)%nat) then run_round attempts tr else None
  | Act (Start _) => None                           (* workers are started in rounds *)
  | Act a => t ← step nodeCount a (tr_test tr);
             Some (t ← t; Some (MkRunner t (workercount tr) (tr_making tr) (tr_stopped tr)))
  | Stop => Some (Some (MkRunner (tr_test tr) (workercount tr) (tr_making tr) true))
  end.

Fixpoint run_events (es : list event) (tr : testrunner) : option testrunner :=
  match es with
  | [] => Some tr
  | e :: es => match runner_step e tr with Some (Some tr) => run_events es tr | _ => None end
  end.

(** *** Every worker has its own number, and every round starts its workers *)

Lemma set_worker_ids w x t : (forall y, te_workers t !! w = Some y -> wk_id x = wk_id y) ->
  wk_id <$> te_workers (set_worker w x t) = wk_id <$> te_workers t.
Proof using Type.
  intros Hx. cbn. rewrite list_fmap_insert. destruct (te_workers t !! w) as [y|] eqn:Hy.
  - apply list_insert_id. rewrite list_lookup_fmap, Hy. cbn. by rewrite (Hx y).
  - apply list_insert_ge. rewrite length_fmap. by apply lookup_ge_None.
Qed.
Lemma set_phase_runs r w p p' t : te_runs t !! r = Some (w, p) -> (te_runs (set_phase r w p' t)).*1 = (te_runs t).*1.
Proof using Type. intros Hr. cbn. rewrite list_fmap_insert. apply list_insert_id. by rewrite list_lookup_fmap, Hr. Qed.

(** What the other goroutines leave alone. *)
Definition same_shape (t t' : test) : Prop :=
  wk_id <$> te_workers t' = wk_id <$> te_workers t /\ (te_runs t').*1 = (te_runs t).*1.

Lemma worker_cb_shape w id t t' : worker_cb w id t = Some (Some t') -> same_shape t t'.
Proof using Type.
  intros (x & Hx & Hc)%bind_Some. injection Hc as <-. case_decide; (split; [|done]).
  - apply (set_worker_ids w (set_pending _ x) t). intros y Hy. rewrite Hx in Hy. by injection Hy as <-.
  - apply (set_worker_ids w _ t). intros y Hy. rewrite Hx in Hy. by injection Hy as <-.
Qed.

Lemma shape_update r w p p' x x' t res snd met : te_runs t !! r = Some (w, p) -> te_workers t !! w = Some x -> wk_id x' = wk_id x ->
  same_shape t (MkTest (<[w := x']> (te_workers t)) (<[r := (w, p')]> (te_runs t)) res snd met).
Proof using Type.
  intros Hr Hx Hi. split; [|by apply (set_phase_runs r w p p' t)].
  apply (set_worker_ids w x' t). intros y Hy. rewrite Hx in Hy. by injection Hy as <-.
Qed.
Lemma shape_phase r w p p' t res snd met : te_runs t !! r = Some (w, p) ->
  same_shape t (MkTest (te_workers t) (<[r := (w, p')]> (te_runs t)) res snd met).
Proof using Type. intros Hr. split; [done|]. by apply (set_phase_runs r w p p' t). Qed.

#[local] Ltac shape :=
  cbv [set_phase set_worker measured set_sending set_results];
  cbn [te_workers te_runs te_results te_sending te_metrics];
  first [by eapply shape_update | by eapply shape_phase].

Lemma run_step_shape r w p x t t' : te_runs t !! r = Some (w, p) -> te_workers t !! w = Some x ->
  run_step r w p x t = Some (Some t') -> same_shape t t'.
Proof using Type.
  intros Hr Hx. destruct p as [| |i [|[id value] data]|i id value data| |]; cbn [run_step]; try done.
  - destruct (locked w t); [done|]. intros [= <-]. shape.
  - intros [= <-]. shape.
  - case_decide; intros [= <-]. shape.
  - unfold sub_Subscribe. destruct (te_sending t); [done|]. intros [= <-]. shape.
  - destruct (locked w t); intros [= <-]. shape.
Qed.

Lemma step_shape a t t' : (forall w, a <> Start w) -> step nodeCount a t = Some (Some t') -> same_shape t t'.
Proof using Type.
  intros Ha. destruct a as [w|r|r resp|id success|r]; cbn [step]; [by destruct (Ha w)|..].
  - intros ([w p] & Hr & (x & Hx & Hs)%bind_Some)%bind_Some. by eapply run_step_shape.
  - intros ([w p] & Hr & (x & Hx & Hs)%bind_Some)%bind_Some. unfold run_answer in Hs. destruct p, resp; try done.
    + injection Hs as <-. shape.
    + destruct (locked w t); [done|]. injection Hs as <-. shape.
  - unfold sub_cb. destruct (te_sending t); [done|]. destruct (te_results t !! id) as [[n w]|]; [|by intros [= <-]].
    destruct success; [|by intros [= <-]]. case_decide; [|by intros [= <-]]. intros Hc%worker_cb_shape. exact Hc.
  - intros ([w p] & Hr & Hs)%bind_Some. destruct p; try done; injection Hs as <-; shape.
Qed.

(** The numbers given out are those of the workers and of those being made. *)
Definition numbered (tr : testrunner) : Prop :=
  (wk_id <$> workerspool tr) ++ tr_making tr ≡ₚ seq 1 (workercount tr).

Lemma NewWorker_id seeds labels n w : NewWorker addresses standaloneCheckers seeds labels n = Ret w -> wk_id w = n.
Proof using Type. unfold NewWorker. by intros (addr & _ & [= <-])%go_bind_Ret. Qed.

Lemma append_worker_spec k attempts tr tr' : append_worker k attempts tr = Some (Some tr') ->
  exists w, tr_making tr !! k = Some (wk_id w) /\
    tr' = MkRunner (add_worker w (tr_test tr)) (workercount tr) (delete k (tr_making tr)) (tr_stopped tr).
Proof using Type.
  intros (n & Hn & Ha)%bind_Some. destruct (getAddress addresses n) as [addr|e|]; [|done..].
  apply bind_Some in Ha as (seeds & _ & Ha). destruct (seeds ≫= _) as [w|e|] eqn:Hw; [|done..].
  apply go_bind_Ret in Hw as (sd & _ & <-%NewWorker_id). injection Ha as <-. by exists w.
Qed.

Lemma append_worker_numbered k attempts tr tr' : append_worker k attempts tr = Some (Some tr') -> numbered tr -> numbered tr'.
Proof using Type.
  intros (w & Hk & ->)%append_worker_spec Hn. unfold numbered, workerspool in *. cbn.
  rewrite fmap_app, <-app_assoc. cbn. rewrite <-Hn. f_equiv. by rewrite <-(delete_Permutation _ _ _ Hk).
Qed.
Lemma take_number_numbered tr : numbered tr -> numbered (take_number tr).
Proof using Type.
  unfold numbered, workerspool. intros Hn. cbn [tr_test take_number tr_making workercount].
  by rewrite app_assoc, Hn, seq_S.
Qed.

Lemma initWorker_numbered attempts tr tr' : initWorker attempts tr = Some (Some tr') -> numbered tr ->
  numbered tr' /\ te_runs (tr_test tr') = te_runs (tr_test tr) /\ length (workerspool tr') = S (length (workerspool tr)) /\
  tr_making tr' = tr_making tr.
Proof using Type.
  intros Hi Hn. split; [by eapply append_worker_numbered, take_number_numbered|].
  apply append_worker_spec in Hi as (w & _ & ->). split; [done|]. unfold workerspool. cbn. rewrite length_app. split; [cbn; lia|].
  rewrite delete_take_drop, take_app_length, drop_ge by (rewrite length_app; cbn; lia). apply app_nil_r.
Qed.

Lemma init_missing_numbered attempts tr tr' : init_missing attempts tr = Some (Some tr') -> numbered tr ->
  numbered tr' /\ te_runs (tr_test tr') = te_runs (tr_test tr) /\
  length (workerspool tr') = (length attempts + length (workerspool tr))%nat.
Proof using Type.
  revert tr. induction attempts as [|a attempts IH]; intros tr; cbn [init_missing]; [by intros [= <-]|].
  destruct (initWorker a tr) as [[tr1|]|] eqn:Hi; [|done..]. intros Hm Hn.
  destruct (initWorker_numbered _ _ _ Hi Hn) as (Hn1 & Hr & Hl & _). destruct (IH tr1 Hm Hn1) as (? & ? & ?).
  split_and!; [done|congruence|cbn; lia].
Qed.

Definition is_round (e : event) : bool := match e with Round _ => true | _ => false end.

(** A step keeps the numbering, and starts [workers] calls of [run] when it is a
    round and none otherwise. *)
Lemma runner_step_spec e tr tr' : (0 < workers)%nat -> runner_step e tr = Some (Some tr') -> numbered tr ->
  numbered tr' /\
  length (te_runs (tr_test tr')) = ((if is_round e then workers else 0) + length (te_runs (tr_test tr)))%nat.
Proof using Type.
  intros Hw. destruct e as [|k attempts|attempts|a|]; cbn [runner_step is_round].
  - case_decide; [|done]. intros [= <-] Hn. split; [by apply take_number_numbered|done].
  - intros Ha Hn. split; [by eapply append_worker_numbered|]. by apply append_worker_spec in Ha as (w & _ & ->).
  - case_decide; [|done]. unfold run_round. destruct (tr_stopped tr); [done|]. destruct (ready_waits _); [done|].
    pose proof (ready_workers_spec workers (workerspool tr) Hw) as Hg.
    destruct (getReadyWorkers workers (workerspool tr)) as [ready missing]. destruct Hg as (Hsum & _).
    case_decide as Hl; [|done]. destruct (init_missing attempts tr) as [[tr1|]|] eqn:Hm; [|done..]. intros [= <-] Hn.
    destruct (init_missing_numbered _ _ _ Hm Hn) as (Hn1 & Hr & _). split; [done|].
    cbn. rewrite length_app, length_fmap, length_app, length_seq, Hr. lia.
  - intros Hs Hn. assert (forall w, a <> Start w) as Ha by (by intros w ->).
    assert (exists t, step nodeCount a (tr_test tr) = Some (Some t) /\ tr' = MkRunner t (workercount tr) (tr_making tr) (tr_stopped tr)) as (t & Ht & ->).
    { destruct a; try done; destruct (step _ _ _) as [[t|]|]; try done; injection Hs as <-; by eexists. }
    destruct (step_shape _ _ _ Ha Ht) as [Hi Hr]. split.
    + unfold numbered, workerspool in *. cbn. by rewrite Hi.
    + cbn. apply (f_equal length) in Hr. by rewrite !length_fmap in Hr.
  - intros [= <-] Hn. done.
Qed.

(** Whatever happens, no two workers have the same number, so that their metrics
    are kept apart, and after [InitWorkers] the numbers are those up to the count;
    every round has started as many transactions as asked for. *)
Theorem test_runner_spec es tr : (0 < workers)%nat -> run_events es NewTestRunner = Some tr ->
  NoDup (wk_id <$> workerspool tr) /\
  (tr_making tr = [] -> wk_id <$> workerspool tr ≡ₚ seq 1 (workercount tr)) /\
  length (te_runs (tr_test tr)) = (workers * length (filter is_round es))%nat.
Proof using Type.
  intros Hw Hr.
  assert (forall tr0, run_events es tr0 = Some tr -> numbered tr0 ->
    numbered tr /\ length (te_runs (tr_test tr)) = (workers * length (filter is_round es) + length (te_runs (tr_test tr0)))%nat) as Hall.
  { clear Hr. induction es as [|e es IH]; intros tr0; cbn [run_events]; [intros [= <-] Hn; split; [done|cbn; lia]|].
    destruct (runner_step e tr0) as [[tr1|]|] eqn:Hs; [|done..]. intros Hr Hn.
    destruct (runner_step_spec _ _ _ Hw Hs Hn) as [Hn1 Hl]. destruct (IH tr1 Hr Hn1) as [Hn2 Hl2]. split; [done|].
    rewrite filter_cons. destruct e; cbn [is_round Is_true] in *; case_decide; cbn [length]; try done; lia. }
  destruct (Hall NewTestRunner Hr) as [Hn Hl]; [by unfold numbered|]. unfold numbered in Hn. split_and!.
  - assert (NoDup ((wk_id <$> workerspool tr) ++ tr_making tr)) as [? _]%NoDup_app by (rewrite Hn; apply NoDup_seq). done.
  - intros Hm. by rewrite Hm, app_nil_r in Hn.
  - rewrite Hl. cbn. lia.
Qed.
End runner.

(** [wg.Wait] of [main] waits for the calls of [run] that have passed their
    [wg.Add]. *)
Definition counted (p : phase) : bool := match p with Begin | Over => false | _ => true end.
Definition wg_count (t : test) : nat := length (filter counted (te_runs t).*2).

(** A test of one transaction per round: ten workers are made, the seeds of one of
    them at the second attempt, one transaction is measured, and the test ends. *)
Definition ex_init (n : nat) : list event := concat (replicate n [TakeNumber; AppendWorker 0 [[Fail "node"]; [Ret [1]]]]).
Definition ex_events : list event :=
  ex_init 10 ++ [Round []; Act (Proceed 0); Act (Answer 0 (Some [([3], [])]))] ++ replicate 3 (Act (Proceed 0)) ++
  replicate 4 (Act (Publish [3] true)) ++ [Act (Proceed 0); Stop].

Lemma test_runner_spec_witness : exists tr, run_events 4 1 1 [str "n:80"] false ex_events NewTestRunner = Some tr /\
  NoDup (wk_id <$> workerspool tr) /\ length (te_runs (tr_test tr)) = 1%nat /\ wg_count (tr_test tr) = 0%nat /\
  te_metrics (tr_test tr) !! 0%nat = Some 1.
Proof.
  assert (exists tr, run_events 4 1 1 [str "n:80"] false ex_events NewTestRunner = Some tr /\
    wg_count (tr_test tr) = 0%nat /\ te_metrics (tr_test tr) !! 0%nat = Some 1) as (tr & Hr & Hg & Hm) by (eexists; by vm_compute).
  exists tr. destruct (test_runner_spec 4 1 1 [str "n:80"] false ex_events tr ltac:(lia) Hr) as (Hnd & _ & Hl).
  split_and!; [exact Hr|exact Hnd|rewrite Hl; by vm_compute|exact Hg|exact Hm].
Defined.

(** [wg.Add] is called by the goroutine that it counts: [main] may find nothing to
    wait for although a round has started a transaction. *)
Example started_run_not_waited_for : exists tr,
  run_events 4 1 1 [str "n:80"] false (ex_init 10 ++ [Round []; Stop]) NewTestRunner = Some tr /\
  te_runs (tr_test tr) = [(0%nat, Begin)] /\ wg_count (tr_test tr) = 0%nat.
Proof. eexists. by vm_compute. Qed.
