(* ===== verification/Commands.v ===== *)
(** * Commands: running and inspecting a network

    Model of the commands [run], [genload], [interpret], [contracts], [sbac] and
    [check] in [src/cmd/chainspace] and of the program [src/cmd/blockmaniatest],
    without the parsing of flags.  The calls
    they make are recorded; [log.Fatal] ends the process, which is the call
    [EndProcess] and the message as an error.  Files are read from the disk of
    [Settings]; profiles are files that are created. *)
From Stdlib Require Import Floats.SpecFloat.
From S2P Require Import Prelude Traced Messages Graph Codec Database BroadcastStore Depgraph BroadcastSync Config Topology LogFields.
From S2P Require Import Base32 Base64 Signature Paths Settings SbacStore SbacTypes Sbac SbacService Checker SbacApi Clients Init Node NodeRun.
From S2P Require Import GenLoad.

(** The calls of a command: those of the node and its own. *)
Inductive cmd_call :=
  | OfNode (c : NodeRun.call)
  | StatRoot (path : bytes)
  | CreateFile (path : bytes)
  | StartCPUProfile
  | ToConsole (level : Z)
  | ListenPprof
  | SetExitHandler
  | ContractsStop
  | Mkdir (path : bytes)
  | RuntimeGC
  | WriteHeapProfile
  | Shutdown
  | StopCPUProfile
  | WriteOut (path data : bytes)
  | PrintOut (out : bytes)
  | EndProcess.
Abbreviation cmd := (traced cmd_call) (only parsing).

Record cmd_env := MkCmdEnv {
  ce_node : NodeRun.env;
  ce_create : bytes -> bool;      (* whether a file can be created *)
  ce_expand : bytes -> bytes;     (* [os.ExpandEnv] *)
  ce_stop : bool;                 (* whether the contracts can be stopped *)
  ce_mkdir : bytes -> bool;       (* whether a directory can be made *)
  ce_heap : bool                  (* whether the heap profile can be written *)
}.

(** [log.Fatal]. *)
Definition quit {A} (e : string) : cmd A := ([EndProcess], Fail e).
Definition or_quit {A} (m : go A) (e : string) : cmd A :=
  match m with Ret x => rn_ret x | Fail _ => quit e | Crash => pure Crash end.
Definition of_node {A} (m : traced NodeRun.call A) : cmd A := (OfNode <$> m.1, m.2).

(** ** [common.go] and the checks that the commands share *)

(** The arguments that are left after the flags. *)
Definition getNetworkNameAndNodeID (params : list bytes) : cmd (bytes * uint64) :=
  match params with
  | [networkName; id] =>
      if decide (networkName = []) then quit "Network name cannot be empty" else
      let* nodeID := or_quit (ParseUint id) "Could not parse Node ID" in
      rn_ret (networkName, nodeID)
  | _ => quit "usage"
  end.

(** The command is not checked: the condition is that of the name. *)
Definition getRequiredParams (params : list bytes) : cmd (bytes * bytes) :=
  match params with
  | [net; c] =>
      if decide (net = []) then quit "Network name cannot be empty"
      else if decide (net = []) then quit "Command cannot be empty"
      else rn_ret (net, c)
  | _ => quit "usage"
  end.

Definition getNetworkName (params : list bytes) : cmd bytes :=
  match params with
  | [networkName] => if decide (networkName = []) then quit "Network name cannot be empty" else rn_ret networkName
  | _ => quit "usage"
  end.

Definition stat_root (E : cmd_env) (root : bytes) : cmd () :=
  let* _ := log_call (StatRoot root) in
  match en_exists (ce_node E) root with
  | Some true => rn_ret tt
  | Some false => quit "Could not find the Chainspace root directory"
  | None => quit "Unable to access the Chainspace root directory"
  end.

Definition create (E : cmd_env) (path : bytes) (e : string) : cmd () :=
  let* _ := log_call (CreateFile path) in
  if ce_create E path then rn_ret tt else quit e.

Definition cpu_profile (E : cmd_env) (path : bytes) : cmd () :=
  when (bool_decide (path <> []))
    (let* _ := create E path "Could not create CPU profile file" in log_call StartCPUProfile).

(** The handler that a command sets for its exit; [running] tells whether there
    is a node to shut down. *)
Definition exit_handler (E : cmd_env) (memProfile cpuProfile : bytes) (running : bool) : cmd () :=
  let* _ := when (bool_decide (memProfile <> []))
    (let* _ := create E memProfile "Could not create memory profile file" in
     let* _ := log_call RuntimeGC in
     let* _ := log_call WriteHeapProfile in
     if ce_heap E then rn_ret tt else quit "Could not write memory profile") in
  let* _ := when running (log_call Shutdown) in
  when (bool_decide (cpuProfile <> [])) (log_call StopCPUProfile).

(** The levels that the flags name. *)
Definition level_of (s : bytes) : option Z :=
  if decide (s = str "debug") then Some DebugLevel
  else if decide (s = str "error") then Some ErrorLevel
  else if decide (s = str "fatal") then Some FatalLevel
  else if decide (s = str "info") then Some InfoLevel
  else None.

(** [--console-log] with the level that holds without it. *)
Definition console_log (flag : bytes) (default : option Z) : cmd () :=
  if decide (flag <> []) then
    match level_of flag with
    | Some l => log_call (ToConsole l)
    | None => quit "Unknown --console-log level"
    end
  else match default with Some l => log_call (ToConsole l) | None => rn_ret tt end.

Definition set_FileLevel (l : Z) (n : NodeCfg) : NodeCfg :=
  let g := no_Logging n in
  MkNodeCfg (no_Announce n) (no_Bootstrap n) (no_Broadcast n) (no_Connections n) (no_Consensus n)
    (no_Contracts n) (no_DisableSBAC n) (no_HTTP n)
    (MkLogging (ConsoleLevel g) l (FilePath g) (ServerHost g) (ServerLevel g) (ServerToken g))
    (no_Pubsub n) (no_Registries n) (no_Storage n).

Definition file_log (flag : bytes) (n : NodeCfg) : cmd NodeCfg :=
  if decide (flag <> []) then
    match level_of flag with
    | Some l => rn_ret (set_FileLevel l n)
    | None => quit "Unknown --file-log level"
    end
  else rn_ret n.

(** The directory of a node below a root. *)
Definition run_root (E : cmd_env) (configRoot runtimeRoot : bytes) : bytes :=
  if decide (runtimeRoot <> []) then ce_expand E runtimeRoot else configRoot.
Definition node_name (nodeID : uint64) : bytes := str "node-" ++ fmt_d nodeID.

Section files.
Context {PN : Proto Network} {PC : Proto NodeCfg} {PK : Proto Keys} {PX : Proto ContractsCfg}.
Context (sha512_256 : bytes -> bytes) (AppendCertsFromPEM : bytes -> bool).

Definition load_network (root networkName : bytes) (d : disk) : cmd Network :=
  or_quit (LoadNetwork (Join [Join [root; networkName]; str "network.yaml"]) d) "Could not load network.yaml".

(** The files of a node. *)
Definition load_node (root networkName : bytes) (nodeID : uint64) (d : disk) : cmd (NodeCfg * Keys) :=
  let nodePath := Join [Join [root; networkName]; node_name nodeID] in
  let* n := or_quit (LoadNode (Join [nodePath; str "node.yaml"]) d) "Could not load node.yaml" in
  let* k := or_quit (LoadKeys (Join [nodePath; str "keys.yaml"]) d) "Could not load keys.yaml" in
  rn_ret (n, k).

(** [node.Run] with the [log.Fatal] for its errors, unless the process has ended
    already. *)
Definition start_node (E : cmd_env) (cfg : RunConfig) : cmd (Server * KeyPair * Topology) :=
  match Run sha512_256 AppendCertsFromPEM (ce_node E) cfg with
  | (tr, Fail e) =>
      match last tr with
      | Some Exit => (OfNode <$> tr, Fail e)
      | _ => ((OfNode <$> tr) ++ [EndProcess], Fail "Could not start node")
      end
  | m => of_node m
  end.

(** ** [run.go] *)

Record runOpts := MkRunOpts {
  ro_configRoot : bytes; ro_consoleLog : bytes; ro_cpuProfile : bytes; ro_fileLog : bytes; ro_memProfile : bytes;
  ro_runtimeRoot : bytes; ro_sbacOnly : bool; ro_checkerOnly : bool }.

(** A node that only checks: it has no consensus and no database. *)
Definition runCheckerOnly (E : cmd_env) (cfg : RunConfig) : cmd () :=
  let* maxPayload := or_quit (Int (nw_MaxPayload (rc_Network cfg))) "invalid maxpayload" in
  let* key := or_quit (load_signing_key (SigningKey (rc_Keys cfg))) "node: unable to load the signing.key from config" in
  let N := ce_node E in
  of_node
    (let* _ := try_fatal N ContractsNew "unable to instantiate contacts" in
     let* _ := when (nc_Manage (no_Contracts (rc_Node cfg))) (try_fatal N ContractsStart "unable to start contracts") in
     let* _ := try_fatal N ContractsEnsureUp "some contracts are unavailable, run `chainspace contracts <yournetworkname> create`" in
     let* _ := try_fatal N (CheckerNew (rc_Contracts cfg) (SigningKey (rc_Keys cfg))) "node unable to instantiate checker service: %v" in
     log_call (RestNew (if decide (0 < ht_Port (no_HTTP (rc_Node cfg))) then ht_Port (no_HTTP (rc_Node cfg)) else en_port N 0)
                 key maxPayload (rc_NodeID cfg) (rc_CheckerOnly cfg) (rc_SBACOnly cfg))).

(** [None] is a node that only checks. *)
Definition cmdRun (E : cmd_env) (o : runOpts) (params : list bytes) (d : disk) : cmd (option (Server * KeyPair * Topology)) :=
  let* p := getNetworkNameAndNodeID params in
  let '(networkName, nodeID) := p in
  let* _ := when (ro_sbacOnly o && ro_checkerOnly o)
    (quit "Cannot set the node as node-only and checker-only at the same time") in
  let* _ := stat_root E (ro_configRoot o) in
  let* netCfg := load_network (ro_configRoot o) networkName d in
  let* p := load_node (ro_configRoot o) networkName nodeID d in
  let '(nodeCfg, keys) := p in
  let* cts := or_quit (LoadContracts (Join [Join [ro_configRoot o; networkName]; str "contracts.yaml"]) d)
                "Could not load contracts.yaml" in
  let* _ := cpu_profile E (ro_cpuProfile o) in
  let* _ := console_log (ro_consoleLog o) (Some (ConsoleLevel (no_Logging nodeCfg))) in
  let* nodeCfg := file_log (ro_fileLog o) nodeCfg in
  let cfg := MkRunConfig (Join [run_root E (ro_configRoot o) (ro_runtimeRoot o); networkName; node_name nodeID])
    keys netCfg networkName nodeID nodeCfg cts (ro_checkerOnly o) (ro_sbacOnly o) in
  let* _ := log_call ListenPprof in
  let* r := if ro_checkerOnly o then let* _ := runCheckerOnly E cfg in rn_ret None
            else
              let* s := start_node E cfg in rn_ret (Some s) in
  let* _ := log_call SetExitHandler in
  rn_ret r.

(** ** [genload.go]: the node of the load generator *)

Record loadOpts := MkLoadOpts {
  lo_configRoot : bytes; lo_cpuProfile : bytes; lo_initialRate : goint; lo_fixedTPS : goint;
  lo_rateDecrease : float64; lo_rateIncrease : goint; lo_runtimeRoot : bytes; lo_txSize : goint;
  lo_expectedLatency : float64 }.

(** The settings that are changed: the rate limit, no transaction service, and
    the log. *)
Definition load_settings (o : loadOpts) (n : NodeCfg) : NodeCfg :=
  let c := no_Consensus n in
  set_FileLevel InfoLevel
    (MkNodeCfg (no_Announce n) (no_Bootstrap n) (no_Broadcast n) (no_Connections n)
       (MkNodeConsensus (DriftTolerance c) (InitialWorkDuration c)
          (MkRateLimit (lo_initialRate o) (lo_rateDecrease o) (lo_rateIncrease o)))
       (no_Contracts n) true (no_HTTP n) (no_Logging n) (no_Pubsub n) (no_Registries n) (no_Storage n)).

(** The node is returned with the size of the transactions and whether the rate
    follows the latency. *)
Definition cmdGenLoad (E : cmd_env) (o : loadOpts) (params : list bytes) (d : disk) : cmd (Server * KeyPair * Topology) :=
  let* p := getNetworkNameAndNodeID params in
  let '(networkName, nodeID) := p in
  let* _ := when (SFltb (lo_rateDecrease o) (S754_zero false) || SFltb (S754_finite false 1 0) (lo_rateDecrease o))
    (quit "chainspace genload: the --rate-decr value must be between 0 and 1.0") in
  let* _ := stat_root E (lo_configRoot o) in
  let* netCfg := load_network (lo_configRoot o) networkName d in
  let* p := load_node (lo_configRoot o) networkName nodeID d in
  let '(nodeCfg, keys) := p in
  let* _ := cpu_profile E (lo_cpuProfile o) in
  let nodeCfg := load_settings o nodeCfg in
  let cfg := MkRunConfig (Join [run_root E (lo_configRoot o) (lo_runtimeRoot o); networkName; node_name nodeID])
    keys netCfg networkName nodeID nodeCfg (MkContractsCfg [] [] []) false false in
  let* _ := log_call (ToConsole InfoLevel) in
  let* _ := when (bool_decide (lo_txSize o < 16)) (quit "The --tx-size value must be at least 16 bytes") in
  let* s := start_node E cfg in
  let* _ := log_call SetExitHandler in
  rn_ret s.

(** ** [interpret.go] *)

Record interpretOpts := MkInterpretOpts {
  io_configRoot : bytes; io_consoleLog : bytes; io_cpuProfile : bytes; io_runtimeRoot : bytes }.

(** The file of the results and whether it is closed. *)
Record results_file := MkResultsFile { rf_closed : bool; rf_data : bytes }.

Definition node_le (x y : BlockID) : Prop := Messages.Node x <= Messages.Node y.
#[export] Instance node_le_dec x y : Decision (node_le x y).
Proof. unfold node_le. apply _. Defined.

(** The callback: the blocks in the order of their nodes, in JSON, followed by a
    zero byte and a newline. *)
Definition interpreted_cb (json : Interpreted -> go bytes) (res : Interpreted) (f : results_file) : go results_file :=
  let res := MkInterpreted (merge_sort node_le (in_Blocks res)) (in_Consumed res) (in_Round res) in
  if rf_closed f then Ret f else
  match json res with
  | Ret data => Ret (MkResultsFile false (rf_data f ++ data ++ [0; 10]))
  | _ => Fail "Could not encode interpreted results as JSON"
  end.

(** The handler at the exit closes the file. *)
Definition interpret_exit (E : cmd_env) (memProfile cpuProfile : bytes) (f : results_file) : cmd results_file :=
  let* _ := exit_handler E memProfile cpuProfile false in rn_ret (MkResultsFile true (rf_data f)).

(** Up to the replay: the graph with everything that was stored added to it;
    [db] is the database of the node. *)
Definition cmdInterpret (E : cmd_env) (o : interpretOpts) (fuel : nat) (F : Faults) (db : bytes -> contents)
    (params : list bytes) (d : disk) : cmd Graph :=
  let* p := getNetworkNameAndNodeID params in
  let '(networkName, nodeID) := p in
  let* _ := stat_root E (io_configRoot o) in
  let* netCfg := load_network (io_configRoot o) networkName d in
  let* top := or_quit (new_topology sha512_256 AppendCertsFromPEM networkName netCfg)
                "Unable to initialise the network topology" in
  let* shardID := pure (shardForNode nodeID top) in
  let* nodes := pure (nodesInShard shardID top) in
  let cfg := Graph.MkConfig 0 nodes nodeID 0 in
  let dir := Join [io_runtimeRoot o; networkName; node_name nodeID] in
  let* _ := create E (Join [dir; str "interpreted.state"]) "Could not create the interpreted.state file" in
  let* _ := cpu_profile E (io_cpuProfile o) in
  let* _ := console_log (io_consoleLog o) None in
  let* _ := log_call SetExitHandler in
  or_quit (Replay F fuel nodeID (Graph.New cfg) 0 10 (db dir)) "Could not replay graph".

(** ** [blockmaniatest/main.go] *)

Record testOpts := MkTestOpts {
  to_configRoot : bytes; to_runtimeRoot : bytes; to_networkName : bytes; to_outdir : bytes; to_nodeID : uint64 }.

Definition test_ensureDir (E : cmd_env) (path : bytes) : cmd () :=
  let* _ := log_call (StatRoot path) in
  match en_exists (ce_node E) path with
  | Some true => rn_ret tt
  | Some false =>
      let* _ := log_call (Mkdir path) in
      if ce_mkdir E path then rn_ret tt else quit "unable to create results output dir: %v"
  | None => quit "unable to create results output dir: %v"
  end.

(** No transaction service, and only fatal errors are logged. *)
Definition test_settings (n : NodeCfg) : NodeCfg :=
  let g := no_Logging n in
  MkNodeCfg (no_Announce n) (no_Bootstrap n) (no_Broadcast n) (no_Connections n) (no_Consensus n)
    (no_Contracts n) true (no_HTTP n)
    (MkLogging FatalLevel FatalLevel (FilePath g) (ServerHost g) (ServerLevel g) (ServerToken g))
    (no_Pubsub n) (no_Registries n) (no_Storage n).

Definition test_outfile (o : testOpts) : bytes :=
  Join [to_outdir o; str "blockmaniatest-results-node" ++ fmt_d (to_nodeID o) ++ str ".json"].

(** [main] up to the start of the test. *)
Definition test_main (E : cmd_env) (o : testOpts) (d : disk) : cmd (Server * KeyPair * Topology) :=
  let noName := bool_decide (to_networkName o = []) in
  let noID := bool_decide (to_nodeID o <= 0) in
  let* _ := when noName (log_call (PrintOut (str "missing mandatory argument `network`" ++ [10]))) in
  let* _ := when noID (log_call (PrintOut (str "missing mandatory argument `nodeid`" ++ [10]))) in
  let* _ := when (noName || noID) (quit "usage") in
  let* _ := test_ensureDir E (to_outdir o) in
  let* _ := stat_root E (to_configRoot o) in
  let* netCfg := load_network (to_configRoot o) (to_networkName o) d in
  let* p := load_node (to_configRoot o) (to_networkName o) (to_nodeID o) d in
  let '(nodeCfg, keys) := p in
  start_node E (MkRunConfig
    (Join [run_root E (to_configRoot o) (to_runtimeRoot o); to_networkName o; node_name (to_nodeID o)])
    keys netCfg (to_networkName o) (to_nodeID o) (test_settings nodeCfg) (MkContractsCfg [] [] []) false false).

(** After the test: [writeResults]. *)
Definition test_end (E : cmd_env) (json : testresults -> go bytes) (o : testOpts)
    (tr : testrunner) : cmd () :=
  let* _ := log_call Shutdown in
  let* b := or_quit (json (results tr)) "unable to marshal test results: %v" in
  let* _ := log_call (WriteOut (test_outfile o) b) in
  if ce_create E (test_outfile o) then rn_ret tt else quit "unable to write test results to file: %v".

(** ** [contracts.go] *)

Definition cmdContracts (E : cmd_env) (configRoot : bytes) (params : list bytes) (d : disk) : cmd () :=
  let* p := getRequiredParams params in
  let '(networkName, c) := p in
  let* _ := stat_root E configRoot in
  let* cfg := or_quit (LoadContracts (Join [Join [configRoot; networkName]; str "contracts.yaml"]) d)
                "Could not load contracts.yaml" in
  let* _ := of_node (try_fatal (ce_node E) ContractsNew "unable to instantiate contacts") in
  if decide (c = str "create") then of_node (try_fatal (ce_node E) ContractsStart "unable to start contracts")
  else if decide (c = str "destroy") then
    let* _ := log_call ContractsStop in
    (if ce_stop E then rn_ret tt else quit "uable to stop contracts")
  else quit "invalid/unknown command".

(** ** [sbac.go] *)

Record sbacOpts := MkSbacOpts {
  so_configRoot : bytes; so_consoleLog : bytes; so_payloadPath : bytes; so_object : bytes; so_key : bytes }.

Definition readkey (s : bytes) : cmd bytes :=
  let '(b, err) := DecodeString s in
  if err : bool then quit "unable to read key" else rn_ret b.

(** The answers of the network to the client, and JSON of transactions and of
    objects. *)
Context {V : Type} (Query : Topology -> bytes -> go (list SbacStore.Object)) (Create : Topology -> bytes -> go (list bytes)).
Context (parse_tx : bytes -> go Api.Transaction) (parse_value : bytes -> go V) (json_object : Api.Object V -> go bytes).

(** [fmt.Printf("%v\n", ...)]. *)
Definition println (out : bytes) : cmd () := log_call (PrintOut (out ++ [10])).

(** The transaction is read and translated, whatever the outcome, and not sent. *)
Definition sbac_add (o : sbacOpts) (d : disk) : cmd () :=
  if decide (so_payloadPath o = []) then quit "missing required payload path" else
  let* payload := or_quit (ReadFile (so_payloadPath o) d) "Unable to read payload file" in
  let* tx := or_quit (parse_tx payload) "Invalid payload format for transaction" in
  match ToSBAC Validate tx with
  | Crash => pure Crash
  | _ => println (str "[]")
  end.

Definition sbac_query (o : sbacOpts) (top : Topology) : cmd () :=
  if decide (so_key o = []) then quit "missing object key" else
  let* keybytes := readkey (so_key o) in
  let* objs := or_quit (Query top keybytes) "unable to query object" in
  let* obj := or_quit (BuildObjectResponse parse_value objs) "error building result" in
  let* b := or_quit (json_object obj) "unable to marshal result" in
  println b.

Definition quote : bytes := [34].
Definition sbac_create (o : sbacOpts) (top : Topology) : cmd () :=
  if decide (so_object o = []) then quit "missing object key" else
  let* objbytes := readkey (so_object o) in
  let* ids := or_quit (Create top objbytes) "unable to query object" in
  match ids with
  | [] => pure Crash
  | id0 :: _ =>
      if forallb (fun v => bool_decide (v = id0)) ids
      then println (str "{" ++ quote ++ str "id" ++ quote ++ str ":" ++ quote ++ EncodeToString id0 ++ quote ++ str "}")
      else quit "error building result"
  end.

Definition cmdSBAC (E : cmd_env) (o : sbacOpts) (params : list bytes) (d : disk) : cmd () :=
  let* p := getRequiredParams params in
  let '(networkName, c) := p in
  let* _ := stat_root E (so_configRoot o) in
  let* netCfg := load_network (so_configRoot o) networkName d in
  let* _ := console_log (so_consoleLog o) None in
  let* top := or_quit (new_topology sha512_256 AppendCertsFromPEM networkName netCfg) "Could not initalize network" in
  let* _ := log_call (OfNode BootstrapMDNS) in
  if decide (c = str "add") then sbac_add o d
  else if decide (c = str "query") then sbac_query o top
  else if decide (c = str "create") then sbac_create o top
  else quit "invalid/unknown command".

(** ** [check.go] *)

Definition typeCheckOnly (tx : Api.Transaction) : cmd bool :=
  let* t := or_quit (ToSBAC Validate tx) "invalid transaction" in
  let* _ := or_quit (TypeCheck t) "invalid transaction" in
  rn_ret true.

Definition fullCheck (tx : Api.Transaction) (networkName : bytes) : bool := true.

(** What [fullCheck] returns is not used. *)
Definition cmdCheck (typecheckOnly : bool) (transaction : bytes) (params : list bytes) (d : disk) : cmd () :=
  let* networkName := getNetworkName params in
  if decide (transaction = []) then quit "missing transaction path" else
  let* b := or_quit (ReadFile transaction d) "unable to read transaction" in
  let* tx := or_quit (parse_tx b) "unable to unmarshal transction" in
  let* result := if typecheckOnly then typeCheckOnly tx else (let _ := fullCheck tx networkName in rn_ret false) in
  println (if result : bool then str "true" else str "false").
End files.
