(* ===== verification/CommandsProps.v ===== *)
(** * CommandsProps: what the commands do

    A node of an initialised network is started by the command that runs it; a
    command that fails ends the process; what the commands that inspect a network
    print and write. *)
From Stdlib Require Import Floats.SpecFloat.
From S2P Require Import Prelude Traced Messages Graph Codec Database BroadcastStore Depgraph BroadcastSync Config.
From S2P Require Import Topology LogFields Base32 Base64 Signature Paths Settings SbacStore SbacTypes Sbac SbacService.
From S2P Require Import Checker CheckerProps SbacApi SbacApiProps Clients Init Node NodeRun NodeRunProps InitProps Rest.
From S2P Require Import Commands InitRun.

(** ** Commands return *)

Lemma returns_or_quit {A} (m : go A) x e : m = Ret x -> returns (or_quit m e) x.
Proof. intros ->. by eexists. Qed.
Lemma returns_of_node {A} (m : traced NodeRun.call A) x : returns m x -> returns (of_node m) x.
Proof. intros [tr ->]. by eexists. Qed.

(** An environment in which nothing fails and the root directory exists. *)
Definition cmd_permissive (E : cmd_env) : Prop :=
  permissive (ce_node E) /\ (forall p, en_exists (ce_node E) p = Some true) /\ (forall p, ce_create E p = true).

Section permissive.
Context (E : cmd_env) (HE : cmd_permissive E).

Lemma returns_stat_root root : returns (stat_root E root) tt.
Proof using HE. unfold stat_root. eapply traced_bind; [apply returns_log|]. rewrite (proj1 (proj2 HE)). apply returns_ret. Qed.
Lemma returns_create path e : returns (create E path e) tt.
Proof using HE. unfold create. eapply traced_bind; [apply returns_log|]. rewrite (proj2 (proj2 HE)). apply returns_ret. Qed.
Lemma returns_cpu_profile path : returns (cpu_profile E path) tt.
Proof using HE. apply returns_when. intros _. eapply traced_bind; [apply returns_create|apply returns_log]. Qed.
End permissive.

Lemma returns_test_ensureDir E path : cmd_permissive E -> returns (test_ensureDir E path) tt.
Proof. intros HE. unfold test_ensureDir. eapply traced_bind; [apply returns_log|]. rewrite (proj1 (proj2 HE)). apply returns_ret. Qed.

Lemma returns_console_log flag level : level_of flag <> None \/ flag = [] -> returns (console_log flag (Some level)) tt.
Proof.
  intros Hf. unfold console_log. case_decide as Hd; [|apply returns_log].
  destruct (level_of flag); [apply returns_log|naive_solver].
Qed.
Lemma returns_file_log flag n : level_of flag <> None \/ flag = [] ->
  exists n', returns (file_log flag n) n' /\ no_Bootstrap n' = no_Bootstrap n.
Proof.
  intros Hf. unfold file_log. case_decide as Hd; [|eexists; split; [apply returns_ret|done]].
  destruct (level_of flag); [eexists; split; [apply returns_ret|done]|naive_solver].
Qed.
Lemma returns_params name i : name <> [] -> is_u64 i -> returns (getNetworkNameAndNodeID [name; fmt_d i]) (name, i).
Proof.
  intros Hn Hi. unfold getNetworkNameAndNodeID. rewrite decide_False by done.
  eapply traced_bind; [by apply returns_or_quit, ParseUint_fmt_d|apply returns_ret].
Qed.

#[export] Hint Resolve returns_stat_root returns_create returns_cpu_profile returns_console_log returns_params : returns.

(** ** From [init] to [run] *)

Section network.
Context `{ProtoOk Keys, ProtoOk NodeCfg, ProtoOk Network, ProtoOk ContractsCfg}.
Context (creatable : bytes -> bool).
Context (GenerateKey : uint64 -> go (bytes * bytes)) (certs : uint64 -> certTools) (sha512_256 : bytes -> bytes).
Context (AppendCertsFromPEM : bytes -> bool) (ed_Sign : bytes -> bytes -> bytes) (ed_Verify : bytes -> bytes -> bytes -> bool).

Abbreviation ok := (libraries_ok GenerateKey certs sha512_256 AppendCertsFromPEM ed_Sign ed_Verify).
Abbreviation init := (cmdInit creatable GenerateKey certs sha512_256).
Abbreviation netDir o name := (Join [configRoot o; name]).

Lemma contracts_load o name token d d' : init o name token d = Ret d' ->
  LoadContracts (Join [netDir o name; str "contracts.yaml"]) d' = Ret default_contracts.
Proof using All.
  unfold cmdInit. intros Hc. apply go_bind_Ret in Hc as (d0 & _ & Hc). apply go_bind_Ret in Hc as (d1 & _ & Hc).
  apply go_bind_Ret in Hc as (regs & _ & Hc). apply go_bind_Ret in Hc as ([d2 peers] & _ & Hc). cbv zeta in Hc.
  apply go_bind_Ret in Hc as (id & _ & Hc). apply go_bind_Ret in Hc as (d3 & _ & Hc%or_fail_inv).
  apply write_encoded_inv in Hc as (c & Hm & Hf). eapply Load_inv; [|exact Hm]. by rewrite Hf, lookup_insert_eq.
Qed.

(** Flags that name no unknown level and do not ask for both roles. *)
Definition flags_ok (o : runOpts) : Prop :=
  (level_of (ro_consoleLog o) <> None \/ ro_consoleLog o = []) /\
  (level_of (ro_fileLog o) <> None \/ ro_fileLog o = []) /\ ro_checkerOnly o = false.
Definition load_flags_ok (o : loadOpts) : Prop :=
  SFltb (lo_rateDecrease o) (S754_zero false) = false /\ SFltb (S754_finite false 1 0) (lo_rateDecrease o) = false /\
  16 <= lo_txSize o.

(** The key pair that was generated for a node, and the public keys of exactly the
    nodes of the network. *)
Definition comes_up (o : initOpts) (i : uint64) (res : Server * KeyPair * Topology) : Prop :=
  GenerateKey i = Ret (kp_pub res.1.2, kp_priv res.1.2) /\
  forall j, is_Some (SeedPublicKeys res.2 !! j) <-> 1 <= j <= o_shardCount o * o_shardSize o.

(** The files of an initialised network load, and a node starts with its files,
    whatever a command changes in its settings except the bootstrap file. *)
Lemma initialised_node_starts o name token d d' E i :
  init o name token d = Ret d' -> ok name -> plain name -> configRoot o <> [] -> sizes_ok o ->
  1 <= i <= o_shardCount o * o_shardSize o -> cmd_permissive E ->
  exists net n k, LoadNetwork (Join [netDir o name; str "network.yaml"]) d' = Ret net /\
    LoadNode (Join [node_dir (netDir o name) i; str "node.yaml"]) d' = Ret n /\
    LoadKeys (Join [node_dir (netDir o name) i; str "keys.yaml"]) d' = Ret k /\
    forall root n' cts b1 b2, no_Bootstrap n' = no_Bootstrap n ->
      exists res, comes_up o i res /\
        returns (start_node sha512_256 AppendCertsFromPEM E (MkRunConfig (Join [root; name; node_name i]) k net name i n' cts b1 b2)) res.
Proof using All.
  intros Hinit Hok Hname Hroot Hs Hi HE.
  destruct (network_loads _ _ _ _ _ _ _ o name token d d' Hinit Hok Hname Hroot Hs)
    as (net & top & regs & Hnet & Hcons & Hmax & Htop & Hin & Hout).
  destruct (Htop name) as (t & Ht & Hnodes & Htok & Htot).
  destruct (Hin i Hi) as (pub & priv & cert & Hk & Hn & Hg & Hp).
  eexists net, _, _. split_and!; [exact Hnet|exact Hn|exact Hk|]. intros root n' cts b1 b2 Hb. set (cfg := MkRunConfig _ _ _ _ _ _ _ _ _).
  pose proof (load_signing_key_config GenerateKey certs sha512_256 AppendCertsFromPEM ed_Sign ed_Verify name i pub priv cert Hok Hg) as Hl.
  destruct (Run_returns sha512_256 AppendCertsFromPEM (ce_node E) cfg t (MkKeyPair pub priv) (128 * MB) (net_consensus o))
    as ([[srv key] top'] & tr & Hrun); cbn [cfg rc_Directory rc_Node rc_NetworkName rc_Network rc_NodeID rc_Keys]; try done.
  { apply HE. }
  { apply Join_nonempty'. do 2 right. left. by destruct (node_name_plain i). }
  { by rewrite Hb. }
  { by rewrite Htot. }
  { by rewrite Hmax. }
  pose proof (Run_inv _ _ _ _ _ _ _ _ Hrun) as (top0 & cons & Ht0 & Hnt & Hl' & _).
  cbn [cfg rc_Keys rc_NetworkName rc_Network] in Hl', Ht0. rewrite Hl in Hl'. injection Hl' as <-.
  rewrite Ht in Ht0. injection Ht0 as <-.
  exists (srv, MkKeyPair pub priv, top'). split; [split; [exact Hg|]|unfold start_node; rewrite Hrun; by eexists].
  intros j. cbn [snd]. unfold SeedPublicKeys. rewrite Hnt, Hnodes. split.
  - intros [k Hj]. destruct (decide (1 <= j <= o_shardCount o * o_shardSize o)) as [|Hn']; [done|].
    by rewrite (Hout j Hn') in Hj.
  - intros Hj. destruct (Hin j Hj) as (pub' & ? & ? & _ & _ & _ & Hp'). by exists pub'.
Qed.

Lemma returns_load_network root name d net :
  LoadNetwork (Join [Join [root; name]; str "network.yaml"]) d = Ret net -> returns (load_network root name d) net.
Proof using Type. apply returns_or_quit. Qed.
Lemma returns_load_node root name i d n k :
  LoadNode (Join [node_dir (Join [root; name]) i; str "node.yaml"]) d = Ret n ->
  LoadKeys (Join [node_dir (Join [root; name]) i; str "keys.yaml"]) d = Ret k -> returns (load_node root name i d) (n, k).
Proof using Type.
  intros Hn Hk. unfold load_node. eapply traced_bind; [apply returns_or_quit, Hn|].
  eapply traced_bind; [apply returns_or_quit, Hk|apply returns_ret].
Qed.

(** C38. What [chainspace init] has written for a network, [chainspace run] and the
    two load generators start: for each of its nodes, with any flags that are in
    order and when nothing outside fails, the node comes up with the key pair
    that was generated for it and the public keys of exactly the nodes of the
    network. *)
Theorem init_then_run o name token d d' E r l t i :
  init o name token d = Ret d' -> ok name -> plain name -> configRoot o <> [] -> sizes_ok o ->
  1 <= i <= o_shardCount o * o_shardSize o -> cmd_permissive E ->
  ro_configRoot r = configRoot o -> flags_ok r -> lo_configRoot l = configRoot o -> load_flags_ok l ->
  to_configRoot t = configRoot o -> to_networkName t = name -> to_nodeID t = i ->
  (exists res, comes_up o i res /\ returns (cmdRun sha512_256 AppendCertsFromPEM E r [name; fmt_d i] d') (Some res)) /\
  (exists res, comes_up o i res /\ returns (cmdGenLoad sha512_256 AppendCertsFromPEM E l [name; fmt_d i] d') res) /\
  (exists res, comes_up o i res /\ returns (test_main sha512_256 AppendCertsFromPEM E t d') res).
Proof using All.
  intros Hinit Hok Hname Hroot Hs Hi HE Hr (Hf1 & Hf2 & Hf3) Hlr (Hl1 & Hl2 & Hl3) Htr Htn Hti.
  destruct (initialised_node_starts o name token d d' E i Hinit Hok Hname Hroot Hs Hi HE) as (net & n & k & Hnet & Hn & Hk & Hrun).
  assert (is_u64 i) as Hiu by (destruct Hs as (? & ? & ?); split; nia). assert (name <> []) as Hne by by destruct Hname.
  split_and!.
  - destruct (returns_file_log (ro_fileLog r) n Hf2) as (n' & Hfl & Hb).
    destruct (Hrun (run_root E (ro_configRoot r) (ro_runtimeRoot r)) n' default_contracts (ro_checkerOnly r) (ro_sbacOnly r) Hb) as (res & Hup & Hres).
    exists res. split; [done|]. unfold cmdRun. eapply traced_bind; [by apply returns_params|]. cbv beta iota.
    eapply traced_bind; [apply returns_when; rewrite Hf3; by destruct (ro_sbacOnly r)|].
    eapply traced_bind; [by auto with returns|]. rewrite Hr in Hres |- *.
    eapply traced_bind; [by apply returns_load_network|]. eapply traced_bind; [by apply returns_load_node|].
    cbv beta iota. eapply traced_bind; [apply returns_or_quit; by eapply contracts_load|].
    eapply traced_bind; [by auto with returns|]. eapply traced_bind; [by auto with returns|].
    eapply traced_bind; [exact Hfl|]. eapply traced_bind; [apply returns_log|].
    eapply traced_bind; [|eapply traced_bind; [apply returns_log|apply returns_ret]].
    rewrite Hf3 in Hres |- *. eapply traced_bind; [exact Hres|apply returns_ret].
  - destruct (Hrun (run_root E (lo_configRoot l) (lo_runtimeRoot l)) (load_settings l n) (MkContractsCfg [] [] []) false false eq_refl)
      as (res & Hup & Hres). exists res. split; [done|].
    unfold cmdGenLoad. eapply traced_bind; [by apply returns_params|]. cbv beta iota.
    eapply traced_bind; [apply returns_when; by rewrite Hl1, Hl2|].
    eapply traced_bind; [by auto with returns|]. rewrite Hlr in Hres |- *.
    eapply traced_bind; [by apply returns_load_network|]. eapply traced_bind; [by apply returns_load_node|].
    cbv beta iota. eapply traced_bind; [by auto with returns|]. eapply traced_bind; [apply returns_log|].
    eapply traced_bind; [apply returns_when; rewrite bool_decide_false by lia; done|].
    eapply traced_bind; [exact Hres|]. eapply traced_bind; [apply returns_log|apply returns_ret].
  - destruct (Hrun (run_root E (to_configRoot t) (to_runtimeRoot t)) (test_settings n) (MkContractsCfg [] [] []) false false eq_refl)
      as (res & Hup & Hres). exists res. split; [done|]. subst i name.
    unfold test_main. cbv zeta. rewrite (bool_decide_false (to_networkName t = [])) by done.
    rewrite (bool_decide_false (to_nodeID t <= 0)) by lia. do 3 (eapply traced_bind; [by apply returns_when|]).
    eapply traced_bind; [by apply returns_test_ensureDir|]. eapply traced_bind; [by auto with returns|]. rewrite Htr in Hres |- *.
    eapply traced_bind; [by apply returns_load_network|]. eapply traced_bind; [by apply returns_load_node|]. exact Hres.
Qed.
End network.

(** ** Commands that fail *)

(** The last call ends the process. *)
Definition ended (tr : list cmd_call) : Prop := last tr = Some EndProcess \/ last tr = Some (OfNode Exit).
Definition ends {A} (m : traced cmd_call A) : Prop := forall tr e, m = (tr, Fail e) -> ended tr.

Lemma ends_bind {A B} (m : traced cmd_call A) (f : A -> traced cmd_call B) : ends m -> (forall x, ends (f x)) -> ends (rn_bind m f).
Proof.
  intros Hm Hf tr e [H|(tr1 & tr2 & x & _ & H & ->)]%rn_bind_Fail; [by eapply Hm|].
  unfold ended. destruct (Hf x tr2 e H) as [Hl|Hl]; [left|right]; by rewrite last_app, Hl.
Qed.
Lemma ends_ret {A} (x : A) : ends (rn_ret x).
Proof. by intros tr e. Qed.
Lemma ends_quit {A} e : ends (quit (A := A) e).
Proof. intros tr e' [= <- _]. by left. Qed.
Lemma ends_or_quit {A} (m : go A) e : ends (or_quit m e).
Proof. destruct m; cbn; [apply ends_ret|apply ends_quit|by intros tr e']. Qed.
Lemma ends_log c : ends (log_call c).
Proof. by intros tr e. Qed.
Lemma ends_when b m : ends m -> ends (when b m).
Proof. destruct b; [done|]. intros _. apply ends_ret. Qed.
Lemma ends_if {A} (b : bool) (m k : traced cmd_call A) : ends m -> ends k -> ends (if b then m else k).
Proof. by destruct b. Qed.
Lemma ends_decide {A} (P : Prop) `{!Decision P} (m k : traced cmd_call A) : ends m -> ends k -> ends (if decide P then m else k).
Proof. by destruct (decide P). Qed.

Create HintDb ends discriminated.
#[export] Hint Resolve ends_bind ends_ret ends_quit ends_or_quit ends_log ends_when ends_if ends_decide : ends.

Lemma ends_level (flag : bytes) {A} (f : Z -> traced cmd_call A) m : (forall l, ends (f l)) -> ends m ->
  ends (match level_of flag with Some l => f l | None => m end).
Proof. by destruct (level_of flag). Qed.
Lemma ends_stat_root E root : ends (stat_root E root).
Proof. apply ends_bind; [apply ends_log|]. intros _. destruct (en_exists _ _) as [[]|]; auto with ends. Qed.
Lemma ends_cpu_profile E path : ends (cpu_profile E path).
Proof. unfold cpu_profile, create. auto 6 with ends. Qed.
Lemma ends_console_log flag l : ends (console_log flag l).
Proof. unfold console_log. apply ends_decide; [apply ends_level; auto with ends|]. destruct l; auto with ends. Qed.
Lemma ends_file_log flag n : ends (file_log flag n).
Proof. unfold file_log. apply ends_decide; [apply ends_level|]; auto with ends. Qed.
Lemma ends_params params : ends (getNetworkNameAndNodeID params).
Proof. unfold getNetworkNameAndNodeID. do 3 (destruct params as [|? params]; auto with ends). Qed.

Lemma last_OfNode tr c : last tr = Some c -> last (OfNode <$> tr) = Some (OfNode c).
Proof. intros H. by rewrite fmap_last, H. Qed.

Section fails.
Context {PN : Proto Network} {PC : Proto NodeCfg} {PK : Proto Keys} {PX : Proto ContractsCfg}.
Context (sha512_256 : bytes -> bytes) (AppendCertsFromPEM : bytes -> bool) (E : cmd_env).

Lemma ends_start_node cfg : ends (start_node sha512_256 AppendCertsFromPEM E cfg).
Proof.
  intros tr e. unfold start_node. destruct (Run _ _ _ cfg) as [tr' [r|e'|]] eqn:Hr; [by cbn| |by cbn].
  destruct (last tr') as [c|] eqn:Hl; [destruct c|]; intros [= <- _]; try (left; by rewrite last_snoc).
  right. by apply last_OfNode.
Qed.

Lemma ends_of_node {A} (m : traced NodeRun.call A) : (forall tr e, m = (tr, Fail e) -> last tr = Some Exit) -> ends (of_node m).
Proof. intros Hm tr e. destruct m as [tr' r]. intros [= <- ->]. right. by apply last_OfNode, (Hm _ e). Qed.

Lemma exits_bind {A B} (m : traced NodeRun.call A) (f : A -> traced NodeRun.call B) :
  (forall tr e, m = (tr, Fail e) -> last tr = Some Exit) ->
  (forall x tr e, f x = (tr, Fail e) -> last tr = Some Exit) ->
  forall tr e, rn_bind m f = (tr, Fail e) -> last tr = Some Exit.
Proof.
  intros Hm Hf tr e [H|(tr1 & tr2 & x & _ & H & ->)]%rn_bind_Fail; [by eapply Hm|]. by rewrite last_app, (Hf x tr2 e H).
Qed.
Lemma exits_try_fatal N c e : forall tr e', try_fatal N c e = (tr, Fail e') -> last tr = Some Exit.
Proof. intros tr e'. unfold try_fatal. destruct (en_ok N c); [done|]. by intros [= <- _]. Qed.

Lemma ends_runCheckerOnly cfg : ends (runCheckerOnly E cfg).
Proof.
  unfold runCheckerOnly. apply ends_bind; [apply ends_or_quit|]. intros mp. apply ends_bind; [apply ends_or_quit|]. intros key.
  apply ends_of_node. repeat (apply exits_bind; [|intros _]); try apply exits_try_fatal; [|done].
  unfold when. destruct (nc_Manage _); [apply exits_try_fatal|done].
Qed.

Lemma ends_load_network root name d : ends (load_network root name d).
Proof. apply ends_or_quit. Qed.
Lemma ends_load_node root name i d : ends (load_node root name i d).
Proof. unfold load_node. auto 8 with ends. Qed.
Lemma ends_test_ensureDir path : ends (test_ensureDir E path).
Proof.
  unfold test_ensureDir. apply ends_bind; [apply ends_log|]. intros _. destruct (en_exists _ _) as [[]|]; auto with ends.
Qed.
#[local] Hint Resolve ends_params ends_stat_root ends_load_network ends_load_node ends_cpu_profile ends_console_log
  ends_file_log ends_runCheckerOnly ends_start_node ends_test_ensureDir : ends.

Lemma ends_cmdRun o params d : ends (cmdRun sha512_256 AppendCertsFromPEM E o params d).
Proof.
  apply ends_bind; [auto with ends|]. intros [name i].
  do 3 (apply ends_bind; [auto with ends|]; intros ?). apply ends_bind; [auto with ends|]. intros [n k].
  do 5 (apply ends_bind; [auto with ends|]; intros ?). apply ends_bind; [|auto with ends].
  apply ends_if; apply ends_bind; auto with ends.
Qed.
Lemma ends_cmdGenLoad o params d : ends (cmdGenLoad sha512_256 AppendCertsFromPEM E o params d).
Proof.
  apply ends_bind; [auto with ends|]. intros [name i].
  do 3 (apply ends_bind; [auto with ends|]; intros ?). apply ends_bind; [auto with ends|]. intros [n k].
  repeat (apply ends_bind; [auto with ends|]; intros ?). apply ends_ret.
Qed.
Lemma ends_test_main o d : ends (test_main sha512_256 AppendCertsFromPEM E o d).
Proof.
  unfold test_main. cbv zeta. do 6 (apply ends_bind; [auto with ends|]; intros ?).
  apply ends_bind; [auto with ends|]. intros [n k]. auto with ends.
Qed.
Lemma ends_cmdContracts root params d : ends (cmdContracts E root params d).
Proof.
  unfold cmdContracts. apply ends_bind; [|intros [name c]].
  { unfold getRequiredParams. do 3 (destruct params as [|? params]; auto with ends). }
  do 2 (apply ends_bind; [auto with ends|]; intros ?).
  apply ends_bind; [apply ends_of_node, exits_try_fatal|]. intros _.
  apply ends_decide; [apply ends_of_node, exits_try_fatal|]. auto with ends.
Qed.

(** A command that fails has ended the process: its last call is that of
    [log.Fatal] or [os.Exit], so nothing it has started goes on running. *)
Theorem failed_command_ends_process o l t root params d tr e :
  cmdRun sha512_256 AppendCertsFromPEM E o params d = (tr, Fail e) \/
  cmdGenLoad sha512_256 AppendCertsFromPEM E l params d = (tr, Fail e) \/
  test_main sha512_256 AppendCertsFromPEM E t d = (tr, Fail e) \/
  cmdContracts E root params d = (tr, Fail e) -> ended tr.
Proof.
  intros [H|[H|[H|H]]]; revert H; [apply ends_cmdRun|apply ends_cmdGenLoad|apply ends_test_main|apply ends_cmdContracts].
Qed.

(** At the exit the node is shut down and the profile of the CPU is complete,
    unless a memory profile is asked for that cannot be written: then neither
    happens. *)
Lemma exit_shuts_down mem cpu :
  (mem = [] \/ ce_create E mem = true /\ ce_heap E = true ->
     returns (exit_handler E mem cpu true) tt /\ Shutdown ∈ (exit_handler E mem cpu true).1 /\
     (cpu <> [] -> last (exit_handler E mem cpu true).1 = Some StopCPUProfile)) /\
  (mem <> [] -> ce_create E mem && ce_heap E = false ->
     ended (exit_handler E mem cpu true).1 /\ Shutdown ∉ (exit_handler E mem cpu true).1).
Proof.
  unfold exit_handler, create. split.
  - intros Hm. destruct (decide (mem = [])) as [->|Hne]; [|destruct Hm as [?|[Hc Hh]]; [done|rewrite Hc, Hh]].
    + destruct (decide (cpu = [])) as [->|Hcpu]; cbn; [|rewrite bool_decide_true by done; cbn];
        (split; [by eexists|]); (split; [by repeat constructor|done]).
    + rewrite bool_decide_true by done. destruct (decide (cpu = [])) as [->|Hcpu]; cbn; [|rewrite bool_decide_true by done; cbn];
        (split; [by eexists|]); (split; [by do 3 right; left|done]).
  - intros Hne Hf. rewrite bool_decide_true by done. unfold ended. destruct (ce_create E mem), (ce_heap E); try done; cbn;
      (split; [by left|]); set_solver.
Qed.
End fails.

(** ** Results of [interpret] *)

(** The file after the callback has been called with these rounds. *)
Fixpoint write_rounds (json : Interpreted -> go bytes) (rs : list Interpreted) (f : results_file) : go results_file :=
  match rs with [] => Ret f | r :: rs => f ← interpreted_cb json r f; write_rounds json rs f end.

(** The records of a file: what stands before a zero byte and a newline. *)
Fixpoint records (cur data : bytes) : list bytes :=
  match data with
  | [] => []
  | c :: data =>
      if c =? 0 then cur :: match data with [] => [] | _ :: data => records [] data end
      else records (cur ++ [c]) data
  end.

Lemma records_app cur x rest : 0 ∉ x -> records cur (x ++ [0; 10] ++ rest) = (cur ++ x) :: records [] rest.
Proof.
  revert cur. induction x as [|c x IH]; intros cur Hx; cbn [app records]; [by rewrite app_nil_r|].
  apply not_elem_of_cons in Hx as [Hc Hx]. rewrite (proj2 (Z.eqb_neq c 0)) by done. by rewrite IH, <-app_assoc.
Qed.

(** The round as it is written: its blocks in the order of their nodes. *)
Definition sorted_round (r : Interpreted) : Interpreted :=
  MkInterpreted (merge_sort node_le (in_Blocks r)) (in_Consumed r) (in_Round r).

(** A round has JSON without zero bytes that is read back. *)
Definition json_ok (json : Interpreted -> go bytes) (parse : bytes -> go Interpreted) (r : Interpreted) : Prop :=
  exists b, json r = Ret b /\ 0 ∉ b /\ parse b = Ret r.

Lemma write_rounds_records json parse rs : Forall (fun r => json_ok json parse (sorted_round r)) rs -> forall data,
  exists out, write_rounds json rs (MkResultsFile false data) = Ret (MkResultsFile false (data ++ out)) /\
    mapM parse (records [] out) = Ret (sorted_round <$> rs).
Proof.
  induction 1 as [|r rs (b & Hb & Hz & Hp) _ IH]; intros data; [exists []; by rewrite app_nil_r|]. cbn [write_rounds].
  unfold interpreted_cb. cbn [rf_closed]. fold (sorted_round r). rewrite Hb. cbn [mbind go_bind rf_data].
  destruct (IH (data ++ b ++ [0; 10])) as (out & -> & Hr). exists (b ++ [0; 10] ++ out).
  split; [by rewrite <-!app_assoc|]. rewrite records_app by done. cbn. rewrite Hp. cbn. cbn in Hr. by rewrite Hr.
Qed.

(** The file that [interpret] writes holds every round it was called with, in
    order, and reading it back gives these rounds with the same blocks, in the
    order of their nodes; nothing is written once the file is closed. *)
Theorem interpreted_file_reads_back json parse rs : Forall (fun r => json_ok json parse (sorted_round r)) rs ->
  exists f, write_rounds json rs (MkResultsFile false []) = Ret f /\
    mapM parse (records [] (rf_data f)) = Ret (sorted_round <$> rs) /\
    Forall (fun r => in_Blocks (sorted_round r) ≡ₚ in_Blocks r /\ StronglySorted node_le (in_Blocks (sorted_round r))) rs /\
    write_rounds json rs (MkResultsFile true (rf_data f)) = Ret (MkResultsFile true (rf_data f)).
Proof.
  intros Hj. destruct (write_rounds_records json parse rs Hj []) as (out & Ho & Hr).
  exists (MkResultsFile false out). split_and!; [done|done| |].
  - apply Forall_forall. intros r _. split; [apply merge_sort_Permutation|]. apply StronglySorted_merge_sort.
    + intros x y z. unfold node_le. lia.
    + intros x y. unfold node_le. lia.
  - cbn [rf_data]. clear. induction rs as [|r rs IH]; [done|]. cbn [write_rounds interpreted_cb rf_closed]. apply IH.
Qed.

(** ** [check] and [sbac add] *)

Section check.
Context (parse_tx : bytes -> go Api.Transaction).

(** With [--tycheck-only], the command prints [true] exactly for the
    transactions that are well formed and type correct, and ends the process for
    the others. *)
Lemma typecheck_only_prints name path d b tx : name <> [] -> path <> [] ->
  ReadFile path d = Ret b -> parse_tx b = Ret tx ->
  let m := cmdCheck parse_tx true path [name] d in
  (m = ([PrintOut (str "true" ++ [10])], Ret tt) <-> exists stx, ToSBAC Validate tx = Ret stx /\ TypeCheck stx = Ret tt) /\
  (m.2 <> Ret tt -> ended m.1).
Proof.
  intros Hn Hp Hf Hx. cbv zeta. unfold cmdCheck, getNetworkName. rewrite decide_False by done. cbn [rn_bind rn_ret].
  rewrite decide_False by done. rewrite Hf. cbn [or_quit rn_bind rn_ret]. rewrite Hx. cbn [or_quit rn_bind rn_ret].
  unfold typeCheckOnly. pose proof (ToSBAC_valid tx) as Hv.
  destruct (ToSBAC Validate tx) as [stx|e|]; cbn [or_quit rn_bind rn_ret quit].
  - pose proof (TypeCheck_no_crash stx). destruct (TypeCheck stx) as [[]|e|] eqn:Et; cbn; [|split; [|by intros; left]|done].
    + split; [|done]. split; [|done]. intros _. by exists stx.
    + split; [done|]. intros (? & [= <-] & ?). congruence.
  - cbn. split; [|by intros; left]. split; [done|]. by intros (? & ? & _).
  - done.
Qed.

(** Without it, the command prints [false] for every transaction. *)
Lemma full_check_prints_false name path d b tx : name <> [] -> path <> [] ->
  ReadFile path d = Ret b -> parse_tx b = Ret tx ->
  cmdCheck parse_tx false path [name] d = ([PrintOut (str "false" ++ [10])], Ret tt).
Proof.
  intros Hn Hp Hf Hx. unfold cmdCheck, getNetworkName. rewrite decide_False by done. cbn [rn_bind rn_ret].
  rewrite decide_False by done. rewrite Hf. cbn [or_quit rn_bind rn_ret]. by rewrite Hx.
Qed.

(** [sbac add] prints an empty list for every transaction that it can read, a
    transaction that is not valid among them, and calls nothing that sends it. *)
Lemma sbac_add_sends_nothing o d b tx : so_payloadPath o <> [] -> ReadFile (so_payloadPath o) d = Ret b -> parse_tx b = Ret tx ->
  sbac_add parse_tx o d = ([PrintOut (str "[]" ++ [10])], Ret tt).
Proof.
  intros Hp Hf Hx. unfold sbac_add. rewrite decide_False by done. rewrite Hf. cbn [or_quit rn_bind rn_ret]. rewrite Hx.
  cbn [or_quit rn_bind rn_ret]. pose proof (ToSBAC_valid tx) as Hv. by destruct (ToSBAC Validate tx).
Qed.
End check.

(** * The commands on a network of two nodes

    Instances of the theorems about the commands and about the HTTP interface. *)

(** ** A node of the network of [InitRun] *)

#[local] Existing Instance ex_keys_proto.
#[local] Existing Instance ex_keys_ok.
#[local] Existing Instance ex_node_proto.
#[local] Existing Instance ex_node_ok.
#[local] Existing Instance ex_network_proto.
#[local] Existing Instance ex_network_ok.
#[local] Existing Instance ex_contracts_proto.
#[local] Existing Instance ex_contracts_ok.

Definition ex_cmd_env : cmd_env := MkCmdEnv ex_env (fun _ => true) (fun p => p) true (fun _ => true) true.
Definition ex_run : runOpts := MkRunOpts (str "/root/.chainspace") (str "info") [] [] [] [] false false.

Definition ex_load : loadOpts := MkLoadOpts (str "/root/.chainspace") [] 10000 0 (S754_finite false 1 (-1)) 1000 [] 100 (S754_zero false).
Definition ex_test : testOpts := MkTestOpts (str "/root/.chainspace") [] ex_name (str "/tmp") 2.

(** After [chainspace init testnet], [chainspace run testnet 2 --console-log info]
    and the load generators start the second node. *)
Lemma init_then_run_witness : exists srv kp top,
  returns (cmdRun ex_sha ex_Append ex_cmd_env ex_run [ex_name; fmt_d 2] ex_disk) (Some (srv, kp, top)) /\
  kp_pub kp = replicate 32 2 /\ is_Some (SeedPublicKeys top !! 1).
Proof.
  destruct (init_then_run ex_creatable ex_GenerateKey ex_certs ex_sha ex_Append ex_Sign ex_Verify ex_opts ex_name
    (Ret []) (MkDisk ∅ ∅) ex_disk ex_cmd_env ex_run ex_load ex_test 2 ex_init ex_libraries ex_plain ltac:(done) ex_sizes ltac:(cbn; lia))
    as (([[srv kp] top] & [Hk Hs] & Hr) & _); try reflexivity.
  - split_and!; [exact ex_permissive|done|done].
  - split_and!; [by left|by right|done].
  - split_and!; [by vm_compute|by vm_compute|cbn; lia].
  - exists srv, kp, top. split; [exact Hr|]. split; [by injection Hk as <- _|]. apply Hs. cbn. lia.
Defined.

(** ** A checked transaction *)

(** "AAAA" stands for three zero bytes. *)
Definition ex_version : bytes := str "AAAA".
Definition ex_api_tx : Api.Transaction :=
  Api.MkTransaction {[ex_version := [7]]} ∅
    [Api.MkTrace (str "c") [] [ex_version] [] [MkOutputObject [] [4]] [] (str "p") []].
Definition ex_checkers : checkersMap := {[str "c" := {[str "p" := MkChecker (str "c") (str "p") (fun _ _ _ _ _ _ => false)]}]}.
#[local] Instance ex_tx_proto : Proto Transaction := {| Marshal := fun _ => Ret [1]; Unmarshal := fun _ => Fail "no" |}.

(** A checker that refuses the transaction: the answer is signed as well. *)
Lemma check_request_spec_witness : exists b, ctl_Check ex_checkers (fun d => d) 3 (Ret ex_api_tx) = Ret (StatusOK, b) /\
  b = CheckResponseBody (MkCheckTransactionResponse 3 false (EncodeToString [1])).
Proof.
  destruct (check_request_spec ex_checkers (fun d => d) 3 ex_api_tx) as (status & b & Hc & _ & Hs & _); [done|].
  assert (status = StatusOK) as -> by (by vm_compute in Hc; injection Hc).
  exists b. split; [exact Hc|]. destruct (proj1 Hs eq_refl) as (_ & stx & ok & tb & Ht & Hk & Hm & ->).
  assert (ok = false) as ->.
  { assert (Check ex_checkers (match ToSBAC Validate ex_api_tx with Ret t => t | _ => MkTransaction [] end) = Ret false)
      as Hf by (by vm_compute). rewrite Ht, Hk in Hf. by injection Hf. }
  by injection Hm as <-.
Defined.

(** ** The file of interpreted rounds *)

Definition ex_round (r : uint64) : Interpreted := MkInterpreted [MkBlockID [5] 2 r; MkBlockID [6] 1 r] 1 r.
Definition ex_json (r : Interpreted) : go bytes := Ret [48 + in_Round r].
Definition ex_parse (b : bytes) : go Interpreted :=
  match b with [c] => Ret (sorted_round (ex_round (c - 48))) | _ => Fail "not JSON" end.

Lemma interpreted_file_reads_back_witness : exists f,
  write_rounds ex_json [ex_round 1; ex_round 2] (MkResultsFile false []) = Ret f /\ rf_data f = [49; 0; 10; 50; 0; 10] /\
  mapM ex_parse (records [] (rf_data f)) = Ret [sorted_round (ex_round 1); sorted_round (ex_round 2)].
Proof.
  destruct (interpreted_file_reads_back ex_json ex_parse [ex_round 1; ex_round 2]) as (f & Hw & Hr & _).
  - repeat constructor; eexists; (split; [reflexivity|]); split; [|by vm_compute| |by vm_compute]; vm_compute; set_solver by lia.
  - exists f. split; [exact Hw|]. split; [|exact Hr]. by vm_compute in Hw; injection Hw as <-.
Defined.
